(** * The treason rules engine ([game.js]): a shallow embedding

    [createGame] builds one closure per match.  Its captured variables
    ([state], [players], [allows], [proxies], [deck], the history counters and
    the seeded generator [rand]) become the fields of the record [Game]; every
    function of the closure becomes a computation in a state-and-exception
    monad over [Game], so that a [throw] keeps whatever the function had
    already written, exactly as in the source.

    Left out, because they are external collaborators that never feed back
    into the rules state: [gameTracker], [gameStats] / [dataAccess], the
    [logger], [debug], [game.emit('end')] and [sendChatMessage].  The only
    trace they leave here is the dereference [players[i].playerId], which
    raises a [TypeError] when the connection slot is null. *)

From Stdlib Require Import ZArith String List Bool Lia.
From stdpp Require Import base list strings pretty.
Import ListNotations.
Open Scope string_scope.
Open Scope list_scope.
Open Scope nat_scope.

(** ** JavaScript values *)

(** A number-valued field that may also be absent or null (seat indices in
    the turn state and in command payloads). *)
Inductive jsnum := JUndefined | JNull | JNum (z : Z).

(** A role is a string or [undefined] ([None]): [deck.pop()] on an empty
    array and [influence[rand(0)]] both give [undefined]. *)
Definition jsrole := option string.

Definition idx (n : nat) : jsnum := JNum (Z.of_nat n).

(** [a == b] on such values: [undefined == null], numbers by value. *)
Definition jsnum_eqb (a b : jsnum) : bool :=
  match a, b with
  | JNum x, JNum y => (x =? y)%Z
  | JNum _, _ | _, JNum _ => false
  | _, _ => true
  end.

Definition jsrole_eqb (a b : jsrole) : bool :=
  match a, b with
  | Some x, Some y => String.eqb x y
  | None, None => true
  | _, _ => false
  end.

(** [array[i]] for a possibly absent, possibly negative index. *)
Definition at_js {A} (l : list A) (i : jsnum) : option A :=
  match i with
  | JNum z => if (0 <=? z)%Z then l !! Z.to_nat z else None
  | _ => None
  end.

(** [format('%d', i)] and [format('%s', role)]. *)
Definition show_num (i : jsnum) : string :=
  match i with
  | JNum z => pretty z
  | _ => "NaN"
  end.

Definition show_role (r : jsrole) : string :=
  match r with
  | Some s => s
  | None => "undefined"
  end.

Definition braces (i : jsnum) : string := "{" +:+ show_num i +:+ "}".

(** Truthiness of an optional string ([undefined] and [''] are falsy). *)
Definition truthy (o : option string) : bool :=
  match o with
  | Some s => negb (String.eqb s "")
  | None => false
  end.

(** [array.pop()]: removes and returns the last element. *)
Definition pop {A} (l : list A) : option A * list A :=
  (last l, removelast l).

(** The first index whose element satisfies [f] (the shape of the
    [for (i = 0; ...) if (...) return i] loops), and [array.indexOf(x)]. *)
Fixpoint find_index {A} (f : A -> bool) (l : list A) : option nat :=
  match l with
  | [] => None
  | y :: l' => if f y then Some 0 else option_map S (find_index f l')
  end.

Definition indexOf {A} (eqb : A -> A -> bool) (x : A) (l : list A) : option nat :=
  find_index (fun y => eqb y x) l.

(** ** The data model *)

(** The constants of [shared.states] (the module is not part of the engine
    file; only their being pairwise distinct matters), plus the literal
    ['destroyed']. *)
Inductive StateName :=
| WAITING_FOR_PLAYERS | START_OF_TURN | ACTION_RESPONSE | FINAL_ACTION_RESPONSE
| BLOCK_RESPONSE | REVEAL_INFLUENCE | EXCHANGE | INTERROGATE | GAME_WON
| DESTROYED.

Definition StateName_eqb (a b : StateName) : bool :=
  match a, b with
  | WAITING_FOR_PLAYERS, WAITING_FOR_PLAYERS
  | START_OF_TURN, START_OF_TURN
  | ACTION_RESPONSE, ACTION_RESPONSE
  | FINAL_ACTION_RESPONSE, FINAL_ACTION_RESPONSE
  | BLOCK_RESPONSE, BLOCK_RESPONSE
  | REVEAL_INFLUENCE, REVEAL_INFLUENCE
  | EXCHANGE, EXCHANGE
  | INTERROGATE, INTERROGATE
  | GAME_WON, GAME_WON
  | DESTROYED, DESTROYED => true
  | _, _ => false
  end.

Record Influence := mkInfluence {
  role : jsrole;
  revealed : bool
}.

Record PlayerState := mkPlayerState {
  pname : string;
  cash : Z;
  influenceCount : Z;
  influence : list Influence;
  isObserver : bool;
  ai : bool
}.

(** [state.state]: one object whose fields beyond [name] are present or
    absent depending on who built it; an absent field reads as [undefined].
    An absent [exchangeOptions] is the empty list. *)
Record TurnState := mkTurnState {
  name : StateName;
  playerIdx : jsnum;
  action : option string;
  target : jsnum;
  blockingRole : option string;
  message : option string;
  reason : option string;
  playerToReveal : jsnum;
  exchangeOptions : list jsrole;
  confession : jsrole
}.

(** [state.state.playerIdx], under a name that a function parameter called
    [playerIdx] does not hide. *)
Abbreviation turnPlayerIdx := playerIdx (only parsing).

Definition bare (n : StateName) : TurnState :=
  mkTurnState n JUndefined None JUndefined None None None JUndefined [] None.

(** An entry of [shared.actions]. [a_roles] is the role (or roles) that
    entitles a seat to the action, [a_blockedBy] the roles that may block. *)
Record Action := mkAction {
  a_cost : Z;
  a_gain : option Z;
  a_roles : option (list string);
  a_targeted : bool;
  a_blockedBy : option (list string)
}.

(** The participant object handed to [playerJoined]. *)
Record Connection := mkConnection {
  c_playerId : string;
  c_name : string;
  c_ai : bool
}.

(** A proxy object returned to the participant. [createGameProxy] rebinds
    the three closures of an existing proxy in place; [px_command = None] is
    the observer's [function () {}]. *)
Record Proxy := mkProxy {
  px_command : option nat;
  px_playerLeft : nat
}.

(** What [maskState] returns: the deep copy of [state] with [playerIdx]
    added ([gameId], [gameName] and [created] are constants of the match). *)
Record Masked := mkMasked {
  m_stateId : nat;
  m_players : list PlayerState;
  m_numPlayers : nat;
  m_roles : list string;
  m_state : TurnState;
  m_playerIdx : nat
}.

(** A delivery deferred with [setTimeout(..., 0)]. *)
Inductive Event :=
| StateChange (dest : nat) (m : Masked)
| HistoryEvent (dest : jsnum) (type : option string) (group : string) (msg : string).

Record Game := mkGame {
  stateId : nat;
  players : list PlayerState;       (* state.players *)
  numPlayers : nat;                 (* state.numPlayers *)
  roles : list string;              (* state.roles *)
  state : TurnState;                (* state.state *)
  conns : list (option Connection); (* the closure's [players] *)
  allows : list nat;                (* indices i with allows[i] === true *)
  proxies : list nat;               (* references into [handles] *)
  handles : list Proxy;             (* every proxy object ever created *)
  turnHistGroup : nat;
  adhocHistGroup : nat;
  deck : list jsrole;
  fixedDeck : bool;                 (* _test_fixedDeck *)
  rng : list nat;                   (* what the seeded generator will yield *)
  firstPlayer : option nat;         (* options.firstPlayer *)
  outbox : list Event
}.

Definition MIN_PLAYERS := 2.
Definition MAX_PLAYERS := 6.

(** [createGame(options)] before anybody joined. *)
Definition createGame (seed : list nat) (first : option nat) : Game :=
  mkGame 1 [] 0 [] (bare WAITING_FOR_PLAYERS) [] [] [] [] 1 1 [] false seed first [].

(** Field updates. *)
Definition set_stateId (f : nat -> nat) (g : Game) : Game :=
  mkGame (f (stateId g)) (players g) (numPlayers g) (roles g) (state g) (conns g)
    (allows g) (proxies g) (handles g) (turnHistGroup g) (adhocHistGroup g)
    (deck g) (fixedDeck g) (rng g) (firstPlayer g) (outbox g).
Definition set_players (f : list PlayerState -> list PlayerState) (g : Game) : Game :=
  mkGame (stateId g) (f (players g)) (numPlayers g) (roles g) (state g) (conns g)
    (allows g) (proxies g) (handles g) (turnHistGroup g) (adhocHistGroup g)
    (deck g) (fixedDeck g) (rng g) (firstPlayer g) (outbox g).
Definition set_numPlayers (f : nat -> nat) (g : Game) : Game :=
  mkGame (stateId g) (players g) (f (numPlayers g)) (roles g) (state g) (conns g)
    (allows g) (proxies g) (handles g) (turnHistGroup g) (adhocHistGroup g)
    (deck g) (fixedDeck g) (rng g) (firstPlayer g) (outbox g).
Definition set_roles (f : list string -> list string) (g : Game) : Game :=
  mkGame (stateId g) (players g) (numPlayers g) (f (roles g)) (state g) (conns g)
    (allows g) (proxies g) (handles g) (turnHistGroup g) (adhocHistGroup g)
    (deck g) (fixedDeck g) (rng g) (firstPlayer g) (outbox g).
Definition set_state (f : TurnState -> TurnState) (g : Game) : Game :=
  mkGame (stateId g) (players g) (numPlayers g) (roles g) (f (state g)) (conns g)
    (allows g) (proxies g) (handles g) (turnHistGroup g) (adhocHistGroup g)
    (deck g) (fixedDeck g) (rng g) (firstPlayer g) (outbox g).
Definition set_conns (f : list (option Connection) -> list (option Connection)) (g : Game) : Game :=
  mkGame (stateId g) (players g) (numPlayers g) (roles g) (state g) (f (conns g))
    (allows g) (proxies g) (handles g) (turnHistGroup g) (adhocHistGroup g)
    (deck g) (fixedDeck g) (rng g) (firstPlayer g) (outbox g).
Definition set_allows (f : list nat -> list nat) (g : Game) : Game :=
  mkGame (stateId g) (players g) (numPlayers g) (roles g) (state g) (conns g)
    (f (allows g)) (proxies g) (handles g) (turnHistGroup g) (adhocHistGroup g)
    (deck g) (fixedDeck g) (rng g) (firstPlayer g) (outbox g).
Definition set_proxies (f : list nat -> list nat) (g : Game) : Game :=
  mkGame (stateId g) (players g) (numPlayers g) (roles g) (state g) (conns g)
    (allows g) (f (proxies g)) (handles g) (turnHistGroup g) (adhocHistGroup g)
    (deck g) (fixedDeck g) (rng g) (firstPlayer g) (outbox g).
Definition set_handles (f : list Proxy -> list Proxy) (g : Game) : Game :=
  mkGame (stateId g) (players g) (numPlayers g) (roles g) (state g) (conns g)
    (allows g) (proxies g) (f (handles g)) (turnHistGroup g) (adhocHistGroup g)
    (deck g) (fixedDeck g) (rng g) (firstPlayer g) (outbox g).
Definition set_turnHistGroup (f : nat -> nat) (g : Game) : Game :=
  mkGame (stateId g) (players g) (numPlayers g) (roles g) (state g) (conns g)
    (allows g) (proxies g) (handles g) (f (turnHistGroup g)) (adhocHistGroup g)
    (deck g) (fixedDeck g) (rng g) (firstPlayer g) (outbox g).
Definition set_adhocHistGroup (f : nat -> nat) (g : Game) : Game :=
  mkGame (stateId g) (players g) (numPlayers g) (roles g) (state g) (conns g)
    (allows g) (proxies g) (handles g) (turnHistGroup g) (f (adhocHistGroup g))
    (deck g) (fixedDeck g) (rng g) (firstPlayer g) (outbox g).
Definition set_deck (f : list jsrole -> list jsrole) (g : Game) : Game :=
  mkGame (stateId g) (players g) (numPlayers g) (roles g) (state g) (conns g)
    (allows g) (proxies g) (handles g) (turnHistGroup g) (adhocHistGroup g)
    (f (deck g)) (fixedDeck g) (rng g) (firstPlayer g) (outbox g).
Definition set_rng (f : list nat -> list nat) (g : Game) : Game :=
  mkGame (stateId g) (players g) (numPlayers g) (roles g) (state g) (conns g)
    (allows g) (proxies g) (handles g) (turnHistGroup g) (adhocHistGroup g)
    (deck g) (fixedDeck g) (f (rng g)) (firstPlayer g) (outbox g).
Definition set_outbox (f : list Event -> list Event) (g : Game) : Game :=
  mkGame (stateId g) (players g) (numPlayers g) (roles g) (state g) (conns g)
    (allows g) (proxies g) (handles g) (turnHistGroup g) (adhocHistGroup g)
    (deck g) (fixedDeck g) (rng g) (firstPlayer g) (f (outbox g)).

(** ** The monad: state plus exceptions *)

Inductive Exn := GameException (msg : string) | TypeError.

Definition M (A : Type) : Type := Game -> (Exn + A) * Game.

Definition ret {A} (a : A) : M A := fun g => (inr a, g).
Definition throw {A} (e : Exn) : M A := fun g => (inl e, g).
Definition bind {A B} (m : M A) (k : A -> M B) : M B :=
  fun g => match m g with
           | (inr a, g') => k a g'
           | (inl e, g') => (inl e, g')
           end.
Definition get : M Game := fun g => (inr g, g).
Definition gets {A} (f : Game -> A) : M A := fun g => (inr (f g), g).
Definition modify (f : Game -> Game) : M unit := fun g => (inr tt, f g).

Notation "'do' x <- m ; k" := (bind m (fun x => k))
  (at level 10, x name, m at level 100, k at level 200).
Notation "'run' m ; k" := (bind m (fun _ => k))
  (at level 10, m at level 100, k at level 200).

(** [if (c) throw new GameException(msg)]. *)
Definition throwIf (c : bool) (msg : string) : M unit :=
  if c then throw (GameException msg) else ret tt.

(** Dereferencing a value that may be [undefined] or [null]. *)
Definition deref {A} (o : option A) : M A :=
  match o with
  | Some a => ret a
  | None => throw TypeError
  end.

Definition when (c : bool) (m : M unit) : M unit :=
  if c then m else ret tt.

(** Running a computation for its final state. *)
Definition exec {A} (m : M A) (g : Game) : Game := snd (m g).

(** ** Small helpers of the closure *)

Definition str_is (o : option string) (s : string) : bool :=
  match o with
  | Some x => String.eqb x s
  | None => false
  end.

(** [format(msg)] of a message that may be [undefined]. *)
Definition show_msg (o : option string) : string := default "undefined" o.

(** [rand(n)]: the next value of the seeded generator, below [n]. *)
Definition rand (n : nat) : M nat := fun g =>
  match rng g with
  | [] => (inr 0, g)
  | x :: r => (inr (match n with 0 => 0 | _ => x mod n end), set_rng (fun _ => r) g)
  end.

Definition setState (s : TurnState) : M unit := modify (set_state (fun _ => s)).

Definition curTurnHistGroup : M string :=
  gets (fun g => "t" +:+ pretty (turnHistGroup g)).

Definition nextAdhocHistGroup : M string :=
  run modify (set_adhocHistGroup S);
  gets (fun g => "a" +:+ pretty (adhocHistGroup g)).

Definition curAdhocHistGroup : M string :=
  gets (fun g => "a" +:+ pretty (adhocHistGroup g)).

Definition addHistoryAsync (dest : jsnum) (type : option string) (group msg : string) : M unit :=
  modify (set_outbox (fun o => o ++ [HistoryEvent dest type group msg])).

Definition addHistory (type : option string) (group msg : string) : M unit :=
  do n <- gets numPlayers;
  modify (set_outbox (fun o =>
    o ++ map (fun i => HistoryEvent (idx i) type group msg) (seq 0 n))).

Definition canJoin (g : Game) : bool :=
  StateName_eqb (name (state g)) WAITING_FOR_PLAYERS && (length (players g) <? MAX_PLAYERS).

Definition getInfluence (player : PlayerState) : list jsrole :=
  map role (List.filter (fun i => negb (revealed i)) (influence player)).

Definition indexOfInfluence (player : PlayerState) (r : jsrole) : option nat :=
  find_index (fun i => jsrole_eqb (role i) r && negb (revealed i)) (influence player).

(** [lodash.intersection(state.roles, lodash.flatten([roles]))[0]]. *)
Definition getGameRole (g : Game) (rs : list string) : jsrole :=
  head (List.filter (fun r => existsb (String.eqb r) rs) (roles g)).

(** *** Masking *)

Definition maskInfluence (i : Influence) : Influence :=
  if revealed i then i else mkInfluence (Some "unknown") (revealed i).

Definition maskPlayer (p : PlayerState) : PlayerState :=
  mkPlayerState (pname p) (cash p) (influenceCount p) (map maskInfluence (influence p))
                (isObserver p) (ai p).

Definition maskState (viewer : nat) (g : Game) : Masked :=
  let ps := imap (fun i p => if i =? viewer then p else maskPlayer p) (players g) in
  let st := state g in
  let st' :=
    if negb (jsnum_eqb (playerIdx st) (idx viewer))
    then mkTurnState (name st) (playerIdx st) (action st) (target st)
           (blockingRole st) (message st) (reason st) (playerToReveal st) [] None
    else st in
  mkMasked (stateId g) ps (numPlayers g) (roles g) st' viewer.

Definition emitState : M unit :=
  run modify (set_stateId S);
  do g <- get;
  modify (set_outbox (fun o =>
    o ++ map (fun i => StateChange i (maskState i g)) (seq 0 (length (players g))))).

(** *** Players and turn order *)

Definition updPlayer (i : nat) (f : PlayerState -> PlayerState) : M unit :=
  modify (set_players (alter f i)).

Definition withCash (f : Z -> Z) (p : PlayerState) : PlayerState :=
  mkPlayerState (pname p) (f (cash p)) (influenceCount p) (influence p) (isObserver p) (ai p).
Definition withCount (f : Z -> Z) (p : PlayerState) : PlayerState :=
  mkPlayerState (pname p) (cash p) (f (influenceCount p)) (influence p) (isObserver p) (ai p).
Definition withInfluence (f : list Influence -> list Influence) (p : PlayerState) : PlayerState :=
  mkPlayerState (pname p) (cash p) (influenceCount p) (f (influence p)) (isObserver p) (ai p).
Definition setRole (r : jsrole) (i : Influence) : Influence := mkInfluence r (revealed i).
Definition setRevealed (i : Influence) : Influence := mkInfluence (role i) true.

(** The index of a seat that is known to exist, as a list position. *)
Definition seat (i : jsnum) : nat :=
  match i with
  | JNum z => Z.to_nat z
  | _ => 0
  end.

(** [state.players[i]] followed by a property access: a [TypeError] when
    there is no such seat. *)
Definition playerAt (i : jsnum) : M PlayerState :=
  do g <- get; deref (at_js (players g) i).

(** [players[i].playerId]. *)
Definition connAt (i : jsnum) : M Connection :=
  do g <- get; deref (mjoin (at_js (conns g) i)).

Definition onlyAiLeft (g : Game) : bool :=
  forallb (fun c => match c with Some c => c_ai c | None => true end) (conns g).

Definition destroyGame : M unit :=
  run modify (set_conns (fun _ => []));
  run modify (set_proxies (fun _ => []));
  setState (bare DESTROYED).

(** The loop of [checkForGameEnd]: [w] is [winnerIdx], [i] the index of the
    head of [ps]. *)
Fixpoint findWinner (ps : list PlayerState) (i : nat) (w : option nat) : option nat :=
  match ps with
  | [] => w
  | p :: ps' =>
      if (0 <? influenceCount p)%Z
      then match w with
           | None => findWinner ps' (S i) (Some i)
           | Some _ => None
           end
      else findWinner ps' (S i) w
  end.

Definition checkForGameEnd : M bool :=
  do g <- get;
  match findWinner (players g) 0 None with
  | Some winnerIdx =>
      run setState (mkTurnState GAME_WON (idx winnerIdx) None JUndefined None None None
                      JUndefined [] None);
      do _ <- connAt (idx winnerIdx);
      ret true
  | None => ret false
  end.

Definition afterPlayerDeath (i : jsnum) : M unit :=
  do _ <- connAt i;
  do grp <- nextAdhocHistGroup;
  run addHistory (Some "player-died") grp (braces i +:+ " suffered a humiliating defeat");
  do _ <- checkForGameEnd;
  ret tt.

(** The loop of [nextPlayerIdx], for [i = numPlayers - k .. numPlayers - 1]. *)
Fixpoint nextPlayerLoop (k : nat) (cur : jsnum) : M jsnum :=
  match k with
  | 0 => ret JNull
  | S k' =>
      do g <- get;
      let i := numPlayers g - k in
      let candidateIdx :=
        match cur with
        | JNum z => JNum (Z.rem (z + Z.of_nat i) (Z.of_nat (numPlayers g)))
        | JNull => JNum (Z.rem (Z.of_nat i) (Z.of_nat (numPlayers g)))
        | JUndefined => JUndefined
        end in
      do p <- playerAt candidateIdx;
      if (0 <? influenceCount p)%Z then ret candidateIdx else nextPlayerLoop k' cur
  end.

Definition nextPlayerIdx : M jsnum :=
  do g <- get;
  nextPlayerLoop (numPlayers g - 1) (playerIdx (state g)).

Definition nextTurn : M unit :=
  do g <- get;
  if negb (StateName_eqb (name (state g)) GAME_WON) then
    run modify (set_turnHistGroup S);
    do n <- nextPlayerIdx;
    setState (mkTurnState START_OF_TURN n None JUndefined None None None JUndefined [] None)
  else ret tt.

(** [revealFirstInfluence(state.players[i])], for an existing seat [i]. *)
Definition revealFirstInfluence (i : nat) : M jsrole :=
  do g <- get;
  match players g !! i with
  | Some p =>
      match find_index (fun inf => negb (revealed inf)) (influence p) with
      | Some j =>
          run updPlayer i (withInfluence (alter setRevealed j));
          run updPlayer i (withCount Z.pred);
          ret (mjoin (role <$> influence p !! j))
      | None => ret None
      end
  | None => throw TypeError
  end.

(** *** The deck *)

(** The [while (array.length)] loop of [shuffle]; [fuel] is the length of
    [array], which shrinks by one each round. *)
Fixpoint shuffleLoop (fuel : nat) (array shuffled : list jsrole) : M (list jsrole) :=
  match fuel with
  | 0 => ret shuffled
  | S fuel' =>
      do i <- rand (length array);
      match array !! i with
      | Some e => shuffleLoop fuel' (delete i array) (shuffled ++ [e])
      | None => ret shuffled
      end
  end.

Definition shuffle (array : list jsrole) : M (list jsrole) :=
  do g <- get;
  if fixedDeck g then ret array else shuffleLoop (length array) array [].

Definition buildDeck : M (list jsrole) :=
  do g <- get;
  let rs := map Some (roles g) in
  shuffle (rs ++ rs ++ rs).

(** [deck.pop()]. *)
Definition deckPop : M jsrole :=
  do g <- get;
  run modify (set_deck (fun d => snd (pop d)));
  ret (mjoin (fst (pop (deck g)))).

Definition swapRole (r : jsrole) : M jsrole :=
  run modify (set_deck (fun d => d ++ [r]));
  do g <- get;
  do d <- shuffle (deck g);
  run modify (set_deck (fun _ => d));
  deckPop.

Definition resetAllows (initiatingPlayerIdx : nat) : M unit :=
  modify (set_allows (fun _ => [initiatingPlayerIdx])).

Definition allowed (g : Game) (i : nat) : bool := existsb (Nat.eqb i) (allows g).

(** The loop of [everyoneAllows], for [i = numPlayers - k .. numPlayers - 1]. *)
Fixpoint everyoneAllowsLoop (k : nat) : M bool :=
  match k with
  | 0 => ret true
  | S k' =>
      do g <- get;
      let i := numPlayers g - k in
      do p <- playerAt (idx i);
      if (influenceCount p =? 0)%Z then everyoneAllowsLoop k'
      else if negb (allowed g i) then ret false
      else everyoneAllowsLoop k'
  end.

Definition everyoneAllows : M bool :=
  do g <- get; everyoneAllowsLoop (numPlayers g).

(** [arrayDifference(array, subarray)]; [None] is the [false] result. *)
Fixpoint arrayDifference (array subarray : list jsrole) : option (list jsrole) :=
  match subarray with
  | [] => Some array
  | x :: rest =>
      match indexOf jsrole_eqb x array with
      | Some i => arrayDifference (delete i array) rest
      | None => None
      end
  end.

(** ** Commands *)

(** The payload of a command. [cmd_roles = None] is an absent [roles]. *)
Record Payload := mkPayload {
  cmd_stateId : jsnum;
  cmd_command : string;
  cmd_gameType : option string;
  cmd_action : option string;
  cmd_target : jsnum;
  cmd_role : jsrole;
  cmd_blockingRole : option string;
  cmd_roles : option (list jsrole);
  cmd_forceExchange : bool
}.

(** What [playAction] reads of its second argument, which is either the
    payload or [state.state]. *)
Record ActionState := mkActionState {
  as_action : option string;
  as_target : jsnum;
  as_blockingRole : option string
}.

Definition ofPayload (c : Payload) : ActionState :=
  mkActionState (cmd_action c) (cmd_target c) (cmd_blockingRole c).
Definition ofState (s : TurnState) : ActionState :=
  mkActionState (action s) (target s) (blockingRole s).

Definition show_js (i : jsnum) : string :=
  match i with
  | JNum z => pretty z
  | JNull => "null"
  | JUndefined => "undefined"
  end.

Section Engine.

(** [shared.actions], [epithets.txt] and the participant object that
    [createAiPlayer] registers live outside the engine file. *)
Variable actions : string -> option Action.
Variable epithets : list string.
Variable aiPlayer : Connection.

Definition actionOf (a : option string) : option Action :=
  match a with
  | Some k => actions k
  | None => None
  end.

(** [playerName]: every retry makes the name longer, so it can collide with
    each taken name at most once; [fuel] bounds the retries. *)
Fixpoint playerNameLoop (fuel : nat) (nm : string) : M string :=
  let nm := if String.eqb nm "" then "Anonymous" else nm in
  do g <- get;
  if existsb (fun p => String.eqb (pname p) nm) (players g) then
    match fuel with
    | 0 => ret nm
    | S fuel' =>
        do r <- rand (length epithets);
        playerNameLoop fuel' (nm +:+ " " +:+ show_role (epithets !! r))
    end
  else ret nm.

Definition playerName (nm : string) : M string :=
  do g <- get; playerNameLoop (S (length (players g))) nm.

(** [createGameProxy(playerIdx, oldProxy)]: binds the closures of
    [oldProxy], or of a fresh object, to [playerIdx]. *)
Definition createGameProxy (playerIdx : nat) (oldProxy : option nat) : M nat :=
  match oldProxy with
  | Some h =>
      run modify (set_handles (<[h := mkProxy (Some playerIdx) playerIdx]>));
      ret h
  | None =>
      do h <- gets (fun g => length (handles g));
      run modify (set_handles (fun hs => hs ++ [mkProxy (Some playerIdx) playerIdx]));
      ret h
  end.

Definition notDealt : Influence := mkInfluence (Some "not dealt") false.

Definition playerJoined (player : Connection) : M nat :=
  do isObserver <- gets (fun g => negb (canJoin g));
  do nm <- playerName (c_name player);
  let playerState :=
    if isObserver
    then mkPlayerState nm 0 0 [] isObserver (c_ai player)
    else mkPlayerState nm 2 2 [notDealt; notDealt] isObserver (c_ai player) in
  do playerIdx <- gets (fun g => length (players g));
  run modify (set_players (fun ps => ps ++ [playerState]));
  run modify (set_conns (fun cs => cs ++ [Some player]));
  run modify (set_numPlayers S);
  do grp <- nextAdhocHistGroup;
  run addHistory (Some "player-joined") grp
        (nm +:+ " joined the game" +:+ (if isObserver then " as an observer" else ""));
  run emitState;
  do proxy <- createGameProxy playerIdx None;
  run when isObserver
        (modify (set_handles (alter (fun p => mkProxy None (px_playerLeft p)) proxy)));
  run modify (set_proxies (fun ps => ps ++ [proxy]));
  ret proxy.

(** Modelled from the spec: [createAiPlayer] belongs to the AI driver, which
    is not part of the engine file; the spec says the driver "receives the
    same handle a human would", so it joins the game like any participant. *)
Definition createAiPlayer : M unit :=
  do _ <- playerJoined aiPlayer; ret tt.

Definition revealState (reasonStr msg : string) (a : ActionState) (who : jsnum) : M unit :=
  do g <- get;
  setState (mkTurnState REVEAL_INFLUENCE (playerIdx (state g)) (as_action a) (as_target a)
              (as_blockingRole a) (Some msg) (Some reasonStr) who [] None).

(** [playAction(playerIdx, actionState)]: [true] means end of turn. *)
Definition playAction (playerIdx : jsnum) (a : ActionState) : M bool :=
  do player <- playerAt playerIdx;
  do act <- deref (actionOf (as_action a));
  run updPlayer (seat playerIdx) (withCash (fun c => c + default 0 (a_gain act))%Z);
  if str_is (as_action a) "assassinate" then
    let msg := braces playerIdx +:+ " assassinated " +:+ braces (as_target a) in
    do tgt <- playerAt (as_target a);
    if (influenceCount tgt =? 1)%Z then
      do revealedRole <- revealFirstInfluence (seat (as_target a));
      do grp <- curTurnHistGroup;
      run addHistory (Some "assassinate") grp
            (msg +:+ "; " +:+ braces (as_target a) +:+ " revealed " +:+ show_role revealedRole);
      run afterPlayerDeath (as_target a);
      ret true
    else if (1 <? influenceCount tgt)%Z then
      run revealState "assassinate" msg a (as_target a);
      ret false
    else ret true
  else if str_is (as_action a) "coup" then
    let msg := braces playerIdx +:+ " staged a coup on " +:+ braces (as_target a) in
    do tgt <- playerAt (as_target a);
    if (influenceCount tgt <=? 1)%Z then
      do revealedRole <- revealFirstInfluence (seat (as_target a));
      do grp <- curTurnHistGroup;
      run addHistory (Some "coup") grp
            (msg +:+ "; " +:+ braces (as_target a) +:+ " revealed " +:+ show_role revealedRole);
      run afterPlayerDeath (as_target a);
      ret true
    else
      run revealState "coup" msg a (as_target a);
      ret false
  else if str_is (as_action a) "steal" then
    do grp <- curTurnHistGroup;
    run addHistory (Some "steal") grp
          (braces playerIdx +:+ " stole from " +:+ braces (as_target a));
    do tgt <- playerAt (as_target a);
    if (2 <=? cash tgt)%Z then
      run updPlayer (seat (as_target a)) (withCash (fun c => c - 2)%Z);
      run updPlayer (seat playerIdx) (withCash (fun c => c + 2)%Z);
      ret true
    else
      run updPlayer (seat playerIdx) (withCash (fun c => c + cash tgt)%Z);
      run updPlayer (seat (as_target a)) (withCash (fun _ => 0%Z));
      ret true
  else if str_is (as_action a) "exchange" then
    do first <- deckPop;
    do g <- get;
    let own := default [] (getInfluence <$> at_js (players g) playerIdx) in
    do opts <-
      (if existsb (String.eqb "ambassador") (roles g)
       then (do second <- deckPop; ret (second :: first :: own))
       else ret (first :: own));
    run setState (mkTurnState EXCHANGE (turnPlayerIdx (state g)) (as_action a) JUndefined
                    None None None JUndefined opts None);
    ret false
  else if str_is (as_action a) "interrogate" then
    do tgt <- playerAt (as_target a);
    let infl := getInfluence tgt in
    do r <- rand (length infl);
    do g <- get;
    run setState (mkTurnState INTERROGATE (turnPlayerIdx (state g)) (as_action a)
                    (target (state g)) None None None JUndefined [] (mjoin (infl !! r)));
    ret false
  else
    do grp <- curTurnHistGroup;
    run addHistory (as_action a) grp
          (braces playerIdx +:+ " drew " +:+ show_msg (as_action a));
    ret true.

Definition afterSuccessfulChallenge : M bool :=
  do g <- get;
  if truthy (blockingRole (state g))
  then playAction (playerIdx (state g)) (ofState (state g))
  else ret true.

Definition afterIncorrectChallenge : M bool :=
  do g <- get;
  let st := state g in
  if truthy (blockingRole st) then ret true
  else
    do act <- deref (actionOf (action st));
    do finalChance <-
      match a_blockedBy act with
      | Some _ => do tgt <- playerAt (target st); ret (0 <? influenceCount tgt)%Z
      | None => ret false
      end;
    if finalChance then
      run setState (mkTurnState FINAL_ACTION_RESPONSE (playerIdx st) (action st) (target st)
                      None (message st) None JUndefined [] None);
      ret false
    else playAction (playerIdx st) (ofState st).

(** [allow(playerIdx)]: [true] means the state changed. *)
Definition allow (playerIdx : nat) : M bool :=
  do g <- get;
  let st := state g in
  if StateName_eqb (name st) BLOCK_RESPONSE then
    run throwIf (jsnum_eqb (target st) (idx playerIdx)) "Cannot allow your own block";
    run modify (set_allows (cons playerIdx));
    do all <- everyoneAllows;
    if all then
      do grp <- curTurnHistGroup;
      run addHistory (Some "block") grp
            (braces (target st) +:+ " blocked with " +:+ show_msg (blockingRole st));
      run nextTurn;
      ret true
    else ret false
  else if StateName_eqb (name st) ACTION_RESPONSE
       || StateName_eqb (name st) FINAL_ACTION_RESPONSE then
    run throwIf (jsnum_eqb (turnPlayerIdx st) (idx playerIdx)) "Cannot allow your own action";
    do go <-
      (if StateName_eqb (name st) FINAL_ACTION_RESPONSE then
         run throwIf (negb (jsnum_eqb (target st) (idx playerIdx)))
               "Only the targetted player can allow the action";
         ret true
       else
         run modify (set_allows (cons playerIdx));
         everyoneAllows);
    if go then
      do endOfTurn <- playAction (turnPlayerIdx st) (ofState st);
      run when endOfTurn nextTurn;
      ret true
    else ret false
  else throw (GameException "Incorrect state").

Definition challenge (playerIdx : nat) (challengedPlayerIdx : jsnum) (challegedRole : jsrole)
  : M unit :=
  do g <- get;
  let st := state g in
  match at_js (players g) challengedPlayerIdx with
  | None => throw (GameException "Cannot identify challenged player")
  | Some challengedPlayer =>
      do grp <- curTurnHistGroup;
      run (if truthy (blockingRole st)
           then addHistory (Some "block") grp (show_msg (message st))
           else addHistory (action st) grp (show_msg (message st)));
      match indexOfInfluence challengedPlayer challegedRole with
      | Some influenceIdx =>
          (* Player has role - challenge lost. *)
          let oldRole := mjoin (role <$> influence challengedPlayer !! influenceIdx) in
          do newRole <- swapRole oldRole;
          run updPlayer (seat challengedPlayerIdx)
                (withInfluence (alter (setRole newRole) influenceIdx));
          let msg := braces (idx playerIdx) +:+ " incorrectly challenged "
                     +:+ braces challengedPlayerIdx +:+ "; " +:+ braces challengedPlayerIdx
                     +:+ " exchanged " +:+ show_role oldRole +:+ " for a new role" in
          do player <- playerAt (idx playerIdx);
          if (influenceCount player <=? 1)%Z then
            do revealedRole <- revealFirstInfluence playerIdx;
            run addHistory (Some "incorrect-challenge") grp
                  (msg +:+ "; " +:+ braces (idx playerIdx) +:+ " revealed "
                   +:+ show_role revealedRole);
            do endOfTurn <- afterIncorrectChallenge;
            run afterPlayerDeath (idx playerIdx);
            when endOfTurn nextTurn
          else
            do g' <- get;
            let st' := state g' in
            setState (mkTurnState REVEAL_INFLUENCE (turnPlayerIdx st') (action st') (target st')
                        (blockingRole st') (Some msg) (Some "incorrect-challenge")
                        (idx playerIdx) [] None)
      | None =>
          (* Player does not have role - challenge won. *)
          let msg := braces (idx playerIdx) +:+ " successfully challenged "
                     +:+ braces challengedPlayerIdx in
          let wouldLoseTwoInfluences :=
            StateName_eqb (name st) BLOCK_RESPONSE && str_is (action st) "assassinate"
            && jsnum_eqb (target st) challengedPlayerIdx in
          if (influenceCount challengedPlayer <=? 1)%Z || wouldLoseTwoInfluences then
            do revealedRole <- revealFirstInfluence (seat challengedPlayerIdx);
            run addHistory (Some "successful-challenge") grp
                  (msg +:+ "; " +:+ braces challengedPlayerIdx +:+ " revealed "
                   +:+ show_role revealedRole);
            do cp <- playerAt challengedPlayerIdx;
            run when (influenceCount cp =? 0)%Z (afterPlayerDeath challengedPlayerIdx);
            do endOfTurn <- afterSuccessfulChallenge;
            when endOfTurn nextTurn
          else
            setState (mkTurnState REVEAL_INFLUENCE (turnPlayerIdx st) (action st) (target st)
                        (blockingRole st) (Some msg) (Some "successful-challenge")
                        challengedPlayerIdx [] None)
      end
  end.

(** The dealing loop of [start], for [i = numPlayers - k .. numPlayers - 1];
    returns [nonObservers]. *)
Fixpoint dealLoop (k : nat) (nonObservers : list nat) : M (list nat) :=
  match k with
  | 0 => ret nonObservers
  | S k' =>
      do g <- get;
      let i := numPlayers g - k in
      do player <- playerAt (idx i);
      if negb (isObserver player) then
        do _ <- deref (influence player !! 0);
        do r0 <- deckPop;
        run updPlayer i (withInfluence (alter (setRole r0) 0));
        do _ <- deref (influence player !! 1);
        do r1 <- deckPop;
        run updPlayer i (withInfluence (alter (setRole r1) 1));
        dealLoop k' (nonObservers ++ [i])
      else dealLoop k' nonObservers
  end.

Definition start (gameType : option string) : M unit :=
  do g <- get;
  run throwIf (negb (StateName_eqb (name (state g)) WAITING_FOR_PLAYERS)) "Incorrect state";
  if MIN_PLAYERS <=? numPlayers g then
    let variant := if str_is gameType "inquisitors" then "inquisitor" else "ambassador" in
    run modify (set_roles (fun _ => ["duke"; "captain"; "assassin"; "contessa"] ++ [variant]));
    do d <- buildDeck;
    run modify (set_deck (fun _ => d));
    do nonObservers <- dealLoop (numPlayers g) [];
    do first <-
      match firstPlayer g with
      | Some n => ret (idx n)
      | None =>
          do r <- rand (length nonObservers);
          ret (match nonObservers !! r with Some i => idx i | None => JUndefined end)
      end;
    run modify (set_turnHistGroup S);
    setState (mkTurnState START_OF_TURN first None JUndefined None None None JUndefined [] None)
  else ret tt.

(** The rewiring loop of [playerLeft], for [i = numPlayers - k .. numPlayers - 1]. *)
Fixpoint rewireLoop (k : nat) : M unit :=
  match k with
  | 0 => ret tt
  | S k' =>
      do g <- get;
      let i := numPlayers g - k in
      do _ <- createGameProxy i (proxies g !! i);
      rewireLoop k'
  end.

(** The reveal loop of [playerLeft]: the history lines for the slots of
    seat [playerIdx] that were still face down. *)
Definition revealedOnLeave (playerIdx : nat) (p : PlayerState) : list string :=
  map (fun i => braces (idx playerIdx) +:+ " revealed " +:+ show_role (role i))
      (List.filter (fun i => negb (revealed i)) (influence p)).

Fixpoint addHistoryEach (type : option string) (group : string) (msgs : list string) : M unit :=
  match msgs with
  | [] => ret tt
  | m :: rest => run addHistory type group m; addHistoryEach type group rest
  end.

Definition playerLeft (playerIdx : nat) (rejoined : bool) : M unit :=
  do g <- get;
  run throwIf (numPlayers g <=? playerIdx) "Unknown player disconnected";
  match players g !! playerIdx with
  | None => throw (GameException "Unknown player disconnected")
  | Some player =>
      do _ <- connAt (idx playerIdx);
      do historySuffix <-
        (if StateName_eqb (name (state g)) WAITING_FOR_PLAYERS || isObserver player then
           run modify (set_players (delete playerIdx));
           run modify (set_conns (delete playerIdx));
           run modify (set_proxies (delete playerIdx));
           run modify (set_numPlayers pred);
           run rewireLoop (numPlayers g - 1 - playerIdx);
           ret []
         else
           run modify (set_conns (<[playerIdx := None]>));
           if negb (StateName_eqb (name (state g)) GAME_WON) then
             run updPlayer playerIdx (withInfluence (map setRevealed));
             run updPlayer playerIdx (withCount (fun _ => 0%Z));
             do ended <- checkForGameEnd;
             run when (negb ended)
               (do g' <- get;
                let st := state g' in
                if jsnum_eqb (turnPlayerIdx st) (idx playerIdx) then nextTurn
                else if StateName_eqb (name st) REVEAL_INFLUENCE
                        && jsnum_eqb (playerToReveal st) (idx playerIdx) then nextTurn
                else if (StateName_eqb (name st) ACTION_RESPONSE
                         || StateName_eqb (name st) BLOCK_RESPONSE)
                        && negb (allowed g' playerIdx)
                     then (do _ <- allow playerIdx; ret tt)
                else ret tt);
             ret (revealedOnLeave playerIdx player)
           else ret []);
      do grp <- nextAdhocHistGroup;
      run addHistory (Some "player-left") grp
            (pname player +:+ " left the game" +:+ (if rejoined then " to play again" else ""));
      run addHistoryEach (Some "player-left") grp historySuffix;
      do g' <- get;
      run when (onlyAiLeft g') destroyGame;
      emitState
  end.

(** The loop of [removeAiPlayer], for [i = k .. 1]. *)
Fixpoint removeAiLoop (k : nat) : M unit :=
  match k with
  | 0 => ret tt
  | S k' =>
      do g <- get;
      match conns g !! k with
      | Some (Some c) => if c_ai c then playerLeft k false else removeAiLoop k'
      | _ => removeAiLoop k'
      end
  end.

Definition removeAiPlayer : M unit :=
  do g <- get; removeAiLoop (length (conns g) - 1).

(** *** The branches of [command]

    Each branch answers whether control reaches the [emitState()] that ends
    [command] ([false] for the two early [return]s). *)

Definition commandPlayAction (playerIdx : nat) (c : Payload) : M bool :=
  do g <- get;
  run throwIf (negb (StateName_eqb (name (state g)) START_OF_TURN)) "Incorrect state";
  run throwIf (negb (jsnum_eqb (turnPlayerIdx (state g)) (idx playerIdx))) "Not your turn";
  match actionOf (cmd_action c) with
  | None => throw (GameException "Unknown action")
  | Some act =>
      run throwIf (match a_roles act with
                   | Some rs => negb (truthy (getGameRole g rs))
                   | None => false
                   end) "Action not allowed in this game";
      do player <- playerAt (idx playerIdx);
      run throwIf ((10 <=? cash player)%Z && negb (str_is (cmd_action c) "coup"))
            "You must coup with >= 10 cash";
      run throwIf (cash player <? a_cost act)%Z "Not enough cash";
      run when (a_targeted act)
        (match cmd_target c with
         | JNum t =>
             run throwIf ((t <? 0)%Z || (Z.of_nat (numPlayers g) <=? t)%Z)
                   "Invalid target specified";
             do tgt <- playerAt (cmd_target c);
             throwIf (influenceCount tgt =? 0)%Z "Cannot target dead player"
         | _ => throw (GameException "No target specified")
         end);
      run updPlayer playerIdx (withCash (fun x => x - a_cost act)%Z);
      match a_roles act, a_blockedBy act with
      | None, None =>
          do endOfTurn <- playAction (idx playerIdx) (ofPayload c);
          run when endOfTurn nextTurn;
          ret true
      | _, _ =>
          let who := braces (idx playerIdx) in
          let whom := braces (cmd_target c) in
          let msg :=
            if str_is (cmd_action c) "steal" then who +:+ " attempted to steal from " +:+ whom
            else if str_is (cmd_action c) "assassinate"
                 then who +:+ " attempted to assassinate " +:+ whom
            else if str_is (cmd_action c) "exchange" then who +:+ " attempted to exchange"
            else if str_is (cmd_action c) "interrogate"
                 then who +:+ " attempted to interrogate " +:+ whom
            else who +:+ " attempted to draw " +:+ show_msg (cmd_action c) in
          run setState (mkTurnState ACTION_RESPONSE (idx playerIdx) (cmd_action c)
                          (cmd_target c) None (Some msg) None JUndefined [] None);
          run resetAllows playerIdx;
          ret true
      end
  end.

Definition commandChallenge (playerIdx : nat) (c : Payload) : M bool :=
  do player <- playerAt (idx playerIdx);
  run throwIf (influenceCount player =? 0)%Z "Dead players cannot challenge";
  do g <- get;
  let st := state g in
  if StateName_eqb (name st) ACTION_RESPONSE then
    run throwIf (jsnum_eqb (idx playerIdx) (turnPlayerIdx st)) "Cannot challenge your own action";
    match actionOf (action st) with
    | None => throw (GameException "Unknown action")
    | Some act =>
        match a_roles act with
        | None => throw (GameException "Action cannot be challenged")
        | Some rs =>
            run challenge playerIdx (turnPlayerIdx st) (getGameRole g rs);
            ret true
        end
    end
  else if StateName_eqb (name st) BLOCK_RESPONSE then
    run throwIf (jsnum_eqb (idx playerIdx) (target st)) "Cannot challenge your own block";
    run challenge playerIdx (target st) (blockingRole st);
    ret true
  else throw (GameException "Incorrect state").

Definition commandReveal (playerIdx : nat) (c : Payload) : M bool :=
  do g <- get;
  let st := state g in
  run throwIf (negb (StateName_eqb (name st) REVEAL_INFLUENCE)) "Incorrect state";
  run throwIf (negb (jsnum_eqb (playerToReveal st) (idx playerIdx)))
        "Not your turn to reveal an influence";
  do player <- playerAt (idx playerIdx);
  match indexOfInfluence player (cmd_role c) with
  | Some i =>
      run updPlayer playerIdx (withInfluence (alter setRevealed i));
      run updPlayer playerIdx (withCount Z.pred);
      do grp <- curTurnHistGroup;
      run addHistory (reason st) grp
            (show_msg (message st) +:+ "; " +:+ braces (idx playerIdx) +:+ " revealed "
             +:+ show_role (cmd_role c));
      run (if str_is (reason st) "incorrect-challenge" then
             do endOfTurn <- afterIncorrectChallenge; when endOfTurn nextTurn
           else if str_is (reason st) "successful-challenge" then
             do endOfTurn <- afterSuccessfulChallenge; when endOfTurn nextTurn
           else nextTurn);
      run emitState;
      ret false
  | None => throw (GameException "Could not reveal role")
  end.

Definition commandBlock (playerIdx : nat) (c : Payload) : M bool :=
  do player <- playerAt (idx playerIdx);
  run throwIf (influenceCount player =? 0)%Z "Dead players cannot block";
  do g <- get;
  let st := state g in
  run throwIf (negb (StateName_eqb (name st) ACTION_RESPONSE)
               && negb (StateName_eqb (name st) FINAL_ACTION_RESPONSE)) "Incorrect state";
  match actionOf (action st) with
  | None => throw (GameException "Unknown action")
  | Some act =>
      run throwIf (jsnum_eqb (idx playerIdx) (turnPlayerIdx st)) "Cannot block your own action";
      match a_blockedBy act with
      | None => throw (GameException "Action cannot be blocked")
      | Some blockers =>
          run throwIf (negb (truthy (cmd_blockingRole c))) "No blocking role specified";
          let r := default "" (cmd_blockingRole c) in
          run throwIf (negb (existsb (String.eqb r) (roles g))) "Role not valid in this game";
          run throwIf (negb (existsb (String.eqb r) blockers))
                "Action cannot be blocked by that role";
          do grp <- curTurnHistGroup;
          run when (StateName_eqb (name st) ACTION_RESPONSE)
                (addHistory (action st) grp (show_msg (message st)));
          run setState (mkTurnState BLOCK_RESPONSE (turnPlayerIdx st) (action st)
                          (idx playerIdx) (cmd_blockingRole c)
                          (Some (braces (idx playerIdx) +:+ " attempted to block with " +:+ r))
                          None JUndefined [] None);
          run resetAllows playerIdx;
          ret true
      end
  end.

Definition commandAllow (playerIdx : nat) (c : Payload) : M bool :=
  do player <- playerAt (idx playerIdx);
  run throwIf (influenceCount player =? 0)%Z "Dead players cannot allow actions";
  allow playerIdx.

(** The loop that hands the chosen roles to the unrevealed slots:
    [influence[i].role = command.roles.pop()]. *)
Fixpoint assignRoles (infl : list Influence) (chosen : list jsrole) : list Influence :=
  match infl with
  | [] => []
  | i :: rest =>
      if revealed i then i :: assignRoles rest chosen
      else setRole (mjoin (fst (pop chosen))) i :: assignRoles rest (snd (pop chosen))
  end.

Definition commandExchange (playerIdx : nat) (c : Payload) : M bool :=
  do g <- get;
  let st := state g in
  run throwIf (negb (StateName_eqb (name st) EXCHANGE)) "Incorrect state";
  run throwIf (negb (jsnum_eqb (turnPlayerIdx st) (idx playerIdx))) "Not your turn";
  match cmd_roles c with
  | None => throw (GameException "Must specify roles to exchange")
  | Some chosen =>
      do player <- playerAt (idx playerIdx);
      run throwIf (negb (Z.of_nat (length chosen) =? influenceCount player)%Z)
            "Wrong number of roles";
      match arrayDifference (exchangeOptions st) chosen with
      | None => throw (GameException "Invalid choice of roles")
      | Some unchosen =>
          run updPlayer playerIdx (withInfluence (fun infl => assignRoles infl chosen));
          do d <- shuffle (deck g ++ unchosen);
          run modify (set_deck (fun _ => d));
          do grp <- curTurnHistGroup;
          run addHistory (Some "exchange") grp (braces (idx playerIdx) +:+ " exchanged roles");
          run nextTurn;
          ret true
      end
  end.

Definition commandInterrogate (playerIdx : nat) (c : Payload) : M bool :=
  do g <- get;
  let st := state g in
  run throwIf (negb (StateName_eqb (name st) INTERROGATE)) "Incorrect state";
  run throwIf (negb (jsnum_eqb (turnPlayerIdx st) (idx playerIdx))) "Not your turn";
  do grp <- curTurnHistGroup;
  run addHistoryAsync (target st) (Some "interrogate") grp
        (braces (idx playerIdx) +:+ " saw your " +:+ show_role (confession st));
  run (if cmd_forceExchange c then
         do tgt <- playerAt (target st);
         match indexOfInfluence tgt (confession st) with
         | None => throw (GameException "Target does not have the confessed role")
         | Some i =>
             do newRole <- swapRole (confession st);
             run updPlayer (seat (target st)) (withInfluence (alter (setRole newRole) i));
             addHistory (Some "interrogate") grp
               (braces (idx playerIdx) +:+ " forced " +:+ braces (target st)
                +:+ " to exchange roles")
         end
       else
         addHistory (Some "interrogate") grp
           (braces (idx playerIdx) +:+ " allowed " +:+ braces (target st)
            +:+ " to keep the same roles"));
  run nextTurn;
  ret true.

Definition notWaiting : M unit :=
  do g <- get;
  throwIf (negb (StateName_eqb (name (state g)) WAITING_FOR_PLAYERS)) "Incorrect state".

(** The [if ... else if ...] chain of [command]. *)
Definition dispatch (playerIdx : nat) (c : Payload) : M bool :=
  let cmd := cmd_command c in
  if String.eqb cmd "start" then run start (cmd_gameType c); ret true
  else if String.eqb cmd "add-ai" then run notWaiting; run createAiPlayer; ret true
  else if String.eqb cmd "remove-ai" then run notWaiting; run removeAiPlayer; ret true
  else if String.eqb cmd "play-action" then commandPlayAction playerIdx c
  else if String.eqb cmd "challenge" then commandChallenge playerIdx c
  else if String.eqb cmd "reveal" then commandReveal playerIdx c
  else if String.eqb cmd "block" then commandBlock playerIdx c
  else if String.eqb cmd "allow" then commandAllow playerIdx c
  else if String.eqb cmd "exchange" then commandExchange playerIdx c
  else if String.eqb cmd "interrogate" then commandInterrogate playerIdx c
  else throw (GameException "Unknown command").

Definition command (playerIdx : nat) (c : Payload) : M unit :=
  do g <- get;
  match players g !! playerIdx with
  | None => throw (GameException "Unknown player")
  | Some _ =>
      run throwIf (negb (jsnum_eqb (cmd_stateId c) (idx (stateId g))))
            ("Stale state (" +:+ show_js (cmd_stateId c) +:+ "!=" +:+ pretty (stateId g) +:+ ")");
      do reachesEnd <- dispatch playerIdx c;
      when reachesEnd emitState
  end.

(** *** What a participant can do with its proxy *)

Definition proxyCommand (h : nat) (c : Payload) : M unit :=
  do g <- get;
  match handles g !! h with
  | Some (mkProxy (Some playerIdx) _) => command playerIdx c
  | _ => ret tt
  end.

Definition proxyPlayerLeft (h : nat) (rejoined : bool) : M unit :=
  do g <- get;
  match handles g !! h with
  | Some p => playerLeft (px_playerLeft p) rejoined
  | None => ret tt
  end.

(** *** Reachable games

    The engine is driven by three entry points: a participant joins, a seat
    sends a command, a seat leaves.  A command or a departure that throws
    still leaves the game in the state it had reached. *)
Inductive reachable : Game -> Prop :=
| reach_created (seed : list nat) (first : option nat) : reachable (createGame seed first)
| reach_joined (g : Game) (c : Connection) :
    reachable g -> reachable (exec (playerJoined c) g)
| reach_command (g : Game) (i : nat) (c : Payload) :
    reachable g -> reachable (exec (command i c) g)
| reach_left (g : Game) (i : nat) (rejoined : bool) :
    reachable g -> reachable (exec (playerLeft i rejoined) g).

(** The same, except that nobody leaves while an exchange offer is open. *)
Inductive orderly : Game -> Prop :=
| orderly_created (seed : list nat) (first : option nat) : orderly (createGame seed first)
| orderly_joined (g : Game) (c : Connection) :
    orderly g -> orderly (exec (playerJoined c) g)
| orderly_command (g : Game) (i : nat) (c : Payload) :
    orderly g -> orderly (exec (command i c) g)
| orderly_left (g : Game) (i : nat) (rejoined : bool) :
    orderly g -> name (state g) <> EXCHANGE -> orderly (exec (playerLeft i rejoined) g).

(** *** Counting cards *)

(** The game has started once [start] has fixed the roles in play. *)
Definition started (g : Game) : Prop := roles g <> [].

Definition unrevealedCount (p : PlayerState) : nat := length (getInfluence p).

(** Unrevealed influence across all seats. *)
Definition unrevealedInfluence (g : Game) : nat :=
  list_sum (map unrevealedCount (players g)).

(** All influence slots across all seats, face up or face down. *)
Definition influenceSlots (g : Game) : nat :=
  list_sum (map (fun p => length (influence p)) (players g)).

(** The cards of an open exchange offer. *)
Definition offerCards (g : Game) : nat := length (exchangeOptions (state g)).

(** The cards of an open exchange offer that came from the deck: the offer
    without the copies of the actor's own unrevealed influence. *)
Definition drawnCards (g : Game) : nat :=
  match name (state g) with
  | EXCHANGE =>
      offerCards g
      - default 0 (unrevealedCount <$> at_js (players g) (turnPlayerIdx (state g)))
  | _ => 0
  end.

End Engine.

(** ** A concrete rule table

    Modelled from the spec: the table [shared.actions] is not part of the
    engine file.  The spec gives its shape ("cash cost, optional cash gain,
    whether it is role-gated, whether it is targeted, and which roles may
    block it") and the rules it encodes: income, foreign aid and tax adjust
    cash; tax is claimed with the duke and cannot be blocked; assassinate
    costs 3 and is blocked by the contessa; steal, exchange and interrogate
    are role-gated.  The general theorems below hold for every table; this
    one is used to run the engine on concrete games. *)
Definition standardActions (k : string) : option Action :=
  if String.eqb k "coup" then Some (mkAction 7 None None true None)
  else if String.eqb k "income" then Some (mkAction 0 (Some 1%Z) None false None)
  else if String.eqb k "foreign-aid" then
    Some (mkAction 0 (Some 2%Z) None false (Some ["duke"]))
  else if String.eqb k "tax" then Some (mkAction 0 (Some 3%Z) (Some ["duke"]) false None)
  else if String.eqb k "assassinate" then
    Some (mkAction 3 None (Some ["assassin"]) true (Some ["contessa"]))
  else if String.eqb k "steal" then
    Some (mkAction 0 None (Some ["captain"]) true
            (Some ["captain"; "ambassador"; "inquisitor"]))
  else if String.eqb k "exchange" then
    Some (mkAction 0 None (Some ["ambassador"; "inquisitor"]) false None)
  else if String.eqb k "interrogate" then
    Some (mkAction 0 None (Some ["inquisitor"]) true None)
  else None.

Definition someEpithets : list string := ["the Bold"; "the Meek"].
Definition robot : Connection := mkConnection "ai-1" "Robot" true.
Definition human (n : string) : Connection := mkConnection n n false.

(** A payload with only [stateId] and [command] set. *)
Definition payload (sid : nat) (cmd : string) : Payload :=
  mkPayload (idx sid) cmd None None JUndefined None None None false.
Definition withAction (a : string) (t : jsnum) (c : Payload) : Payload :=
  mkPayload (cmd_stateId c) (cmd_command c) (cmd_gameType c) (Some a) t (cmd_role c)
            (cmd_blockingRole c) (cmd_roles c) (cmd_forceExchange c).
Definition withRole (r : string) (c : Payload) : Payload :=
  mkPayload (cmd_stateId c) (cmd_command c) (cmd_gameType c) (cmd_action c) (cmd_target c)
            (Some r) (cmd_blockingRole c) (cmd_roles c) (cmd_forceExchange c).
Definition withBlockingRole (r : string) (c : Payload) : Payload :=
  mkPayload (cmd_stateId c) (cmd_command c) (cmd_gameType c) (cmd_action c) (cmd_target c)
            (cmd_role c) (Some r) (cmd_roles c) (cmd_forceExchange c).
Definition withRoles (rs : list string) (c : Payload) : Payload :=
  mkPayload (cmd_stateId c) (cmd_command c) (cmd_gameType c) (cmd_action c) (cmd_target c)
            (cmd_role c) (cmd_blockingRole c) (Some (map Some rs)) (cmd_forceExchange c).


(** ** Concrete games

    Every game below is obtained by running the engine from [createGame];
    the seed is empty, so [rand] always answers 0 and [shuffle] leaves the
    order of the deck as it was built. *)

Definition join (c : Connection) (g : Game) : Game := exec (playerJoined someEpithets c) g.
Definition send (i : nat) (c : Payload) (g : Game) : Game :=
  exec (command standardActions someEpithets robot i c) g.
Definition proxySend (h : nat) (c : Payload) (g : Game) : Game :=
  exec (proxyCommand standardActions someEpithets robot h c) g.
Definition proxyLeave (h : nat) (g : Game) : Game :=
  exec (proxyPlayerLeft standardActions h false) g.

(** Two seats, seat 0 moves first; hands: seat 0 ambassador and contessa,
    seat 1 assassin and captain. *)
Definition lobby2 : Game := join (human "bob") (join (human "alice") (createGame [] (Some 0))).
Definition game2 : Game := send 0 (payload 3 "start") lobby2.

(** Seat 0 claims the exchange and seat 1 lets it pass: an offer is open. *)
Definition exchangeClaimed : Game :=
  send 0 (withAction "exchange" JUndefined (payload 4 "play-action")) game2.
Definition exchangeOpen : Game := send 1 (payload 5 "allow") exchangeClaimed.

(** Seat 0 keeps contessa and duke; then seat 1 claims tax without a duke,
    is challenged by seat 0 and turns its captain face up. *)
Definition exchangeDone : Game :=
  send 0 (withRoles ["contessa"; "duke"] (payload 6 "exchange")) exchangeOpen.
Definition taxClaimed : Game :=
  send 1 (withAction "tax" JUndefined (payload 7 "play-action")) exchangeDone.
Definition taxChallenged : Game := send 0 (payload 8 "challenge") taxClaimed.
Definition afterReveal : Game := send 1 (withRole "captain" (payload 9 "reveal")) taxChallenged.

(** Seat 0 saves up, pays for an assassination of seat 1, and seat 1 blocks
    with a contessa it does not hold. *)
Definition assassinationBlocked : Game :=
  send 1 (withBlockingRole "contessa" (payload 7 "block"))
    (send 0 (withAction "assassinate" (JNum 1) (payload 6 "play-action"))
       (send 1 (withAction "income" JUndefined (payload 5 "play-action"))
          (send 0 (withAction "income" JUndefined (payload 4 "play-action")) game2))).


(** Three seats, seat 1 moves first; hands: seat 0 ambassador and contessa,
    seat 1 assassin and captain, seat 2 duke and ambassador. *)
Definition lobby3 : Game :=
  join (human "carol") (join (human "bob") (join (human "alice") (createGame [] (Some 1)))).
Definition game3 : Game := send 0 (payload 4 "start") lobby3.

(** Seat 1 claims tax; both other seats have to answer. *)
Definition taxClaimed3 : Game :=
  send 1 (withAction "tax" JUndefined (payload 5 "play-action")) game3.

(** Seat 1 steals from seat 2 with its captain; seat 0 challenges, loses and
    reveals its contessa: seat 2 gets its last chance to block. *)
Definition finalResponse : Game :=
  send 0 (withRole "contessa" (payload 7 "reveal"))
    (send 0 (payload 6 "challenge")
       (send 1 (withAction "steal" (JNum 2) (payload 5 "play-action")) game3)).

(** Seat 2, the target, walks away during its last chance. *)
Definition targetGone : Game := proxyLeave 2 finalResponse.

(** A lobby with one seat. *)
Definition lobby1 : Game := join (human "alice") (createGame [] None).

(** A lobby with a human and an AI seat. *)
Definition lobbyWithAi : Game := join robot (join (human "alice") (createGame [] None)).

(** Seven participants join before the start: the seventh (proxy 6) is an
    observer.  Then the first seat leaves. *)
Definition lobby7 : Game :=
  join (human "g") (join (human "f") (join (human "e") (join (human "d")
    (join (human "c") (join (human "b") (join (human "a") (createGame [] (Some 1)))))))).
Definition lobby7Left : Game := proxyLeave 0 lobby7.

(** Two observers (proxies 2 and 3) join a running game; the first leaves. *)
Definition watched : Game := join (human "oscar") (join (human "olga") game2).
Definition watchedLeft : Game := proxyLeave 2 watched.

(** A seat with ten coins at the start of its turn. *)
Definition richTurn : Game :=
  mkGame 7 [mkPlayerState "alice" 10 1 [mkInfluence (Some "duke") false;
                                        mkInfluence (Some "captain") true] false false;
            mkPlayerState "bob" 2 1 [mkInfluence (Some "duke") false;
                                     mkInfluence (Some "assassin") true] false false]
    2 ["duke"; "captain"; "assassin"; "contessa"; "ambassador"]
    (mkTurnState START_OF_TURN (JNum 0) None JUndefined None None None JUndefined [] None)
    [Some (human "alice"); Some (human "bob")] [] [0; 1]
    [mkProxy (Some 0) 0; mkProxy (Some 1) 1] 3 3 [] false [] None [].

(** ** Predicates on computations *)

(** [wp m g Q]: running [m] from [g] ends, normally or with an exception,
    in a result and a game that satisfy [Q]. *)
Definition wp {A} (m : M A) (g : Game) (Q : Exn + A -> Game -> Prop) : Prop :=
  Q (fst (m g)) (snd (m g)).

(** [m] leaves the component [f] of the game as it was, however it ends. *)
Definition keeps {X A} (f : Game -> X) (m : M A) : Prop :=
  forall g, f (snd (m g)) = f g.

(** [m] leaves [stateId] alone when it throws and adds [d] to it when it
    returns. *)
Definition steps {A} (d : nat) (m : M A) : Prop :=
  forall g, match m g with
            | (inl _, g') => stateId g' = stateId g
            | (inr _, g') => stateId g' = stateId g + d
            end.

Definition nothrow {A} (m : M A) : Prop := forall g, exists a, fst (m g) = inr a.

(** When [m] returns, it answers [b]. *)
Definition answers {A} (b : A) (m : M A) : Prop :=
  forall g a, fst (m g) = inr a -> a = b.

(** After an [allow] by seat [i], other seats still have to answer: the
    game is not in the final response, where the target alone answers, and
    some other seat that holds influence has not allowed. *)
Definition awaited (g : Game) (i : nat) : Prop :=
  name (state g) <> FINAL_ACTION_RESPONSE
  /\ exists j p, j < numPlayers g /\ j <> i /\ players g !! j = Some p
                 /\ influenceCount p <> 0%Z /\ allowed g j = false.

(** How far a command of seat [i] that is accepted in the game [g] moves
    [stateId]. *)
Definition stateIdAfter (cmd : string) (i : nat) (g : Game) (after : nat) : Prop :=
  if String.eqb cmd "allow" then
    (awaited g i -> after = stateId g) /\ (~ awaited g i -> after = S (stateId g))
  else if String.eqb cmd "add-ai" then after = S (S (stateId g))
  else if String.eqb cmd "remove-ai" then
    after = S (stateId g) \/ after = S (S (stateId g))
  else after = S (stateId g).

(** A seat that [start] can deal to, and a lobby in which it can deal. *)
Definition dealable (p : PlayerState) : Prop :=
  isObserver p = false -> 2 <= length (influence p).

Definition lobbyReady (g : Game) : Prop :=
  numPlayers g <= length (players g) /\ Forall dealable (players g).

Definition nonObservers (g : Game) : nat :=
  length (List.filter (fun p => negb (isObserver p)) (players g)).

(** Every seat that still holds influence is connected. *)
Definition liveConnected (g : Game) : Prop :=
  forall j p, players g !! j = Some p -> (0 < influenceCount p)%Z ->
              exists cn, conns g !! j = Some (Some cn).

(** A seat index as [nextPlayerIdx] produces it: a seat, or [null]. *)
Definition seatOrNull (i : jsnum) : Prop := i = JNull \/ exists a, i = idx a.

(** The turn state names a seat (or nobody), or the game is over. *)
Definition turnKnown (s : TurnState) : Prop :=
  name s = GAME_WON \/ seatOrNull (playerIdx s).

(** [g'] has the seats of [g], untouched. *)
Definition sameTable (g g' : Game) : Prop :=
  players g' = players g /\ conns g' = conns g /\ numPlayers g' = numPlayers g
  /\ deck g' = deck g /\ roles g' = roles g.


(** ** The card invariant *)

(** A seat counts its face-down influence right, and holds two slots unless
    it is an observer. *)
Definition seatOk (p : PlayerState) : Prop :=
  influenceCount p = Z.of_nat (unrevealedCount p)
  /\ length (influence p) = (if isObserver p then 0 else 2).

Definition tableOk (g : Game) : Prop :=
  numPlayers g = length (players g)
  /\ Forall seatOk (players g)
  /\ nonObservers g <= MAX_PLAYERS.

(** The cards in hands (face up or face down) and in the deck. *)
Definition cardsInPlay (g : Game) : nat := influenceSlots g + length (deck g).

(** What a seat update may not change: the seat stays well formed, and it
    keeps its slots and its kind. *)
Definition seatKeeping (f : PlayerState -> PlayerState) : Prop :=
  forall p, (seatOk p -> seatOk (f p))
            /\ length (influence (f p)) = length (influence p)
            /\ isObserver (f p) = isObserver p.

(** A write that touches neither the table, the deck, the roles nor the
    turn state. *)
Definition neutral (h : Game -> Game) : Prop :=
  forall g, players (h g) = players g /\ numPlayers (h g) = numPlayers g
            /\ roles (h g) = roles g /\ state (h g) = state g /\ deck (h g) = deck g.

(** [m] writes nothing at all. *)
Definition reading {A} (m : M A) : Prop := forall g, snd (m g) = g.

(** [m] touches neither the table, the deck, the roles nor the turn state. *)
Definition idle {A} (m : M A) : Prop :=
  forall g, players (snd (m g)) = players g /\ numPlayers (snd (m g)) = numPlayers g
            /\ roles (snd (m g)) = roles g /\ state (snd (m g)) = state g
            /\ deck (snd (m g)) = deck g.

(** The game has been won, or it has been destroyed. *)
Definition gameOver (g : Game) : Prop :=
  name (state g) = GAME_WON \/ state g = bare DESTROYED.

(** [m] touches neither the table, the deck nor the roles, and the only
    thing it does to the turn state is to end the game. *)
Definition passive {A} (m : M A) : Prop :=
  forall g, players (snd (m g)) = players g /\ numPlayers (snd (m g)) = numPlayers g
            /\ roles (snd (m g)) = roles g /\ deck (snd (m g)) = deck g
            /\ (state (snd (m g)) = state g \/ gameOver (snd (m g))).

(** The game stays over whatever [m] does. *)
Definition staysOver {A} (m : M A) : Prop := forall g, gameOver g -> gameOver (snd (m g)).

(** [m] keeps the table well formed and the roles in play, and does not
    enter the lobby state. *)
Definition calm {A} (m : M A) : Prop :=
  forall g, (tableOk g -> tableOk (snd (m g)))
            /\ roles (snd (m g)) = roles g
            /\ (name (state g) <> WAITING_FOR_PLAYERS ->
                name (state (snd (m g))) <> WAITING_FOR_PLAYERS).

(** [m] is calm, moves no card between hands and deck, and opens no
    exchange offer. *)
Definition quiet {A} (m : M A) : Prop :=
  calm m
  /\ forall g, cardsInPlay (snd (m g)) = cardsInPlay g
               /\ (name (state g) <> EXCHANGE -> name (state (snd (m g))) <> EXCHANGE).

(** A started game with a well-formed table. *)
Definition sound (g : Game) : Prop :=
  tableOk g /\ length (roles g) = 5 /\ name (state g) <> WAITING_FOR_PLAYERS.

(** Between exchanges, all fifteen cards are in hands and deck. *)
Definition settled (g : Game) : Prop :=
  sound g /\ name (state g) <> EXCHANGE /\ cardsInPlay g = 15.

(** In general the cards drawn for an open exchange offer count as well. *)
Definition conserving (g : Game) : Prop :=
  sound g /\ cardsInPlay g + drawnCards g = 15.

(** ... as long as the game is not over. *)
Definition resolved (g : Game) : Prop :=
  sound g /\ (gameOver g \/ cardsInPlay g + drawnCards g = 15).

(** A step of a turn that answers whether the turn is over: it may leave an
    exchange offer open only when the turn is not over. *)
Definition turnStepAt (m : M bool) (g : Game) : Prop :=
  settled g ->
  match m g with
  | (inr true, g') => settled g'
  | (_, g') => conserving g'
  end.

(** Run between exchanges, [m] loses no card unless the game is over. *)
Definition fairAt {A} (m : M A) (g : Game) : Prop := settled g -> resolved (snd (m g)).

Definition fair {A} (m : M A) : Prop := forall g, fairAt m g.

(** The invariant of all orderly games: the table is well formed, and once
    the game has started no card is lost while it lasts. *)
Definition cardInvariant (g : Game) : Prop :=
  tableOk g /\ (roles g = [] \/ resolved g).

(** *** Two more concrete games *)

(** Three seats: seat 1 takes income, seat 2 claims the exchange and both
    other seats let it pass: an offer is open for seat 2.  Then seat 2
    leaves. *)
Definition exchangeOpen3 : Game :=
  send 1 (payload 7 "allow")
    (send 0 (payload 7 "allow")
       (send 2 (withAction "exchange" JUndefined (payload 6 "play-action"))
          (send 1 (withAction "income" JUndefined (payload 5 "play-action")) game3))).
Definition exchangeAbandoned : Game := exec (playerLeft standardActions 2 false) exchangeOpen3.

(** Two seats: seat 1 has lost its captain to a challenge of its tax claim;
    seat 0 claims the exchange with the ambassador it holds, and seat 1
    challenges with its last card. *)
Definition lastChallenge : Game :=
  send 0 (withAction "exchange" JUndefined (payload 8 "play-action"))
    (send 1 (withRole "captain" (payload 7 "reveal"))
       (send 0 (payload 6 "challenge")
          (send 1 (withAction "tax" JUndefined (payload 5 "play-action"))
             (send 0 (withAction "income" JUndefined (payload 4 "play-action")) game2)))).
Definition wonOverOffer : Game := send 1 (payload 9 "challenge") lastChallenge.

(** * Properties *)

(** ** More predicates on games *)

(** Seat [j] still holds influence. *)
Definition holdsInfluence (g : Game) (j : nat) : Prop :=
  exists p, players g !! j = Some p /\ (0 < influenceCount p)%Z.

(** Three seats in a running game; seat 2 has lost both its cards, and seat
    0 has claimed tax. *)
Definition taxWithDeadSeat : Game :=
  mkGame 9 [mkPlayerState "alice" 2 2 [mkInfluence (Some "duke") false;
                                       mkInfluence (Some "captain") false] false false;
            mkPlayerState "bob" 2 2 [mkInfluence (Some "duke") false;
                                     mkInfluence (Some "assassin") false] false false;
            mkPlayerState "carol" 2 0 [mkInfluence (Some "contessa") true;
                                       mkInfluence (Some "ambassador") true] false false]
    3 ["duke"; "captain"; "assassin"; "contessa"; "ambassador"]
    (mkTurnState ACTION_RESPONSE (JNum 0) (Some "tax") JUndefined None None None
       JUndefined [] None)
    [Some (human "alice"); Some (human "bob"); Some (human "carol")] [0] [0; 1; 2]
    [mkProxy (Some 0) 0; mkProxy (Some 1) 1; mkProxy (Some 2) 2] 4 3 [] false [] None [].

(** ** Names and coins *)

(** The name and the coins of every seat, in seat order. *)
Definition accounts (g : Game) : list (string * Z) :=
  (fun p => (pname p, cash p)) <$> players g.

(** A seat that is not in debt. *)
Definition solvent (p : PlayerState) : Prop := (0 <= cash p)%Z.

(** No action of the table has a negative gain. *)
Definition gainsOk (actions : string -> option Action) : Prop :=
  forall k act, actions k = Some act -> (0 <= default 0 (a_gain act))%Z.

(** No two seats share a name and, with such a table of actions, no seat is
    in debt. *)
Definition tidy (actions : string -> option Action) (g : Game) : Prop :=
  NoDup (pname <$> players g) /\ (gainsOk actions -> Forall solvent (players g)).

(** [m] keeps the game tidy, however it ends. *)
Definition upheld (actions : string -> option Action) {A} (m : M A) : Prop :=
  forall g, tidy actions g -> tidy actions (snd (m g)).

(** Games reached by runs in which every [play-action] that is sent names
    an entry of the table of actions.  (A name that the table does not list
    is outside what [actionOf] describes.) *)
Inductive listedPlay (actions : string -> option Action) (epithets : list string)
    (aiPlayer : Connection) : Game -> Prop :=
| listed_created (seed : list nat) (first : option nat) :
    listedPlay actions epithets aiPlayer (createGame seed first)
| listed_joined (g : Game) (c : Connection) :
    listedPlay actions epithets aiPlayer g ->
    listedPlay actions epithets aiPlayer (exec (playerJoined epithets c) g)
| listed_command (g : Game) (i : nat) (c : Payload) :
    listedPlay actions epithets aiPlayer g ->
    (cmd_command c = "play-action" -> is_Some (actionOf actions (cmd_action c))) ->
    listedPlay actions epithets aiPlayer (exec (command actions epithets aiPlayer i c) g)
| listed_left (g : Game) (i : nat) (rejoined : bool) :
    listedPlay actions epithets aiPlayer g ->
    listedPlay actions epithets aiPlayer (exec (playerLeft actions i rejoined) g).

(** ** The cards of the game *)

(** The roles on all influence cards of a list of seats, face up or face
    down, in seat order. *)
Definition cardsOf (ps : list PlayerState) : list jsrole :=
  concat ((fun p => role <$> influence p) <$> ps).

Definition handCards (g : Game) : list jsrole := cardsOf (players g).

(** Three cards of each role: what [buildDeck] shuffles. *)
Definition threeOfEach (rs : list string) : list jsrole :=
  map Some rs ++ map Some rs ++ map Some rs.

(** A seat with seven coins at the start of its turn, facing a seat with
    two cards. *)
Definition coupReady : Game :=
  mkGame 7 [mkPlayerState "alice" 7 2 [mkInfluence (Some "duke") false;
                                       mkInfluence (Some "captain") false] false false;
            mkPlayerState "bob" 2 2 [mkInfluence (Some "duke") false;
                                     mkInfluence (Some "assassin") false] false false]
    2 ["duke"; "captain"; "assassin"; "contessa"; "ambassador"]
    (mkTurnState START_OF_TURN (JNum 0) None JUndefined None None None JUndefined [] None)
    [Some (human "alice"); Some (human "bob")] [] [0; 1]
    [mkProxy (Some 0) 0; mkProxy (Some 1) 1] 3 3 [] false [] None [].

(** Three seats; seat 1 claims to steal from seat 2, holding the captain. *)
Definition stealClaimed3 : Game :=
  send 1 (withAction "steal" (JNum 2) (payload 5 "play-action")) game3.

(** ** Reasoning about computations *)

Lemma bind_run {A B} (m : M A) (k : A -> M B) (g : Game) :
  bind m k g = match m g with
               | (inr a, g') => k a g'
               | (inl e, g') => (inl e, g')
               end.
Proof. reflexivity. Qed.

Lemma throwIf_true (msg : string) (g : Game) :
  throwIf true msg g = (inl (GameException msg), g).
Proof. reflexivity. Qed.

Lemma throwIf_false (msg : string) (g : Game) : throwIf false msg g = (inr tt, g).
Proof. reflexivity. Qed.

Lemma bind_get {B} (k : Game -> M B) (g : Game) : bind get k g = k g g.
Proof. reflexivity. Qed.

Lemma playerAt_run (j : jsnum) (g : Game) :
  playerAt j g = match at_js (players g) j with
                 | Some p => (inr p, g)
                 | None => (inl TypeError, g)
                 end.
Proof. unfold playerAt. rewrite bind_get. destruct (at_js _ _); reflexivity. Qed.

Lemma jsnum_eqb_eq (a : jsnum) (z : Z) : jsnum_eqb a (JNum z) = true <-> a = JNum z.
Proof.
  destruct a as [| |x]; simpl; split; try discriminate.
  - intros H. apply Z.eqb_eq in H. congruence.
  - intros [= ->]. apply Z.eqb_refl.
Qed.

Lemma jsnum_eqb_neq (a : jsnum) (n : nat) : a <> idx n -> jsnum_eqb a (idx n) = false.
Proof.
  intros H. destruct (jsnum_eqb a (idx n)) eqn:E; [|reflexivity].
  apply jsnum_eqb_eq in E. contradiction.
Qed.

Lemma jsnum_eqb_idx (i j : nat) : jsnum_eqb (idx i) (idx j) = (i =? j).
Proof.
  unfold idx. simpl. destruct (Nat.eqb_spec i j) as [->|H].
  - apply Z.eqb_refl.
  - apply Z.eqb_neq. lia.
Qed.

Lemma at_js_idx {A} (l : list A) (i : nat) : at_js l (idx i) = l !! i.
Proof.
  unfold at_js, idx. rewrite (proj2 (Z.leb_le 0 _) (Nat2Z.is_nonneg _)), Nat2Z.id. reflexivity.
Qed.

Lemma str_is_false (o : option string) (s : string) : o <> Some s -> str_is o s = false.
Proof.
  destruct o as [x|]; simpl; [|reflexivity].
  intros H. apply String.eqb_neq. congruence.
Qed.

(** Unfolds the primitive steps of a run and nothing else. *)
Ltac run_prims :=
  lazy beta iota zeta
       delta [wp bind ret throw get gets modify throwIf deref when fst snd
              setState updPlayer playerAt connAt deckPop resetAllows
              curTurnHistGroup nextAdhocHistGroup curAdhocHistGroup addHistory
              addHistoryAsync notWaiting actionOf pop];
  cbn [StateName_eqb negb andb orb].

(** Reading a field of a game that has just been written. *)
Ltac run_fields :=
  cbn [stateId players numPlayers roles state conns allows proxies handles turnHistGroup
       adhocHistGroup deck fixedDeck rng firstPlayer outbox
       set_stateId set_players set_numPlayers set_roles set_state set_conns set_allows
       set_proxies set_handles set_turnHistGroup set_adhocHistGroup set_deck set_rng
       set_outbox
       name playerIdx action target blockingRole message reason playerToReveal
       exchangeOptions confession
       as_action as_target as_blockingRole ofState ofPayload
       influenceCount influence cash isObserver withCash withCount withInfluence
       str_is String.eqb Ascii.eqb Bool.eqb
       Z.eqb Z.leb Z.ltb Z.compare Pos.compare Pos.compare_cont Pos.eqb].

Ltac go := repeat (progress (run_prims; run_fields)).

(** Splits a run at every test it meets. *)
Ltac run_cases :=
  repeat (run_prims;
          match goal with
          | |- context [if ?c then _ else _] => destruct c eqn:?
          | |- context [match ?o with Some _ => _ | None => _ end] => destruct o eqn:?
          end);
  run_prims.

Section Rejections.

Variable actions : string -> option Action.
Variable epithets : list string.
Variable aiPlayer : Connection.

(** A command of an existing seat that carries the current [stateId] runs
    its branch and then, unless the branch has returned early, broadcasts. *)
Lemma command_fresh (i : nat) (c : Payload) (g : Game) :
  is_Some (players g !! i) ->
  cmd_stateId c = idx (stateId g) ->
  command actions epithets aiPlayer i c g
  = (do reachesEnd <- dispatch actions epithets aiPlayer i c; when reachesEnd emitState) g.
Proof.
  intros [p Hp] Hsid. unfold command. rewrite bind_run. simpl.
  rewrite Hp, bind_run, Hsid, jsnum_eqb_idx, Nat.eqb_refl. reflexivity.
Qed.

(** A command is rejected at once, or it gets as far as its branch. *)
Lemma command_cases (i : nat) (c : Payload) (g : Game) :
  (exists e, command actions epithets aiPlayer i c g = (inl e, g))
  \/ is_Some (players g !! i) /\ cmd_stateId c = idx (stateId g)
     /\ command actions epithets aiPlayer i c g
        = (do reachesEnd <- dispatch actions epithets aiPlayer i c;
           when reachesEnd emitState) g.
Proof.
  destruct (players g !! i) as [p|] eqn:Hp.
  - destruct (jsnum_eqb (cmd_stateId c) (idx (stateId g))) eqn:Hs.
    + apply jsnum_eqb_eq in Hs. right. split; [eauto|]. split; [assumption|].
      apply command_fresh; [rewrite Hp; eauto|assumption].
    + left. unfold command. rewrite bind_run. simpl. rewrite Hp, bind_run, Hs.
      eexists; reflexivity.
  - left. unfold command. rewrite bind_run. simpl. rewrite Hp. eexists; reflexivity.
Qed.

(** C2. A command whose [stateId] is not the game's current [stateId] is
    rejected with an error, and the whole game (players, cash, influence,
    deck, turn state, [stateId], pending deliveries) is as before. *)
Theorem command_stale_rejected (playerIdx : nat) (c : Payload) (g : Game) :
  cmd_stateId c <> idx (stateId g) ->
  exists e, command actions epithets aiPlayer playerIdx c g = (inl e, g).
Proof.
  intros Hstale.
  destruct (command_cases playerIdx c g) as [H|(_ & H & _)]; [assumption|contradiction].
Qed.

(** C10. A seat holding 10 cash or more that sends [play-action] with any
    action other than [coup] is rejected with an error and nothing changes;
    so a [play-action] of such a seat that is accepted names [coup]. *)
Theorem must_coup_at_ten (playerIdx : nat) (c : Payload) (g : Game) (p : PlayerState) :
  players g !! playerIdx = Some p ->
  (10 <= cash p)%Z ->
  cmd_command c = "play-action" ->
  (cmd_action c <> Some "coup" ->
   exists e, command actions epithets aiPlayer playerIdx c g = (inl e, g))
  /\ (forall g', command actions epithets aiPlayer playerIdx c g = (inr tt, g') ->
                 cmd_action c = Some "coup").
Proof.
  intros Hp Hcash Hcmd.
  assert (Hrej : cmd_action c <> Some "coup" ->
                 exists e, command actions epithets aiPlayer playerIdx c g = (inl e, g)).
  { intros Hact.
    destruct (command_cases playerIdx c g) as [H|(_ & _ & ->)]; [assumption|].
    unfold dispatch. rewrite Hcmd. simpl String.eqb. cbv iota.
    unfold commandPlayAction.
    run_cases; try (eexists; reflexivity); exfalso;
      match goal with
      | H : at_js _ _ = Some _ |- _ => rewrite at_js_idx, Hp in H; injection H as <-
      end;
      rewrite ?(str_is_false _ _ Hact), ?(proj2 (Z.leb_le 10 (cash p)) Hcash) in *;
      discriminate. }
  split; [exact Hrej|].
  intros g' Hok.
  destruct (decide (cmd_action c = Some "coup")) as [|Hne]; [assumption|].
  destruct (Hrej Hne) as [e He]. congruence.
Qed.

End Rejections.

Lemma command_stale_rejected_witness :
  exists e, command standardActions someEpithets robot 0 (payload 3 "allow") game2
            = (inl e, game2).
Proof. apply command_stale_rejected. vm_compute. discriminate. Defined.

Lemma must_coup_at_ten_witness :
  exists e,
    command standardActions someEpithets robot 0
      (withAction "tax" JUndefined (payload 7 "play-action")) richTurn
    = (inl e, richTurn).
Proof.
  refine (proj1 (must_coup_at_ten standardActions someEpithets robot 0 _ richTurn
                   (mkPlayerState "alice" 10 1 [mkInfluence (Some "duke") false;
                                                mkInfluence (Some "captain") true] false false)
                   _ _ _) _).
  - reflexivity.
  - simpl. lia.
  - reflexivity.
  - discriminate.
Defined.

(** ** The engine at the concrete games *)

Lemma orderly_reachable actions epithets aiPlayer (g : Game) :
  orderly actions epithets aiPlayer g -> reachable actions epithets aiPlayer g.
Proof. induction 1; constructor; assumption. Qed.

Ltac orderly_run :=
  repeat match goal with
         | |- orderly _ _ _ (createGame _ _) => apply orderly_created
         | |- orderly _ _ _ (exec (playerJoined _ _) _) => apply orderly_joined
         | |- orderly _ _ _ (exec (command _ _ _ _ _) _) => apply orderly_command
         | |- orderly _ _ _ (exec (playerLeft _ _ _) _) =>
             apply orderly_left; [|vm_compute; discriminate]
         end.

(** C1, as stated, fails: with an exchange offer open the offer repeats the
    actor's own two cards (4 + 9 + 4 = 17), and once a card has been turned
    face up it is counted nowhere (3 + 11 + 0 = 14), while three times the
    five roles in play is 15. *)
Lemma card_total_counterexample :
  orderly standardActions someEpithets robot exchangeOpen
  /\ started exchangeOpen
  /\ unrevealedInfluence exchangeOpen + length (deck exchangeOpen) + offerCards exchangeOpen
     <> 3 * length (roles exchangeOpen)
  /\ orderly standardActions someEpithets robot afterReveal
  /\ started afterReveal
  /\ unrevealedInfluence afterReveal + length (deck afterReveal) + offerCards afterReveal
     <> 3 * length (roles afterReveal).
Proof.
  split; [|split; [|split; [|split; [|split]]]]; try (vm_compute; discriminate).
  - unfold exchangeOpen, exchangeClaimed, game2, lobby2, send, join. orderly_run.
  - unfold afterReveal, taxChallenged, taxClaimed, exchangeDone, exchangeOpen,
      exchangeClaimed, game2, lobby2, send, join. orderly_run.
Qed.

(** C3, as stated, fails: the first of two awaited [allow]s is accepted and
    leaves [stateId] where it was (nothing is broadcast). *)
Lemma allow_keeps_stateId_counterexample :
  reachable standardActions someEpithets robot taxClaimed3
  /\ fst (command standardActions someEpithets robot 0 (payload 6 "allow") taxClaimed3)
     = inr tt
  /\ stateId (send 0 (payload 6 "allow") taxClaimed3) = stateId taxClaimed3
  /\ outbox (send 0 (payload 6 "allow") taxClaimed3) = outbox taxClaimed3.
Proof.
  apply conj; [|repeat apply conj; vm_compute; reflexivity].
  apply orderly_reachable.
  unfold taxClaimed3, game3, lobby3, send, join. orderly_run.
Qed.


(** C5, as stated, fails: with a single seat in the lobby [start] raises no
    error; the game stays in the lobby, but [stateId] moves on and a
    snapshot is queued. *)
Lemma start_alone_counterexample :
  reachable standardActions someEpithets robot lobby1
  /\ name (state lobby1) = WAITING_FOR_PLAYERS
  /\ length (players lobby1) = 1
  /\ fst (command standardActions someEpithets robot 0 (payload 2 "start") lobby1) = inr tt
  /\ name (state (send 0 (payload 2 "start") lobby1)) = WAITING_FOR_PLAYERS
  /\ stateId (send 0 (payload 2 "start") lobby1) = S (stateId lobby1)
  /\ outbox (send 0 (payload 2 "start") lobby1)
     = outbox lobby1 ++ [StateChange 0 (maskState 0 (send 0 (payload 2 "start") lobby1))].
Proof.
  apply conj; [|repeat apply conj; vm_compute; reflexivity].
  apply orderly_reachable. unfold lobby1, join. orderly_run.
Qed.

(** C6 at the failing input: in [FINAL_ACTION_RESPONSE] with target seat 2,
    seat 0 is refused an [allow] but its [block] is accepted and opens a
    [BLOCK_RESPONSE] with seat 0 as the blocker. *)
Theorem final_response_block_by_other_seat :
  reachable standardActions someEpithets robot finalResponse
  /\ name (state finalResponse) = FINAL_ACTION_RESPONSE
  /\ target (state finalResponse) = JNum 2
  /\ command standardActions someEpithets robot 0 (payload 8 "allow") finalResponse
     = (inl (GameException "Only the targetted player can allow the action"), finalResponse)
  /\ fst (command standardActions someEpithets robot 0
            (withBlockingRole "captain" (payload 8 "block")) finalResponse) = inr tt
  /\ name (state (send 0 (withBlockingRole "captain" (payload 8 "block")) finalResponse))
     = BLOCK_RESPONSE
  /\ target (state (send 0 (withBlockingRole "captain" (payload 8 "block")) finalResponse))
     = JNum 0.
Proof.
  apply conj; [|repeat apply conj; vm_compute; reflexivity].
  apply orderly_reachable.
  unfold finalResponse, game3, lobby3, send, join. orderly_run.
Qed.

(** Once the target of a [FINAL_ACTION_RESPONSE] holds no influence, an
    [allow] from any seat is refused. *)
Lemma allow_refused_without_target actions epithets aiPlayer
      (g : Game) (t : nat) (p : PlayerState) (i : nat) (c : Payload) :
  name (state g) = FINAL_ACTION_RESPONSE ->
  target (state g) = idx t ->
  players g !! t = Some p ->
  influenceCount p = 0%Z ->
  cmd_command c = "allow" ->
  exists e, command actions epithets aiPlayer i c g = (inl e, g).
Proof.
  intros Hname Htarget Hp Hdead Hc.
  destruct (command_cases actions epithets aiPlayer i c g) as [H|([q Hq] & _ & ->)];
    [assumption|].
  unfold dispatch. rewrite Hc. simpl String.eqb. cbv iota.
  unfold commandAllow, allow. run_prims. rewrite at_js_idx, Hq. run_prims.
  destruct (influenceCount q =? 0)%Z eqn:Hlive; run_prims; [eexists; reflexivity|].
  rewrite Hname, Htarget, jsnum_eqb_idx. run_prims.
  destruct (jsnum_eqb (playerIdx (state g)) (idx i)); run_prims; [eexists; reflexivity|].
  destruct (Nat.eqb_spec t i) as [->|Hne]; run_prims; [|eexists; reflexivity].
  rewrite Hq in Hp. injection Hp as ->. rewrite Hdead in Hlive. discriminate.
Qed.

(** C8 at the failing input: the target of a [FINAL_ACTION_RESPONSE] leaves;
    the game stays in [FINAL_ACTION_RESPONSE] waiting for that seat, and an
    [allow] from any seat whatsoever is now refused. *)
Theorem final_response_target_leaves :
  reachable standardActions someEpithets robot targetGone
  /\ fst (proxyPlayerLeft standardActions 2 false finalResponse) = inr tt
  /\ name (state targetGone) = FINAL_ACTION_RESPONSE
  /\ target (state targetGone) = JNum 2
  /\ conns targetGone !! 2 = Some None
  /\ forall (i : nat) (c : Payload),
       cmd_command c = "allow" ->
       exists e, command standardActions someEpithets robot i c targetGone
                 = (inl e, targetGone).
Proof.
  apply conj; [|do 4 (apply conj; [vm_compute; reflexivity|])].
  - replace targetGone with (exec (playerLeft standardActions 2 false) finalResponse)
      by (vm_compute; reflexivity).
    apply reach_left, orderly_reachable.
    unfold finalResponse, game3, lobby3, send, join. orderly_run.
  - intros i c Hc.
    apply (allow_refused_without_target _ _ _ targetGone 2
             (mkPlayerState "carol" 2 0 [mkInfluence (Some "duke") true;
                                         mkInfluence (Some "ambassador") true] false false));
      try assumption; vm_compute; reflexivity.
Qed.

(** C9 at the failing input: the proxy of the observer who joined seventh
    is inert at first; once the first seat has left the lobby, the same
    proxy starts the game. *)
Theorem observer_proxy_rewired :
  reachable standardActions someEpithets robot lobby7Left
  /\ (players lobby7 !! 6 ≫= fun p => Some (isObserver p)) = Some true
  /\ (forall c, proxyCommand standardActions someEpithets robot 6 c lobby7 = (inr tt, lobby7))
  /\ handles lobby7Left !! 6 = Some (mkProxy (Some 5) 5)
  /\ (players lobby7Left !! 5 ≫= fun p => Some (isObserver p)) = Some true
  /\ fst (proxyCommand standardActions someEpithets robot 6 (payload 9 "start") lobby7Left)
     = inr tt
  /\ name (state (proxySend 6 (payload 9 "start") lobby7Left)) = START_OF_TURN
  /\ stateId (proxySend 6 (payload 9 "start") lobby7Left) = S (stateId lobby7Left)
  /\ fst (proxyCommand standardActions someEpithets robot 6 (payload 0 "allow") lobby7Left)
     = inl (GameException "Stale state (0!=9)").
Proof.
  apply conj; [|repeat apply conj; vm_compute; reflexivity].
  replace lobby7Left with (exec (playerLeft standardActions 0 false) lobby7)
    by (vm_compute; reflexivity).
  apply reach_left, orderly_reachable. unfold lobby7, join. orderly_run.
Qed.

(** ** Computations that leave a component of the game alone *)

Section Keeps.
Context {X : Type} (f : Game -> X).

Lemma keeps_ret {A} (a : A) : keeps f (ret a).
Proof. intros g. reflexivity. Qed.

Lemma keeps_throw {A} (e : Exn) : keeps f (@throw A e).
Proof. intros g. reflexivity. Qed.

Lemma keeps_get : keeps f get.
Proof. intros g. reflexivity. Qed.

Lemma keeps_gets {A} (h : Game -> A) : keeps f (gets h).
Proof. intros g. reflexivity. Qed.

Lemma keeps_modify (h : Game -> Game) : (forall g, f (h g) = f g) -> keeps f (modify h).
Proof. intros H g. apply H. Qed.

Lemma keeps_bind {A B} (m : M A) (k : A -> M B) :
  keeps f m -> (forall a, keeps f (k a)) -> keeps f (bind m k).
Proof.
  intros Hm Hk g. unfold bind. specialize (Hm g).
  destruct (m g) as [[e|a] g1]; simpl in *; [assumption|].
  rewrite Hk. assumption.
Qed.

Lemma keeps_throwIf (c : bool) (msg : string) : keeps f (throwIf c msg).
Proof. destruct c; intros g; reflexivity. Qed.

Lemma keeps_deref {A} (o : option A) : keeps f (deref o).
Proof. destruct o; intros g; reflexivity. Qed.

Lemma keeps_when (c : bool) (m : M unit) : keeps f m -> keeps f (when c m).
Proof. destruct c; [auto|intros _ g; reflexivity]. Qed.

End Keeps.

Create HintDb keeps.

Ltac keeps_step :=
  match goal with
  | |- keeps _ (bind _ _) => apply keeps_bind; [|intro]
  | |- keeps _ (ret _) => apply keeps_ret
  | |- keeps _ (throw _) => apply keeps_throw
  | |- keeps _ get => apply keeps_get
  | |- keeps _ (gets _) => apply keeps_gets
  | |- keeps _ (modify _) => apply keeps_modify; intro; reflexivity
  | |- keeps _ (throwIf _ _) => apply keeps_throwIf
  | |- keeps _ (deref _) => apply keeps_deref
  | |- keeps _ (when _ _) => apply keeps_when
  | |- keeps _ (if ?c then _ else _) => destruct c
  | |- keeps _ (match ?x with _ => _ end) => destruct x
  | |- keeps _ _ => solve [auto with keeps]
  end.

Ltac keeps_auto := cbv zeta; repeat (keeps_step; cbv zeta).

(** *** What leaves [stateId] alone: everything but [emitState] *)

Lemma rand_keeps_stateId n : keeps stateId (rand n).
Proof. intros g. unfold rand. destruct (rng g); reflexivity. Qed.
#[local] Hint Resolve rand_keeps_stateId : keeps.

Lemma setState_keeps_stateId s : keeps stateId (setState s).
Proof. unfold setState. keeps_auto. Qed.
#[local] Hint Resolve setState_keeps_stateId : keeps.

Lemma curTurnHistGroup_keeps_stateId : keeps stateId curTurnHistGroup.
Proof. unfold curTurnHistGroup. keeps_auto. Qed.
Lemma nextAdhocHistGroup_keeps_stateId : keeps stateId nextAdhocHistGroup.
Proof. unfold nextAdhocHistGroup. keeps_auto. Qed.
Lemma addHistoryAsync_keeps_stateId d t gr m : keeps stateId (addHistoryAsync d t gr m).
Proof. unfold addHistoryAsync. keeps_auto. Qed.
Lemma addHistory_keeps_stateId t gr m : keeps stateId (addHistory t gr m).
Proof. unfold addHistory. keeps_auto. Qed.
#[local] Hint Resolve curTurnHistGroup_keeps_stateId nextAdhocHistGroup_keeps_stateId
  addHistoryAsync_keeps_stateId addHistory_keeps_stateId : keeps.

Lemma updPlayer_keeps_stateId i h : keeps stateId (updPlayer i h).
Proof. unfold updPlayer. keeps_auto. Qed.
Lemma playerAt_keeps_stateId i : keeps stateId (playerAt i).
Proof. unfold playerAt. keeps_auto. Qed.
Lemma connAt_keeps_stateId i : keeps stateId (connAt i).
Proof. unfold connAt. keeps_auto. Qed.
#[local] Hint Resolve updPlayer_keeps_stateId playerAt_keeps_stateId connAt_keeps_stateId : keeps.

Lemma destroyGame_keeps_stateId : keeps stateId destroyGame.
Proof. unfold destroyGame. keeps_auto. Qed.
Lemma checkForGameEnd_keeps_stateId : keeps stateId checkForGameEnd.
Proof. unfold checkForGameEnd. keeps_auto. Qed.
#[local] Hint Resolve destroyGame_keeps_stateId checkForGameEnd_keeps_stateId : keeps.

Lemma afterPlayerDeath_keeps_stateId i : keeps stateId (afterPlayerDeath i).
Proof. unfold afterPlayerDeath. keeps_auto. Qed.
#[local] Hint Resolve afterPlayerDeath_keeps_stateId : keeps.

Lemma nextPlayerLoop_keeps_stateId k cur : keeps stateId (nextPlayerLoop k cur).
Proof. induction k; simpl; keeps_auto. Qed.
#[local] Hint Resolve nextPlayerLoop_keeps_stateId : keeps.
Lemma nextTurn_keeps_stateId : keeps stateId nextTurn.
Proof. unfold nextTurn, nextPlayerIdx. keeps_auto. Qed.
#[local] Hint Resolve nextTurn_keeps_stateId : keeps.

Lemma revealFirstInfluence_keeps_stateId i : keeps stateId (revealFirstInfluence i).
Proof. unfold revealFirstInfluence. keeps_auto. Qed.
#[local] Hint Resolve revealFirstInfluence_keeps_stateId : keeps.

Lemma shuffleLoop_keeps_stateId fuel a s : keeps stateId (shuffleLoop fuel a s).
Proof. revert a s. induction fuel; intros; simpl; keeps_auto. Qed.
#[local] Hint Resolve shuffleLoop_keeps_stateId : keeps.
Lemma shuffle_keeps_stateId a : keeps stateId (shuffle a).
Proof. unfold shuffle. keeps_auto. Qed.
#[local] Hint Resolve shuffle_keeps_stateId : keeps.
Lemma buildDeck_keeps_stateId : keeps stateId buildDeck.
Proof. unfold buildDeck. keeps_auto. Qed.
Lemma deckPop_keeps_stateId : keeps stateId deckPop.
Proof. unfold deckPop. keeps_auto. Qed.
#[local] Hint Resolve buildDeck_keeps_stateId deckPop_keeps_stateId : keeps.
Lemma swapRole_keeps_stateId r : keeps stateId (swapRole r).
Proof. unfold swapRole. keeps_auto. Qed.
Lemma resetAllows_keeps_stateId i : keeps stateId (resetAllows i).
Proof. unfold resetAllows. keeps_auto. Qed.
#[local] Hint Resolve swapRole_keeps_stateId resetAllows_keeps_stateId : keeps.
Lemma everyoneAllowsLoop_keeps_stateId k : keeps stateId (everyoneAllowsLoop k).
Proof. induction k; simpl; keeps_auto. Qed.
#[local] Hint Resolve everyoneAllowsLoop_keeps_stateId : keeps.
Lemma everyoneAllows_keeps_stateId : keeps stateId everyoneAllows.
Proof. unfold everyoneAllows. keeps_auto. Qed.
#[local] Hint Resolve everyoneAllows_keeps_stateId : keeps.

Section WithActions.
Variable actions : string -> option Action.

Lemma revealState_keeps_stateId r m a w : keeps stateId (revealState r m a w).
Proof. unfold revealState. keeps_auto. Qed.
Hint Resolve revealState_keeps_stateId : keeps.

Lemma playAction_keeps_stateId i a : keeps stateId (playAction actions i a).
Proof. unfold playAction. keeps_auto. Qed.
Hint Resolve playAction_keeps_stateId : keeps.

Lemma afterSuccessfulChallenge_keeps_stateId : keeps stateId (afterSuccessfulChallenge actions).
Proof. unfold afterSuccessfulChallenge. keeps_auto. Qed.
Lemma afterIncorrectChallenge_keeps_stateId : keeps stateId (afterIncorrectChallenge actions).
Proof. unfold afterIncorrectChallenge. keeps_auto. Qed.
Hint Resolve afterSuccessfulChallenge_keeps_stateId afterIncorrectChallenge_keeps_stateId : keeps.

Lemma allow_keeps_stateId i : keeps stateId (allow actions i).
Proof. unfold allow. keeps_auto. Qed.
Hint Resolve allow_keeps_stateId : keeps.

Lemma challenge_keeps_stateId i j r : keeps stateId (challenge actions i j r).
Proof. unfold challenge. keeps_auto. Qed.
Hint Resolve challenge_keeps_stateId : keeps.

Lemma dealLoop_keeps_stateId k acc : keeps stateId (dealLoop k acc).
Proof. revert acc. induction k; intros; simpl; keeps_auto. Qed.
Hint Resolve dealLoop_keeps_stateId : keeps.

Lemma start_keeps_stateId t : keeps stateId (start t).
Proof. unfold start. keeps_auto. Qed.
Hint Resolve start_keeps_stateId : keeps.

Variable epithets : list string.
Variable aiPlayer : Connection.

Lemma playerNameLoop_keeps_stateId fuel nm : keeps stateId (playerNameLoop epithets fuel nm).
Proof. revert nm. induction fuel; intros; simpl; keeps_auto. Qed.
Hint Resolve playerNameLoop_keeps_stateId : keeps.
Lemma playerName_keeps_stateId nm : keeps stateId (playerName epithets nm).
Proof. unfold playerName. keeps_auto. Qed.
Lemma createGameProxy_keeps_stateId i o : keeps stateId (createGameProxy i o).
Proof. unfold createGameProxy. keeps_auto. Qed.
Hint Resolve playerName_keeps_stateId createGameProxy_keeps_stateId : keeps.
Lemma rewireLoop_keeps_stateId k : keeps stateId (rewireLoop k).
Proof. induction k; simpl; keeps_auto. Qed.
Lemma addHistoryEach_keeps_stateId t gr ms : keeps stateId (addHistoryEach t gr ms).
Proof. induction ms; simpl; keeps_auto. Qed.
Hint Resolve rewireLoop_keeps_stateId addHistoryEach_keeps_stateId : keeps.

Lemma commandPlayAction_keeps_stateId i c : keeps stateId (commandPlayAction actions i c).
Proof. unfold commandPlayAction. keeps_auto. Qed.
Lemma commandChallenge_keeps_stateId i c : keeps stateId (commandChallenge actions i c).
Proof. unfold commandChallenge. keeps_auto. Qed.
Lemma commandBlock_keeps_stateId i c : keeps stateId (commandBlock actions i c).
Proof. unfold commandBlock. keeps_auto. Qed.
Lemma commandAllow_keeps_stateId i c : keeps stateId (commandAllow actions i c).
Proof. unfold commandAllow. keeps_auto. Qed.
Lemma commandExchange_keeps_stateId i c : keeps stateId (commandExchange i c).
Proof. unfold commandExchange. keeps_auto. Qed.
Lemma commandInterrogate_keeps_stateId i c : keeps stateId (commandInterrogate i c).
Proof. unfold commandInterrogate. keeps_auto. Qed.
Lemma notWaiting_keeps_stateId : keeps stateId notWaiting.
Proof. unfold notWaiting. keeps_auto. Qed.
Hint Resolve notWaiting_keeps_stateId : keeps.

(** *** How far a computation moves [stateId] *)

Lemma keeps_steps {A} (m : M A) : keeps stateId m -> steps 0 m.
Proof.
  intros H g. specialize (H g). destruct (m g) as [[e|a] g']; simpl in H; lia.
Qed.

Lemma steps_throw {A} d (e : Exn) : steps d (@throw A e).
Proof. intros g. reflexivity. Qed.

Lemma steps_bind_l {A B} d (m : M A) (k : A -> M B) :
  keeps stateId m -> (forall a, steps d (k a)) -> steps d (bind m k).
Proof.
  intros Hm Hk g. unfold bind. specialize (Hm g).
  destruct (m g) as [[e|a] g1]; simpl in *; [assumption|].
  specialize (Hk a g1). destruct (k a g1) as [[e|b] g2]; congruence.
Qed.

Lemma steps_bind_r {A B} d (m : M A) (k : A -> M B) :
  steps d m -> (forall a, keeps stateId (k a)) -> (forall a, nothrow (k a)) ->
  steps d (bind m k).
Proof.
  intros Hm Hk Hn g. unfold bind. specialize (Hm g).
  destruct (m g) as [[e|a] g1]; [assumption|].
  specialize (Hk a g1). destruct (Hn a g1) as [b Hb].
  destruct (k a g1) as [[e|b'] g2]; simpl in *; [discriminate|congruence].
Qed.

Lemma steps_emitState : steps 1 emitState.
Proof. intros g. simpl. lia. Qed.

Lemma nothrow_ret {A} (a : A) : nothrow (ret a).
Proof. intros g. eexists; reflexivity. Qed.
Lemma nothrow_modify h : nothrow (modify h).
Proof. intros g. eexists; reflexivity. Qed.
Lemma nothrow_gets {A} (h : Game -> A) : nothrow (gets h).
Proof. intros g. eexists; reflexivity. Qed.
Lemma nothrow_bind {A B} (m : M A) (k : A -> M B) :
  nothrow m -> (forall a, nothrow (k a)) -> nothrow (bind m k).
Proof.
  intros Hm Hk g. unfold bind. destruct (Hm g) as [a Ha].
  destruct (m g) as [[e|a'] g1]; simpl in Ha; [discriminate|]. apply Hk.
Qed.
Lemma nothrow_when c m : nothrow m -> nothrow (when c m).
Proof. destruct c; [auto|intros _; apply nothrow_ret]. Qed.
Lemma nothrow_createGameProxy i o : nothrow (createGameProxy i o).
Proof.
  destruct o; simpl; repeat (apply nothrow_bind; [|intro]);
    auto using nothrow_ret, nothrow_modify, nothrow_gets.
Qed.

Lemma playerJoined_steps c : steps 1 (playerJoined epithets c).
Proof.
  unfold playerJoined.
  do 8 (apply steps_bind_l; [keeps_auto|intro]).
  apply steps_bind_r; [apply steps_emitState|intros; keeps_auto|].
  intros _. repeat (apply nothrow_bind; [|intro]);
    auto using nothrow_ret, nothrow_modify, nothrow_gets, nothrow_when,
               nothrow_createGameProxy.
Qed.

Lemma nothrow_get : nothrow get.
Proof. intros g. eexists; reflexivity. Qed.
Lemma nothrow_rand n : nothrow (rand n).
Proof. intros g. unfold rand. destruct (rng g); eexists; reflexivity. Qed.

Ltac nothrow_auto :=
  repeat first
    [ apply nothrow_bind; [|intro]
    | apply nothrow_ret | apply nothrow_modify | apply nothrow_gets | apply nothrow_get
    | apply nothrow_rand | apply nothrow_when | apply nothrow_createGameProxy
    | match goal with
      | |- nothrow (if ?c then _ else _) => destruct c
      | |- nothrow (match ?x with _ => _ end) => destruct x
      end
    | assumption ].

Lemma nothrow_playerNameLoop fuel nm : nothrow (playerNameLoop epithets fuel nm).
Proof.
  revert nm. induction fuel; intros; simpl; nothrow_auto. apply IHfuel.
Qed.

Lemma nothrow_playerJoined c : nothrow (playerJoined epithets c).
Proof.
  unfold playerJoined, playerName, nextAdhocHistGroup, addHistory, emitState.
  nothrow_auto. apply nothrow_playerNameLoop.
Qed.

Lemma playerLeft_steps i r : steps 1 (playerLeft actions i r).
Proof.
  unfold playerLeft.
  do 2 (apply steps_bind_l; [keeps_auto|intro]).
  destruct (players a !! i); [|apply steps_throw].
  do 7 (apply steps_bind_l; [keeps_auto|intro]).
  apply steps_emitState.
Qed.

Lemma removeAiLoop_steps k g :
  match removeAiLoop actions k g with
  | (inl _, g') => stateId g' = stateId g
  | (inr _, g') => stateId g' = stateId g \/ stateId g' = stateId g + 1
  end.
Proof.
  induction k; simpl; [left; reflexivity|].
  rewrite bind_run. simpl.
  destruct (conns g !! S k) as [[c|]|]; try apply IHk.
  destruct (c_ai c); [|apply IHk].
  pose proof (playerLeft_steps (S k) false g) as H.
  destruct (playerLeft actions (S k) false g) as [[e|u] g']; auto.
Qed.


Lemma answers_ret {A} (b : A) : answers b (ret b).
Proof. intros g a [= <-]. reflexivity. Qed.
Lemma answers_throw {A} (b : A) e : answers b (throw e).
Proof. intros g a [=]. Qed.
Lemma answers_bind {A B} (b : B) (m : M A) (k : A -> M B) :
  (forall a, answers b (k a)) -> answers b (bind m k).
Proof.
  intros Hk g x. unfold bind. destruct (m g) as [[e|a] g1]; simpl; [discriminate|].
  apply Hk.
Qed.

Ltac answers_auto :=
  cbv zeta;
  repeat first
    [ apply answers_ret | apply answers_throw
    | apply answers_bind; intro
    | match goal with
      | |- answers _ (if ?c then _ else _) => destruct c
      | |- answers _ (match ?x with _ => _ end) => destruct x
      end ]; cbv zeta.

Lemma commandPlayAction_answers i c : answers true (commandPlayAction actions i c).
Proof. unfold commandPlayAction. answers_auto. Qed.
Lemma commandChallenge_answers i c : answers true (commandChallenge actions i c).
Proof. unfold commandChallenge. answers_auto. Qed.
Lemma commandBlock_answers i c : answers true (commandBlock actions i c).
Proof. unfold commandBlock. answers_auto. Qed.
Lemma commandExchange_answers i c : answers true (commandExchange i c).
Proof. unfold commandExchange. answers_auto. Qed.
Lemma commandInterrogate_answers i c : answers true (commandInterrogate i c).
Proof. unfold commandInterrogate. answers_auto. Qed.
Lemma commandReveal_answers i c : answers false (commandReveal actions i c).
Proof. unfold commandReveal. answers_auto. Qed.

Lemma commandReveal_steps i c : steps 1 (commandReveal actions i c).
Proof.
  unfold commandReveal.
  do 4 (apply steps_bind_l; [keeps_auto|intro]).
  destruct (indexOfInfluence _ _); [|apply steps_throw].
  do 5 (apply steps_bind_l; [keeps_auto|intro]).
  apply steps_bind_r; [apply steps_emitState|intros; keeps_auto|intros; apply nothrow_ret].
Qed.


(** What [everyoneAllows] answers when it returns: [false] exactly when
    one of the seats it has looked at holds influence and has not allowed. *)
Lemma everyoneAllowsLoop_answer (k : nat) (g g' : Game) (b : bool) :
  k <= numPlayers g -> everyoneAllowsLoop k g = (inr b, g') ->
  g' = g
  /\ (b = false <->
      exists j p, numPlayers g - k <= j /\ j < numPlayers g /\ players g !! j = Some p
                  /\ influenceCount p <> 0%Z /\ allowed g j = false).
Proof.
  revert g' b. induction k as [|k IH]; intros g' b Hk Hrun.
  { injection Hrun as <- <-. split; [reflexivity|]. split; [discriminate|].
    intros (j & p & H1 & H2 & _). lia. }
  cbn [everyoneAllowsLoop] in Hrun. rewrite bind_get in Hrun. cbv beta zeta in Hrun.
  rewrite bind_run, playerAt_run, at_js_idx in Hrun.
  destruct (players g !! (numPlayers g - S k)) as [p|] eqn:Hp; [|discriminate].
  cbv beta iota in Hrun.
  assert (Hrest : forall b0 g0,
             everyoneAllowsLoop k g = (inr b0, g0) ->
             (influenceCount p = 0%Z \/ allowed g (numPlayers g - S k) = true) ->
             g0 = g
             /\ (b0 = false <->
                 exists j q, numPlayers g - S k <= j /\ j < numPlayers g
                             /\ players g !! j = Some q
                             /\ influenceCount q <> 0%Z /\ allowed g j = false)).
  { intros b0 g0 Hrun0 Hskip. destruct (IH g0 b0 (Nat.lt_le_incl _ _ Hk) Hrun0) as [-> Hb].
    split; [reflexivity|]. rewrite Hb. split.
    - intros (j & q & H1 & H2 & H3 & H4 & H5). exists j, q. repeat split; auto. lia.
    - intros (j & q & H1 & H2 & H3 & H4 & H5).
      destruct (Nat.eq_dec j (numPlayers g - S k)) as [->|Hne].
      + rewrite Hp in H3. injection H3 as <-.
        destruct Hskip as [Hdead|Hal]; [contradiction|congruence].
      + exists j, q. repeat split; auto. lia. }
  destruct (Z.eqb_spec (influenceCount p) 0) as [Hdead|Hlive].
  { apply (Hrest b g' Hrun). left. exact Hdead. }
  destruct (allowed g (numPlayers g - S k)) eqn:Hal; cbn [negb] in Hrun.
  { apply (Hrest b g' Hrun). right. reflexivity. }
  injection Hrun as <- <-. split; [reflexivity|]. split; [|reflexivity].
  intros _. exists (numPlayers g - S k), p. repeat split; auto; lia.
Qed.

Lemma everyoneAllows_answer (i : nat) (g g' : Game) (b : bool) :
  everyoneAllows (set_allows (cons i) g) = (inr b, g') ->
  g' = set_allows (cons i) g
  /\ (b = false <->
      exists j p, j < numPlayers g /\ j <> i /\ players g !! j = Some p
                  /\ influenceCount p <> 0%Z /\ allowed g j = false).
Proof.
  unfold everyoneAllows. rewrite bind_get. intros Hrun.
  destruct (everyoneAllowsLoop_answer _ _ _ _ (Nat.le_refl _) Hrun) as [-> Hb].
  split; [reflexivity|]. rewrite Hb. cbn [numPlayers players set_allows].
  assert (Hal : forall j, allowed (set_allows (cons i) g) j = (j =? i) || allowed g j)
    by reflexivity.
  split.
  - intros (j & p & _ & H2 & H3 & H4 & H5). rewrite Hal in H5.
    apply orb_false_iff in H5 as [H5 H6]. apply Nat.eqb_neq in H5.
    exists j, p. repeat split; assumption.
  - intros (j & p & H1 & H2 & H3 & H4 & H5). exists j, p.
    repeat split; auto; [lia|]. rewrite Hal, H5, (proj2 (Nat.eqb_neq _ _) H2). reflexivity.
Qed.

(** When the [allow] branch returns, it answers [false] exactly when other
    seats still have to answer. *)
Lemma commandAllow_answer (i : nat) (c : Payload) (g : Game) :
  forall b g', commandAllow actions i c g = (inr b, g') -> (b = false <-> awaited g i).
Proof.
  intros b g'. unfold commandAllow. rewrite bind_run, playerAt_run.
  destruct (at_js (players g) (idx i)) as [p|]; [|discriminate]. cbv beta iota.
  rewrite bind_run. destruct (influenceCount p =? 0)%Z; [discriminate|].
  rewrite throwIf_false. cbv beta iota.
  unfold allow. rewrite bind_get. cbv beta zeta. unfold awaited.
  assert (Htrue : forall (m : M bool) g0,
             answers true m -> m g0 = (inr b, g') -> b = true).
  { intros m g0 Ha Hm. apply (Ha g0). rewrite Hm. reflexivity. }
  destruct (name (state g)) eqn:Hname; cbn [StateName_eqb orb]; try discriminate.
  - (* the response to an action *)
    rewrite bind_run. destruct (jsnum_eqb _ _); [discriminate|].
    rewrite throwIf_false. cbv beta iota.
    rewrite bind_run, bind_run. unfold modify at 1. cbv beta iota.
    destruct (everyoneAllows (set_allows (cons i) g)) as [[e|all] g1] eqn:Hall;
      [discriminate|].
    destruct (everyoneAllows_answer i g g1 all Hall) as [-> Hb].
    destruct all; cbv beta iota.
    + intros Hrun. apply Htrue in Hrun; [|answers_auto]. subst b.
      split; [discriminate|]. intros [_ Hw]. apply Hb in Hw. discriminate.
    + intros [= <- <-]. split; [|reflexivity]. intros _.
      split; [discriminate|]. apply Hb. reflexivity.
  - (* the final response *)
    rewrite bind_run. destruct (jsnum_eqb _ _); [discriminate|].
    rewrite throwIf_false. cbv beta iota.
    rewrite bind_run, bind_run. destruct (negb (jsnum_eqb _ _)); [discriminate|].
    rewrite throwIf_false. cbv beta iota. intros Hrun.
    apply Htrue in Hrun; [|answers_auto]. subst b.
    split; [discriminate|]. intros [Hne _]. contradiction.
  - (* the response to a block *)
    rewrite bind_run. destruct (jsnum_eqb _ _); [discriminate|].
    rewrite throwIf_false. cbv beta iota.
    rewrite bind_run. unfold modify at 1. cbv beta iota. rewrite bind_run.
    destruct (everyoneAllows (set_allows (cons i) g)) as [[e|all] g1] eqn:Hall;
      [discriminate|].
    destruct (everyoneAllows_answer i g g1 all Hall) as [-> Hb].
    destruct all; cbv beta iota.
    + intros Hrun. apply Htrue in Hrun; [|answers_auto]. subst b.
      split; [discriminate|]. intros [_ Hw]. apply Hb in Hw. discriminate.
    + intros [= <- <-]. split; [|reflexivity]. intros _.
      split; [discriminate|]. apply Hb. reflexivity.
Qed.

(** A branch that leaves [stateId] alone and answers [true], followed by
    the final [emitState]. *)
Lemma branch_then_emit (m : M bool) (g : Game) :
  keeps stateId m -> answers true m ->
  match (do reachesEnd <- m; when reachesEnd emitState) g with
  | (inl _, g') => stateId g' = stateId g
  | (inr _, g') => stateId g' = S (stateId g)
  end.
Proof.
  intros Hk Ha. rewrite bind_run. specialize (Hk g). specialize (Ha g).
  destruct (m g) as [[e|b] g1]; simpl in *; [assumption|].
  rewrite (Ha b eq_refl). simpl. congruence.
Qed.

Ltac other_cmd E :=
  first [ reflexivity
        | assumption
        | let H := fresh in
          pose proof E as H; apply String.eqb_eq in H; rewrite H; reflexivity ].

(** C3, amended.  A rejected command leaves [stateId] as it was.  An
    accepted command adds exactly 1 to it, with two exceptions: an [allow]
    adds nothing exactly when it leaves other seats still to answer, and
    [add-ai] and [remove-ai] add one more for the seat that joins or
    leaves.  So [stateId] never decreases. *)
Theorem stateId_after_command (i : nat) (c : Payload) (g : Game) :
  match command actions epithets aiPlayer i c g with
  | (inl _, g') => stateId g' = stateId g
  | (inr _, g') => stateIdAfter (cmd_command c) i g (stateId g')
  end.
Proof.
  destruct (command_cases actions epithets aiPlayer i c g) as [[e ->]|(_ & _ & ->)];
    [reflexivity|].
  assert (Hplain : forall m : M bool,
             keeps stateId m -> answers true m ->
             String.eqb (cmd_command c) "allow" = false ->
             String.eqb (cmd_command c) "add-ai" = false ->
             String.eqb (cmd_command c) "remove-ai" = false ->
             match (do reachesEnd <- m; when reachesEnd emitState) g with
             | (inl _, g') => stateId g' = stateId g
             | (inr _, g') => stateIdAfter (cmd_command c) i g (stateId g')
             end).
  { intros m Hk Ha E8 E2 E3. pose proof (branch_then_emit m g Hk Ha) as H.
    destruct ((do reachesEnd <- m; when reachesEnd emitState) g) as [[e|u] g']; [exact H|].
    unfold stateIdAfter. rewrite E8, E2, E3. exact H. }
  unfold dispatch. cbv zeta.
  destruct (String.eqb (cmd_command c) "start") eqn:E1.
  { apply Hplain; [keeps_auto|answers_auto| | |];
      other_cmd E1. }
  destruct (String.eqb (cmd_command c) "add-ai") eqn:E2.
  { apply String.eqb_eq in E2. rewrite E2.
    rewrite bind_run, bind_run.
    pose proof (notWaiting_keeps_stateId g) as H1.
    destruct (notWaiting g) as [[e|u] g1]; simpl in H1; [assumption|].
    rewrite bind_run. unfold createAiPlayer. rewrite bind_run.
    pose proof (playerJoined_steps aiPlayer g1) as H2.
    destruct (nothrow_playerJoined aiPlayer g1) as [h Hh].
    destruct (playerJoined epithets aiPlayer g1) as [[e|h'] g2]; simpl in Hh;
      [discriminate|].
    unfold stateIdAfter. simpl. lia. }
  destruct (String.eqb (cmd_command c) "remove-ai") eqn:E3.
  { apply String.eqb_eq in E3. rewrite E3.
    rewrite bind_run, bind_run.
    pose proof (notWaiting_keeps_stateId g) as H1.
    destruct (notWaiting g) as [[e|u] g1]; simpl in H1; [assumption|].
    unfold removeAiPlayer. run_prims.
    pose proof (removeAiLoop_steps (length (conns g1) - 1) g1) as H2.
    destruct (removeAiLoop actions _ g1) as [[e|u'] g2]; [lia|].
    unfold stateIdAfter, emitState. simpl. lia. }
  destruct (String.eqb (cmd_command c) "play-action") eqn:E4.
  { apply Hplain;
      [apply commandPlayAction_keeps_stateId|apply commandPlayAction_answers| | |];
      other_cmd E4. }
  destruct (String.eqb (cmd_command c) "challenge") eqn:E5.
  { apply Hplain;
      [apply commandChallenge_keeps_stateId|apply commandChallenge_answers| | |];
      other_cmd E5. }
  destruct (String.eqb (cmd_command c) "reveal") eqn:E6.
  { apply String.eqb_eq in E6. rewrite E6.
    rewrite bind_run.
    pose proof (commandReveal_steps i c g) as H1.
    pose proof (commandReveal_answers i c g) as H2.
    destruct (commandReveal actions i c g) as [[e|b] g1]; simpl in H2; [assumption|].
    rewrite (H2 b eq_refl). unfold stateIdAfter. simpl. lia. }
  destruct (String.eqb (cmd_command c) "block") eqn:E7.
  { apply Hplain; [apply commandBlock_keeps_stateId|apply commandBlock_answers| | |];
      other_cmd E7. }
  destruct (String.eqb (cmd_command c) "allow") eqn:E8.
  { rewrite bind_run.
    pose proof (commandAllow_keeps_stateId i c g) as H1.
    pose proof (commandAllow_answer i c g) as H2.
    unfold stateIdAfter. rewrite E8.
    destruct (commandAllow actions i c g) as [[e|b] g1]; simpl in H1; [exact H1|].
    specialize (H2 b g1 eq_refl).
    destruct b; simpl.
    - split; [intros Hw; apply H2 in Hw; discriminate|intros _; congruence].
    - split; [intros _; exact H1|intros Hn; exfalso; apply Hn, H2; reflexivity]. }
  destruct (String.eqb (cmd_command c) "exchange") eqn:E9.
  { apply Hplain; auto using commandExchange_keeps_stateId, commandExchange_answers. }
  destruct (String.eqb (cmd_command c) "interrogate") eqn:E10.
  { apply Hplain; auto using commandInterrogate_keeps_stateId, commandInterrogate_answers. }
  reflexivity.
Qed.

End WithActions.

(** ** Masking *)

Lemma emitState_run (g : Game) :
  emitState g
  = (inr tt,
     set_outbox (fun o => o ++ map (fun i => StateChange i (maskState i (set_stateId S g)))
                                   (seq 0 (length (players g))))
       (set_stateId S g)).
Proof. reflexivity. Qed.


(** ** Starting the game *)

Section Start.
Variable actions : string -> option Action.
Variable epithets : list string.
Variable aiPlayer : Connection.

Lemma dealable_setRole (p : PlayerState) r j :
  dealable p -> dealable (withInfluence (alter (setRole r) j) p).
Proof. unfold dealable. simpl. rewrite length_alter. auto. Qed.

Lemma lobbyReady_deal (g : Game) i r j :
  lobbyReady g -> lobbyReady (set_players (alter (withInfluence (alter (setRole r) j)) i) g).
Proof.
  intros [Hn Hd]. split; simpl.
  - rewrite length_alter. assumption.
  - rewrite Forall_lookup in *. intros k p Hk.
    destruct (decide (i = k)) as [->|Hne].
    + rewrite list_lookup_alter_eq in Hk.
      destruct (players g !! k) as [q|] eqn:Hq; [|discriminate].
      injection Hk as <-. apply dealable_setRole. eauto.
    + rewrite list_lookup_alter_ne in Hk by assumption. eauto.
Qed.

Lemma dealLoop_returns (k : nat) (acc : list nat) (g : Game) :
  k <= numPlayers g -> lobbyReady g ->
  exists l g', dealLoop k acc g = (inr l, g')
               /\ state g' = state g /\ firstPlayer g' = firstPlayer g
               /\ turnHistGroup g' = turnHistGroup g.
Proof.
  revert acc g. induction k as [|k IH]; intros acc g Hk Hready.
  - eexists _, _. repeat split.
  - destruct Hready as [Hn Hd].
    assert (Hi : numPlayers g - S k < length (players g)) by lia.
    apply lookup_lt_is_Some in Hi as [p Hp].
    cbn [dealLoop]. run_prims. rewrite at_js_idx, Hp. run_prims.
    destruct (isObserver p) eqn:Hobs; cbn [negb].
    + apply IH; [lia|split; assumption].
    + assert (H2 : 2 <= length (influence p)).
      { rewrite Forall_lookup in Hd. apply (Hd _ _ Hp). assumption. }
      destruct (lookup_lt_is_Some_2 (influence p) 0) as [s0 H0]; [lia|].
      destruct (lookup_lt_is_Some_2 (influence p) 1) as [s1 H1]; [lia|].
      rewrite H0, H1. run_prims.
      edestruct IH as (l & g' & -> & Hs & Hf & Ht).
      3: { eexists _, _. split; [reflexivity|]. rewrite Hs, Hf, Ht. repeat split. }
      * simpl. lia.
      * apply (lobbyReady_deal (set_deck _ _)), (lobbyReady_deal (set_deck _ g)).
        split; assumption.
Qed.

Lemma shuffle_returns (a : list jsrole) (g : Game) :
  exists d g', shuffle a g = (inr d, g')
               /\ state g' = state g /\ firstPlayer g' = firstPlayer g
               /\ turnHistGroup g' = turnHistGroup g
               /\ players g' = players g /\ numPlayers g' = numPlayers g.
Proof.
  unfold shuffle. run_prims. destruct (fixedDeck g).
  { eexists _, _. repeat split. }
  generalize (@nil jsrole) as acc. generalize (length a) as fuel. intros fuel.
  revert a g. induction fuel as [|fuel IH]; intros a g acc.
  - eexists _, _. repeat split.
  - cbn [shuffleLoop]. run_prims. unfold rand.
    destruct (rng g) as [|x r]; run_prims.
    + destruct (a !! 0); [apply IH|eexists _, _; repeat split].
    + destruct (a !! _).
      * edestruct IH as (d & g' & -> & H). eexists _, _. split; [reflexivity|]. exact H.
      * eexists _, _. repeat split.
Qed.

Lemma nonObservers_le (g : Game) : nonObservers g <= length (players g).
Proof. apply List.filter_length_le. Qed.

Lemma start_returns (t : option string) (g : Game) :
  name (state g) = WAITING_FOR_PLAYERS ->
  2 <= numPlayers g -> lobbyReady g ->
  exists g', start t g = (inr tt, g') /\ name (state g') = START_OF_TURN.
Proof.
  intros Hw H2 Hready. unfold start. run_prims. rewrite Hw. run_prims. unfold MIN_PLAYERS.
  destruct (Nat.leb_spec 2 (numPlayers g)) as [_|]; [|lia].
  unfold buildDeck. run_prims.
  match goal with |- context [shuffle ?a ?g0] =>
    destruct (shuffle_returns a g0) as (d & g1 & -> & Hs1 & Hf1 & Ht1 & Hp1 & Hn1) end.
  simpl in Hs1, Hf1, Ht1, Hp1, Hn1.
  match goal with |- context [dealLoop ?k ?acc ?g0] =>
    destruct (dealLoop_returns k acc g0) as (l & g2 & -> & Hs2 & Hf2 & Ht2) end.
  { simpl. lia. }
  { destruct Hready as [Hn Hd]. split; simpl; rewrite ?Hp1, ?Hn1; assumption. }
  simpl in Hs2, Hf2, Ht2.
  destruct (firstPlayer g).
  - eexists. split; reflexivity.
  - unfold rand. destruct (rng g2); eexists; split; reflexivity.
Qed.

(** C5, amended.  Outside the lobby [start] is rejected with an error and
    nothing changes.  In the lobby, with at least two non-observer seats, it
    is accepted and the game enters [START_OF_TURN].  In the lobby with fewer
    than two seats it is not rejected: no error is raised and the game stays
    as it is, except that [stateId] moves on and a snapshot is queued for
    every seat. *)
Theorem start_command (i : nat) (c : Payload) (g : Game) :
  cmd_command c = "start" ->
  (name (state g) <> WAITING_FOR_PLAYERS ->
   exists e, command actions epithets aiPlayer i c g = (inl e, g))
  /\ (name (state g) = WAITING_FOR_PLAYERS ->
      is_Some (players g !! i) ->
      cmd_stateId c = idx (stateId g) ->
      numPlayers g = length (players g) ->
      Forall dealable (players g) ->
      2 <= nonObservers g ->
      exists g', command actions epithets aiPlayer i c g = (inr tt, g')
                 /\ name (state g') = START_OF_TURN
                 /\ stateId g' = S (stateId g))
  /\ (name (state g) = WAITING_FOR_PLAYERS ->
      is_Some (players g !! i) ->
      cmd_stateId c = idx (stateId g) ->
      numPlayers g < 2 ->
      command actions epithets aiPlayer i c g = (inr tt, exec emitState g)).
Proof.
  intros Hc.
  assert (Hd : dispatch actions epithets aiPlayer i c
               = (run start (cmd_gameType c); ret true)).
  { unfold dispatch. rewrite Hc. reflexivity. }
  split; [|split].
  - intros Hname.
    destruct (command_cases actions epithets aiPlayer i c g) as [H|(_ & _ & ->)];
      [assumption|].
    rewrite Hd, !bind_run. unfold start. run_prims.
    destruct (name (state g)); try (eexists; reflexivity). contradiction.
  - intros Hname Hp Hsid Hn Hdl H2.
    pose proof (nonObservers_le g) as Hle.
    destruct (start_returns (cmd_gameType c) g) as (g1 & Hrun & Hg1);
      [assumption|lia|split; [lia|assumption]|].
    pose proof (start_keeps_stateId (cmd_gameType c) g) as Hk. rewrite Hrun in Hk.
    simpl in Hk.
    rewrite command_fresh, Hd, !bind_run, Hrun by assumption.
    eexists. split; [reflexivity|]. simpl. split; [assumption|congruence].
  - intros Hname Hp Hsid Hn.
    rewrite command_fresh, Hd, !bind_run by assumption. unfold start. run_prims.
    rewrite Hname. run_prims. unfold MIN_PLAYERS.
    destruct (Nat.leb_spec 2 (numPlayers g)) as [|_]; [lia|]. reflexivity.
Qed.

End Start.


Lemma start_command_witness :
  exists g', command standardActions someEpithets robot 0 (payload 3 "start") lobby2
             = (inr tt, g')
             /\ name (state g') = START_OF_TURN
             /\ stateId g' = S (stateId lobby2).
Proof.
  apply (proj1 (proj2 (start_command standardActions someEpithets robot 0
                         (payload 3 "start") lobby2 eq_refl))).
  - vm_compute. reflexivity.
  - vm_compute. eauto.
  - vm_compute. reflexivity.
  - vm_compute. reflexivity.
  - unfold dealable. vm_compute. repeat (constructor; [intros _; lia|]). constructor.
  - vm_compute. lia.
Defined.


(** ** Turn order and game end *)

Lemma seat_idx (i : nat) : seat (idx i) = i.
Proof. unfold seat, idx. apply Nat2Z.id. Qed.

Lemma findWinner_live (ps : list PlayerState) (i : nat) (w : option nat) (r : nat) :
  findWinner ps i w = Some r ->
  w = Some r \/ exists p, ps !! (r - i) = Some p /\ (0 < influenceCount p)%Z /\ i <= r.
Proof.
  revert i w. induction ps as [|p ps IH]; intros i w H; simpl in H.
  - left. assumption.
  - destruct (0 <? influenceCount p)%Z eqn:Hp.
    + destruct w as [w|]; [discriminate|].
      apply IH in H as [[= <-]|(q & Hq & Hlive & Hle)].
      * right. exists p. rewrite Nat.sub_diag. split; [reflexivity|].
        split; [apply Z.ltb_lt; assumption|lia].
      * right. exists q. replace (r - i) with (S (r - S i)) by lia.
        split; [assumption|]. split; [assumption|lia].
    + apply IH in H as [H|(q & Hq & Hlive & Hle)]; [left; assumption|].
      right. exists q. replace (r - i) with (S (r - S i)) by lia.
      split; [assumption|]. split; [assumption|lia].
Qed.

Lemma sameTable_refl g : sameTable g g.
Proof. repeat split. Qed.

Lemma sameTable_trans g1 g2 g3 : sameTable g1 g2 -> sameTable g2 g3 -> sameTable g1 g3.
Proof. unfold sameTable. intros (?&?&?&?&?) (?&?&?&?&?). repeat split; congruence. Qed.

Lemma checkForGameEnd_returns (g : Game) :
  liveConnected g ->
  exists b g', checkForGameEnd g = (inr b, g') /\ sameTable g g'
               /\ (state g' = state g \/ name (state g') = GAME_WON).
Proof.
  intros Hlive. unfold checkForGameEnd. go.
  destruct (findWinner (players g) 0 None) as [w|] eqn:Hw.
  - apply findWinner_live in Hw as [|(p & Hp & Hpos & _)]; [discriminate|].
    rewrite Nat.sub_0_r in Hp. destruct (Hlive _ _ Hp Hpos) as [cn Hcn].
    go. rewrite at_js_idx, Hcn. go.
    eexists _, _. split; [reflexivity|]. split; [repeat split|]. right. reflexivity.
  - eexists _, _. split; [reflexivity|]. split; [repeat split|]. left. reflexivity.
Qed.

Lemma afterPlayerDeath_returns (i : nat) (g : Game) :
  liveConnected g -> is_Some (mjoin (conns g !! i)) ->
  exists g', afterPlayerDeath (idx i) g = (inr tt, g') /\ sameTable g g'
             /\ (state g' = state g \/ name (state g') = GAME_WON).
Proof.
  intros Hlive [cn Hcn]. unfold afterPlayerDeath. go. rewrite at_js_idx, Hcn. go.
  match goal with |- context [checkForGameEnd ?g0] =>
    destruct (checkForGameEnd_returns g0) as (b & g' & -> & Hsame & Hst) end.
  { exact Hlive. }
  eexists. split; [reflexivity|]. split; [|exact Hst].
  destruct Hsame as (?&?&?&?&?). repeat split; assumption.
Qed.

Lemma nextPlayerLoop_returns (k : nat) (cur : jsnum) (g : Game) :
  k <= numPlayers g - 1 -> numPlayers g <= length (players g) -> seatOrNull cur ->
  exists n, nextPlayerLoop k cur g = (inr n, g) /\ seatOrNull n.
Proof.
  intros Hk Hn Hcur. induction k as [|k IH].
  { eexists. split; [reflexivity|]. left. reflexivity. }
  cbn [nextPlayerLoop]. go.
  assert (Hc : exists z, (match cur with
                          | JUndefined => JUndefined
                          | JNull => JNum (Z.rem (Z.of_nat (numPlayers g - S k))
                                                 (Z.of_nat (numPlayers g)))
                          | JNum z => JNum (Z.rem (z + Z.of_nat (numPlayers g - S k))
                                                  (Z.of_nat (numPlayers g)))
                          end) = JNum z
                         /\ (0 <= z < Z.of_nat (numPlayers g))%Z).
  { destruct Hcur as [->|[a ->]]; eexists; (split; [reflexivity|]);
      apply Z.rem_bound_pos; lia. }
  destruct Hc as (z & -> & Hz).
  unfold at_js. rewrite (proj2 (Z.leb_le 0 _) (proj1 Hz)).
  destruct (lookup_lt_is_Some_2 (players g) (Z.to_nat z)) as [p Hp]; [lia|].
  rewrite Hp. go.
  destruct (0 <? influenceCount p)%Z.
  - eexists. split; [reflexivity|]. right. exists (Z.to_nat z). unfold idx.
    rewrite Z2Nat.id by lia. reflexivity.
  - apply IH. lia.
Qed.

Lemma nextTurn_returns (g : Game) :
  numPlayers g <= length (players g) -> turnKnown (state g) ->
  exists g', nextTurn g = (inr tt, g') /\ sameTable g g' /\ turnKnown (state g')
             /\ (name (state g') = GAME_WON \/ name (state g') = START_OF_TURN).
Proof.
  intros Hn Hturn. unfold nextTurn. go.
  destruct (name (state g)) eqn:Hname; go;
    try (eexists; split; [reflexivity|]; split; [apply sameTable_refl|];
         split; [left|left]; assumption).
  all: destruct Hturn as [Hwon|Hcur]; [congruence|].
  all: unfold nextPlayerIdx; go.
  all: match goal with |- context [nextPlayerLoop ?k ?cur ?g0] =>
         destruct (nextPlayerLoop_returns k cur g0) as (n & -> & Hnext);
           [reflexivity|exact Hn|exact Hcur|] end.
  all: eexists; split; [reflexivity|]; split; [repeat split|];
         split; [right; exact Hnext|right; reflexivity].
Qed.

Lemma liveConnected_alter (g : Game) (i : nat) (f : PlayerState -> PlayerState) :
  (forall p, (influenceCount (f p) <= influenceCount p)%Z) ->
  liveConnected g -> liveConnected (set_players (alter f i) g).
Proof.
  intros Hf Hlive j p Hp Hpos. simpl in Hp |- *.
  destruct (decide (i = j)) as [->|Hne].
  - rewrite list_lookup_alter_eq in Hp.
    destruct (players g !! j) as [q|] eqn:Hq; [|discriminate].
    injection Hp as <-. apply (Hlive j q Hq). specialize (Hf q). lia.
  - rewrite list_lookup_alter_ne in Hp by assumption. eauto.
Qed.

Lemma revealFirstInfluence_run (i : nat) (g : Game) (p : PlayerState) (j : nat) :
  players g !! i = Some p ->
  find_index (fun inf => negb (revealed inf)) (influence p) = Some j ->
  revealFirstInfluence i g
  = (inr (mjoin (role <$> influence p !! j)),
     set_players (alter (withCount Z.pred) i)
       (set_players (alter (withInfluence (alter setRevealed j)) i) g)).
Proof. intros Hp Hj. unfold revealFirstInfluence. go. rewrite Hp, Hj. reflexivity. Qed.

Lemma liveConnected_same (g g' : Game) :
  players g' = players g -> conns g' = conns g -> liveConnected g -> liveConnected g'.
Proof. unfold liveConnected. intros -> ->. auto. Qed.

Section Assassination.
Variable actions : string -> option Action.
Variable epithets : list string.
Variable aiPlayer : Connection.

(** An assassination that goes through against a seat with one face-down
    influence left turns it face up and ends the turn. *)
Lemma assassinate_last_influence
      (a b : nat) (bl : option string) (g : Game) (actor victim : PlayerState)
      (act : Action) (j : nat) :
  actions "assassinate" = Some act ->
  numPlayers g = length (players g) ->
  liveConnected g ->
  turnKnown (state g) ->
  players g !! a = Some actor ->
  players g !! b = Some victim ->
  is_Some (mjoin (conns g !! b)) ->
  influenceCount victim = 1%Z ->
  find_index (fun inf => negb (revealed inf)) (influence victim) = Some j ->
  exists g' victim',
    playAction actions (idx a) (mkActionState (Some "assassinate") (idx b) bl) g
    = (inr true, g')
    /\ players g' !! b = Some victim'
    /\ influenceCount victim' = 0%Z
    /\ influence victim' = alter setRevealed j (influence victim)
    /\ numPlayers g' = length (players g')
    /\ turnKnown (state g').
Proof.
  intros Hact Hnum Hlive Hturn Ha Hb Hconn Hcount Hj.
  unfold playAction. go. rewrite at_js_idx, Ha. go. rewrite Hact. go.
  rewrite !seat_idx, at_js_idx.
  assert (Hb' : exists v, alter (withCash (fun c => (c + default 0 (a_gain act))%Z)) a
                                (players g) !! b = Some v
                          /\ influenceCount v = 1%Z /\ influence v = influence victim).
  { destruct (decide (a = b)) as [->|Hab].
    - rewrite list_lookup_alter_eq, Hb. eexists. split; [reflexivity|]. split; assumption || reflexivity.
    - rewrite list_lookup_alter_ne, Hb by assumption. eexists.
      split; [reflexivity|]. split; assumption || reflexivity. }
  destruct Hb' as (v & Hv & Hvc & Hvi). rewrite Hv. go. rewrite Hvc. go.
  erewrite revealFirstInfluence_run; [|exact Hv|rewrite Hvi; exact Hj]. go.
  match goal with |- context [afterPlayerDeath (idx b) ?g0] =>
    destruct (afterPlayerDeath_returns b g0) as (g' & -> & Hsame & Hst) end.
  { apply (liveConnected_same
             (set_players (alter (withCount Z.pred) b)
                (set_players (alter (withInfluence (alter setRevealed j)) b)
                   (set_players
                      (alter (withCash (fun c => (c + default 0 (a_gain act))%Z)) a) g))));
      [reflexivity|reflexivity|].
    repeat (apply liveConnected_alter; [intros p; simpl; lia|]). exact Hlive. }
  { exact Hconn. }
  destruct Hsame as (Hp' & Hc' & Hn' & _).
  cbn [players numPlayers set_outbox set_players] in Hp', Hn'. go.
  exists g', (withCount Z.pred (withInfluence (alter setRevealed j) v)).
  split; [reflexivity|]. rewrite Hp', Hn'.
  rewrite !list_lookup_alter_eq, Hv. simpl. rewrite Hvc, Hvi.
  split; [reflexivity|]. split; [reflexivity|]. split; [reflexivity|].
  split.
  - rewrite !length_alter. assumption.
  - destruct Hst as [->|Hwon]; [exact Hturn|left; assumption].
Qed.


(** C7. In [BLOCK_RESPONSE] to an assassination, when the blocker (whom the
    state records as the target) holds two face-down influences, neither of
    them the role it claimed, a challenge by another live seat is accepted
    and costs the blocker both: one for the failed block and one for the
    assassination. *)
Theorem bluffed_block_loses_both
        (i b a : nat) (c : Payload) (g : Game)
        (challenger blocker actor : PlayerState) (s0 s1 : Influence) (act : Action) :
  name (state g) = BLOCK_RESPONSE ->
  action (state g) = Some "assassinate" ->
  target (state g) = idx b ->
  truthy (blockingRole (state g)) = true ->
  playerIdx (state g) = idx a ->
  actions "assassinate" = Some act ->
  numPlayers g = length (players g) ->
  liveConnected g ->
  players g !! a = Some actor ->
  players g !! b = Some blocker ->
  influence blocker = [s0; s1] ->
  revealed s0 = false -> revealed s1 = false ->
  influenceCount blocker = 2%Z ->
  indexOfInfluence blocker (blockingRole (state g)) = None ->
  players g !! i = Some challenger ->
  influenceCount challenger <> 0%Z ->
  i <> b ->
  cmd_command c = "challenge" ->
  cmd_stateId c = idx (stateId g) ->
  exists g' blocker',
    command actions epithets aiPlayer i c g = (inr tt, g')
    /\ players g' !! b = Some blocker'
    /\ influenceCount blocker' = 0%Z
    /\ influence blocker' = [setRevealed s0; setRevealed s1].
Proof.
  intros Hname Haction Htarget Hrole Hturn Hact Hnum Hlive Ha Hb Hinfl Hs0 Hs1 Hcount Hbluff
         Hi Halive Hne Hcmd Hsid.
  rewrite command_fresh by (rewrite ?Hi; eauto).
  unfold dispatch. rewrite Hcmd. simpl String.eqb. cbv iota.
  unfold commandChallenge. go. rewrite at_js_idx, Hi. go.
  rewrite (proj2 (Z.eqb_neq _ _) Halive). go.
  rewrite Hname. go. rewrite Htarget, jsnum_eqb_idx, (proj2 (Nat.eqb_neq _ _) Hne). go.
  unfold challenge. go. rewrite Htarget, at_js_idx, Hb, Hrole, Hbluff, Hname, Haction. go.
  rewrite jsnum_eqb_idx, Nat.eqb_refl, Hcount. go.
  rewrite seat_idx.
  erewrite revealFirstInfluence_run;
    [|exact Hb|rewrite Hinfl; simpl; rewrite Hs0; reflexivity].
  go. rewrite at_js_idx, !list_lookup_alter_eq, Hb. cbn [fmap option_fmap option_map]. go.
  rewrite Hcount. change (Z.pred 2) with 1%Z. go.
  unfold afterSuccessfulChallenge. go. rewrite Hrole. unfold ofState.
  rewrite Hturn, Haction, Htarget.
  match goal with |- context [playAction actions (idx a) ?st ?g0] =>
    destruct (assassinate_last_influence a b (blockingRole (state g)) g0
                (default actor (players g0 !! a))
                (withCount Z.pred (withInfluence (alter setRevealed 0) blocker)) act 1)
      as (g1 & blocker1 & -> & Hb1 & Hc1 & Hi1 & Hn1 & Ht1)
  end.
  - exact Hact.
  - go. rewrite !length_alter. exact Hnum.
  - apply (liveConnected_same
             (set_players (alter (withCount Z.pred) b)
                (set_players (alter (withInfluence (alter setRevealed 0)) b) g)));
      [reflexivity|reflexivity|].
    repeat (apply liveConnected_alter; [intros p; simpl; lia|]). exact Hlive.
  - right. right. exists a. go. exact Hturn.
  - go. destruct (decide (b = a)) as [->|Hba].
    + rewrite !list_lookup_alter_eq, Ha. reflexivity.
    + rewrite !list_lookup_alter_ne, Ha by assumption. reflexivity.
  - go. rewrite !list_lookup_alter_eq, Hb. reflexivity.
  - go. destruct (Hlive b blocker Hb) as [cn ->]; [lia|]. eexists. reflexivity.
  - go. rewrite Hcount. reflexivity.
  - go. rewrite Hinfl. simpl. rewrite Hs1. reflexivity.
  - go.
    destruct (nextTurn_returns g1) as (g2 & -> & (Hp2 & _) & _); [lia|exact Ht1|].
    unfold emitState. go.
    eexists _, blocker1. split; [reflexivity|]. go. rewrite Hp2.
    split; [exact Hb1|]. split; [exact Hc1|]. rewrite Hi1. go. rewrite Hinfl. reflexivity.
Qed.

End Assassination.

Lemma bluffed_block_loses_both_witness :
  exists g' blocker',
    command standardActions someEpithets robot 0 (payload 8 "challenge") assassinationBlocked
    = (inr tt, g')
    /\ players g' !! 1 = Some blocker'
    /\ influenceCount blocker' = 0%Z
    /\ influence blocker' = [setRevealed (mkInfluence (Some "assassin") false);
                             setRevealed (mkInfluence (Some "captain") false)].
Proof.
  apply (bluffed_block_loses_both standardActions someEpithets robot 0 1 0
           (payload 8 "challenge") assassinationBlocked
           (mkPlayerState "alice" 0 2 [mkInfluence (Some "ambassador") false;
                                       mkInfluence (Some "contessa") false] false false)
           (mkPlayerState "bob" 3 2 [mkInfluence (Some "assassin") false;
                                     mkInfluence (Some "captain") false] false false)
           (mkPlayerState "alice" 0 2 [mkInfluence (Some "ambassador") false;
                                       mkInfluence (Some "contessa") false] false false)
           (mkInfluence (Some "assassin") false) (mkInfluence (Some "captain") false)
           (mkAction 3 None (Some ["assassin"]) true (Some ["contessa"])));
    try (vm_compute; reflexivity); try (vm_compute; discriminate).
  intros j p Hp _. apply lookup_lt_Some in Hp.
  assert (Hc : conns assassinationBlocked = [Some (human "alice"); Some (human "bob")])
    by (vm_compute; reflexivity).
  assert (Hl : length (players assassinationBlocked) = 2) by (vm_compute; reflexivity).
  rewrite Hc. rewrite Hl in Hp.
  destruct j as [|[|j]]; [eexists; reflexivity|eexists; reflexivity|lia].
Defined.


(** ** Card conservation *)

(** *** Seats *)

Lemma unrevealedCount_flags (p q : PlayerState) :
  map revealed (influence p) = map revealed (influence q) ->
  unrevealedCount p = unrevealedCount q.
Proof.
  unfold unrevealedCount, getInfluence. rewrite !length_map.
  generalize (influence p) (influence q). intros l.
  induction l as [|x l IH]; intros [|y l']; simpl; try discriminate; [reflexivity|].
  intros [= Hxy Hl]. rewrite Hxy. destruct (revealed y); simpl; auto.
Qed.

Lemma flags_setRole (r : jsrole) (j : nat) (l : list Influence) :
  map revealed (alter (setRole r) j l) = map revealed l.
Proof.
  revert j. induction l as [|x l IH]; intros [|j]; simpl; try reflexivity.
  f_equal. apply IH.
Qed.

Lemma flags_assignRoles (l : list Influence) (chosen : list jsrole) :
  map revealed (assignRoles l chosen) = map revealed l.
Proof.
  revert chosen. induction l as [|x l IH]; intros chosen; simpl; [reflexivity|].
  destruct (revealed x) eqn:Hx; simpl; rewrite IH; [rewrite Hx|]; reflexivity || (rewrite Hx; reflexivity).
Qed.

Lemma length_assignRoles (l : list Influence) (chosen : list jsrole) :
  length (assignRoles l chosen) = length l.
Proof.
  revert chosen. induction l as [|x l IH]; intros chosen; simpl; [reflexivity|].
  destruct (revealed x); simpl; rewrite IH; reflexivity.
Qed.

Lemma unrevealed_reveal (l : list Influence) (j : nat) (s : Influence) :
  l !! j = Some s -> revealed s = false ->
  S (length (List.filter (fun i => negb (revealed i)) (alter setRevealed j l)))
  = length (List.filter (fun i => negb (revealed i)) l).
Proof.
  revert j. induction l as [|x l IH]; intros [|j] Hj Hs; simpl in *; try discriminate.
  - injection Hj as ->. rewrite Hs. reflexivity.
  - specialize (IH _ Hj Hs). unfold alter in IH.
    destruct (revealed x); simpl; lia.
Qed.

Lemma unrevealed_all (l : list Influence) :
  List.filter (fun i => negb (revealed i)) (map setRevealed l) = [].
Proof. induction l; simpl; auto. Qed.

Lemma find_index_Some {A} (f : A -> bool) (l : list A) (j : nat) :
  find_index f l = Some j -> exists x, l !! j = Some x /\ f x = true.
Proof.
  revert j. induction l as [|x l IH]; intros j H; simpl in H; [discriminate|].
  destruct (f x) eqn:Hx.
  - injection H as <-. exists x. split; [reflexivity|assumption].
  - destruct (find_index f l) as [k|]; [|discriminate].
    injection H as <-. apply (IH k). reflexivity.
Qed.

(** Turning a face-down slot face up and counting one influence less. *)
Lemma seatOk_reveal (p : PlayerState) (j : nat) (s : Influence) :
  influence p !! j = Some s -> revealed s = false -> seatOk p ->
  seatOk (withCount Z.pred (withInfluence (alter setRevealed j) p)).
Proof.
  intros Hj Hs [Hc Hl]. split; simpl.
  - unfold unrevealedCount, getInfluence in *. simpl. rewrite length_map in *.
    pose proof (unrevealed_reveal _ _ _ Hj Hs). lia.
  - rewrite length_alter. assumption.
Qed.

Lemma seatOk_reveal_all (p : PlayerState) :
  seatOk p -> seatOk (withCount (fun _ => 0%Z) (withInfluence (map setRevealed) p)).
Proof.
  intros [Hc Hl]. split; simpl.
  - unfold unrevealedCount, getInfluence. simpl. rewrite unrevealed_all. reflexivity.
  - rewrite length_map. assumption.
Qed.

Lemma seatKeeping_withCash (f : Z -> Z) : seatKeeping (withCash f).
Proof. intros p. split; [intros [Hc Hl]; split; assumption|split; reflexivity]. Qed.

Lemma seatKeeping_setRole (r : jsrole) (j : nat) :
  seatKeeping (withInfluence (alter (setRole r) j)).
Proof.
  intros p. split; [|split]; simpl; rewrite ?length_alter; try reflexivity.
  intros [Hc Hl]. split; simpl.
  - rewrite Hc. f_equal. apply unrevealedCount_flags. simpl. symmetry. apply flags_setRole.
  - rewrite length_alter. assumption.
Qed.

Lemma seatKeeping_assignRoles (chosen : list jsrole) :
  seatKeeping (withInfluence (fun infl => assignRoles infl chosen)).
Proof.
  intros p. split; [|split]; simpl; rewrite ?length_assignRoles; try reflexivity.
  intros [Hc Hl]. split; simpl.
  - rewrite Hc. f_equal. apply unrevealedCount_flags. simpl. symmetry.
    apply flags_assignRoles.
  - rewrite length_assignRoles. assumption.
Qed.

(** *** Tables *)

Lemma influenceSlots_alter (f : PlayerState -> PlayerState) (i : nat) (ps : list PlayerState) :
  (forall p, length (influence (f p)) = length (influence p)) ->
  list_sum (map (fun p => length (influence p)) (alter f i ps))
  = list_sum (map (fun p => length (influence p)) ps).
Proof.
  intros Hf. revert i. induction ps as [|p ps IH]; intros [|i]; simpl; auto.
  specialize (IH i). unfold alter in IH. lia.
Qed.

Lemma nonObservers_alter (f : PlayerState -> PlayerState) (i : nat) (ps : list PlayerState) :
  (forall p, isObserver (f p) = isObserver p) ->
  length (List.filter (fun p => negb (isObserver p)) (alter f i ps))
  = length (List.filter (fun p => negb (isObserver p)) ps).
Proof.
  intros Hf. revert i. induction ps as [|p ps IH]; intros [|i]; simpl; auto.
  - rewrite Hf. destruct (isObserver p); reflexivity.
  - specialize (IH i). unfold alter in IH. destruct (isObserver p); simpl; lia.
Qed.

(** Updating one seat, the seat that is there staying well formed. *)
Lemma tableOk_alter_at (g : Game) (i : nat) (f : PlayerState -> PlayerState) :
  (forall p, players g !! i = Some p -> seatOk p -> seatOk (f p)) ->
  (forall p, isObserver (f p) = isObserver p) ->
  tableOk g -> tableOk (set_players (alter f i) g).
Proof.
  intros Hseat Hobs (Hn & Hs & Hmax). split; [|split]; simpl.
  - rewrite length_alter. assumption.
  - rewrite Forall_lookup in *. intros k p Hk.
    destruct (decide (i = k)) as [->|Hne].
    + rewrite list_lookup_alter_eq in Hk.
      destruct (players g !! k) as [q|] eqn:Hq; [|discriminate].
      injection Hk as <-. eauto.
    + rewrite list_lookup_alter_ne in Hk by assumption. eauto.
  - unfold nonObservers in *. simpl. rewrite nonObservers_alter; assumption.
Qed.

Lemma tableOk_alter (g : Game) (i : nat) (f : PlayerState -> PlayerState) :
  seatKeeping f -> tableOk g -> tableOk (set_players (alter f i) g).
Proof.
  intros Hf. apply tableOk_alter_at.
  - intros p _. apply Hf.
  - intros p. apply Hf.
Qed.

Lemma cardsInPlay_alter (g : Game) (i : nat) (f : PlayerState -> PlayerState) :
  (forall p, length (influence (f p)) = length (influence p)) ->
  cardsInPlay (set_players (alter f i) g) = cardsInPlay g.
Proof.
  intros Hf. unfold cardsInPlay, influenceSlots. simpl.
  rewrite influenceSlots_alter by assumption. reflexivity.
Qed.

(** A table holds two slots for each of its at most six players. *)
Lemma influenceSlots_players (ps : list PlayerState) :
  Forall seatOk ps ->
  list_sum (map (fun p => length (influence p)) ps)
  = 2 * length (List.filter (fun p => negb (isObserver p)) ps).
Proof.
  induction 1 as [|p ps [_ Hp] _ IH]; simpl; [reflexivity|].
  rewrite IH, Hp. destruct (isObserver p); simpl; lia.
Qed.

Lemma influenceSlots_bound (g : Game) : tableOk g -> influenceSlots g <= 12.
Proof.
  intros (_ & Hs & Hmax). unfold influenceSlots, nonObservers, MAX_PLAYERS in *.
  rewrite influenceSlots_players by assumption. lia.
Qed.

(** *** Calm and quiet computations *)

Lemma tableOk_same (g g' : Game) :
  players g' = players g -> numPlayers g' = numPlayers g -> tableOk g -> tableOk g'.
Proof. unfold tableOk, nonObservers. intros -> ->. auto. Qed.

Lemma cardsInPlay_same (g g' : Game) :
  players g' = players g -> deck g' = deck g -> cardsInPlay g' = cardsInPlay g.
Proof. unfold cardsInPlay, influenceSlots. intros -> ->. reflexivity. Qed.

Lemma quiet_calm {A} (m : M A) : quiet m -> calm m.
Proof. intros [H _]. exact H. Qed.

Lemma calm_ret {A} (a : A) : calm (ret a).
Proof. intros g. simpl. split; [auto|split; [reflexivity|auto]]. Qed.
Lemma calm_throw {A} (e : Exn) : calm (@throw A e).
Proof. intros g. simpl. split; [auto|split; [reflexivity|auto]]. Qed.
Lemma calm_get : calm get.
Proof. intros g. simpl. split; [auto|split; [reflexivity|auto]]. Qed.
Lemma calm_gets {A} (h : Game -> A) : calm (gets h).
Proof. intros g. simpl. split; [auto|split; [reflexivity|auto]]. Qed.
Lemma calm_throwIf (c : bool) (msg : string) : calm (throwIf c msg).
Proof. destruct c; intros g; simpl; (split; [auto|split; [reflexivity|auto]]). Qed.
Lemma calm_deref {A} (o : option A) : calm (deref o).
Proof. destruct o; intros g; simpl; (split; [auto|split; [reflexivity|auto]]). Qed.

Lemma calm_bind {A B} (m : M A) (k : A -> M B) :
  calm m -> (forall a, calm (k a)) -> calm (bind m k).
Proof.
  intros Hm Hk g. unfold bind. specialize (Hm g).
  destruct (m g) as [[e|a] g1]; simpl in *; [assumption|].
  destruct Hm as (Ht & Hr & Hw). destruct (Hk a g1) as (Ht' & Hr' & Hw').
  split; [auto|]. split; [congruence|auto].
Qed.

Lemma calm_when (c : bool) (m : M unit) : calm m -> calm (when c m).
Proof. destruct c; [auto|intros _; apply calm_ret]. Qed.

Lemma calm_modify_neutral (h : Game -> Game) : neutral h -> calm (modify h).
Proof.
  intros Hh g. destruct (Hh g) as (Hp & Hn & Hr & Hs & Hd). simpl.
  split; [apply tableOk_same; assumption|]. split; [assumption|]. rewrite Hs. auto.
Qed.

Lemma calm_set_deck (f : list jsrole -> list jsrole) : calm (modify (set_deck f)).
Proof. intros g. simpl. split; [apply tableOk_same; reflexivity|]. split; auto. Qed.

Lemma calm_setState (s : TurnState) : name s <> WAITING_FOR_PLAYERS -> calm (setState s).
Proof.
  intros Hs g. simpl. split; [apply tableOk_same; reflexivity|]. split; auto.
Qed.

Lemma calm_updPlayer (i : nat) (f : PlayerState -> PlayerState) :
  seatKeeping f -> calm (updPlayer i f).
Proof.
  intros Hf g. simpl. split; [apply tableOk_alter; assumption|]. split; auto.
Qed.

Lemma quiet_ret {A} (a : A) : quiet (ret a).
Proof. split; [apply calm_ret|]. intros g. simpl. split; auto. Qed.
Lemma quiet_throw {A} (e : Exn) : quiet (@throw A e).
Proof. split; [apply calm_throw|]. intros g. simpl. split; auto. Qed.
Lemma quiet_get : quiet get.
Proof. split; [apply calm_get|]. intros g. simpl. split; auto. Qed.
Lemma quiet_gets {A} (h : Game -> A) : quiet (gets h).
Proof. split; [apply calm_gets|]. intros g. simpl. split; auto. Qed.
Lemma quiet_throwIf (c : bool) (msg : string) : quiet (throwIf c msg).
Proof. split; [apply calm_throwIf|]. destruct c; intros g; simpl; split; auto. Qed.
Lemma quiet_deref {A} (o : option A) : quiet (deref o).
Proof. split; [apply calm_deref|]. destruct o; intros g; simpl; split; auto. Qed.

Lemma quiet_bind {A B} (m : M A) (k : A -> M B) :
  quiet m -> (forall a, quiet (k a)) -> quiet (bind m k).
Proof.
  intros [Hcm Hm] Hk. split.
  - apply calm_bind; [assumption|]. intros a. apply Hk.
  - intros g. unfold bind. specialize (Hm g).
    destruct (m g) as [[e|a] g1]; simpl in *; [assumption|].
    destruct Hm as (Hc & Hx). destruct (Hk a) as [_ Hka].
    destruct (Hka g1) as (Hc' & Hx'). split; [congruence|auto].
Qed.

Lemma quiet_when (c : bool) (m : M unit) : quiet m -> quiet (when c m).
Proof. destruct c; [auto|intros _; apply quiet_ret]. Qed.

Lemma quiet_modify_neutral (h : Game -> Game) : neutral h -> quiet (modify h).
Proof.
  intros Hh. split; [apply calm_modify_neutral; assumption|].
  intros g. destruct (Hh g) as (Hp & Hn & Hr & Hs & Hd). simpl.
  split; [apply cardsInPlay_same; assumption|]. rewrite Hs. auto.
Qed.

Lemma quiet_setState (s : TurnState) :
  name s <> WAITING_FOR_PLAYERS -> name s <> EXCHANGE -> quiet (setState s).
Proof.
  intros Hw Hx. split; [apply calm_setState; assumption|].
  intros g. simpl. split; [reflexivity|auto].
Qed.

Lemma quiet_updPlayer (i : nat) (f : PlayerState -> PlayerState) :
  seatKeeping f -> quiet (updPlayer i f).
Proof.
  intros Hf. split; [apply calm_updPlayer; assumption|].
  intros g. simpl. split; [|auto]. apply cardsInPlay_alter. intros p. apply Hf.
Qed.

Create HintDb calm.
Create HintDb quiet.

#[local] Hint Resolve seatKeeping_withCash seatKeeping_setRole seatKeeping_assignRoles : calm quiet.

Ltac neutral_write := intro; repeat split; reflexivity.

Ltac quiet_step :=
  match goal with
  | |- quiet (bind _ _) => apply quiet_bind; [|intro]
  | |- quiet (ret _) => apply quiet_ret
  | |- quiet (throw _) => apply quiet_throw
  | |- quiet get => apply quiet_get
  | |- quiet (gets _) => apply quiet_gets
  | |- quiet (modify _) => apply quiet_modify_neutral; neutral_write
  | |- quiet (throwIf _ _) => apply quiet_throwIf
  | |- quiet (deref _) => apply quiet_deref
  | |- quiet (when _ _) => apply quiet_when
  | |- quiet (setState _) => apply quiet_setState; discriminate
  | |- quiet (updPlayer _ _) => apply quiet_updPlayer; solve [auto with quiet]
  | |- quiet (if ?c then _ else _) => destruct c eqn:?
  | |- quiet (match ?x with _ => _ end) => destruct x eqn:?
  | |- quiet _ => solve [auto with quiet]
  end.

Ltac quiet_auto := cbv zeta; repeat (quiet_step; cbv zeta).

Ltac calm_step :=
  match goal with
  | |- calm (bind _ _) => apply calm_bind; [|intro]
  | |- calm (ret _) => apply calm_ret
  | |- calm (throw _) => apply calm_throw
  | |- calm get => apply calm_get
  | |- calm (gets _) => apply calm_gets
  | |- calm (modify (set_deck _)) => apply calm_set_deck
  | |- calm (modify _) => apply calm_modify_neutral; neutral_write
  | |- calm (throwIf _ _) => apply calm_throwIf
  | |- calm (deref _) => apply calm_deref
  | |- calm (when _ _) => apply calm_when
  | |- calm (setState _) => apply calm_setState; discriminate
  | |- calm (updPlayer _ _) => apply calm_updPlayer; solve [auto with calm]
  | |- calm (if ?c then _ else _) => destruct c eqn:?
  | |- calm (match ?x with _ => _ end) => destruct x eqn:?
  | |- calm _ => first [solve [auto with calm] | apply quiet_calm; solve [auto with quiet]]
  end.

Ltac calm_auto := cbv zeta; repeat (calm_step; cbv zeta).

(** *** The quiet helpers *)

Lemma rand_quiet n : quiet (rand n).
Proof.
  split; intros g; unfold rand; destruct (rng g); simpl.
  - split; [auto|split; [reflexivity|auto]].
  - split; [apply tableOk_same; reflexivity|split; [reflexivity|auto]].
  - split; [reflexivity|auto].
  - split; [reflexivity|auto].
Qed.
#[local] Hint Resolve rand_quiet : quiet.

Lemma curTurnHistGroup_quiet : quiet curTurnHistGroup.
Proof. unfold curTurnHistGroup. quiet_auto. Qed.
Lemma nextAdhocHistGroup_quiet : quiet nextAdhocHistGroup.
Proof. unfold nextAdhocHistGroup. quiet_auto. Qed.
Lemma addHistoryAsync_quiet d t gr m : quiet (addHistoryAsync d t gr m).
Proof. unfold addHistoryAsync. quiet_auto. Qed.
Lemma addHistory_quiet t gr m : quiet (addHistory t gr m).
Proof. unfold addHistory. quiet_auto. Qed.
Lemma emitState_quiet : quiet emitState.
Proof. unfold emitState. quiet_auto. Qed.
Lemma playerAt_quiet i : quiet (playerAt i).
Proof. unfold playerAt. quiet_auto. Qed.
Lemma connAt_quiet i : quiet (connAt i).
Proof. unfold connAt. quiet_auto. Qed.
Lemma resetAllows_quiet i : quiet (resetAllows i).
Proof. unfold resetAllows. quiet_auto. Qed.
#[local] Hint Resolve curTurnHistGroup_quiet nextAdhocHistGroup_quiet addHistoryAsync_quiet
  addHistory_quiet emitState_quiet playerAt_quiet connAt_quiet resetAllows_quiet : quiet.

Lemma destroyGame_quiet : quiet destroyGame.
Proof. unfold destroyGame. quiet_auto. Qed.
Lemma checkForGameEnd_quiet : quiet checkForGameEnd.
Proof. unfold checkForGameEnd. quiet_auto. Qed.
#[local] Hint Resolve destroyGame_quiet checkForGameEnd_quiet : quiet.
Lemma afterPlayerDeath_quiet i : quiet (afterPlayerDeath i).
Proof. unfold afterPlayerDeath. quiet_auto. Qed.
#[local] Hint Resolve afterPlayerDeath_quiet : quiet.
Lemma nextPlayerLoop_quiet k cur : quiet (nextPlayerLoop k cur).
Proof. induction k; simpl; quiet_auto. Qed.
#[local] Hint Resolve nextPlayerLoop_quiet : quiet.
Lemma nextTurn_quiet : quiet nextTurn.
Proof. unfold nextTurn, nextPlayerIdx. quiet_auto. Qed.
#[local] Hint Resolve nextTurn_quiet : quiet.
Lemma shuffleLoop_quiet fuel a s : quiet (shuffleLoop fuel a s).
Proof. revert a s. induction fuel; intros; simpl; quiet_auto. Qed.
#[local] Hint Resolve shuffleLoop_quiet : quiet.
Lemma shuffle_quiet a : quiet (shuffle a).
Proof. unfold shuffle. quiet_auto. Qed.
#[local] Hint Resolve shuffle_quiet : quiet.
Lemma everyoneAllowsLoop_quiet k : quiet (everyoneAllowsLoop k).
Proof. induction k; simpl; quiet_auto. Qed.
#[local] Hint Resolve everyoneAllowsLoop_quiet : quiet.
Lemma everyoneAllows_quiet : quiet everyoneAllows.
Proof. unfold everyoneAllows. quiet_auto. Qed.
#[local] Hint Resolve everyoneAllows_quiet : quiet.
Lemma revealState_quiet r m a w : quiet (revealState r m a w).
Proof. unfold revealState. quiet_auto. Qed.
#[local] Hint Resolve revealState_quiet : quiet.

Lemma revealFirstInfluence_quiet i : quiet (revealFirstInfluence i).
Proof.
  assert (Hrun : forall g,
             snd (revealFirstInfluence i g) = g
             \/ exists p j s,
                 players g !! i = Some p /\ influence p !! j = Some s /\ revealed s = false
                 /\ snd (revealFirstInfluence i g)
                    = set_players (alter (withCount Z.pred) i)
                        (set_players (alter (withInfluence (alter setRevealed j)) i) g)).
  { intros g. unfold revealFirstInfluence. go.
    destruct (players g !! i) as [p|] eqn:Hp; [|left; reflexivity].
    destruct (find_index _ (influence p)) as [j|] eqn:Hj; [|left; reflexivity].
    apply find_index_Some in Hj as (s & Hs & Hrev). right. exists p, j, s.
    split; [reflexivity|]. split; [assumption|]. split; [|reflexivity].
    destruct (revealed s); [discriminate|reflexivity]. }
  split; intros g; destruct (Hrun g) as [->|(p & j & s & Hp & Hs & Hrev & ->)]; simpl.
  - split; [auto|split; [reflexivity|auto]].
  - split; [|split; [reflexivity|auto]]. intros Ht.
    apply (tableOk_same
             (set_players (alter (fun q => withCount Z.pred
                                             (withInfluence (alter setRevealed j) q)) i) g)).
    + simpl. apply list_alter_alter_eq.
    + reflexivity.
    + apply tableOk_alter_at; [|reflexivity|assumption].
      intros q Hq. rewrite Hp in Hq. injection Hq as <-. apply (seatOk_reveal p j s); assumption.
  - split; [reflexivity|auto].
  - split; [|auto].
    rewrite (cardsInPlay_alter _ i (withCount Z.pred)) by reflexivity.
    apply cardsInPlay_alter. intros q. simpl. apply length_alter.
Qed.
#[local] Hint Resolve revealFirstInfluence_quiet : quiet.

Lemma shuffleLoop_length (fuel : nat) (a acc : list jsrole) (g : Game) :
  fuel = length a ->
  exists d g', shuffleLoop fuel a acc g = (inr d, g')
               /\ length d = length acc + length a.
Proof.
  revert a acc g. induction fuel as [|fuel IH]; intros a acc g Hf.
  - destruct a; [|discriminate]. eexists _, _. split; [reflexivity|]. simpl. lia.
  - cbn [shuffleLoop]. go. unfold rand.
    assert (Hi : forall x, (match length a with 0 => 0 | S _ => x mod length a end)
                           < length a).
    { intros x. rewrite <- Hf. apply Nat.mod_upper_bound. discriminate. }
    destruct (rng g) as [|x r]; go.
    + destruct (lookup_lt_is_Some_2 a 0) as [e He]; [lia|]. rewrite He.
      destruct (IH (delete 0 a) (acc ++ [e]) g) as (d & g' & -> & Hd).
      { rewrite length_delete by eauto. lia. }
      eexists _, _. split; [reflexivity|].
      rewrite Hd, length_app, length_delete by eauto. simpl. lia.
    + destruct (lookup_lt_is_Some_2 a _ (Hi x)) as [e He]. rewrite He.
      match goal with |- context [shuffleLoop fuel ?a' ?acc' ?g0] =>
        destruct (IH a' acc' g0) as (d & g' & -> & Hd) end.
      { rewrite length_delete by eauto. lia. }
      eexists _, _. split; [reflexivity|].
      rewrite Hd, length_app, length_delete by eauto. simpl. lia.
Qed.

Lemma shuffle_length (a : list jsrole) (g : Game) :
  exists d g', shuffle a g = (inr d, g') /\ length d = length a.
Proof.
  unfold shuffle. go. destruct (fixedDeck g).
  - eexists _, _. split; reflexivity.
  - destruct (shuffleLoop_length (length a) a [] g eq_refl) as (d & g' & -> & Hd).
    eexists _, _. split; [reflexivity|exact Hd].
Qed.

Lemma length_removelast {A} (l : list A) : length (removelast l) = length l - 1.
Proof.
  induction l as [|x l IH]; [reflexivity|].
  destruct l as [|y l]; [reflexivity|]. simpl in *. lia.
Qed.

Lemma swapRole_quiet r : quiet (swapRole r).
Proof.
  split.
  - unfold swapRole, deckPop. calm_auto.
  - intros g. unfold swapRole. go.
    match goal with |- context [shuffle ?a ?g0] =>
      destruct (shuffle_length a g0) as (d & g' & Hrun & Hd);
      pose proof (shuffle_quiet a) as [_ Hq]; specialize (Hq g0); rewrite Hrun in *
    end.
    match goal with H : shuffle ?a ?g0 = _ |- _ =>
      destruct (shuffle_returns a g0) as (d2 & g2 & Hrun2 & _ & _ & _ & Hp & _);
      rewrite H in Hrun2; injection Hrun2 as <- <-
    end.
    go. simpl in Hq, Hp. destruct Hq as (Hc & Hx).
    split; [|exact Hx].
    unfold cardsInPlay, influenceSlots in *. simpl in *.
    rewrite length_removelast, Hd, length_app, Hp in *. simpl in *. lia.
Qed.
#[local] Hint Resolve swapRole_quiet : quiet.

Lemma deckPop_calm : calm deckPop.
Proof. unfold deckPop. calm_auto. Qed.
#[local] Hint Resolve deckPop_calm : calm.

(** *** Computations that only read, and idle and passive ones *)

Lemma reading_ret {A} (a : A) : reading (ret a).
Proof. intros g. reflexivity. Qed.
Lemma reading_throw {A} (e : Exn) : reading (@throw A e).
Proof. intros g. reflexivity. Qed.
Lemma reading_get : reading get.
Proof. intros g. reflexivity. Qed.
Lemma reading_gets {A} (h : Game -> A) : reading (gets h).
Proof. intros g. reflexivity. Qed.
Lemma reading_throwIf (c : bool) (msg : string) : reading (throwIf c msg).
Proof. destruct c; intros g; reflexivity. Qed.
Lemma reading_deref {A} (o : option A) : reading (deref o).
Proof. destruct o; intros g; reflexivity. Qed.
Lemma reading_bind {A B} (m : M A) (k : A -> M B) :
  reading m -> (forall a, reading (k a)) -> reading (bind m k).
Proof.
  intros Hm Hk g. unfold bind. specialize (Hm g).
  destruct (m g) as [[e|a] g1]; simpl in *; [assumption|].
  rewrite (Hk a g1). assumption.
Qed.
Lemma reading_when (c : bool) (m : M unit) : reading m -> reading (when c m).
Proof. destruct c; [auto|intros _; apply reading_ret]. Qed.

Ltac reading_step :=
  match goal with
  | |- reading (bind _ _) => apply reading_bind; [|intro]
  | |- reading (ret _) => apply reading_ret
  | |- reading (throw _) => apply reading_throw
  | |- reading get => apply reading_get
  | |- reading (gets _) => apply reading_gets
  | |- reading (throwIf _ _) => apply reading_throwIf
  | |- reading (deref _) => apply reading_deref
  | |- reading (when _ _) => apply reading_when
  | |- reading (playerAt _) => unfold playerAt
  | |- reading (connAt _) => unfold connAt
  | |- reading (if ?c then _ else _) => destruct c eqn:?
  | |- reading (match ?x with _ => _ end) => destruct x eqn:?
  end.

Ltac reading_auto := cbv zeta; repeat (reading_step; cbv zeta).

Lemma idle_ret {A} (a : A) : idle (ret a).
Proof. intros g. repeat split. Qed.
Lemma idle_throw {A} (e : Exn) : idle (@throw A e).
Proof. intros g. repeat split. Qed.
Lemma idle_get : idle get.
Proof. intros g. repeat split. Qed.
Lemma idle_gets {A} (h : Game -> A) : idle (gets h).
Proof. intros g. repeat split. Qed.
Lemma idle_throwIf (c : bool) (msg : string) : idle (throwIf c msg).
Proof. destruct c; intros g; repeat split. Qed.
Lemma idle_deref {A} (o : option A) : idle (deref o).
Proof. destruct o; intros g; repeat split. Qed.
Lemma idle_modify (h : Game -> Game) : neutral h -> idle (modify h).
Proof. intros Hh g. exact (Hh g). Qed.
Lemma idle_bind {A B} (m : M A) (k : A -> M B) :
  idle m -> (forall a, idle (k a)) -> idle (bind m k).
Proof.
  intros Hm Hk g. unfold bind. specialize (Hm g).
  destruct (m g) as [[e|a] g1]; simpl in *; [assumption|].
  destruct Hm as (H1 & H2 & H3 & H4 & H5).
  destruct (Hk a g1) as (K1 & K2 & K3 & K4 & K5).
  repeat split; congruence.
Qed.
Lemma idle_when (c : bool) (m : M unit) : idle m -> idle (when c m).
Proof. destruct c; [auto|intros _; apply idle_ret]. Qed.

Create HintDb idle.

Ltac idle_step :=
  match goal with
  | |- idle (bind _ _) => apply idle_bind; [|intro]
  | |- idle (ret _) => apply idle_ret
  | |- idle (throw _) => apply idle_throw
  | |- idle get => apply idle_get
  | |- idle (gets _) => apply idle_gets
  | |- idle (modify _) => apply idle_modify; neutral_write
  | |- idle (throwIf _ _) => apply idle_throwIf
  | |- idle (deref _) => apply idle_deref
  | |- idle (when _ _) => apply idle_when
  | |- idle (if ?c then _ else _) => destruct c eqn:?
  | |- idle (match ?x with _ => _ end) => destruct x eqn:?
  | |- idle _ => solve [auto with idle]
  end.

Ltac idle_auto := cbv zeta; repeat (idle_step; cbv zeta).

Lemma rand_idle n : idle (rand n).
Proof. intros g. unfold rand. destruct (rng g); repeat split. Qed.
#[local] Hint Resolve rand_idle : idle.
Lemma curTurnHistGroup_idle : idle curTurnHistGroup.
Proof. unfold curTurnHistGroup. idle_auto. Qed.
Lemma nextAdhocHistGroup_idle : idle nextAdhocHistGroup.
Proof. unfold nextAdhocHistGroup. idle_auto. Qed.
Lemma addHistoryAsync_idle d t gr m : idle (addHistoryAsync d t gr m).
Proof. unfold addHistoryAsync. idle_auto. Qed.
Lemma addHistory_idle t gr m : idle (addHistory t gr m).
Proof. unfold addHistory. idle_auto. Qed.
Lemma emitState_idle : idle emitState.
Proof. unfold emitState. idle_auto. Qed.
Lemma playerAt_idle i : idle (playerAt i).
Proof. unfold playerAt. idle_auto. Qed.
Lemma connAt_idle i : idle (connAt i).
Proof. unfold connAt. idle_auto. Qed.
Lemma resetAllows_idle i : idle (resetAllows i).
Proof. unfold resetAllows. idle_auto. Qed.
#[local] Hint Resolve curTurnHistGroup_idle nextAdhocHistGroup_idle addHistoryAsync_idle
  addHistory_idle emitState_idle playerAt_idle connAt_idle resetAllows_idle : idle.
Lemma everyoneAllowsLoop_idle k : idle (everyoneAllowsLoop k).
Proof. induction k; simpl; idle_auto. Qed.
#[local] Hint Resolve everyoneAllowsLoop_idle : idle.
Lemma everyoneAllows_idle : idle everyoneAllows.
Proof. unfold everyoneAllows. idle_auto. Qed.
Lemma createGameProxy_idle i o : idle (createGameProxy i o).
Proof. unfold createGameProxy. idle_auto. Qed.
#[local] Hint Resolve everyoneAllows_idle createGameProxy_idle : idle.
Lemma rewireLoop_idle k : idle (rewireLoop k).
Proof. induction k; simpl; idle_auto. Qed.
Lemma addHistoryEach_idle t gr ms : idle (addHistoryEach t gr ms).
Proof. induction ms; simpl; idle_auto. Qed.
#[local] Hint Resolve rewireLoop_idle addHistoryEach_idle : idle.

Lemma idle_keeps_state {A} (m : M A) : idle m -> keeps state m.
Proof. intros Hm g. apply Hm. Qed.

Lemma gameOver_same (g g' : Game) : state g' = state g -> gameOver g -> gameOver g'.
Proof. unfold gameOver. intros ->. auto. Qed.

Lemma idle_passive {A} (m : M A) : idle m -> passive m.
Proof.
  intros Hm g. destruct (Hm g) as (H1 & H2 & H3 & H4 & H5).
  repeat split; try assumption. left. assumption.
Qed.

Lemma passive_bind {A B} (m : M A) (k : A -> M B) :
  passive m -> (forall a, passive (k a)) -> passive (bind m k).
Proof.
  intros Hm Hk g. unfold bind. specialize (Hm g).
  destruct (m g) as [[e|a] g1]; simpl in *; [assumption|].
  destruct Hm as (H1 & H2 & H3 & H4 & H5).
  destruct (Hk a g1) as (K1 & K2 & K3 & K4 & K5).
  repeat split; try congruence.
  destruct K5 as [K5|K5]; [|right; assumption].
  destruct H5 as [H5|H5]; [left; congruence|right].
  apply (gameOver_same g1); assumption.
Qed.

Lemma passive_when (c : bool) (m : M unit) : passive m -> passive (when c m).
Proof. destruct c; [auto|intros _; apply idle_passive, idle_ret]. Qed.

Lemma passive_setState (s : TurnState) :
  name s = GAME_WON \/ s = bare DESTROYED -> passive (setState s).
Proof. intros Hs g. simpl. repeat split. right. exact Hs. Qed.

Create HintDb passive.

Ltac passive_step :=
  match goal with
  | |- passive (bind _ _) => apply passive_bind; [|intro]
  | |- passive (when _ _) => apply passive_when
  | |- passive (setState _) => apply passive_setState; solve [left; reflexivity | right; reflexivity]
  | |- passive (if ?c then _ else _) => destruct c eqn:?
  | |- passive (match ?x with _ => _ end) => destruct x eqn:?
  | |- passive _ => first [solve [auto with passive] | apply idle_passive; solve [idle_auto]]
  end.

Ltac passive_auto := cbv zeta; repeat (passive_step; cbv zeta).

Lemma destroyGame_passive : passive destroyGame.
Proof. unfold destroyGame. passive_auto. Qed.
Lemma checkForGameEnd_passive : passive checkForGameEnd.
Proof. unfold checkForGameEnd. passive_auto. Qed.
#[local] Hint Resolve destroyGame_passive checkForGameEnd_passive : passive.
Lemma afterPlayerDeath_passive i : passive (afterPlayerDeath i).
Proof. unfold afterPlayerDeath. passive_auto. Qed.
#[local] Hint Resolve afterPlayerDeath_passive : passive.

Lemma passive_quiet {A} (m : M A) : passive m -> quiet m.
Proof.
  intros Hm. split; intros g; destruct (Hm g) as (H1 & H2 & H3 & H4 & H5).
  - split; [apply tableOk_same; assumption|]. split; [assumption|].
    destruct H5 as [->|[H5|H5]]; [auto|rewrite H5; discriminate..].
  - split; [apply cardsInPlay_same; assumption|].
    destruct H5 as [->|[H5|H5]]; [auto|rewrite H5; discriminate..].
Qed.

(** *** What the card count needs from a step *)

Lemma drawnCards_same (g g' : Game) :
  state g' = state g -> players g' = players g -> drawnCards g' = drawnCards g.
Proof. unfold drawnCards, offerCards. intros -> ->. reflexivity. Qed.

Lemma settled_conserving (g : Game) : settled g -> conserving g.
Proof.
  intros (Hs & Hx & Hc). split; [assumption|].
  unfold drawnCards. destruct (name (state g)); try lia. contradiction.
Qed.

Lemma conserving_resolved (g : Game) : conserving g -> resolved g.
Proof. intros (Hs & Hc). split; [assumption|right; assumption]. Qed.

Lemma settled_resolved (g : Game) : settled g -> resolved g.
Proof. intros H. apply conserving_resolved, settled_conserving, H. Qed.

Lemma calm_sound {A} (m : M A) (g : Game) : calm m -> sound g -> sound (snd (m g)).
Proof.
  intros Hm (Ht & Hr & Hw). destruct (Hm g) as (H1 & H2 & H3).
  split; [auto|]. split; [congruence|auto].
Qed.

Lemma quiet_settled {A} (m : M A) (g : Game) : quiet m -> settled g -> settled (snd (m g)).
Proof.
  intros [Hc Hq] (Hs & Hx & Hn). destruct (Hq g) as (H1 & H2).
  split; [apply calm_sound; assumption|]. split; [auto|congruence].
Qed.

Lemma passive_resolved {A} (m : M A) (g : Game) :
  passive m -> resolved g -> resolved (snd (m g)).
Proof.
  intros Hm (Hs & Hr). split; [apply calm_sound; [apply quiet_calm, passive_quiet|]; assumption|].
  destruct (Hm g) as (H1 & H2 & H3 & H4 & H5).
  destruct H5 as [H5|H5]; [|left; assumption].
  destruct Hr as [Hr|Hr]; [left; apply (gameOver_same g); assumption|right].
  rewrite (drawnCards_same g), (cardsInPlay_same g); assumption.
Qed.

Lemma fairAt_bind {A B} (m : M A) (k : A -> M B) (g : Game) :
  (settled g -> match m g with
                | (inl _, g1) => resolved g1
                | (inr a, g1) => settled g1 /\ fairAt (k a) g1
                end) ->
  fairAt (bind m k) g.
Proof.
  intros H Hg. specialize (H Hg). unfold bind.
  destruct (m g) as [[e|a] g1]; simpl; [assumption|]. destruct H as [H1 H2]. apply H2, H1.
Qed.

Lemma fairAt_get {B} (k : Game -> M B) (g : Game) : fairAt (k g) g -> fairAt (bind get k) g.
Proof. intros H. exact H. Qed.

Lemma fairAt_throwIf {B} (c : bool) (msg : string) (k : M B) (g : Game) :
  (c = false -> fairAt k g) -> fairAt (run throwIf c msg; k) g.
Proof.
  intros H. destruct c; [|exact (H eq_refl)]. intros Hg. apply settled_resolved, Hg.
Qed.

Lemma fairAt_reading {A B} (m : M A) (k : A -> M B) (g : Game) :
  reading m -> (forall a, fairAt (k a) g) -> fairAt (bind m k) g.
Proof.
  intros Hm Hk. apply fairAt_bind. intros Hg. specialize (Hm g).
  destruct (m g) as [[e|a] g1]; simpl in Hm; subst g1.
  - apply settled_resolved, Hg.
  - split; [assumption|apply Hk].
Qed.

Lemma fairAt_still {A B} (m : M A) (k : A -> M B) (g : Game) :
  quiet m -> keeps state m ->
  (forall a g1, state g1 = state g -> fairAt (k a) g1) -> fairAt (bind m k) g.
Proof.
  intros Hq Hs Hk. apply fairAt_bind. intros Hg.
  pose proof (quiet_settled m g Hq Hg) as Hg1. specialize (Hs g).
  destruct (m g) as [[e|a] g1]; simpl in *.
  - apply settled_resolved, Hg1.
  - split; [assumption|]. apply Hk, Hs.
Qed.

Lemma fair_quiet {A} (m : M A) : quiet m -> fair m.
Proof. intros Hq g Hg. apply settled_resolved, quiet_settled; assumption. Qed.

Lemma fair_bind_quiet {A B} (m : M A) (k : A -> M B) :
  quiet m -> (forall a, fair (k a)) -> fair (bind m k).
Proof.
  intros Hq Hk g. apply fairAt_bind. intros Hg.
  pose proof (quiet_settled m g Hq Hg) as Hg1.
  destruct (m g) as [[e|a] g1]; simpl in *.
  - apply settled_resolved, Hg1.
  - split; [assumption|apply Hk].
Qed.

Lemma fairAt_then_passive {A B} (m : M A) (k : A -> M B) (g : Game) :
  fairAt m g -> (forall a, passive (k a)) -> fairAt (bind m k) g.
Proof.
  intros Hm Hk Hg. specialize (Hm Hg). unfold bind.
  destruct (m g) as [[e|a] g1]; simpl in *; [assumption|].
  apply passive_resolved; [apply Hk|assumption].
Qed.

Lemma fair_then_passive {A B} (m : M A) (k : A -> M B) :
  fair m -> (forall a, passive (k a)) -> fair (bind m k).
Proof. intros Hm Hk g. apply fairAt_then_passive; [apply Hm|assumption]. Qed.

Lemma fair_when (c : bool) (m : M unit) : fair m -> fair (when c m).
Proof. destruct c; [auto|intros _; apply fair_quiet, quiet_ret]. Qed.

Lemma turnStepAt_quiet (m : M bool) (g : Game) : quiet m -> turnStepAt m g.
Proof.
  intros Hq Hg. pose proof (quiet_settled m g Hq Hg) as Hg1.
  destruct (m g) as [[e|[|]] g1]; simpl in *;
    [apply settled_conserving| |apply settled_conserving]; assumption.
Qed.

Lemma turnStepAt_get (k : Game -> M bool) (g : Game) :
  turnStepAt (k g) g -> turnStepAt (bind get k) g.
Proof. intros H. exact H. Qed.

Lemma turnStepAt_reading {A} (m : M A) (k : A -> M bool) (g : Game) :
  reading m -> (forall a, turnStepAt (k a) g) -> turnStepAt (bind m k) g.
Proof.
  intros Hm Hk Hg. specialize (Hm g). unfold bind.
  destruct (m g) as [[e|a] g1]; simpl in Hm; subst g1.
  - apply settled_conserving, Hg.
  - apply Hk, Hg.
Qed.

Lemma turnStepAt_still {A} (m : M A) (k : A -> M bool) (g : Game) :
  quiet m -> keeps state m ->
  (forall a g1, state g1 = state g -> turnStepAt (k a) g1) -> turnStepAt (bind m k) g.
Proof.
  intros Hq Hs Hk Hg. pose proof (quiet_settled m g Hq Hg) as Hg1. specialize (Hs g).
  unfold bind. destruct (m g) as [[e|a] g1]; simpl in *.
  - apply settled_conserving, Hg1.
  - apply Hk; assumption.
Qed.

(** The step that answers whether the turn is over, and then [nextTurn]. *)
Lemma fairAt_turn_after (m : M bool) (p : M unit) (g : Game) :
  turnStepAt m g -> passive p -> fairAt (do e <- m; run p; when e nextTurn) g.
Proof.
  intros Hm Hp Hg. specialize (Hm Hg). unfold bind.
  destruct (m g) as [[e|b] g1]; simpl.
  - apply conserving_resolved, Hm.
  - assert (Hres : resolved (snd (p g1))).
    { apply passive_resolved; [assumption|].
      destruct b; [apply settled_resolved|apply conserving_resolved]; assumption. }
    pose proof (quiet_settled p g1 (passive_quiet p Hp)) as Hset.
    destruct (p g1) as [[e|[]] g2]; simpl in *; [assumption|].
    destruct b; simpl; [|assumption].
    apply settled_resolved, quiet_settled; [apply nextTurn_quiet|auto].
Qed.

Lemma fairAt_turn (m : M bool) (g : Game) :
  turnStepAt m g -> fairAt (do e <- m; when e nextTurn) g.
Proof.
  intros Hm Hg. specialize (Hm Hg). unfold bind.
  destruct (m g) as [[e|b] g1]; simpl.
  - apply conserving_resolved, Hm.
  - destruct b; simpl; [|apply conserving_resolved, Hm].
    apply settled_resolved, quiet_settled; [apply nextTurn_quiet|auto].
Qed.

Lemma fairAt_turn_ret {A} (m : M bool) (a : A) (g : Game) :
  turnStepAt m g -> fairAt (do e <- m; run when e nextTurn; ret a) g.
Proof.
  intros Hm Hg. specialize (Hm Hg). unfold bind.
  destruct (m g) as [[e|b] g1]; simpl.
  - apply conserving_resolved, Hm.
  - destruct b; simpl; [|apply conserving_resolved, Hm].
    pose proof (quiet_settled nextTurn g1 nextTurn_quiet Hm) as H.
    destruct (nextTurn g1) as [[e|[]] g2]; simpl in *; apply settled_resolved, H.
Qed.

Section Cards.
Variable actions : string -> option Action.
Variable epithets : list string.
Variable aiPlayer : Connection.

Lemma playAction_calm i a : calm (playAction actions i a).
Proof. unfold playAction. calm_auto. Qed.
Hint Resolve playAction_calm : calm.

Lemma afterSuccessfulChallenge_calm : calm (afterSuccessfulChallenge actions).
Proof. unfold afterSuccessfulChallenge. calm_auto. Qed.
Lemma afterIncorrectChallenge_calm : calm (afterIncorrectChallenge actions).
Proof. unfold afterIncorrectChallenge. calm_auto. Qed.
Hint Resolve afterSuccessfulChallenge_calm afterIncorrectChallenge_calm : calm.

Lemma allow_calm i : calm (allow actions i).
Proof. unfold allow. calm_auto. Qed.
Hint Resolve allow_calm : calm.

Lemma challenge_calm i j r : calm (challenge actions i j r).
Proof. unfold challenge. calm_auto. Qed.
Hint Resolve challenge_calm : calm.

Lemma commandPlayAction_calm i c : calm (commandPlayAction actions i c).
Proof. unfold commandPlayAction. calm_auto. Qed.
Lemma commandChallenge_calm i c : calm (commandChallenge actions i c).
Proof. unfold commandChallenge. calm_auto. Qed.
Lemma commandBlock_quiet i c : quiet (commandBlock actions i c).
Proof. unfold commandBlock. quiet_auto. Qed.
Lemma commandAllow_calm i c : calm (commandAllow actions i c).
Proof. unfold commandAllow. calm_auto. Qed.
Lemma commandExchange_calm i c : calm (commandExchange i c).
Proof. unfold commandExchange. calm_auto. Qed.
Lemma commandInterrogate_quiet i c : quiet (commandInterrogate i c).
Proof. unfold commandInterrogate. quiet_auto. Qed.


(** *** The steps of a turn *)

Lemma updPlayer_keeps_state i f : keeps state (updPlayer i f).
Proof. intros g. reflexivity. Qed.

Lemma playAction_quiet i a :
  str_is (as_action a) "exchange" = false -> quiet (playAction actions i a).
Proof. intros Hx. unfold playAction. quiet_auto. all: congruence. Qed.

(** Opening an exchange offer: the cards that leave the deck are in the
    offer, next to copies of the actor's own face-down cards. *)
Lemma playAction_exchange i a g :
  str_is (as_action a) "exchange" = true -> i = playerIdx (state g) -> settled g ->
  match playAction actions i a g with
  | (inr true, g') => settled g'
  | (_, g') => conserving g'
  end.
Proof.
  intros Hx Hi Hg. pose proof (settled_conserving g Hg) as Hcons.
  destruct (as_action a) as [s|] eqn:Ha; [|discriminate]. simpl in Hx.
  apply String.eqb_eq in Hx. subst s.
  unfold playAction. set (amb := existsb (String.eqb "ambassador")). go.
  destruct (at_js (players g) i) as [player|] eqn:Hp; go; [|exact Hcons].
  rewrite Ha. go.
  destruct (actions "exchange") as [act|]; go; [|exact Hcons].
  destruct Hg as ((Ht & Hr & Hw) & Hx & Hc).
  pose proof (influenceSlots_bound g Ht) as Hslots. subst i.
  assert (Htable : forall g', players g' = alter (withCash (fun c => (c + default 0 (a_gain act))%Z))
                                            (seat (playerIdx (state g))) (players g) ->
                              numPlayers g' = numPlayers g -> tableOk g').
  { intros g' Hp' Hn'.
    apply (tableOk_same (set_players (alter (withCash (fun c => (c + default 0 (a_gain act))%Z))
                                        (seat (playerIdx (state g)))) g));
      [assumption..|].
    apply tableOk_alter; [apply seatKeeping_withCash|assumption]. }
  destruct (amb (roles g)); go.
  all: split; [split; [apply Htable; reflexivity|split; [assumption|discriminate]]|].
  all: unfold cardsInPlay, influenceSlots, drawnCards, offerCards in *; simpl.
  all: rewrite influenceSlots_alter by reflexivity; rewrite !length_removelast.
  all: match goal with |- context [at_js ?l ?j] => destruct (at_js l j) end; simpl; unfold unrevealedCount; lia.
Qed.

Lemma playAction_turn i a g :
  i = playerIdx (state g) -> turnStepAt (playAction actions i a) g.
Proof.
  intros Hi. destruct (str_is (as_action a) "exchange") eqn:Hx.
  - intros Hg. apply playAction_exchange; assumption.
  - apply turnStepAt_quiet, playAction_quiet, Hx.
Qed.

Lemma afterSuccessfulChallenge_turn g : turnStepAt (afterSuccessfulChallenge actions) g.
Proof.
  unfold afterSuccessfulChallenge. apply turnStepAt_get.
  destruct (truthy (blockingRole (state g))).
  - apply playAction_turn. reflexivity.
  - apply turnStepAt_quiet, quiet_ret.
Qed.

Lemma afterIncorrectChallenge_turn g : turnStepAt (afterIncorrectChallenge actions) g.
Proof.
  unfold afterIncorrectChallenge. apply turnStepAt_get. cbv zeta.
  destruct (truthy (blockingRole (state g))); [apply turnStepAt_quiet, quiet_ret|].
  apply turnStepAt_reading; [reading_auto|]. intros act.
  apply turnStepAt_reading; [reading_auto|]. intros [|].
  - apply turnStepAt_quiet. quiet_auto.
  - apply playAction_turn. reflexivity.
Qed.

(** [allow], whatever it answers, loses no card. *)
Lemma allow_fair i : fair (allow actions i).
Proof.
  intros g. unfold allow. apply fairAt_get. cbv zeta.
  destruct (StateName_eqb (name (state g)) BLOCK_RESPONSE).
  { apply fair_quiet. quiet_auto. }
  destruct (_ || _); [|apply fair_quiet, quiet_throw].
  apply fairAt_reading; [reading_auto|]. intros _.
  apply fairAt_still.
  - quiet_auto.
  - apply idle_keeps_state. idle_auto.
  - intros [|] g1 Hst; [|apply fair_quiet, quiet_ret].
    apply fairAt_turn_ret, playAction_turn. rewrite Hst. reflexivity.
Qed.

(** *** Challenges and commands *)

Lemma afterIncorrectChallenge_death_fair i :
  fair (do endOfTurn <- afterIncorrectChallenge actions;
        run afterPlayerDeath i;
        when endOfTurn nextTurn).
Proof.
  intros g. apply fairAt_turn_after;
    [apply afterIncorrectChallenge_turn|apply afterPlayerDeath_passive].
Qed.

Lemma afterIncorrectChallenge_fair :
  fair (do endOfTurn <- afterIncorrectChallenge actions; when endOfTurn nextTurn).
Proof. intros g. apply fairAt_turn, afterIncorrectChallenge_turn. Qed.

Lemma afterSuccessfulChallenge_fair :
  fair (do endOfTurn <- afterSuccessfulChallenge actions; when endOfTurn nextTurn).
Proof. intros g. apply fairAt_turn, afterSuccessfulChallenge_turn. Qed.

Create HintDb fair.
Hint Resolve afterIncorrectChallenge_death_fair afterIncorrectChallenge_fair
  afterSuccessfulChallenge_fair allow_fair : fair.

Ltac fair_step :=
  match goal with
  | |- fair (bind _ _) =>
      first [ solve [auto with fair]
            | apply fair_bind_quiet; [solve [quiet_auto]|intro]
            | apply fair_then_passive;
              [solve [cbv zeta; repeat (fair_step; cbv zeta)]|intro; solve [passive_auto]] ]
  | |- fair (when _ _) => apply fair_when
  | |- fair (if ?c then _ else _) => destruct c eqn:?
  | |- fair (match ?x with _ => _ end) => destruct x eqn:?
  | |- fair _ => first [solve [auto with fair] | apply fair_quiet; solve [quiet_auto]]
  end.

Ltac fair_auto := cbv zeta; repeat (fair_step; cbv zeta).

Lemma challenge_fair i j r : fair (challenge actions i j r).
Proof. unfold challenge. fair_auto. Qed.
Hint Resolve challenge_fair : fair.

Lemma commandChallenge_fair i c : fair (commandChallenge actions i c).
Proof. unfold commandChallenge. fair_auto. Qed.

Lemma commandAllow_fair i c : fair (commandAllow actions i c).
Proof. unfold commandAllow. fair_auto. Qed.

Lemma commandBlock_fair i c : fair (commandBlock actions i c).
Proof. apply fair_quiet, commandBlock_quiet. Qed.

Lemma commandInterrogate_fair i c : fair (commandInterrogate i c).
Proof. apply fair_quiet, commandInterrogate_quiet. Qed.

Lemma commandPlayAction_fair i c : fair (commandPlayAction actions i c).
Proof.
  intros g. unfold commandPlayAction. apply fairAt_get.
  apply fairAt_throwIf. intros _.
  apply fairAt_throwIf. intros Hturn.
  apply negb_false_iff, jsnum_eqb_eq in Hturn.
  destruct (actionOf actions (cmd_action c)) as [act|]; [|apply fair_quiet, quiet_throw].
  apply fairAt_throwIf. intros _.
  apply fairAt_reading; [reading_auto|]. intros player.
  apply fairAt_throwIf. intros _.
  apply fairAt_throwIf. intros _.
  apply fairAt_reading; [reading_auto|]. intros _.
  apply fairAt_still; [quiet_auto|apply updPlayer_keeps_state|]. intros _ g1 Hst.
  destruct (a_roles act), (a_blockedBy act); try solve [apply fair_quiet; quiet_auto].
  apply fairAt_turn_ret, playAction_turn. rewrite Hst. symmetry. exact Hturn.
Qed.

Lemma fairAt_playerAt {B} (j : jsnum) (k : PlayerState -> M B) (g : Game) :
  (forall p, at_js (players g) j = Some p -> fairAt (k p) g) -> fairAt (bind (playerAt j) k) g.
Proof.
  intros H Hg. unfold playerAt, bind. simpl.
  destruct (at_js (players g) j) as [p|] eqn:Hp; simpl.
  - apply H; auto.
  - apply settled_resolved, Hg.
Qed.

Lemma indexOfInfluence_Some (p : PlayerState) (r : jsrole) (j : nat) :
  indexOfInfluence p r = Some j ->
  exists s, influence p !! j = Some s /\ revealed s = false.
Proof.
  intros H. apply find_index_Some in H as (s & Hs & Hf). exists s. split; [assumption|].
  apply andb_true_iff in Hf as [_ Hf]. destruct (revealed s); [discriminate|reflexivity].
Qed.

(** Turning one card face up keeps the game settled. *)
Lemma reveal_settled (g : Game) (i j : nat) (p : PlayerState) (s : Influence) :
  players g !! i = Some p -> influence p !! j = Some s -> revealed s = false ->
  settled g ->
  settled (set_players (alter (withCount Z.pred) i)
             (set_players (alter (withInfluence (alter setRevealed j)) i) g)).
Proof.
  intros Hp Hs Hrev ((Ht & Hr & Hw) & Hx & Hc).
  split; [split; [|split; assumption]|split; [assumption|]].
  - apply (tableOk_same
             (set_players (alter (fun q => withCount Z.pred
                                             (withInfluence (alter setRevealed j) q)) i) g)).
    + simpl. apply list_alter_alter_eq.
    + reflexivity.
    + apply tableOk_alter_at; [|reflexivity|assumption].
      intros q Hq. rewrite Hp in Hq. injection Hq as <-. apply (seatOk_reveal p j s); assumption.
  - rewrite (cardsInPlay_alter _ i (withCount Z.pred)) by reflexivity.
    rewrite cardsInPlay_alter; [assumption|]. intros q. simpl. apply length_alter.
Qed.

Lemma commandReveal_fair i c : fair (commandReveal actions i c).
Proof.
  intros g. unfold commandReveal. apply fairAt_get. cbv zeta.
  apply fairAt_throwIf. intros _.
  apply fairAt_throwIf. intros _.
  apply fairAt_playerAt. intros p Hp. rewrite at_js_idx in Hp.
  destruct (indexOfInfluence p (cmd_role c)) as [j|] eqn:Hj; [|apply fair_quiet, quiet_throw].
  apply indexOfInfluence_Some in Hj as (s & Hs & Hrev).
  intros Hg.
  match goal with
  | |- resolved (snd ((run _; run _; ?rest) g)) => assert (Hrest : fair rest) by fair_auto
  end.
  exact (Hrest _ (reveal_settled g i j p s Hp Hs Hrev Hg)).
Qed.

Lemma arrayDifference_length (array subarray rest : list jsrole) :
  arrayDifference array subarray = Some rest ->
  length rest + length subarray = length array.
Proof.
  revert array. induction subarray as [|x sub IH]; intros array H; simpl in H.
  - injection H as <-. simpl. lia.
  - destruct (indexOf jsrole_eqb x array) as [j|] eqn:Hj; [|discriminate].
    apply find_index_Some in Hj as (y & Hy & _).
    apply IH in H. rewrite length_delete in H by eauto.
    apply lookup_lt_Some in Hy. simpl. lia.
Qed.

(** Closing an exchange offer: the cards that were not chosen return to
    the deck. *)
Lemma commandExchange_cards i c g :
  conserving g -> name (state g) = EXCHANGE -> resolved (snd (commandExchange i c g)).
Proof.
  intros Hcons Hx. pose proof (conserving_resolved g Hcons) as Hres.
  destruct Hcons as ((Ht & Hr & Hw) & Hc).
  unfold commandExchange. go. rewrite Hx. go.
  destruct (jsnum_eqb (playerIdx (state g)) (idx i)) eqn:Hturn; go; [|exact Hres].
  apply jsnum_eqb_eq in Hturn.
  destruct (cmd_roles c) as [chosen|]; go; [|exact Hres].
  rewrite at_js_idx.
  destruct (players g !! i) as [player|] eqn:Hp; go; [|exact Hres].
  destruct (Z.of_nat (length chosen) =? influenceCount player)%Z eqn:Hlen; go; [|exact Hres].
  destruct (arrayDifference (exchangeOptions (state g)) chosen) as [unchosen|] eqn:Hdiff;
    go; [|exact Hres].
  apply arrayDifference_length in Hdiff. apply Z.eqb_eq in Hlen.
  assert (Hseat : seatOk player).
  { destruct Ht as (_ & Hall & _). rewrite Forall_lookup in Hall. eauto. }
  assert (Hdrawn : drawnCards g = length unchosen).
  { unfold drawnCards, offerCards. rewrite Hx, Hturn. fold (idx i). rewrite at_js_idx, Hp.
    simpl. destruct Hseat as [Hcount _]. lia. }
  match goal with
  | |- context [shuffle ?a ?g0] =>
      destruct (shuffle_length a g0) as (d & g1 & Hrun & Hd);
      destruct (shuffle_returns a g0) as (d2 & g2 & Hrun2 & Hst1 & _ & _ & Hpl1 & Hnum1);
      pose proof (shuffle_quiet a) as [Hcalm _]; specialize (Hcalm g0);
      rewrite Hrun in Hrun2; injection Hrun2 as <- <-; rewrite Hrun in *
  end.
  simpl in Hcalm, Hst1, Hpl1, Hnum1. destruct Hcalm as (_ & Hroles1 & _).
  match goal with
  | |- context [nextTurn ?g3] =>
      destruct (nextTurn_returns g3) as (g4 & Hnext & (Hpl4 & _ & Hnum4 & Hdeck4 & Hroles4) & _ & Hname)
  end.
  { simpl. rewrite Hnum1, Hpl1, length_alter. destruct Ht as (Hn & _). lia. }
  { right. right. exists i. simpl. rewrite Hst1. exact Hturn. }
  rewrite Hnext. simpl in *.
  split; [split; [|split]|right].
  - apply (tableOk_same (set_players (alter (withInfluence (fun infl => assignRoles infl chosen)) i) g)).
    + simpl. congruence.
    + simpl. congruence.
    + apply tableOk_alter; [apply seatKeeping_assignRoles|assumption].
  - congruence.
  - destruct Hname as [-> | ->]; discriminate.
  - unfold cardsInPlay, influenceSlots, drawnCards in *.
    rewrite Hpl4, Hpl1, Hdeck4, influenceSlots_alter by (intros q; apply seatKeeping_assignRoles).
    rewrite Hd, length_app.
    destruct Hname as [-> | ->]; lia.
Qed.

(** *** Commands that the turn state rules out

    Once the game is over no command is accepted, and while an exchange
    offer is open only the [exchange] command is. *)

Ltac rejected Hn :=
  repeat (go; rewrite ?Hn; go;
          match goal with
          | |- context [if ?c then _ else _] => destruct c eqn:?
          | |- context [match ?o with Some _ => _ | None => _ end] => destruct o eqn:?
          end);
  go; rewrite ?Hn; go; eexists; reflexivity.

Lemma dispatch_rejected i c g :
  name (state g) = GAME_WON \/ name (state g) = DESTROYED
  \/ (name (state g) = EXCHANGE /\ cmd_command c <> "exchange") ->
  exists e, dispatch actions epithets aiPlayer i c g = (inl e, g).
Proof.
  intros H.
  assert (Hx : String.eqb (cmd_command c) "exchange" = true -> name (state g) <> EXCHANGE).
  { intros E%String.eqb_eq. destruct H as [H|[H|[_ H]]]; [rewrite H; discriminate..|contradiction]. }
  assert (Hn : exists n, name (state g) = n /\ (n = GAME_WON \/ n = DESTROYED \/ n = EXCHANGE)).
  { destruct H as [H|[H|[H _]]]; eauto 6. }
  clear H. destruct Hn as (n & Hn & Hcases).
  unfold dispatch. cbv zeta.
  destruct (String.eqb (cmd_command c) "start").
  { unfold start. destruct Hcases as [-> | [-> | ->]]; rejected Hn. }
  destruct (String.eqb (cmd_command c) "add-ai").
  { destruct Hcases as [-> | [-> | ->]]; rejected Hn. }
  destruct (String.eqb (cmd_command c) "remove-ai").
  { destruct Hcases as [-> | [-> | ->]]; rejected Hn. }
  destruct (String.eqb (cmd_command c) "play-action").
  { unfold commandPlayAction. destruct Hcases as [-> | [-> | ->]]; rejected Hn. }
  destruct (String.eqb (cmd_command c) "challenge").
  { unfold commandChallenge. destruct Hcases as [-> | [-> | ->]]; rejected Hn. }
  destruct (String.eqb (cmd_command c) "reveal").
  { unfold commandReveal. destruct Hcases as [-> | [-> | ->]]; rejected Hn. }
  destruct (String.eqb (cmd_command c) "block").
  { unfold commandBlock. destruct Hcases as [-> | [-> | ->]]; rejected Hn. }
  destruct (String.eqb (cmd_command c) "allow").
  { unfold commandAllow, allow. destruct Hcases as [-> | [-> | ->]]; rejected Hn. }
  destruct (String.eqb (cmd_command c) "exchange").
  { specialize (Hx eq_refl). unfold commandExchange.
    destruct Hcases as [-> | [-> | ->]]; [rejected Hn..|congruence]. }
  destruct (String.eqb (cmd_command c) "interrogate").
  { unfold commandInterrogate. destruct Hcases as [-> | [-> | ->]]; rejected Hn. }
  eexists. reflexivity.
Qed.

(** *** Dealing *)

Lemma dealLoop_cards (k : nat) (acc : list nat) (g : Game) :
  tableOk g -> k <= numPlayers g ->
  2 * length (List.filter (fun p => negb (isObserver p))
                (drop (numPlayers g - k) (players g))) <= length (deck g) ->
  exists l g', dealLoop k acc g = (inr l, g')
               /\ tableOk g' /\ roles g' = roles g /\ state g' = state g
               /\ influenceSlots g' = influenceSlots g
               /\ length (deck g')
                  + 2 * length (List.filter (fun p => negb (isObserver p))
                                  (drop (numPlayers g - k) (players g)))
                  = length (deck g).
Proof.
  revert acc g. induction k as [|k IH]; intros acc g Ht Hk Hdeck.
  { eexists _, _. split; [reflexivity|]. split; [assumption|]. do 3 (split; [reflexivity|]).
    destruct Ht as (Hn & _). rewrite Nat.sub_0_r, Hn, drop_all. simpl. lia. }
  pose proof Ht as (Hn & Hall & Hmax).
  assert (Hi : numPlayers g - S k < length (players g)) by lia.
  apply lookup_lt_is_Some in Hi as [p Hp].
  assert (Hseat : seatOk p) by (rewrite Forall_lookup in Hall; eauto).
  rewrite (drop_S _ _ _ Hp) in *.
  replace (S (numPlayers g - S k)) with (numPlayers g - k) in * by lia.
  cbn [dealLoop]. go. rewrite at_js_idx, Hp. go.
  cbn [List.filter] in Hdeck |- *.
  destruct (isObserver p) eqn:Hobs; rewrite ?Hobs in Hdeck; cbn [negb length] in Hdeck |- *.
  { destruct (IH acc g) as (l & g' & Hrun & H); [assumption|lia|assumption|].
    eexists _, _. split; [exact Hrun|]. exact H. }
  destruct Hseat as [_ Hlen]. rewrite Hobs in Hlen.
  destruct (influence p) as [|s0 [|s1 [|]]] eqn:Hinf; try discriminate. go.
  change ([s0; s1] !! 0) with (Some s0). change ([s0; s1] !! 1) with (Some s1). go.
  match goal with
  | |- context [dealLoop k ?acc' ?g1] => destruct (IH acc' g1) as (l & g' & Hrun & H)
  end.
  - apply (tableOk_same
             (set_players (alter (withInfluence (alter (setRole (mjoin (last (removelast (deck g))))) 1))
                             (numPlayers g - S k))
                (set_players (alter (withInfluence (alter (setRole (mjoin (last (deck g)))) 0))
                                (numPlayers g - S k)) g))); [reflexivity..|].
    do 2 (apply tableOk_alter; [apply seatKeeping_setRole|]). assumption.
  - simpl. lia.
  - simpl. rewrite !drop_alter_lt by lia. rewrite !length_removelast. lia.
  - eexists _, _. split; [exact Hrun|]. simpl in H.
    rewrite !drop_alter_lt in H by lia. rewrite !length_removelast in H.
    destruct H as (H1 & H2 & H3 & H4 & H5).
    split; [assumption|]. do 2 (split; [assumption|]). split; [|lia].
    rewrite H4. unfold influenceSlots. simpl.
    rewrite !influenceSlots_alter; [reflexivity|intros q; apply seatKeeping_setRole..].
Qed.

Lemma start_cards (t : option string) (g : Game) :
  tableOk g -> snd (start t g) = g \/ settled (snd (start t g)).
Proof.
  intros Ht. unfold start. go.
  destruct (StateName_eqb (name (state g)) WAITING_FOR_PLAYERS); go; [|left; reflexivity].
  unfold MIN_PLAYERS. destruct (2 <=? numPlayers g); [|left; reflexivity].
  right. unfold buildDeck. go.
  match goal with
  | |- context [shuffle ?a ?g0] =>
      destruct (shuffle_length a g0) as (d & g1 & Hrun & Hd);
      destruct (shuffle_returns a g0) as (d2 & g2 & Hrun2 & Hst1 & _ & _ & Hpl1 & Hnum1);
      pose proof (shuffle_quiet a) as [Hcalm _]; specialize (Hcalm g0);
      rewrite Hrun in Hrun2; injection Hrun2 as <- <-; rewrite Hrun in *
  end.
  simpl in Hcalm, Hst1, Hpl1, Hnum1. destruct Hcalm as (_ & Hroles1 & _). go.
  assert (Hd15 : length d = 15) by (rewrite Hd, !length_app, !length_map; reflexivity).
  pose proof Ht as (Hn & Hall & Hmax). unfold nonObservers, MAX_PLAYERS in Hmax.
  destruct (dealLoop_cards (numPlayers g) [] (set_deck (fun _ => d) g1))
    as (l & g2 & Hdeal & Ht2 & Hr2 & Hs2 & Hsl2 & Hdk2).
  { apply (tableOk_same g); [assumption..|]. assumption. }
  { simpl. lia. }
  { simpl. rewrite Hnum1, Nat.sub_diag, Hpl1, drop_0. lia. }
  rewrite Hdeal. simpl in Hr2, Hs2, Hsl2, Hdk2.
  rewrite Hnum1, Nat.sub_diag, Hpl1, drop_0 in Hdk2.
  assert (Hfinal : forall first g3,
             players g3 = players g2 -> numPlayers g3 = numPlayers g2 ->
             roles g3 = roles g2 -> deck g3 = deck g2 ->
             settled (set_state (fun _ => mkTurnState START_OF_TURN first None JUndefined None
                                            None None JUndefined [] None) g3)).
  { intros first g3 Hp3 Hn3 Hr3 Hd3.
    split; [split; [|split]|split]; simpl.
    - apply (tableOk_same g2); assumption.
    - rewrite Hr3, Hr2, Hroles1. reflexivity.
    - discriminate.
    - discriminate.
    - unfold cardsInPlay, influenceSlots in *. simpl in *. rewrite Hp3, Hsl2, Hd3, Hpl1.
      rewrite (influenceSlots_players _ Hall). lia. }
  destruct (firstPlayer g); go.
  - apply Hfinal; reflexivity.
  - unfold rand. destruct (rng g2); go; apply Hfinal; reflexivity.
Qed.

(** *** Joining *)

Lemma playerNameLoop_idle fuel nm : idle (playerNameLoop epithets fuel nm).
Proof. revert nm. induction fuel; intros nm; cbn [playerNameLoop]; idle_auto. Qed.
Hint Resolve playerNameLoop_idle : idle.

Lemma playerName_idle nm : idle (playerName epithets nm).
Proof. unfold playerName. idle_auto. Qed.

(** A participant who joins takes a new seat at the end of the table: a
    player's seat with two slots while the lobby has room, an observer's
    seat without slots otherwise. *)
Lemma playerJoined_table (c : Connection) (g : Game) :
  state (snd (playerJoined epithets c g)) = state g
  /\ roles (snd (playerJoined epithets c g)) = roles g
  /\ deck (snd (playerJoined epithets c g)) = deck g
  /\ ((players (snd (playerJoined epithets c g)) = players g
       /\ numPlayers (snd (playerJoined epithets c g)) = numPlayers g)
      \/ exists p, players (snd (playerJoined epithets c g)) = players g ++ [p]
                   /\ numPlayers (snd (playerJoined epithets c g)) = S (numPlayers g)
                   /\ seatOk p /\ isObserver p = negb (canJoin g)).
Proof.
  unfold playerJoined. go.
  destruct (playerName_idle (c_name c) g) as (Hp & Hn & Hr & Hs & Hd).
  destruct (playerName epithets (c_name c) g) as [[e|nm] g1]; simpl in Hp, Hn, Hr, Hs, Hd; go.
  { repeat split; try assumption. left. split; assumption. }
  rewrite emitState_run. unfold createGameProxy. go.
  destruct (canJoin g); simpl.
  all: split; [assumption|split; [assumption|split; [assumption|]]].
  all: right; eexists; split; [rewrite Hp; reflexivity|].
  all: split; [rewrite Hn; reflexivity|split; [|reflexivity]].
  all: split; reflexivity.
Qed.

Lemma nonObservers_app (g : Game) (ps : list PlayerState) :
  length (List.filter (fun p => negb (isObserver p)) (players g ++ ps))
  = nonObservers g + length (List.filter (fun p => negb (isObserver p)) ps).
Proof. unfold nonObservers. rewrite List.filter_app, length_app. reflexivity. Qed.

Lemma playerJoined_calm (c : Connection) : calm (playerJoined epithets c).
Proof.
  intros g. destruct (playerJoined_table c g) as (Hs & Hr & Hd & H).
  split; [|split; [assumption|rewrite Hs; auto]].
  intros (Hn & Hall & Hmax).
  destruct H as [[Hp Hnum]|(p & Hp & Hnum & Hseat & Hobs)].
  { apply (tableOk_same g); [assumption..|]. repeat split; assumption. }
  split; [|split].
  - rewrite Hnum, Hp, length_app, Hn. simpl. lia.
  - rewrite Hp. apply Forall_app. split; [assumption|]. constructor; [assumption|constructor].
  - unfold nonObservers at 1. rewrite Hp, nonObservers_app. simpl. rewrite Hobs.
    unfold canJoin. destruct (StateName_eqb _ _); simpl; [|lia].
    destruct (Nat.ltb_spec (length (players g)) MAX_PLAYERS); simpl; [|lia].
    pose proof (nonObservers_le g). lia.
Qed.

Lemma drawn_snoc_observer (ps : list PlayerState) (p : PlayerState) (j : jsnum) :
  influence p = [] ->
  default 0 (unrevealedCount <$> at_js (ps ++ [p]) j)
  = default 0 (unrevealedCount <$> at_js ps j).
Proof.
  intros Hp. unfold at_js. destruct j as [| |z]; try reflexivity.
  destruct (0 <=? z)%Z; [|reflexivity].
  destruct (decide (Z.to_nat z < length ps)) as [Hlt|Hge].
  - rewrite lookup_app_l by assumption. reflexivity.
  - rewrite lookup_app_r, (lookup_ge_None_2 ps) by lia.
    destruct (Z.to_nat z - length ps) as [|k]; simpl; [|reflexivity].
    unfold unrevealedCount, getInfluence. rewrite Hp. reflexivity.
Qed.

(** Joining a game that has started moves no card. *)
Lemma playerJoined_resolved (c : Connection) (g : Game) :
  resolved g -> resolved (snd (playerJoined epithets c g)).
Proof.
  intros (Hsound & Hcards).
  split; [apply calm_sound; [apply playerJoined_calm|assumption]|].
  destruct (playerJoined_table c g) as (Hs & Hr & Hd & H).
  destruct Hcards as [Hover|Hcards]; [left; apply (gameOver_same g); assumption|right].
  destruct H as [[Hp Hnum]|(p & Hp & Hnum & Hseat & Hobs)].
  { rewrite (drawnCards_same g), (cardsInPlay_same g); assumption. }
  destruct Hsound as (Ht & _ & Hw).
  assert (Hjoin : canJoin g = false).
  { unfold canJoin. destruct (name (state g)); try reflexivity. contradiction. }
  rewrite Hjoin in Hobs. destruct Hseat as [Hcount Hlen]. rewrite Hobs in Hlen.
  simpl in Hlen. apply nil_length_inv in Hlen.
  unfold cardsInPlay, influenceSlots, drawnCards, offerCards in *.
  rewrite Hs, Hp, Hd, map_app, list_sum_app, drawn_snoc_observer by assumption.
  simpl. rewrite Hlen. simpl. lia.
Qed.

(** *** Leaving *)

Lemma nextTurn_won (g : Game) : name (state g) = GAME_WON -> nextTurn g = (inr tt, g).
Proof. intros H. unfold nextTurn. go. rewrite H. reflexivity. Qed.

Lemma passive_staysOver {A} (m : M A) : passive m -> staysOver m.
Proof.
  intros Hm g Hg. destruct (Hm g) as (_ & _ & _ & _ & [H|H]); [|assumption].
  apply (gameOver_same g); assumption.
Qed.

Lemma connAt_run (j : jsnum) (g : Game) :
  connAt j g = match mjoin (at_js (conns g) j) with
               | Some cn => (inr cn, g)
               | None => (inl TypeError, g)
               end.
Proof. unfold connAt. rewrite bind_get. destruct (mjoin _); reflexivity. Qed.

(** How [playerLeft] runs: it is rejected; or it removes the seat of a
    lobby member or an observer; or, the game being won, it only
    disconnects the seat; or it turns the cards of the seat face up and
    moves the game on.  In each case the history and the broadcast follow. *)
Lemma playerLeft_cases (i : nat) (rejoined : bool) (g : Game) :
  (exists e, playerLeft actions i rejoined g = (inl e, g))
  \/ exists (player : PlayerState) (tail : list string -> M unit),
       players g !! i = Some player /\ i < numPlayers g /\ (forall hs, passive (tail hs))
       /\ ((StateName_eqb (name (state g)) WAITING_FOR_PLAYERS || isObserver player = true
            /\ exists k,
                 playerLeft actions i rejoined g
                 = bind (run rewireLoop k; ret [])
                        tail
                        (set_numPlayers pred
                           (set_proxies (delete i)
                              (set_conns (delete i) (set_players (delete i) g)))))
           \/ (StateName_eqb (name (state g)) WAITING_FOR_PLAYERS || isObserver player = false
               /\ name (state g) = GAME_WON
               /\ playerLeft actions i rejoined g = tail [] (set_conns (<[i := None]>) g))
           \/ (StateName_eqb (name (state g)) WAITING_FOR_PLAYERS || isObserver player = false
               /\ name (state g) <> GAME_WON
               /\ exists rest : M (list string),
                    calm rest /\ fair rest /\ staysOver rest
                    /\ playerLeft actions i rejoined g
                       = bind rest tail
                              (set_players (alter (withCount (fun _ => 0%Z)) i)
                                 (set_players (alter (withInfluence (map setRevealed)) i)
                                    (set_conns (<[i := None]>) g))))).
Proof.
  unfold playerLeft. rewrite bind_get. cbv beta.
  rewrite bind_run. destruct (Nat.leb_spec (numPlayers g) i) as [Hge|Hlt].
  { left. eexists. reflexivity. }
  rewrite throwIf_false. cbv beta iota.
  destruct (players g !! i) as [player|] eqn:Hp; [|left; eexists; reflexivity].
  rewrite bind_run, connAt_run.
  destruct (mjoin (at_js (conns g) (idx i))) as [cn|]; [|left; eexists; reflexivity].
  cbv beta iota.
  match goal with |- context [bind (if _ then _ else _) ?k] => set (tail := k) end.
  assert (Htail : forall hs, passive (tail hs)) by (intros hs; unfold tail; passive_auto).
  right. exists player, tail. do 3 (split; [reflexivity || assumption|]).
  destruct (StateName_eqb (name (state g)) WAITING_FOR_PLAYERS || isObserver player).
  { left. split; [reflexivity|]. eexists. reflexivity. }
  right. destruct (StateName_eqb (name (state g)) GAME_WON) eqn:Hwon.
  { left. split; [reflexivity|]. split; [|reflexivity].
    destruct (name (state g)); try discriminate. reflexivity. }
  right. split; [reflexivity|]. split; [intros H; rewrite H in Hwon; discriminate|].
  cbn [negb].
  match goal with
  | |- context [bind (updPlayer i (withCount _)) (fun _ => ?r)] => exists r
  end.
  split; [calm_auto|]. split; [fair_auto|]. split; [|reflexivity].
  intros g1 Hover.
  pose proof (passive_staysOver _ checkForGameEnd_passive g1 Hover) as Hover2.
  rewrite bind_run. destruct (checkForGameEnd g1) as [[e|ended] g2]; [exact Hover2|].
  simpl in Hover2. destruct ended; [exact Hover2|]. cbn [negb when].
  rewrite bind_run, bind_get.
  destruct Hover2 as [Hw|Hd].
  - destruct (jsnum_eqb (playerIdx (state g2)) (idx i)).
    { rewrite nextTurn_won by assumption. left. assumption. }
    rewrite Hw. simpl. left. assumption.
  - rewrite Hd. simpl. right. assumption.
Qed.

Lemma staysOver_bind {A B} (m : M A) (k : A -> M B) :
  staysOver m -> (forall a, staysOver (k a)) -> staysOver (bind m k).
Proof.
  intros Hm Hk g Hg. specialize (Hm g Hg). unfold bind.
  destruct (m g) as [[e|a] g1]; simpl in *; [assumption|]. apply Hk, Hm.
Qed.

Lemma influenceSlots_delete (ps : list PlayerState) (i : nat) (p : PlayerState) :
  ps !! i = Some p ->
  list_sum (map (fun q => length (influence q)) (delete i ps)) + length (influence p)
  = list_sum (map (fun q => length (influence q)) ps).
Proof.
  revert i. induction ps as [|q ps IH]; intros [|i] H; try discriminate.
  - injection H as ->. simpl. lia.
  - specialize (IH i H). change (delete (S i) (q :: ps)) with (q :: delete i ps).
    simpl. lia.
Qed.

Lemma nonObservers_delete (ps : list PlayerState) (i : nat) :
  length (List.filter (fun p => negb (isObserver p)) (delete i ps))
  <= length (List.filter (fun p => negb (isObserver p)) ps).
Proof.
  revert i. induction ps as [|q ps IH]; intros [|i]; try (simpl; lia).
  - change (delete 0 (q :: ps)) with ps. simpl. destruct (isObserver q); simpl; lia.
  - specialize (IH i). change (delete (S i) (q :: ps)) with (q :: delete i ps).
    simpl. destruct (isObserver q); simpl; lia.
Qed.

(** The table without the seat that has been removed. *)
Lemma tableOk_delete (g g1 : Game) (i : nat) :
  players g1 = delete i (players g) -> numPlayers g1 = pred (numPlayers g) ->
  i < numPlayers g -> tableOk g -> tableOk g1.
Proof.
  intros Hp Hn Hi (Hnum & Hall & Hmax). split; [|split].
  - rewrite Hn, Hp, length_delete, Hnum; [lia|].
    apply lookup_lt_is_Some. lia.
  - rewrite Hp. apply Forall_delete. assumption.
  - unfold nonObservers in *. rewrite Hp. pose proof (nonObservers_delete (players g) i). lia.
Qed.

Lemma seatKeeping_reveal_all :
  seatKeeping (fun p => withCount (fun _ => 0%Z) (withInfluence (map setRevealed) p)).
Proof.
  intros p. split; [apply seatOk_reveal_all|]. simpl. rewrite length_map. split; reflexivity.
Qed.

(** The table once the cards of a seat have been turned face up. *)
Lemma tableOk_reveal_all (g g1 : Game) (i : nat) :
  players g1 = players g -> numPlayers g1 = numPlayers g -> tableOk g ->
  tableOk (set_players (alter (withCount (fun _ => 0%Z)) i)
             (set_players (alter (withInfluence (map setRevealed)) i) g1)).
Proof.
  intros Hp Hn Ht.
  apply (tableOk_same
           (set_players (alter (fun p => withCount (fun _ => 0%Z)
                                           (withInfluence (map setRevealed) p)) i) g)).
  - simpl. rewrite Hp. apply list_alter_alter_eq.
  - simpl. assumption.
  - apply tableOk_alter; [apply seatKeeping_reveal_all|assumption].
Qed.

Lemma cardsInPlay_reveal_all (g g1 : Game) (i : nat) :
  players g1 = players g -> deck g1 = deck g ->
  cardsInPlay (set_players (alter (withCount (fun _ => 0%Z)) i)
                 (set_players (alter (withInfluence (map setRevealed)) i) g1))
  = cardsInPlay g.
Proof.
  intros Hp Hd.
  rewrite cardsInPlay_alter by reflexivity.
  rewrite cardsInPlay_alter by (intros q; simpl; apply length_map).
  apply cardsInPlay_same; assumption.
Qed.

Lemma playerLeft_calm i rejoined : calm (playerLeft actions i rejoined).
Proof.
  intros g.
  destruct (playerLeft_cases i rejoined g)
    as [[e ->]|(player & tail & Hp & Hlt & Htail & Hcase)].
  { split; [auto|split; [reflexivity|auto]]. }
  destruct Hcase as [(Hs & k & ->)|[(Hs & Hw & ->)|(Hs & Hw & rest & Hc & Hf & Ho & ->)]].
  - match goal with |- context [bind ?m tail ?g1] =>
      assert (Hm : calm (bind m tail))
        by (apply quiet_calm, passive_quiet, passive_bind; [passive_auto|assumption]);
      destruct (Hm g1) as (H1 & H2 & H3)
    end.
    split; [|split; [exact H2|exact H3]].
    intros Ht. apply H1. apply (tableOk_delete g _ i); [reflexivity..|assumption|assumption].
  - destruct (quiet_calm _ (passive_quiet _ (Htail [])) (set_conns (<[i := None]>) g))
      as (H1 & H2 & H3).
    split; [|split; [exact H2|exact H3]].
    intros Ht. apply H1. apply (tableOk_same g); [reflexivity..|assumption].
  - match goal with |- context [bind rest tail ?g1] =>
      assert (Hm : calm (bind rest tail))
        by (apply calm_bind; [assumption|intros hs; apply quiet_calm, passive_quiet, Htail]);
      destruct (Hm g1) as (H1 & H2 & H3)
    end.
    split; [|split; [exact H2|exact H3]].
    intros Ht. apply H1. apply (tableOk_reveal_all g); [reflexivity..|assumption].
Qed.
Hint Resolve playerLeft_calm : calm.

Lemma playerLeft_staysOver i rejoined : staysOver (playerLeft actions i rejoined).
Proof.
  intros g Hover.
  destruct (playerLeft_cases i rejoined g)
    as [[e ->]|(player & tail & Hp & Hlt & Htail & Hcase)]; [assumption|].
  destruct Hcase as [(Hs & k & ->)|[(Hs & Hw & ->)|(Hs & Hw & rest & Hc & Hf & Ho & ->)]].
  - apply passive_staysOver; [apply passive_bind; [passive_auto|assumption]|].
    apply (gameOver_same g); [reflexivity|assumption].
  - apply passive_staysOver; [apply Htail|]. apply (gameOver_same g); [reflexivity|assumption].
  - apply staysOver_bind; [assumption|intros hs; apply passive_staysOver, Htail|].
    apply (gameOver_same g); [reflexivity|assumption].
Qed.

(** A seat that leaves takes no card with it, unless it leaves while its
    exchange offer is open. *)
Lemma playerLeft_resolved i rejoined g :
  settled g -> resolved (snd (playerLeft actions i rejoined g)).
Proof.
  intros Hg.
  destruct (playerLeft_cases i rejoined g)
    as [[e ->]|(player & tail & Hp & Hlt & Htail & Hcase)]; [apply settled_resolved, Hg|].
  pose proof Hg as ((Ht & Hr & Hw) & Hx & Hcards).
  destruct Hcase as [(Hs & k & ->)|[(Hs & Hwon & ->)|(Hs & Hwon & rest & Hc & Hf & Ho & ->)]].
  - apply settled_resolved, quiet_settled;
      [apply passive_quiet, passive_bind; [passive_auto|assumption]|].
    assert (Hobs : isObserver player = true).
    { destruct (name (state g)); simpl in Hs; try assumption. contradiction. }
    assert (Hempty : length (influence player) = 0).
    { destruct Ht as (_ & Hall & _). rewrite Forall_lookup in Hall.
      destruct (Hall _ _ Hp) as [_ Hlen]. rewrite Hobs in Hlen. assumption. }
    split; [split; [|split; assumption]|split; [assumption|]].
    + apply (tableOk_delete g _ i); [reflexivity..|assumption|assumption].
    + unfold cardsInPlay, influenceSlots in *. simpl.
      pose proof (influenceSlots_delete _ _ _ Hp). lia.
  - apply passive_resolved; [apply Htail|]. apply settled_resolved.
    split; [split; [|split; assumption]|split; [assumption|]].
    + apply (tableOk_same g); [reflexivity..|assumption].
    + assumption.
  - apply fairAt_then_passive; [apply Hf|assumption|].
    split; [split; [|split; assumption]|split; [assumption|]].
    + apply (tableOk_reveal_all g); [reflexivity..|assumption].
    + rewrite (cardsInPlay_reveal_all g); [assumption|reflexivity..].
Qed.

(** *** Commands *)

Lemma commandReveal_calm i c : calm (commandReveal actions i c).
Proof.
  intros g.
  assert (Hrun : snd (commandReveal actions i c g) = g
                 \/ exists p j s (rest : M bool),
                      players g !! i = Some p /\ influence p !! j = Some s
                      /\ revealed s = false /\ calm rest
                      /\ commandReveal actions i c g
                         = rest (set_players (alter (withCount Z.pred) i)
                                   (set_players (alter (withInfluence (alter setRevealed j)) i)
                                      g))).
  { unfold commandReveal. rewrite bind_get. cbv beta zeta.
    rewrite bind_run.
    destruct (negb (StateName_eqb (name (state g)) REVEAL_INFLUENCE)); [left; reflexivity|].
    rewrite throwIf_false. cbv beta iota. rewrite bind_run.
    destruct (negb (jsnum_eqb (playerToReveal (state g)) (idx i))); [left; reflexivity|].
    rewrite throwIf_false. cbv beta iota. rewrite bind_run, playerAt_run, at_js_idx.
    destruct (players g !! i) as [p|] eqn:Hp; [|left; reflexivity]. cbv beta iota.
    destruct (indexOfInfluence p (cmd_role c)) as [j|] eqn:Hj; [|left; reflexivity].
    apply indexOfInfluence_Some in Hj as (s & Hs & Hrev).
    right. exists p, j, s.
    match goal with
    | |- context [bind (updPlayer i (withCount _)) (fun _ => ?r)] => exists r
    end.
    do 3 (split; [reflexivity || assumption|]). split; [calm_auto|reflexivity]. }
  destruct Hrun as [->|(p & j & s & rest & Hp & Hs & Hrev & Hrest & ->)].
  { split; [auto|split; [reflexivity|auto]]. }
  match goal with |- context [rest ?g1] => destruct (Hrest g1) as (H1 & H2 & H3) end.
  split; [|split; [exact H2|exact H3]].
  intros Ht. apply H1.
  apply (tableOk_same
           (set_players (alter (fun q => withCount Z.pred
                                           (withInfluence (alter setRevealed j) q)) i) g)).
  - simpl. apply list_alter_alter_eq.
  - reflexivity.
  - apply tableOk_alter_at; [|reflexivity|assumption].
    intros q Hq. rewrite Hp in Hq. injection Hq as <-. apply (seatOk_reveal p j s); assumption.
Qed.

Lemma removeAiLoop_calm k : calm (removeAiLoop actions k).
Proof. induction k; simpl; calm_auto. Qed.

Lemma dispatch_calm i c :
  String.eqb (cmd_command c) "start" = false -> calm (dispatch actions epithets aiPlayer i c).
Proof.
  intros Hcmd. unfold dispatch. cbv zeta. rewrite Hcmd.
  pose proof removeAiLoop_calm. pose proof playerJoined_calm.
  pose proof commandPlayAction_calm. pose proof commandChallenge_calm.
  pose proof commandAllow_calm. pose proof commandExchange_calm.
  pose proof commandBlock_quiet. pose proof commandInterrogate_quiet.
  pose proof commandReveal_calm.
  unfold createAiPlayer, removeAiPlayer, notWaiting. calm_auto.
Qed.

Lemma lobby_command_rejected i c g :
  name (state g) <> WAITING_FOR_PLAYERS ->
  String.eqb (cmd_command c) "start" = true \/ String.eqb (cmd_command c) "add-ai" = true
  \/ String.eqb (cmd_command c) "remove-ai" = true ->
  exists e, dispatch actions epithets aiPlayer i c g = (inl e, g).
Proof.
  intros Hw Hcmd.
  assert (Hn : StateName_eqb (name (state g)) WAITING_FOR_PLAYERS = false).
  { destruct (name (state g)); try reflexivity. contradiction. }
  unfold dispatch, start. cbv zeta.
  destruct (String.eqb (cmd_command c) "start"); [go; rewrite Hn; go; eexists; reflexivity|].
  destruct (String.eqb (cmd_command c) "add-ai"); [go; rewrite Hn; go; eexists; reflexivity|].
  destruct (String.eqb (cmd_command c) "remove-ai"); [go; rewrite Hn; go; eexists; reflexivity|].
  destruct Hcmd as [|[|]]; discriminate.
Qed.

Lemma commandExchange_rejected i c g :
  name (state g) <> EXCHANGE -> exists e, commandExchange i c g = (inl e, g).
Proof.
  intros Hx. unfold commandExchange. go.
  destruct (name (state g)); try contradiction; go; eexists; reflexivity.
Qed.

Lemma dispatch_fair i c : fair (dispatch actions epithets aiPlayer i c).
Proof.
  intros g Hg. pose proof Hg as ((_ & _ & Hw) & Hx & _).
  destruct (String.eqb (cmd_command c) "start") eqn:E1.
  { destruct (lobby_command_rejected i c g Hw) as [e ->]; [auto|apply settled_resolved, Hg]. }
  destruct (String.eqb (cmd_command c) "add-ai") eqn:E2.
  { destruct (lobby_command_rejected i c g Hw) as [e ->]; [auto|apply settled_resolved, Hg]. }
  destruct (String.eqb (cmd_command c) "remove-ai") eqn:E3.
  { destruct (lobby_command_rejected i c g Hw) as [e ->]; [auto|apply settled_resolved, Hg]. }
  unfold dispatch. cbv zeta. rewrite E1, E2, E3.
  destruct (String.eqb (cmd_command c) "play-action"); [apply commandPlayAction_fair, Hg|].
  destruct (String.eqb (cmd_command c) "challenge"); [apply commandChallenge_fair, Hg|].
  destruct (String.eqb (cmd_command c) "reveal"); [apply commandReveal_fair, Hg|].
  destruct (String.eqb (cmd_command c) "block"); [apply commandBlock_fair, Hg|].
  destruct (String.eqb (cmd_command c) "allow"); [apply commandAllow_fair, Hg|].
  destruct (String.eqb (cmd_command c) "exchange").
  { destruct (commandExchange_rejected i c g Hx) as [e ->]. apply settled_resolved, Hg. }
  destruct (String.eqb (cmd_command c) "interrogate"); [apply commandInterrogate_fair, Hg|].
  apply settled_resolved, Hg.
Qed.

(** *** The invariant *)

Lemma cardInvariant_passive {A} (m : M A) (g : Game) :
  passive m -> cardInvariant g -> cardInvariant (snd (m g)).
Proof.
  intros Hm (Ht & H). pose proof (passive_quiet m Hm) as [Hc _].
  destruct (Hc g) as (H1 & H2 & _). split; [auto|].
  destruct H as [H|H]; [left; congruence|right; apply passive_resolved; assumption].
Qed.

Lemma dispatch_invariant i c g :
  cardInvariant g -> cardInvariant (snd (dispatch actions epithets aiPlayer i c g)).
Proof.
  intros (Ht & H).
  destruct (String.eqb (cmd_command c) "start") eqn:Estart.
  { unfold dispatch. cbv zeta. rewrite Estart. rewrite bind_run.
    destruct (start_cards (cmd_gameType c) g Ht) as [Hsame|Hset].
    - destruct (start (cmd_gameType c) g) as [[e|[]] g1]; simpl in *; subst g1; split; assumption.
    - destruct (start (cmd_gameType c) g) as [[e|[]] g1]; simpl in *.
      all: split; [apply Hset|right; apply settled_resolved, Hset]. }
  destruct (dispatch_calm i c Estart g) as (H1 & H2 & H3).
  split; [auto|].
  destruct H as [Hlobby|(Hsound & Hcards)]; [left; congruence|right].
  destruct Hcards as [Hover|Hcards].
  { destruct (dispatch_rejected i c g) as [e ->].
    - destruct Hover as [Hwon|Hdes]; [left; assumption|right; left; rewrite Hdes; reflexivity].
    - split; [assumption|left; assumption]. }
  destruct (StateName_eqb (name (state g)) EXCHANGE) eqn:Hx.
  - assert (Hname : name (state g) = EXCHANGE)
      by (destruct (name (state g)); try discriminate; reflexivity).
    destruct (String.eqb (cmd_command c) "exchange") eqn:Hcmd.
    + assert (Hrun : dispatch actions epithets aiPlayer i c g = commandExchange i c g).
      { apply String.eqb_eq in Hcmd. unfold dispatch. rewrite Hcmd. reflexivity. }
      rewrite Hrun. apply commandExchange_cards; [split; assumption|assumption].
    + destruct (dispatch_rejected i c g) as [e ->].
      * right. right. split; [assumption|]. apply String.eqb_neq, Hcmd.
      * split; [assumption|right; assumption].
  - apply dispatch_fair. split; [assumption|]. split; [|].
    + intros Hname. rewrite Hname in Hx. discriminate.
    + destruct (name (state g)) eqn:Hname; try discriminate;
        unfold drawnCards in Hcards; rewrite Hname in Hcards; lia.
Qed.

Lemma command_invariant i c g :
  cardInvariant g -> cardInvariant (snd (command actions epithets aiPlayer i c g)).
Proof.
  intros Hg.
  destruct (command_cases actions epithets aiPlayer i c g) as [[e ->]|(_ & _ & ->)];
    [assumption|].
  pose proof (dispatch_invariant i c g Hg) as Hd. rewrite bind_run.
  destruct (dispatch actions epithets aiPlayer i c g) as [[e|[|]] g1]; simpl in *;
    [assumption| |assumption].
  apply (cardInvariant_passive emitState); [apply idle_passive, emitState_idle|assumption].
Qed.

Lemma playerJoined_invariant c g :
  cardInvariant g -> cardInvariant (snd (playerJoined epithets c g)).
Proof.
  intros (Ht & H). destruct (playerJoined_calm c g) as (H1 & H2 & _). split; [auto|].
  destruct H as [H|H]; [left; congruence|right; apply playerJoined_resolved, H].
Qed.

Lemma playerLeft_invariant i rejoined g :
  name (state g) <> EXCHANGE ->
  cardInvariant g -> cardInvariant (snd (playerLeft actions i rejoined g)).
Proof.
  intros Hx (Ht & H). destruct (playerLeft_calm i rejoined g) as (H1 & H2 & _).
  split; [auto|].
  destruct H as [H|(Hsound & [Hover|Hcards])]; [left; congruence|right..].
  - split; [apply calm_sound; [apply playerLeft_calm|assumption]|].
    left. apply playerLeft_staysOver, Hover.
  - apply playerLeft_resolved. split; [assumption|]. split; [assumption|].
    unfold drawnCards in Hcards. destruct (name (state g)); try lia. contradiction.
Qed.

Lemma orderly_invariant g : orderly actions epithets aiPlayer g -> cardInvariant g.
Proof.
  induction 1 as [seed first|g c _ IH|g i c _ IH|g i r _ IH Hx].
  - split; [|left; reflexivity]. split; [reflexivity|]. split; [constructor|].
    unfold nonObservers, MAX_PLAYERS. simpl. lia.
  - apply playerJoined_invariant, IH.
  - apply command_invariant, IH.
  - apply playerLeft_invariant; assumption.
Qed.

(** C1, amended.  Take a game that was created, joined, played and left in
    any way, except that nobody left while an exchange offer was open.  Once
    it has started and as long as it is not over (neither won nor
    destroyed), the influence slots of all seats (face up or face down), the
    cards in the deck and the cards that an open exchange offer has drawn
    from the deck (the offer without the copies of the actor's own face-down
    cards) are three times the number of roles in play. *)
Theorem card_conservation (g : Game) :
  orderly actions epithets aiPlayer g -> started g ->
  name (state g) <> GAME_WON -> name (state g) <> DESTROYED ->
  influenceSlots g + length (deck g) + drawnCards g = 3 * length (roles g).
Proof.
  intros Hg Hstarted Hwon Hdes.
  destruct (orderly_invariant g Hg) as (_ & [Hlobby|((_ & Hroles & _) & [Hover|Hcards])]).
  - contradiction.
  - destruct Hover as [Hover|Hover]; [contradiction|].
    rewrite Hover in Hdes. contradiction.
  - rewrite Hroles. exact Hcards.
Qed.

End Cards.

Lemma card_conservation_witness :
  influenceSlots exchangeOpen + length (deck exchangeOpen) + drawnCards exchangeOpen
  = 3 * length (roles exchangeOpen).
Proof.
  apply (card_conservation standardActions someEpithets robot exchangeOpen).
  - unfold exchangeOpen, exchangeClaimed, game2, lobby2, send, join. orderly_run.
  - vm_compute. discriminate.
  - vm_compute. discriminate.
  - vm_compute. discriminate.
Defined.

(** The two provisos of the amended C1 are needed.  When the seat whose
    exchange offer is open leaves, the turn passes on and the two cards
    drawn for the offer are gone: 6 + 7 + 0 = 13. *)
Lemma abandoned_offer_loses_cards :
  reachable standardActions someEpithets robot exchangeAbandoned
  /\ started exchangeAbandoned
  /\ name (state exchangeAbandoned) = START_OF_TURN
  /\ influenceSlots exchangeAbandoned + length (deck exchangeAbandoned)
     + drawnCards exchangeAbandoned = 13
  /\ length (roles exchangeAbandoned) = 5.
Proof.
  split; [|split; [vm_compute; discriminate|repeat apply conj; vm_compute; reflexivity]].
  unfold exchangeAbandoned. apply reach_left. apply orderly_reachable.
  unfold exchangeOpen3, game3, lobby3, send, join. orderly_run.
Qed.

(** And when a challenger loses its last card by challenging a true
    exchange claim, the offer is opened and the game is won in the same
    step, so that the two cards drawn for the offer are gone as well:
    4 + 9 + 0 = 13. *)
Lemma won_over_offer_loses_cards :
  orderly standardActions someEpithets robot wonOverOffer
  /\ started wonOverOffer
  /\ name (state wonOverOffer) = GAME_WON
  /\ influenceSlots wonOverOffer + length (deck wonOverOffer) + drawnCards wonOverOffer = 13
  /\ length (roles wonOverOffer) = 5.
Proof.
  split; [|split; [vm_compute; discriminate|repeat apply conj; vm_compute; reflexivity]].
  unfold wonOverOffer, lastChallenge, game2, lobby2, send, join. orderly_run.
Qed.

(** ** More about the engine *)

Section Engine_facts.
Variable actions : string -> option Action.
Variable epithets : list string.
Variable aiPlayer : Connection.

(** *** Commands that the turn state rules out *)

(** X4. Once the game is won or destroyed, every command of every seat is
    rejected with an error and nothing changes. *)
Theorem command_after_game_over (i : nat) (c : Payload) (g : Game) :
  name (state g) = GAME_WON \/ name (state g) = DESTROYED ->
  exists e, command actions epithets aiPlayer i c g = (inl e, g).
Proof.
  intros Hover.
  destruct (command_cases actions epithets aiPlayer i c g) as [H|(_ & _ & ->)]; [assumption|].
  destruct (dispatch_rejected actions epithets aiPlayer i c g) as [e He].
  { destruct Hover as [H|H]; auto. }
  rewrite bind_run, He. eexists. reflexivity.
Qed.

(** X5. While an exchange offer is open, the only command that is not
    rejected outright is [exchange] from the seat that holds the offer:
    every other command, and [exchange] from any other seat, is rejected
    with an error and nothing changes. *)
Theorem exchange_window_exclusive (i : nat) (c : Payload) (g : Game) :
  name (state g) = EXCHANGE ->
  cmd_command c <> "exchange" \/ playerIdx (state g) <> idx i ->
  exists e, command actions epithets aiPlayer i c g = (inl e, g).
Proof.
  intros Hx Hwho.
  destruct (command_cases actions epithets aiPlayer i c g) as [H|(_ & _ & ->)]; [assumption|].
  rewrite bind_run.
  destruct (String.eqb_spec (cmd_command c) "exchange") as [Hcmd|Hcmd].
  - destruct Hwho as [Hwho|Hwho]; [contradiction|].
    unfold dispatch. rewrite Hcmd. simpl String.eqb. cbv iota zeta.
    unfold commandExchange. go. rewrite Hx. go.
    rewrite (jsnum_eqb_neq _ _ Hwho). go. eexists. reflexivity.
  - destruct (dispatch_rejected actions epithets aiPlayer i c g) as [e He]; [auto|].
    rewrite He. eexists. reflexivity.
Qed.

End Engine_facts.

Lemma command_after_game_over_witness :
  exists e, command standardActions someEpithets robot 0
              (withAction "income" JUndefined (payload 10 "play-action")) wonOverOffer
            = (inl e, wonOverOffer).
Proof. apply command_after_game_over. left. vm_compute. reflexivity. Defined.

Lemma exchange_window_exclusive_witness :
  exists e, command standardActions someEpithets robot 1
              (withRoles ["assassin"; "captain"] (payload 6 "exchange")) exchangeOpen
            = (inl e, exchangeOpen).
Proof.
  apply exchange_window_exclusive.
  - vm_compute. reflexivity.
  - right. vm_compute. discriminate.
Defined.

(** *** What every reachable game looks like *)

Lemma dealLoop_calm k acc : calm (dealLoop k acc).
Proof. revert acc. induction k; intros acc; simpl; calm_auto. Qed.

Lemma tableOk_created seed first : tableOk (createGame seed first).
Proof.
  split; [reflexivity|]. split; [constructor|].
  unfold nonObservers, MAX_PLAYERS. simpl. lia.
Qed.

Lemma then_emit (m : M bool) (g : Game) (P : Game -> Prop) :
  (forall g1, P g1 -> P (snd (emitState g1))) ->
  P (snd (m g)) -> P (snd ((do reachesEnd <- m; when reachesEnd emitState) g)).
Proof.
  intros Hemit Hm. rewrite bind_run.
  destruct (m g) as [[e|[|]] g1]; cbn [fst snd when ret] in *; auto.
Qed.

Section Reachable_facts.
Variable actions : string -> option Action.
Variable epithets : list string.
Variable aiPlayer : Connection.

Lemma command_tableOk i c g :
  tableOk g -> tableOk (snd (command actions epithets aiPlayer i c g)).
Proof.
  intros Ht.
  destruct (command_cases actions epithets aiPlayer i c g) as [[e ->]|(_ & _ & ->)];
    [assumption|].
  assert (Hd : tableOk (snd (dispatch actions epithets aiPlayer i c g))).
  { destruct (String.eqb (cmd_command c) "start") eqn:Estart.
    - unfold dispatch. cbv zeta. rewrite Estart, bind_run.
      destruct (start_cards (cmd_gameType c) g Ht) as [Hsame|Hset];
        destruct (start (cmd_gameType c) g) as [[e|[]] g1]; simpl in *;
        try (subst g1; assumption); apply Hset.
    - apply (dispatch_calm actions epithets aiPlayer i c Estart g), Ht. }
  apply then_emit; [|exact Hd].
  intros g1. apply (quiet_calm _ (passive_quiet _ (idle_passive _ emitState_idle)) g1).
Qed.

Lemma reachable_tableOk g : reachable actions epithets aiPlayer g -> tableOk g.
Proof.
  induction 1 as [seed first|g c _ IH|g i c _ IH|g i r _ IH].
  - apply tableOk_created.
  - apply (playerJoined_calm epithets c g), IH.
  - apply command_tableOk, IH.
  - apply (playerLeft_calm actions i r g), IH.
Qed.

(** X1. In every reachable game each seat's [influenceCount] is the number
    of its face-down cards; a player's seat has exactly two influence slots
    and an observer's seat has none. *)
Theorem influence_count_right (g : Game) (i : nat) (p : PlayerState) :
  reachable actions epithets aiPlayer g -> players g !! i = Some p ->
  influenceCount p = Z.of_nat (length (getInfluence p))
  /\ length (influence p) = (if isObserver p then 0 else 2).
Proof.
  intros Hg Hp. destruct (reachable_tableOk g Hg) as (_ & Hall & _).
  rewrite Forall_lookup in Hall. exact (Hall i p Hp).
Qed.

(** X2. In every reachable game [numPlayers] is the number of seats, and
    at most six of the seats are players (the others are observers). *)
Theorem seats_bounded (g : Game) :
  reachable actions epithets aiPlayer g ->
  numPlayers g = length (players g) /\ nonObservers g <= MAX_PLAYERS.
Proof.
  intros Hg. destruct (reachable_tableOk g Hg) as (Hn & _ & Hmax). split; assumption.
Qed.

End Reachable_facts.

Lemma start_roles (t : option string) (g : Game) :
  roles (snd (start t g)) = roles g
  \/ roles (snd (start t g))
     = ["duke"; "captain"; "assassin"; "contessa";
        if str_is t "inquisitors" then "inquisitor" else "ambassador"].
Proof.
  unfold start. rewrite bind_get. cbv beta. rewrite bind_run.
  destruct (negb (StateName_eqb (name (state g)) WAITING_FOR_PLAYERS)); [left; reflexivity|].
  rewrite throwIf_false. cbv beta iota.
  destruct (MIN_PLAYERS <=? numPlayers g); [|left; reflexivity].
  right. cbv zeta. rewrite bind_run. unfold modify at 1. cbv beta iota.
  match goal with
  | |- roles (snd (?m ?g1)) = _ =>
      assert (Hm : calm m) by (pose proof dealLoop_calm; unfold buildDeck; calm_auto);
      destruct (Hm g1) as (_ & -> & _)
  end.
  reflexivity.
Qed.

Section Roles_facts.
Variable actions : string -> option Action.
Variable epithets : list string.
Variable aiPlayer : Connection.

(** Outside the lobby no command touches the roles in play, and none leads
    back into the lobby. *)
Lemma command_keeps_roles i c g :
  name (state g) <> WAITING_FOR_PLAYERS ->
  roles (snd (command actions epithets aiPlayer i c g)) = roles g
  /\ name (state (snd (command actions epithets aiPlayer i c g))) <> WAITING_FOR_PLAYERS.
Proof.
  intros Hw.
  destruct (command_cases actions epithets aiPlayer i c g) as [[e ->]|(_ & _ & ->)];
    [split; [reflexivity|assumption]|].
  assert (Hd : roles (snd (dispatch actions epithets aiPlayer i c g)) = roles g
               /\ name (state (snd (dispatch actions epithets aiPlayer i c g)))
                  <> WAITING_FOR_PLAYERS).
  { destruct (String.eqb (cmd_command c) "start") eqn:Estart.
    - destruct (lobby_command_rejected actions epithets aiPlayer i c g Hw) as [e ->]; [auto|].
      split; [reflexivity|assumption].
    - destruct (dispatch_calm actions epithets aiPlayer i c Estart g) as (_ & H2 & H3). auto. }
  apply (then_emit _ g (fun g' => roles g' = roles g
                                  /\ name (state g') <> WAITING_FOR_PLAYERS)); [|exact Hd].
  intros g1. destruct (emitState_idle g1) as (_ & _ & Hr & Hs & _). rewrite Hr, Hs. auto.
Qed.

Lemma reachable_roles g :
  reachable actions epithets aiPlayer g ->
  roles g = []
  \/ (exists v, (v = "ambassador" \/ v = "inquisitor")
                /\ roles g = ["duke"; "captain"; "assassin"; "contessa"; v])
     /\ name (state g) <> WAITING_FOR_PLAYERS.
Proof.
  induction 1 as [seed first|g c Hg IH|g i c Hg IH|g i r Hg IH].
  - left. reflexivity.
  - destruct (playerJoined_calm epithets c g) as (_ & Hr & Hw). unfold exec. rewrite Hr.
    destruct IH as [IH|[IH1 IH2]]; [left; assumption|right; auto].
  - unfold exec.
    destruct (StateName_eqb (name (state g)) WAITING_FOR_PLAYERS) eqn:Hname.
    + assert (Hlobby : roles g = []).
      { destruct IH as [IH|[_ IH]]; [assumption|].
        destruct (name (state g)); try discriminate. contradiction. }
      clear IH. pose proof (reachable_tableOk actions epithets aiPlayer g Hg) as Ht.
      destruct (command_cases actions epithets aiPlayer i c g) as [[e ->]|(_ & _ & ->)];
        [left; assumption|].
      assert (Hd : roles (snd (dispatch actions epithets aiPlayer i c g)) = []
                   \/ (exists v, (v = "ambassador" \/ v = "inquisitor")
                                 /\ roles (snd (dispatch actions epithets aiPlayer i c g))
                                    = ["duke"; "captain"; "assassin"; "contessa"; v])
                      /\ name (state (snd (dispatch actions epithets aiPlayer i c g)))
                         <> WAITING_FOR_PLAYERS).
      { destruct (String.eqb (cmd_command c) "start") eqn:Estart.
        - unfold dispatch. cbv zeta. rewrite Estart, bind_run.
          pose proof (start_roles (cmd_gameType c) g) as Hroles.
          destruct (start_cards (cmd_gameType c) g Ht) as [Hsame|Hset].
          + left. destruct (start (cmd_gameType c) g) as [[e|[]] g1]; simpl in *;
              subst g1; assumption.
          + assert (H5 : roles (snd (start (cmd_gameType c) g))
                         = ["duke"; "captain"; "assassin"; "contessa";
                            if str_is (cmd_gameType c) "inquisitors"
                            then "inquisitor" else "ambassador"]).
            { destruct Hroles as [Hroles|Hroles]; [|assumption].
              destruct Hset as ((_ & Hlen & _) & _). rewrite Hroles, Hlobby in Hlen.
              discriminate. }
            destruct Hset as ((_ & _ & Hw) & _).
            right. destruct (start (cmd_gameType c) g) as [[e|[]] g1]; simpl in *.
            all: split; [|assumption].
            all: eexists; split; [|exact H5].
            all: destruct (str_is _ _); auto.
        - left. destruct (dispatch_calm actions epithets aiPlayer i c Estart g) as (_ & H2 & _).
          congruence. }
      apply (then_emit _ g
               (fun g' => roles g' = []
                          \/ (exists v, (v = "ambassador" \/ v = "inquisitor")
                                        /\ roles g' = ["duke"; "captain"; "assassin";
                                                       "contessa"; v])
                             /\ name (state g') <> WAITING_FOR_PLAYERS)); [|exact Hd].
      intros g1. destruct (emitState_idle g1) as (_ & _ & Hr & Hs & _). rewrite Hr, Hs. auto.
    + assert (Hw : name (state g) <> WAITING_FOR_PLAYERS).
      { intros H. rewrite H in Hname. discriminate. }
      destruct (command_keeps_roles i c g Hw) as [Hr Hw']. rewrite Hr.
      destruct IH as [IH|[IH1 IH2]]; [left; assumption|right; auto].
  - destruct (playerLeft_calm actions i r g) as (_ & Hr & Hw). unfold exec. rewrite Hr.
    destruct IH as [IH|[IH1 IH2]]; [left; assumption|right; auto].
Qed.

(** X3. A reachable game in which [start] has run, so that [state.roles]
    is no longer empty, plays with the four fixed roles and either the
    ambassador or the inquisitor; it is not in the lobby state, and no
    join, command or departure changes its roles.  (A lobby that was
    destroyed before any [start] has no roles and is not meant.) *)
Theorem roles_fixed_once_started (g : Game) :
  reachable actions epithets aiPlayer g -> started g ->
  (roles g = ["duke"; "captain"; "assassin"; "contessa"; "ambassador"]
   \/ roles g = ["duke"; "captain"; "assassin"; "contessa"; "inquisitor"])
  /\ name (state g) <> WAITING_FOR_PLAYERS
  /\ (forall c, roles (exec (playerJoined epithets c) g) = roles g)
  /\ (forall i c, roles (exec (command actions epithets aiPlayer i c) g) = roles g)
  /\ (forall i rejoined, roles (exec (playerLeft actions i rejoined) g) = roles g).
Proof.
  intros Hg Hstarted.
  destruct (reachable_roles g Hg) as [Hlobby|[(v & Hv & Hr) Hw]]; [contradiction|].
  split; [destruct Hv as [-> | ->]; auto|]. split; [assumption|].
  split; [|split].
  - intros c. apply (playerJoined_calm epithets c g).
  - intros i c. apply command_keeps_roles, Hw.
  - intros i r. apply (playerLeft_calm actions i r g).
Qed.

End Roles_facts.

Lemma reachable_afterReveal : reachable standardActions someEpithets robot afterReveal.
Proof.
  apply orderly_reachable.
  unfold afterReveal, taxChallenged, taxClaimed, exchangeDone, exchangeOpen,
    exchangeClaimed, game2, lobby2, send, join. orderly_run.
Qed.

Lemma reachable_game2 : reachable standardActions someEpithets robot game2.
Proof. apply orderly_reachable. unfold game2, lobby2, send, join. orderly_run. Qed.

Lemma reachable_game3 : reachable standardActions someEpithets robot game3.
Proof. apply orderly_reachable. unfold game3, lobby3, send, join. orderly_run. Qed.

Lemma influence_count_right_witness :
  influenceCount (mkPlayerState "bob" 2 1 [mkInfluence (Some "assassin") false;
                                           mkInfluence (Some "captain") true] false false)
  = Z.of_nat (length (getInfluence
                        (mkPlayerState "bob" 2 1 [mkInfluence (Some "assassin") false;
                                                  mkInfluence (Some "captain") true]
                                       false false)))
  /\ length (influence (mkPlayerState "bob" 2 1 [mkInfluence (Some "assassin") false;
                                                 mkInfluence (Some "captain") true]
                                      false false))
     = 2.
Proof.
  apply (influence_count_right standardActions someEpithets robot afterReveal 1
           (mkPlayerState "bob" 2 1 [mkInfluence (Some "assassin") false;
                                     mkInfluence (Some "captain") true] false false)).
  - exact reachable_afterReveal.
  - vm_compute. reflexivity.
Defined.

Lemma seats_bounded_witness :
  numPlayers game3 = length (players game3) /\ nonObservers game3 <= MAX_PLAYERS.
Proof. apply (seats_bounded standardActions someEpithets robot game3), reachable_game3. Defined.

Lemma roles_fixed_once_started_witness :
  (roles game2 = ["duke"; "captain"; "assassin"; "contessa"; "ambassador"]
   \/ roles game2 = ["duke"; "captain"; "assassin"; "contessa"; "inquisitor"])
  /\ name (state game2) <> WAITING_FOR_PLAYERS
  /\ (forall c, roles (exec (playerJoined someEpithets c) game2) = roles game2)
  /\ (forall i c, roles (exec (command standardActions someEpithets robot i c) game2)
                  = roles game2)
  /\ (forall i rejoined, roles (exec (playerLeft standardActions i rejoined) game2)
                         = roles game2).
Proof.
  apply (roles_fixed_once_started standardActions someEpithets robot game2).
  - exact reachable_game2.
  - vm_compute. discriminate.
Defined.

(** *** The deck *)

Lemma shuffleLoop_permutes (fuel : nat) (a acc : list jsrole) (g : Game) :
  fuel = length a ->
  exists d g', shuffleLoop fuel a acc g = (inr d, g') /\ d ≡ₚ acc ++ a.
Proof.
  revert a acc g. induction fuel as [|fuel IH]; intros a acc g Hf.
  - destruct a; [|discriminate]. eexists _, _. split; [reflexivity|].
    rewrite app_nil_r. reflexivity.
  - cbn [shuffleLoop]. rewrite bind_run.
    assert (Hrand : exists i g1, rand (length a) g = (inr i, g1) /\ i < length a).
    { unfold rand. destruct (rng g) as [|x r].
      - eexists _, _. split; [reflexivity|lia].
      - eexists _, _. split; [reflexivity|]. rewrite <- Hf.
        apply Nat.mod_upper_bound. discriminate. }
    destruct Hrand as (i & g1 & -> & Hi).
    destruct (lookup_lt_is_Some_2 a i Hi) as [e He]. rewrite He.
    destruct (IH (delete i a) (acc ++ [e]) g1) as (d & g' & -> & Hd).
    { rewrite length_delete by eauto. lia. }
    eexists _, _. split; [reflexivity|].
    rewrite Hd, <- app_assoc. apply Permutation_app_head. simpl.
    symmetry. apply delete_Permutation, He.
Qed.

Lemma shuffle_run (a : list jsrole) (g : Game) :
  exists d g', shuffle a g = (inr d, g')
               /\ d ≡ₚ a
               /\ sameTable g g' /\ state g' = state g
               /\ (fixedDeck g = true -> d = a /\ g' = g).
Proof.
  destruct (shuffle_returns a g) as (d & g' & Hrun & Hs & _ & _ & Hp & Hn).
  pose proof (shuffle_quiet a) as [Hcalm Hq].
  destruct (Hcalm g) as (_ & Hr & _).
  assert (Hidle : forall fuel arr acc g0, deck (snd (shuffleLoop fuel arr acc g0)) = deck g0
                                          /\ conns (snd (shuffleLoop fuel arr acc g0)) = conns g0).
  { induction fuel as [|fuel IH]; intros arr acc g0; [split; reflexivity|].
    cbn [shuffleLoop]. rewrite bind_run. unfold rand.
    destruct (rng g0); cbv beta iota; destruct (arr !! _); try (split; reflexivity);
      rewrite (proj1 (IH _ _ _)), (proj2 (IH _ _ _)); split; reflexivity. }
  exists d, g'. split; [assumption|].
  unfold shuffle in *. rewrite bind_get in *. 
  destruct (fixedDeck g) eqn:Hfix.
  - injection Hrun as <- <-. split; [reflexivity|]. split; [apply sameTable_refl|].
    split; [reflexivity|]. intros _. split; reflexivity.
  - destruct (shuffleLoop_permutes (length a) a [] g eq_refl) as (d2 & g2 & Hrun2 & Hd).
    rewrite Hrun in Hrun2. injection Hrun2 as <- <-.
    split; [exact Hd|]. split; [|split; [assumption|discriminate]].
    rewrite Hrun in Hr. simpl in Hr.
    pose proof (Hidle (length a) a [] g) as [Hdk Hcn]. rewrite Hrun in Hdk, Hcn.
    repeat split; assumption.
Qed.

Lemma shuffleLoop_draws (fuel : nat) (arr acc : list jsrole) (g : Game) :
  exists k, k <= fuel /\ snd (shuffleLoop fuel arr acc g) = set_rng (drop k) g.
Proof.
  revert arr acc g. induction fuel as [|fuel IH]; intros arr acc g.
  - exists 0. split; [lia|]. destruct g; reflexivity.
  - cbn [shuffleLoop]. rewrite bind_run. unfold rand.
    destruct (rng g) as [|x r] eqn:Hrng; cbv beta iota.
    + destruct (arr !! _).
      * match goal with
        | |- context [shuffleLoop fuel ?a' ?acc' ?g0] =>
            destruct (IH a' acc' g0) as (k & Hk & ->)
        end.
        exists 0. split; [lia|].
        destruct g; simpl in *; subst. unfold set_rng; cbn. rewrite ?drop_nil. reflexivity.
      * exists 0. split; [lia|]. destruct g; reflexivity.
    + destruct (arr !! _).
      * match goal with
        | |- context [shuffleLoop fuel ?a' ?acc' ?g0] =>
            destruct (IH a' acc' g0) as (k & Hk & ->)
        end.
        exists (S k). split; [lia|].
        destruct g; simpl in *; subst. reflexivity.
      * exists 1. split; [lia|]. cbn [snd ret].
        destruct g; simpl in *; subst. unfold set_rng; cbn. rewrite ?drop_0. reflexivity.
Qed.

(** X6. [shuffle] always returns, and what it returns is a rearrangement of
    its argument: no card is lost, added or duplicated, whatever the random
    generator yields.  The game it leaves is the game it found with some
    values drawn from the front of the random generator, at most one for
    each card, and every other field as it was; with a fixed deck it
    returns its argument as it is and draws nothing. *)
Theorem shuffle_permutes (a : list jsrole) (g : Game) :
  exists d k, shuffle a g = (inr d, set_rng (drop k) g)
              /\ k <= length a
              /\ d ≡ₚ a
              /\ (fixedDeck g = true -> d = a /\ k = 0 /\ set_rng (drop k) g = g).
Proof.
  destruct (shuffle_run a g) as (d & g' & Hrun & Hd & _ & _ & Hfix).
  exists d. unfold shuffle in *. rewrite bind_get in *.
  destruct (fixedDeck g) eqn:Hf.
  - exists 0. injection Hrun as <- <-.
    assert (Hg : set_rng (drop 0) g = g) by (destruct g; reflexivity).
    rewrite Hg. repeat split; [lia|auto].
  - destruct (shuffleLoop_draws (length a) a [] g) as (k & Hk & Hg).
    exists k. rewrite Hrun in Hg. simpl in Hg. subst g'.
    split; [exact Hrun|]. split; [exact Hk|]. split; [exact Hd|discriminate].
Qed.

Lemma swapRole_run (r : jsrole) (g : Game) :
  exists c g', swapRole r g = (inr c, g')
               /\ c :: deck g' ≡ₚ r :: deck g
               /\ players g' = players g /\ state g' = state g.
Proof.
  unfold swapRole. rewrite bind_run. unfold modify at 1. cbv beta iota.
  rewrite bind_get. cbv beta. rewrite bind_run.
  match goal with
  | |- context [shuffle ?a ?g0] =>
      destruct (shuffle_run a g0) as (d & g1 & -> & Hd & (Hp & _) & Hs & _)
  end.
  cbv beta iota. rewrite bind_run. unfold modify at 1. cbv beta iota.
  unfold deckPop. rewrite bind_get. cbv beta. rewrite bind_run. unfold modify at 1.
  cbv beta iota. simpl in Hd, Hp, Hs.
  destruct d as [|x d _] using rev_ind.
  { apply Permutation_nil_l in Hd. destruct (deck g); discriminate. }
  eexists _, _. split; [reflexivity|]. simpl.
  rewrite last_snoc, removelast_last. simpl.
  split; [|split; assumption].
  rewrite (Permutation_cons_append d x), Hd, <- Permutation_cons_append. reflexivity.
Qed.

(** X7. [swapRole] always returns: it puts the given card into the deck and
    draws one, so that the card returned together with the new deck is a
    rearrangement of the given card together with the old deck.  Seats and
    turn state are untouched. *)
Theorem swapRole_conserves (r : jsrole) (g : Game) :
  exists c g', swapRole r g = (inr c, g')
               /\ c :: deck g' ≡ₚ r :: deck g
               /\ players g' = players g /\ state g' = state g.
Proof. exact (swapRole_run r g). Qed.

(** *** Choosing from an exchange offer *)

Lemma jsrole_eqb_eq (a b : jsrole) : jsrole_eqb a b = true <-> a = b.
Proof.
  destruct a as [x|], b as [y|]; simpl; split; try discriminate; try reflexivity.
  - intros H. apply String.eqb_eq in H. congruence.
  - intros [= ->]. apply String.eqb_refl.
Qed.

Lemma find_index_None {A} (f : A -> bool) (l : list A) :
  find_index f l = None -> forall x, x ∈ l -> f x = false.
Proof.
  induction l as [|y l IH]; intros H x Hx; [inversion Hx|]. simpl in H.
  destruct (f y) eqn:Hy; [discriminate|].
  destruct (find_index f l); [discriminate|].
  apply elem_of_cons in Hx as [->|Hx]; auto.
Qed.

Lemma indexOf_role (x : jsrole) (l : list jsrole) :
  match indexOf jsrole_eqb x l with
  | Some i => l !! i = Some x
  | None => x ∉ l
  end.
Proof.
  unfold indexOf. destruct (find_index _ l) as [i|] eqn:H.
  - apply find_index_Some in H as (y & Hy & Heq). apply jsrole_eqb_eq in Heq. congruence.
  - intros Hx. pose proof (find_index_None _ _ H x Hx) as Hf. simpl in Hf.
    rewrite (proj2 (jsrole_eqb_eq x x) eq_refl) in Hf. discriminate.
Qed.

(** X8. [arrayDifference] takes the chosen cards out of the offer one by
    one: it succeeds exactly when the chosen cards, counted with their
    repetitions, are among the offered ones, and then the offer is a
    rearrangement of the chosen cards followed by the cards it returns. *)
Theorem arrayDifference_spec (array subarray : list jsrole) :
  (is_Some (arrayDifference array subarray) <-> subarray ⊆+ array)
  /\ (forall rest, arrayDifference array subarray = Some rest -> array ≡ₚ subarray ++ rest).
Proof.
  assert (Hperm : forall sub arr rest,
             arrayDifference arr sub = Some rest -> arr ≡ₚ sub ++ rest).
  { induction sub as [|x sub IH]; intros arr rest H; simpl in H.
    - injection H as <-. reflexivity.
    - pose proof (indexOf_role x arr) as Hx.
      destruct (indexOf jsrole_eqb x arr) as [i|]; [|discriminate].
      rewrite (delete_Permutation _ _ _ Hx). simpl. apply Permutation_skip, IH, H. }
  split; [|apply Hperm]. split.
  - intros [rest H]. apply Hperm in H. rewrite H. apply submseteq_inserts_r. reflexivity.
  - revert array. induction subarray as [|x sub IH]; intros arr H; simpl; [eauto|].
    pose proof (indexOf_role x arr) as Hx.
    destruct (indexOf jsrole_eqb x arr) as [i|].
    + apply IH. rewrite (delete_Permutation _ _ _ Hx) in H.
      apply (submseteq_app_inv_l _ _ [x]), H.
    + exfalso. apply Hx. apply (elem_of_submseteq (x :: sub)); [left|assumption].
Qed.

(** *** The end of the game *)

Lemma findWinner_spec (ps : list PlayerState) (i : nat) :
  (forall w, findWinner ps i None = Some w <->
             exists k p, w = i + k /\ ps !! k = Some p /\ (0 < influenceCount p)%Z
                         /\ forall j q, ps !! j = Some q -> (0 < influenceCount q)%Z -> j = k)
  /\ (forall w0 w, findWinner ps i (Some w0) = Some w <->
                   w = w0 /\ forall j q, ps !! j = Some q -> ~ (0 < influenceCount q)%Z).
Proof.
  revert i. induction ps as [|p ps IH]; intros i.
  { split.
    - intros w. simpl. split; [discriminate|]. intros (k & q & _ & Hq & _). discriminate.
    - intros w0 w. simpl. split.
      + intros [= ->]. split; [reflexivity|]. intros j q Hq. discriminate.
      + intros [-> _]. reflexivity. }
  destruct (IH (S i)) as [IHn IHs]. simpl.
  destruct (Z.ltb_spec 0 (influenceCount p)) as [Hlive|Hdead].
  - split.
    + intros w. rewrite IHs. split.
      * intros [-> Hnone]. exists 0, p. split; [lia|]. split; [reflexivity|].
        split; [assumption|]. intros [|j] q Hq Hq'; [reflexivity|].
        exfalso. exact (Hnone j q Hq Hq').
      * intros (k & q & -> & Hq & Hlq & Huniq).
        assert (k = 0) by (symmetry; apply (Huniq 0 p); [reflexivity|assumption]).
        subst k. split; [lia|]. intros j q' Hq' Hlive'.
        specialize (Huniq (S j) q' Hq' Hlive'). discriminate.
    + intros w0 w. split; [discriminate|]. intros [_ Hnone].
      exfalso. exact (Hnone 0 p eq_refl Hlive).
  - split.
    + intros w. rewrite IHn. split.
      * intros (k & q & -> & Hq & Hlq & Huniq). exists (S k), q.
        split; [lia|]. split; [assumption|]. split; [assumption|].
        intros [|j] q' Hq' Hlive'.
        -- injection Hq' as <-. lia.
        -- f_equal. apply (Huniq j q'); assumption.
      * intros ([|k] & q & -> & Hq & Hlq & Huniq).
        -- injection Hq as <-. lia.
        -- exists k, q. split; [lia|]. split; [assumption|]. split; [assumption|].
           intros j q' Hq' Hlive'. specialize (Huniq (S j) q' Hq' Hlive'). lia.
    + intros w0 w. rewrite IHs. split.
      * intros [-> Hnone]. split; [reflexivity|]. intros [|j] q Hq.
        -- injection Hq as <-. lia.
        -- exact (Hnone j q Hq).
      * intros [-> Hnone]. split; [reflexivity|]. intros j q Hq. exact (Hnone (S j) q Hq).
Qed.

(** X9. [checkForGameEnd] declares the game won exactly when one single
    seat holds influence: that seat becomes the winner in a [GAME_WON]
    state, and the answer is [true] (provided the winner is connected).  In
    every other case the answer is [false] and the game is left as it is. *)
Theorem checkForGameEnd_spec (g : Game) :
  (forall w p,
      players g !! w = Some p -> (0 < influenceCount p)%Z ->
      (forall j q, players g !! j = Some q -> (0 < influenceCount q)%Z -> j = w) ->
      state (snd (checkForGameEnd g))
      = mkTurnState GAME_WON (idx w) None JUndefined None None None JUndefined [] None
      /\ (is_Some (mjoin (conns g !! w)) -> fst (checkForGameEnd g) = inr true))
  /\ ((forall w p, players g !! w = Some p -> (0 < influenceCount p)%Z ->
                   exists j q, players g !! j = Some q /\ (0 < influenceCount q)%Z /\ j <> w) ->
      checkForGameEnd g = (inr false, g)).
Proof.
  destruct (findWinner_spec (players g) 0) as [Hspec _].
  unfold checkForGameEnd. rewrite bind_get. cbv beta. split.
  - intros w p Hp Hlive Huniq.
    assert (Hw : findWinner (players g) 0 None = Some w).
    { apply Hspec. exists w, p. auto. }
    rewrite Hw. go. rewrite at_js_idx. split.
    + destruct (mjoin (conns g !! w)); reflexivity.
    + intros [cn Hcn]. rewrite Hcn. reflexivity.
  - intros Hmany. destruct (findWinner (players g) 0 None) as [w|] eqn:Hw; [|reflexivity].
    apply (proj1 (findWinner_spec (players g) 0)) in Hw as (k & p & -> & Hp & Hlive & Huniq).
    destruct (Hmany k p Hp Hlive) as (j & q & Hq & Hlq & Hne).
    exfalso. apply Hne. apply (Huniq j q); assumption.
Qed.

(** *** Whose turn is next *)

Lemma mod_wrap (a n : nat) : n <= a -> a < 2 * n -> a mod n = a - n.
Proof.
  intros H1 H2. replace a with ((a - n) + 1 * n) at 1 by lia.
  rewrite Nat.Div0.mod_add. apply Nat.mod_small. lia.
Qed.

Lemma candidate_seat (c i n : nat) :
  0 < n ->
  Z.rem (Z.of_nat c + Z.of_nat i) (Z.of_nat n) = Z.of_nat ((c + i) mod n).
Proof.
  intros Hn. rewrite Z.rem_mod_nonneg by lia.
  rewrite <- Nat2Z.inj_add, Nat2Z.inj_mod. reflexivity.
Qed.

Lemma nextPlayerLoop_spec (k c : nat) (g : Game) :
  numPlayers g = length (players g) -> c < numPlayers g -> k <= numPlayers g - 1 ->
  exists r, nextPlayerLoop k (idx c) g = (inr r, g)
            /\ ((r = JNull
                 /\ forall i, numPlayers g - k <= i < numPlayers g ->
                              ~ holdsInfluence g ((c + i) mod numPlayers g))
                \/ exists i, numPlayers g - k <= i < numPlayers g
                             /\ r = idx ((c + i) mod numPlayers g)
                             /\ holdsInfluence g ((c + i) mod numPlayers g)
                             /\ forall i', numPlayers g - k <= i' < i ->
                                           ~ holdsInfluence g ((c + i') mod numPlayers g)).
Proof.
  intros Hn Hc. induction k as [|k IH]; intros Hk.
  { eexists. split; [reflexivity|]. left. split; [reflexivity|]. intros i Hi. lia. }
  cbn [nextPlayerLoop]. rewrite bind_get. cbv beta zeta. unfold idx. cbv iota.
  rewrite candidate_seat by lia.
  change (JNum (Z.of_nat ((c + (numPlayers g - S k)) mod numPlayers g)))
    with (idx ((c + (numPlayers g - S k)) mod numPlayers g)).
  change (JNum (Z.of_nat c)) with (idx c).
  rewrite bind_run, playerAt_run, at_js_idx.
  assert (Hlt : (c + (numPlayers g - S k)) mod numPlayers g < length (players g)).
  { rewrite <- Hn. apply Nat.mod_upper_bound. lia. }
  destruct (lookup_lt_is_Some_2 _ _ Hlt) as [p Hp]. rewrite Hp. cbv beta iota.
  destruct (Z.ltb_spec 0 (influenceCount p)) as [Hlive|Hdead].
  - eexists. split; [reflexivity|]. right. exists (numPlayers g - S k).
    split; [lia|]. split; [reflexivity|]. split; [exists p; auto|]. intros i' Hi'. lia.
  - destruct IH as (r & Hrun & Hr); [lia|]. exists r. split; [exact Hrun|].
    assert (Hhere : ~ holdsInfluence g ((c + (numPlayers g - S k)) mod numPlayers g)).
    { intros (q & Hq & Hlq). rewrite Hp in Hq. injection Hq as <-. lia. }
    destruct Hr as [[-> Hnone]|(i & Hi & -> & Hli & Hbefore)].
    + left. split; [reflexivity|]. intros i Hi.
      destruct (decide (i = numPlayers g - S k)) as [->|Hne]; [assumption|].
      apply Hnone. lia.
    + right. exists i. split; [lia|]. split; [reflexivity|]. split; [assumption|].
      intros i' Hi'.
      destruct (decide (i' = numPlayers g - S k)) as [->|Hne]; [assumption|].
      apply Hbefore. lia.
Qed.

(** X10. [nextPlayerIdx] answers the first seat after the current one, in
    the cyclic order of the table, that still holds influence; it never
    answers the current seat, and it answers [null] exactly when no other
    seat holds influence.  It changes nothing. *)
Theorem nextPlayerIdx_spec (c : nat) (g : Game) :
  numPlayers g = length (players g) -> playerIdx (state g) = idx c -> c < numPlayers g ->
  exists r, nextPlayerIdx g = (inr r, g)
            /\ ((r = JNull
                 /\ forall j, j < numPlayers g -> j <> c -> ~ holdsInfluence g j)
                \/ exists d, 1 <= d < numPlayers g
                             /\ r = idx ((c + d) mod numPlayers g)
                             /\ (c + d) mod numPlayers g <> c
                             /\ holdsInfluence g ((c + d) mod numPlayers g)
                             /\ forall d', 1 <= d' < d ->
                                           ~ holdsInfluence g ((c + d') mod numPlayers g)).
Proof.
  intros Hn Hturn Hc. unfold nextPlayerIdx. rewrite bind_get. cbv beta. rewrite Hturn.
  destruct (nextPlayerLoop_spec (numPlayers g - 1) c g Hn Hc (Nat.le_refl _))
    as (r & Hrun & Hr).
  exists r. split; [exact Hrun|].
  replace (numPlayers g - (numPlayers g - 1)) with 1 in Hr by lia.
  destruct Hr as [[-> Hnone]|(i & Hi & -> & Hli & Hbefore)].
  - left. split; [reflexivity|]. intros j Hj Hne.
    destruct (le_lt_dec c j) as [Hle|Hgt].
    + specialize (Hnone (j - c)). replace (c + (j - c)) with j in Hnone by lia.
      rewrite Nat.mod_small in Hnone by lia. apply Hnone. lia.
    + specialize (Hnone (numPlayers g + j - c)).
      rewrite mod_wrap in Hnone by lia.
      replace (c + (numPlayers g + j - c) - numPlayers g) with j in Hnone by lia.
      apply Hnone. lia.
  - right. exists i. split; [assumption|]. split; [reflexivity|]. split; [|auto].
    destruct (le_lt_dec (numPlayers g) (c + i)) as [Hwrap|Hsmall].
    + rewrite mod_wrap by lia. lia.
    + rewrite Nat.mod_small by lia. lia.
Qed.

(** *** Who has allowed *)

Lemma everyoneAllowsLoop_spec (k : nat) (g : Game) :
  numPlayers g = length (players g) -> k <= numPlayers g ->
  exists b, everyoneAllowsLoop k g = (inr b, g)
            /\ (b = true <->
                forall i p, numPlayers g - k <= i -> players g !! i = Some p ->
                            influenceCount p <> 0%Z -> allowed g i = true).
Proof.
  intros Hn. induction k as [|k IH]; intros Hk.
  { exists true. split; [reflexivity|]. split; [|reflexivity].
    intros _ i p Hi Hp. apply lookup_lt_Some in Hp. lia. }
  cbn [everyoneAllowsLoop]. rewrite bind_get. cbv beta zeta.
  rewrite bind_run, playerAt_run, at_js_idx.
  assert (Hlt : numPlayers g - S k < length (players g)) by lia.
  destruct (lookup_lt_is_Some_2 _ _ Hlt) as [p Hp]. rewrite Hp. cbv beta iota.
  destruct IH as (b & Hrun & Hb); [lia|].
  destruct (Z.eqb_spec (influenceCount p) 0) as [Hdead|Hlive].
  - exists b. split; [exact Hrun|]. rewrite Hb. split.
    + intros H i q Hi Hq Hlq.
      destruct (decide (i = numPlayers g - S k)) as [->|Hne].
      * rewrite Hp in Hq. injection Hq as <-. contradiction.
      * apply (H i q); [lia|assumption..].
    + intros H i q Hi. apply H. lia.
  - destruct (allowed g (numPlayers g - S k)) eqn:Hal; cbn [negb].
    + exists b. split; [exact Hrun|]. rewrite Hb. split.
      * intros H i q Hi Hq Hlq.
        destruct (decide (i = numPlayers g - S k)) as [->|Hne]; [assumption|].
        apply (H i q); [lia|assumption..].
      * intros H i q Hi. apply H. lia.
    + exists false. split; [reflexivity|]. split; [discriminate|].
      intros H. rewrite (H _ p (Nat.le_refl _) Hp Hlive) in Hal. discriminate.
Qed.

(** X11. [everyoneAllows] answers [true] exactly when every seat that
    still holds influence has allowed (a seat without influence is not
    waited for); it changes nothing. *)
Theorem everyoneAllows_spec (g : Game) :
  numPlayers g = length (players g) ->
  exists b, everyoneAllows g = (inr b, g)
            /\ (b = true <->
                forall i p, players g !! i = Some p -> influenceCount p <> 0%Z ->
                            allowed g i = true).
Proof.
  intros Hn. unfold everyoneAllows. rewrite bind_get. cbv beta.
  destruct (everyoneAllowsLoop_spec (numPlayers g) g Hn (Nat.le_refl _)) as (b & Hrun & Hb).
  exists b. split; [exact Hrun|]. rewrite Hb, Nat.sub_diag. split.
  - intros H i p. apply H. lia.
  - intros H i p _. apply H.
Qed.

(** *** Commands that are rejected *)

Section Rejected_commands.
Variable actions : string -> option Action.
Variable epithets : list string.
Variable aiPlayer : Connection.

Ltac at_branch Hcmd :=
  unfold dispatch; rewrite Hcmd; simpl String.eqb; cbv iota zeta.

(** X12. A seat without influence can neither challenge, nor block, nor
    allow: each of these commands is rejected with an error and nothing
    changes. *)
Theorem dead_seat_cannot_respond (i : nat) (c : Payload) (g : Game) (p : PlayerState) :
  players g !! i = Some p -> influenceCount p = 0%Z ->
  cmd_command c = "challenge" \/ cmd_command c = "block" \/ cmd_command c = "allow" ->
  exists e, command actions epithets aiPlayer i c g = (inl e, g).
Proof.
  intros Hp Hdead Hcmd.
  destruct (command_cases actions epithets aiPlayer i c g) as [H|(_ & _ & ->)]; [assumption|].
  rewrite bind_run.
  destruct Hcmd as [Hcmd|[Hcmd|Hcmd]]; at_branch Hcmd.
  - unfold commandChallenge. go. rewrite at_js_idx, Hp. go. rewrite Hdead. go.
    eexists. reflexivity.
  - unfold commandBlock. go. rewrite at_js_idx, Hp. go. rewrite Hdead. go.
    eexists. reflexivity.
  - unfold commandAllow. go. rewrite at_js_idx, Hp. go. rewrite Hdead. go.
    eexists. reflexivity.
Qed.

(** X13. The commands that belong to one seat are rejected, with nothing
    changed, from every other seat and in every other state: [play-action]
    needs [START_OF_TURN] and the seat whose turn it is, [reveal] needs
    [REVEAL_INFLUENCE] and the seat that has to reveal, [interrogate] needs
    [INTERROGATE] and the seat whose turn it is. *)
Theorem out_of_turn_rejected (i : nat) (c : Payload) (g : Game) :
  (cmd_command c = "play-action"
   /\ (name (state g) <> START_OF_TURN \/ playerIdx (state g) <> idx i))
  \/ (cmd_command c = "reveal"
      /\ (name (state g) <> REVEAL_INFLUENCE \/ playerToReveal (state g) <> idx i))
  \/ (cmd_command c = "interrogate"
      /\ (name (state g) <> INTERROGATE \/ playerIdx (state g) <> idx i)) ->
  exists e, command actions epithets aiPlayer i c g = (inl e, g).
Proof.
  intros H.
  destruct (command_cases actions epithets aiPlayer i c g) as [Hr|(_ & _ & ->)]; [assumption|].
  rewrite bind_run.
  destruct H as [[Hcmd H]|[[Hcmd H]|[Hcmd H]]]; at_branch Hcmd.
  - unfold commandPlayAction. go.
    destruct (name (state g)) eqn:Hname; go; try (eexists; reflexivity).
    destruct H as [H|H]; [contradiction|]. rewrite (jsnum_eqb_neq _ _ H). go.
    eexists. reflexivity.
  - unfold commandReveal. go.
    destruct (name (state g)) eqn:Hname; go; try (eexists; reflexivity).
    destruct H as [H|H]; [contradiction|]. rewrite (jsnum_eqb_neq _ _ H). go.
    eexists. reflexivity.
  - unfold commandInterrogate. go.
    destruct (name (state g)) eqn:Hname; go; try (eexists; reflexivity).
    destruct H as [H|H]; [contradiction|]. rewrite (jsnum_eqb_neq _ _ H). go.
    eexists. reflexivity.
Qed.

(** X14. Nobody answers its own move: the seat whose action is pending can
    neither challenge, block nor allow it, and the seat whose block is
    pending can neither challenge nor allow it.  Each such command is
    rejected with an error and nothing changes. *)
Theorem own_move_not_answered (i : nat) (c : Payload) (g : Game) :
  (name (state g) = ACTION_RESPONSE /\ playerIdx (state g) = idx i
   /\ (cmd_command c = "challenge" \/ cmd_command c = "block" \/ cmd_command c = "allow"))
  \/ (name (state g) = FINAL_ACTION_RESPONSE /\ playerIdx (state g) = idx i
      /\ (cmd_command c = "block" \/ cmd_command c = "allow"))
  \/ (name (state g) = BLOCK_RESPONSE /\ target (state g) = idx i
      /\ (cmd_command c = "challenge" \/ cmd_command c = "allow")) ->
  exists e, command actions epithets aiPlayer i c g = (inl e, g).
Proof.
  intros H.
  destruct (command_cases actions epithets aiPlayer i c g) as [Hr|(_ & _ & ->)]; [assumption|].
  rewrite bind_run.
  assert (Hself : jsnum_eqb (idx i) (idx i) = true) by (rewrite jsnum_eqb_idx; apply Nat.eqb_refl).
  destruct H as [(Hn & Hwho & [Hcmd|[Hcmd|Hcmd]])|[(Hn & Hwho & [Hcmd|Hcmd])
                                                  |(Hn & Hwho & [Hcmd|Hcmd])]];
    at_branch Hcmd.
  all: unfold commandChallenge, commandBlock, commandAllow, allow; go.
  all: destruct (at_js (players g) (idx i)) as [p|]; go; [|eexists; reflexivity].
  all: destruct (influenceCount p =? 0)%Z; go; [eexists; reflexivity|].
  all: rewrite Hn, ?Hwho; go; rewrite ?Hwho, ?Hself; go.
  all: try (eexists; reflexivity).
  all: destruct (match action (state g) with Some k => actions k | None => None end); go;
    rewrite ?Hself; go; eexists; reflexivity.
Qed.

End Rejected_commands.

Section Play_action.
Variable actions : string -> option Action.
Variable epithets : list string.
Variable aiPlayer : Connection.

(** X15. A [play-action] is rejected, with nothing changed, when it names
    no action at all, when the action it names is an entry of the table
    that needs a role which is not in this game, when the seat has less
    cash than that entry costs, and when the entry is targeted and the
    command's target is [undefined], [null], a number out of range or the
    number of a seat without influence. *)
Theorem play_action_refused (i : nat) (c : Payload) (g : Game) :
  cmd_command c = "play-action" ->
  cmd_action c = None
  \/ (exists act rs, actionOf actions (cmd_action c) = Some act
                     /\ a_roles act = Some rs /\ getGameRole g rs = None)
  \/ (exists act p, actionOf actions (cmd_action c) = Some act
                    /\ players g !! i = Some p /\ (cash p < a_cost act)%Z)
  \/ (exists act, actionOf actions (cmd_action c) = Some act /\ a_targeted act = true
                  /\ (cmd_target c = JUndefined
                      \/ cmd_target c = JNull
                      \/ exists t, cmd_target c = JNum t
                                   /\ ((t < 0)%Z \/ (Z.of_nat (numPlayers g) <= t)%Z
                                       \/ exists q, players g !! Z.to_nat t = Some q
                                                    /\ influenceCount q = 0%Z))) ->
  exists e, command actions epithets aiPlayer i c g = (inl e, g).
Proof.
  intros Hcmd H.
  destruct (command_cases actions epithets aiPlayer i c g) as [Hr|(_ & _ & ->)]; [assumption|].
  rewrite bind_run. unfold dispatch. cbv zeta. rewrite Hcmd.
  cbn [String.eqb Ascii.eqb Bool.eqb]. cbv iota.
  unfold commandPlayAction. rewrite bind_get. cbv beta.
  rewrite bind_run. destruct (negb (StateName_eqb _ _)); [eexists; reflexivity|].
  rewrite throwIf_false. cbv beta iota.
  rewrite bind_run. destruct (negb (jsnum_eqb _ _)); [eexists; reflexivity|].
  rewrite throwIf_false. cbv beta iota.
  destruct H as [H|[(act & rs & Hact & Hrs & Hrole)|[(act & p & Hact & Hp & Hcash)
                                                    |(act & Hact & Htargeted & Htarget)]]].
  - rewrite H. cbn [actionOf]. eexists. reflexivity.
  - rewrite Hact, Hrs, Hrole. eexists. reflexivity.
  - rewrite Hact. rewrite bind_run.
    destruct (match a_roles act with
              | Some rs => negb (truthy (getGameRole g rs))
              | None => false
              end); [eexists; reflexivity|].
    rewrite throwIf_false. cbv beta iota. rewrite bind_run, playerAt_run, at_js_idx, Hp.
    cbv beta iota. rewrite bind_run. destruct (_ && _); [eexists; reflexivity|].
    rewrite throwIf_false. cbv beta iota. rewrite bind_run.
    rewrite (proj2 (Z.ltb_lt _ _) Hcash). eexists. reflexivity.
  - rewrite Hact. rewrite bind_run.
    destruct (match a_roles act with
              | Some rs => negb (truthy (getGameRole g rs))
              | None => false
              end); [eexists; reflexivity|].
    rewrite throwIf_false. cbv beta iota. rewrite bind_run, playerAt_run.
    destruct (at_js (players g) (idx i)) as [p|]; [|eexists; reflexivity].
    cbv beta iota. rewrite bind_run. destruct (_ && _); [eexists; reflexivity|].
    rewrite throwIf_false. cbv beta iota. rewrite bind_run.
    destruct (cash p <? a_cost act)%Z; [eexists; reflexivity|].
    rewrite throwIf_false. cbv beta iota. rewrite Htargeted. rewrite bind_run.
    unfold when.
    destruct Htarget as [->|[->|(t & -> & Htarget)]]; try (eexists; reflexivity).
    rewrite bind_run.
    destruct ((t <? 0)%Z || (Z.of_nat (numPlayers g) <=? t)%Z) eqn:Hrange;
      [eexists; reflexivity|].
    apply orb_false_iff in Hrange as [Hneg Hbig].
    apply Z.ltb_ge in Hneg. apply Z.leb_gt in Hbig.
    destruct Htarget as [Ht|[Ht|(q & Hq & Hdead)]]; [lia..|].
    rewrite throwIf_false. cbv beta iota. rewrite bind_run, playerAt_run.
    unfold at_js. rewrite (proj2 (Z.leb_le 0 t) Hneg), Hq. cbv beta iota.
    rewrite Hdead. eexists. reflexivity.
Qed.

End Play_action.

Section Accepted_actions.
Variable actions : string -> option Action.
Variable epithets : list string.
Variable aiPlayer : Connection.

(** X16. A [play-action] that passes the checks and names an action that
    is claimed with a role or can be blocked is not carried out at once:
    the seat pays the cost, and the game waits in [ACTION_RESPONSE] for the
    other seats, with the actor alone counted as having allowed.  The deck
    is untouched and one snapshot round is broadcast. *)
Theorem play_action_claim (i : nat) (c : Payload) (g : Game) (p : PlayerState) (act : Action) :
  name (state g) = START_OF_TURN -> playerIdx (state g) = idx i ->
  players g !! i = Some p -> cmd_stateId c = idx (stateId g) ->
  cmd_command c = "play-action" ->
  actionOf actions (cmd_action c) = Some act ->
  a_roles act <> None \/ a_blockedBy act <> None ->
  (forall rs, a_roles act = Some rs -> truthy (getGameRole g rs) = true) ->
  (cash p < 10)%Z \/ cmd_action c = Some "coup" ->
  (a_cost act <= cash p)%Z ->
  (a_targeted act = true ->
   exists t q, cmd_target c = idx t /\ t < numPlayers g
               /\ players g !! t = Some q /\ influenceCount q <> 0%Z) ->
  exists g', command actions epithets aiPlayer i c g = (inr tt, g')
             /\ name (state g') = ACTION_RESPONSE
             /\ playerIdx (state g') = idx i
             /\ action (state g') = cmd_action c
             /\ target (state g') = cmd_target c
             /\ allows g' = [i]
             /\ players g' = alter (withCash (fun x => x - a_cost act)%Z) i (players g)
             /\ deck g' = deck g
             /\ stateId g' = S (stateId g).
Proof.
  intros Hname Hturn Hp Hsid Hcmd Hact Hclaim Hrole Hlow Hcost Htarget.
  rewrite command_fresh by (rewrite ?Hp; eauto).
  rewrite bind_run. unfold dispatch. cbv zeta. rewrite Hcmd.
  cbn [String.eqb Ascii.eqb Bool.eqb]. cbv iota.
  unfold commandPlayAction. go. rewrite Hname. go.
  rewrite Hturn, jsnum_eqb_idx, Nat.eqb_refl. go.
  unfold actionOf in Hact. rewrite Hact. go.
  assert (Hr : match a_roles act with
               | Some rs => negb (truthy (getGameRole g rs))
               | None => false
               end = false).
  { destruct (a_roles act) as [rs|]; [|reflexivity]. rewrite (Hrole rs eq_refl). reflexivity. }
  rewrite Hr. go. rewrite at_js_idx, Hp. go.
  assert (Hten : (10 <=? cash p)%Z && negb (str_is (cmd_action c) "coup") = false).
  { destruct Hlow as [Hlow|Hcoup].
    - rewrite (proj2 (Z.leb_gt _ _) Hlow). reflexivity.
    - rewrite Hcoup. simpl. apply andb_false_r. }
  rewrite Hten. go. rewrite (proj2 (Z.ltb_ge _ _) Hcost). go.
  destruct (a_targeted act) eqn:Htargeted; go.
  - destruct (Htarget eq_refl) as (t & q & Hc & Ht & Hq & Hlive).
    assert (Hrange : (Z.of_nat t <? 0)%Z || (Z.of_nat (numPlayers g) <=? Z.of_nat t)%Z = false).
    { rewrite (proj2 (Z.ltb_ge _ _) (Nat2Z.is_nonneg t)). apply Z.leb_gt. lia. }
    rewrite Hc. change (idx t) with (JNum (Z.of_nat t)). cbv iota. rewrite Hrange.
    change (JNum (Z.of_nat t)) with (idx t). go. rewrite at_js_idx, Hq. go.
    rewrite (proj2 (Z.eqb_neq _ _) Hlive). go.
    destruct (a_roles act) as [rs|], (a_blockedBy act) as [bs|];
      try (destruct Hclaim as [Hclaim|Hclaim]; contradiction).
    all: go; rewrite emitState_run; eexists; split; [reflexivity|].
    all: simpl; repeat split.
  - destruct (a_roles act) as [rs|], (a_blockedBy act) as [bs|];
      try (destruct Hclaim as [Hclaim|Hclaim]; contradiction).
    all: go; rewrite emitState_run; eexists; split; [reflexivity|].
    all: simpl; repeat split.
Qed.

End Accepted_actions.

Lemma play_action_claim_witness :
  exists g', command standardActions someEpithets robot 0
               (withAction "exchange" JUndefined (payload 4 "play-action")) game2
             = (inr tt, g')
             /\ name (state g') = ACTION_RESPONSE
             /\ playerIdx (state g') = idx 0
             /\ action (state g') = Some "exchange"
             /\ target (state g') = JUndefined
             /\ allows g' = [0]
             /\ players g' = alter (withCash (fun x => x - 0)%Z) 0 (players game2)
             /\ deck g' = deck game2
             /\ stateId g' = S (stateId game2).
Proof.
  apply (play_action_claim standardActions someEpithets robot 0
           (withAction "exchange" JUndefined (payload 4 "play-action")) game2
           (mkPlayerState "alice" 2 2 [mkInfluence (Some "ambassador") false;
                                       mkInfluence (Some "contessa") false] false false)
           (mkAction 0 None (Some ["ambassador"; "inquisitor"]) false None)).
  - vm_compute. reflexivity.
  - vm_compute. reflexivity.
  - vm_compute. reflexivity.
  - vm_compute. reflexivity.
  - reflexivity.
  - reflexivity.
  - left. discriminate.
  - intros rs [= <-]. vm_compute. reflexivity.
  - left. simpl. lia.
  - simpl. lia.
  - discriminate.
Defined.

Lemma nextPlayerLoop_agrees (k : nat) (cur : jsnum) (g g1 : Game) :
  numPlayers g1 = numPlayers g ->
  (forall j, influenceCount <$> players g1 !! j = influenceCount <$> players g !! j) ->
  fst (nextPlayerLoop k cur g1) = fst (nextPlayerLoop k cur g)
  /\ snd (nextPlayerLoop k cur g1) = g1.
Proof.
  intros Hn Hcount. induction k as [|k IH]; [split; reflexivity|].
  cbn [nextPlayerLoop]. rewrite !bind_get. cbv beta zeta. rewrite Hn.
  rewrite !bind_run, !playerAt_run.
  assert (Hat : forall z, influenceCount <$> at_js (players g1) z
                          = influenceCount <$> at_js (players g) z).
  { intros [| |z]; simpl; try reflexivity. destruct (0 <=? z)%Z; [apply Hcount|reflexivity]. }
  match goal with |- context [at_js (players g1) ?z] => specialize (Hat z) end.
  destruct (at_js (players g1) _) as [p1|], (at_js (players g) _) as [p|];
    simpl in Hat; try discriminate; [|split; reflexivity].
  injection Hat as ->. cbv beta iota.
  destruct (0 <? influenceCount p)%Z; [split; reflexivity|exact IH].
Qed.

Section Plain_actions.
Variable actions : string -> option Action.
Variable epithets : list string.
Variable aiPlayer : Connection.

(** X17. A [play-action] that passes the checks and names an action
    without role, block, target or special effect (income, in the usual
    rules) is carried out at once: the seat pays the cost and draws the
    gain, every other seat keeps what it has, and the turn passes to the
    seat that [nextPlayerIdx] designates. *)
Theorem plain_action_played (i : nat) (c : Payload) (g : Game) (p : PlayerState)
        (a : string) (act : Action) :
  name (state g) = START_OF_TURN -> playerIdx (state g) = idx i ->
  players g !! i = Some p -> numPlayers g = length (players g) ->
  cmd_stateId c = idx (stateId g) -> cmd_command c = "play-action" ->
  cmd_action c = Some a -> actions a = Some act ->
  a_roles act = None -> a_blockedBy act = None -> a_targeted act = false ->
  a <> "assassinate" -> a <> "coup" -> a <> "steal" -> a <> "exchange" ->
  a <> "interrogate" ->
  (cash p < 10)%Z -> (a_cost act <= cash p)%Z ->
  exists r g', command actions epithets aiPlayer i c g = (inr tt, g')
               /\ fst (nextPlayerIdx g) = inr r
               /\ state g' = mkTurnState START_OF_TURN r None JUndefined None None None
                               JUndefined [] None
               /\ players g' !! i
                  = Some (withCash (fun x => x - a_cost act + default 0 (a_gain act))%Z p)
               /\ (forall j, j <> i -> players g' !! j = players g !! j)
               /\ deck g' = deck g
               /\ stateId g' = S (stateId g).
Proof.
  intros Hname Hturn Hp Hn Hsid Hcmd Haction Hact Hroles Hblocked Htargeted
         Ha1 Ha2 Ha3 Ha4 Ha5 Hlow Hcost.
  rewrite command_fresh by (rewrite ?Hp; eauto).
  rewrite bind_run. unfold dispatch. cbv zeta. rewrite Hcmd.
  cbn [String.eqb Ascii.eqb Bool.eqb]. cbv iota.
  unfold commandPlayAction. go. rewrite Hname. go.
  rewrite Hturn, jsnum_eqb_idx, Nat.eqb_refl. go.
  rewrite Haction, Hact, Hroles. go. rewrite at_js_idx, Hp. go.
  rewrite (proj2 (Z.leb_gt _ _) Hlow). go. rewrite (proj2 (Z.ltb_ge _ _) Hcost). go.
  rewrite Htargeted, Hblocked. go.
  unfold playAction. go. rewrite at_js_idx, list_lookup_alter_eq, Hp. go.
  rewrite Haction, Hact. go.
  rewrite !(proj2 (String.eqb_neq _ _)) by assumption. go.
  cbn [fmap option_fmap option_map]. go. rewrite seat_idx.
  unfold nextTurn. go. rewrite Hname. go.
  unfold nextPlayerIdx. go.
  destruct (nextPlayerLoop_returns (numPlayers g - 1) (playerIdx (state g)) g)
    as (r & Hrun & _); [lia|lia|rewrite Hturn; right; eauto|].
  match goal with
  | |- context [nextPlayerLoop ?k ?cur (set_turnHistGroup ?f ?g0)] =>
      destruct (nextPlayerLoop_agrees k cur g (set_turnHistGroup f g0)) as [Hfst Hsnd];
      [reflexivity| |
       pose proof (surjective_pairing (nextPlayerLoop k cur (set_turnHistGroup f g0)))
         as Hpair;
       rewrite Hfst, Hsnd, Hrun in Hpair; rewrite Hpair, Hrun]
  end.
  { intros j. simpl. destruct (decide (i = j)) as [<-|Hne].
    - rewrite !list_lookup_alter_eq, Hp. reflexivity.
    - rewrite !list_lookup_alter_ne by assumption. reflexivity. }
  go. rewrite emitState_run.
  exists r. eexists. split; [reflexivity|]. simpl.
  split; [reflexivity|]. split; [reflexivity|]. split; [|split; [|split; reflexivity]].
  - rewrite !list_lookup_alter_eq, Hp. simpl. unfold withCash. simpl. f_equal.
  - intros j Hne. rewrite !list_lookup_alter_ne by auto. reflexivity.
Qed.

End Plain_actions.

(** *** The theorems above at concrete games *)

Lemma nextPlayerIdx_spec_witness :
  exists r, nextPlayerIdx game3 = (inr r, game3)
            /\ ((r = JNull
                 /\ forall j, j < numPlayers game3 -> j <> 1 -> ~ holdsInfluence game3 j)
                \/ exists d, 1 <= d < numPlayers game3
                             /\ r = idx ((1 + d) mod numPlayers game3)
                             /\ (1 + d) mod numPlayers game3 <> 1
                             /\ holdsInfluence game3 ((1 + d) mod numPlayers game3)
                             /\ forall d', 1 <= d' < d ->
                                           ~ holdsInfluence game3
                                               ((1 + d') mod numPlayers game3)).
Proof.
  apply (nextPlayerIdx_spec 1 game3).
  - reflexivity.
  - reflexivity.
  - vm_compute. lia.
Defined.

Lemma everyoneAllows_spec_witness :
  exists b, everyoneAllows taxClaimed3 = (inr b, taxClaimed3)
            /\ (b = true <->
                forall i p, players taxClaimed3 !! i = Some p -> influenceCount p <> 0%Z ->
                            allowed taxClaimed3 i = true).
Proof. apply (everyoneAllows_spec taxClaimed3). reflexivity. Defined.

Lemma dead_seat_cannot_respond_witness :
  exists e, command standardActions someEpithets robot 2 (payload 9 "challenge")
              taxWithDeadSeat
            = (inl e, taxWithDeadSeat).
Proof.
  apply (dead_seat_cannot_respond standardActions someEpithets robot 2 _ taxWithDeadSeat
           (mkPlayerState "carol" 2 0 [mkInfluence (Some "contessa") true;
                                       mkInfluence (Some "ambassador") true] false false)).
  - reflexivity.
  - reflexivity.
  - left. reflexivity.
Defined.

Lemma out_of_turn_rejected_witness :
  exists e, command standardActions someEpithets robot 0
              (withAction "income" JUndefined (payload 5 "play-action")) game3
            = (inl e, game3).
Proof.
  apply out_of_turn_rejected. left. split.
  - reflexivity.
  - right. vm_compute. discriminate.
Defined.

Lemma own_move_not_answered_witness :
  exists e, command standardActions someEpithets robot 1 (payload 6 "challenge") taxClaimed3
            = (inl e, taxClaimed3).
Proof.
  apply own_move_not_answered. left. split; [|split].
  - reflexivity.
  - reflexivity.
  - left. reflexivity.
Defined.

Lemma play_action_refused_witness :
  exists e, command standardActions someEpithets robot 0
              (withAction "assassinate" (JNum 1) (payload 4 "play-action")) game2
            = (inl e, game2).
Proof.
  apply play_action_refused.
  - reflexivity.
  - right. right. left.
    exists (mkAction 3 None (Some ["assassin"]) true (Some ["contessa"])),
           (mkPlayerState "alice" 2 2 [mkInfluence (Some "ambassador") false;
                                       mkInfluence (Some "contessa") false] false false).
    split; [reflexivity|]. split; [reflexivity|]. simpl. lia.
Defined.

Lemma plain_action_played_witness :
  exists r g', command standardActions someEpithets robot 0
                 (withAction "income" JUndefined (payload 4 "play-action")) game2
               = (inr tt, g')
               /\ fst (nextPlayerIdx game2) = inr r
               /\ state g' = mkTurnState START_OF_TURN r None JUndefined None None None
                               JUndefined [] None
               /\ players g' !! 0
                  = Some (withCash (fun x => x - 0 + default 0 (Some 1))%Z
                            (mkPlayerState "alice" 2 2
                               [mkInfluence (Some "ambassador") false;
                                mkInfluence (Some "contessa") false] false false))
               /\ (forall j, j <> 0 -> players g' !! j = players game2 !! j)
               /\ deck g' = deck game2
               /\ stateId g' = S (stateId game2).
Proof.
  apply (plain_action_played standardActions someEpithets robot 0
           (withAction "income" JUndefined (payload 4 "play-action")) game2
           (mkPlayerState "alice" 2 2 [mkInfluence (Some "ambassador") false;
                                       mkInfluence (Some "contessa") false] false false)
           "income" (mkAction 0 (Some 1%Z) None false None));
    try reflexivity; try discriminate; simpl; lia.
Defined.

(** ** Names and coins *)

Lemma accounts_names (g : Game) : pname <$> players g = (accounts g).*1.
Proof. unfold accounts. rewrite <- list_fmap_compose. reflexivity. Qed.

Lemma accounts_solvent (g : Game) :
  Forall solvent (players g) <-> Forall (fun x => (0 <= x.2)%Z) (accounts g).
Proof. unfold accounts. rewrite Forall_fmap. reflexivity. Qed.

Lemma tidy_same actions (g g' : Game) :
  accounts g' = accounts g -> tidy actions g -> tidy actions g'.
Proof.
  intros Ha [Hn Hs]. split.
  - rewrite accounts_names, Ha, <- accounts_names. exact Hn.
  - intros Hg. rewrite accounts_solvent, Ha, <- accounts_solvent. auto.
Qed.

Lemma fmap_alter_same {A B} (h : A -> B) (f : A -> A) (i : nat) (l : list A) :
  (forall x, h (f x) = h x) -> h <$> alter f i l = h <$> l.
Proof.
  intros Hf. revert i. induction l as [|x l IH]; intros [|i]; simpl; try reflexivity.
  - rewrite Hf. reflexivity.
  - f_equal. apply IH.
Qed.

Lemma idle_keeps_accounts {A} (m : M A) : idle m -> keeps accounts m.
Proof. intros H g. unfold accounts. destruct (H g) as (-> & _). reflexivity. Qed.

Lemma passive_keeps_accounts {A} (m : M A) : passive m -> keeps accounts m.
Proof. intros H g. unfold accounts. destruct (H g) as (-> & _). reflexivity. Qed.

Lemma updPlayer_keeps_accounts (i : nat) (f : PlayerState -> PlayerState) :
  (forall p, pname (f p) = pname p /\ cash (f p) = cash p) ->
  keeps accounts (updPlayer i f).
Proof.
  intros Hf g. unfold accounts, updPlayer, modify. simpl.
  apply fmap_alter_same. intros p. destruct (Hf p) as [-> ->]. reflexivity.
Qed.

Create HintDb accounts.

Ltac acc_step :=
  match goal with
  | |- keeps _ (bind _ _) => apply keeps_bind; [|intro]
  | |- keeps _ (ret _) => apply keeps_ret
  | |- keeps _ (throw _) => apply keeps_throw
  | |- keeps _ get => apply keeps_get
  | |- keeps _ (gets _) => apply keeps_gets
  | |- keeps _ (updPlayer _ _) => apply updPlayer_keeps_accounts; intro; split; reflexivity
  | |- keeps _ (modify _) => apply keeps_modify; intro; reflexivity
  | |- keeps _ (throwIf _ _) => apply keeps_throwIf
  | |- keeps _ (deref _) => apply keeps_deref
  | |- keeps _ (when _ _) => apply keeps_when
  | |- keeps _ (if ?c then _ else _) => destruct c
  | |- keeps _ (match ?x with _ => _ end) => destruct x
  | |- keeps _ _ =>
      solve [ auto with accounts
            | apply idle_keeps_accounts; auto with idle
            | apply passive_keeps_accounts; auto with passive ]
  end.

Ltac acc_auto := cbv zeta; repeat (acc_step; cbv zeta).

Lemma setState_keeps_accounts s : keeps accounts (setState s).
Proof. unfold setState. acc_auto. Qed.
Lemma revealState_keeps_accounts r m a w : keeps accounts (revealState r m a w).
Proof. unfold revealState, setState. acc_auto. Qed.
Lemma nextPlayerLoop_keeps_accounts k cur : keeps accounts (nextPlayerLoop k cur).
Proof. induction k; simpl; acc_auto. Qed.
#[local] Hint Resolve setState_keeps_accounts revealState_keeps_accounts
  nextPlayerLoop_keeps_accounts : accounts.
Lemma nextTurn_keeps_accounts : keeps accounts nextTurn.
Proof. unfold nextTurn, nextPlayerIdx. acc_auto. Qed.
Lemma revealFirstInfluence_keeps_accounts i : keeps accounts (revealFirstInfluence i).
Proof. unfold revealFirstInfluence. acc_auto. Qed.
Lemma shuffleLoop_keeps_accounts fuel a s : keeps accounts (shuffleLoop fuel a s).
Proof. revert a s. induction fuel; intros; simpl; acc_auto. Qed.
#[local] Hint Resolve nextTurn_keeps_accounts revealFirstInfluence_keeps_accounts
  shuffleLoop_keeps_accounts : accounts.
Lemma shuffle_keeps_accounts a : keeps accounts (shuffle a).
Proof. unfold shuffle. acc_auto. Qed.
#[local] Hint Resolve shuffle_keeps_accounts : accounts.
Lemma buildDeck_keeps_accounts : keeps accounts buildDeck.
Proof. unfold buildDeck. acc_auto. Qed.
Lemma deckPop_keeps_accounts : keeps accounts deckPop.
Proof. unfold deckPop. acc_auto. Qed.
#[local] Hint Resolve buildDeck_keeps_accounts deckPop_keeps_accounts : accounts.
Lemma swapRole_keeps_accounts r : keeps accounts (swapRole r).
Proof. unfold swapRole. acc_auto. Qed.
Lemma dealLoop_keeps_accounts k acc : keeps accounts (dealLoop k acc).
Proof. revert acc. induction k; intros; simpl; acc_auto. Qed.
#[local] Hint Resolve swapRole_keeps_accounts dealLoop_keeps_accounts : accounts.
Lemma start_keeps_accounts t : keeps accounts (start t).
Proof. unfold start. acc_auto. Qed.
Lemma commandBlock_keeps_accounts actions i c : keeps accounts (commandBlock actions i c).
Proof. unfold commandBlock. acc_auto. Qed.
Lemma commandExchange_keeps_accounts i c : keeps accounts (commandExchange i c).
Proof. unfold commandExchange. acc_auto. Qed.
Lemma commandInterrogate_keeps_accounts i c : keeps accounts (commandInterrogate i c).
Proof. unfold commandInterrogate. acc_auto. Qed.
#[local] Hint Resolve start_keeps_accounts commandBlock_keeps_accounts
  commandExchange_keeps_accounts commandInterrogate_keeps_accounts : accounts.

(** *** What keeps the game tidy *)

Section Upheld.
Variable actions : string -> option Action.

Lemma keeps_upheld {A} (m : M A) : keeps accounts m -> upheld actions m.
Proof. intros H g. apply tidy_same, H. Qed.

Lemma upheld_ret {A} (a : A) : upheld actions (ret a).
Proof. intros g H. exact H. Qed.

Lemma upheld_throw {A} (e : Exn) : upheld actions (@throw A e).
Proof. intros g H. exact H. Qed.

Lemma upheld_bind {A B} (m : M A) (k : A -> M B) :
  upheld actions m -> (forall a, upheld actions (k a)) -> upheld actions (bind m k).
Proof.
  intros Hm Hk g Ht. rewrite bind_run. specialize (Hm g Ht).
  destruct (m g) as [[e|a] g1]; [exact Hm|]. apply Hk, Hm.
Qed.

Lemma upheld_get {B} (k : Game -> M B) :
  (forall g, upheld actions (k g)) -> upheld actions (bind get k).
Proof. intros Hk g. rewrite bind_get. apply Hk. Qed.

Lemma upheld_deref {A B} (o : option A) (k : A -> M B) :
  (forall a, o = Some a -> upheld actions (k a)) -> upheld actions (bind (deref o) k).
Proof.
  intros Hk g Ht. destruct o as [a|]; [|exact Ht]. apply (Hk a eq_refl g Ht).
Qed.

Lemma upheld_when (c : bool) (m : M unit) : upheld actions m -> upheld actions (when c m).
Proof. destruct c; [auto|intros _; apply upheld_ret]. Qed.

Lemma tidy_cash (g : Game) (i : nat) (f : Z -> Z) :
  tidy actions g ->
  (gainsOk actions -> forall p, players g !! i = Some p -> (0 <= cash p)%Z ->
                                (0 <= f (cash p))%Z) ->
  tidy actions (set_players (alter (withCash f) i) g).
Proof.
  intros [Hn Hs] Hf. split; simpl.
  - rewrite fmap_alter_same by reflexivity. exact Hn.
  - intros Hg. apply Forall_alter; [auto|]. intros p Hp Hsolvent. apply (Hf Hg p Hp Hsolvent).
Qed.

Lemma upheld_cash (i : nat) (f : Z -> Z) :
  (gainsOk actions -> forall x, (0 <= x)%Z -> (0 <= f x)%Z) ->
  upheld actions (updPlayer i (withCash f)).
Proof. intros Hf g Ht. apply tidy_cash; [exact Ht|]. intros Hg p _. apply Hf, Hg. Qed.

Lemma tidy_delete (g : Game) (i : nat) :
  tidy actions g -> tidy actions (set_players (delete i) g).
Proof.
  intros [Hn Hs]. split; simpl.
  - rewrite list_fmap_delete. apply (sublist_NoDup _ _ Hn), sublist_delete.
  - intros Hg. apply Forall_delete, Hs, Hg.
Qed.

Lemma upheld_delete (i : nat) : upheld actions (modify (set_players (delete i))).
Proof. intros g. apply tidy_delete. Qed.

Lemma at_js_seat {A} (l : list A) (j : jsnum) (x : A) :
  at_js l j = Some x -> l !! seat j = Some x.
Proof.
  destruct j as [| |z]; simpl; try discriminate. destruct (0 <=? z)%Z; [auto|discriminate].
Qed.

End Upheld.

Create HintDb upheld.
#[local] Hint Resolve upheld_delete : upheld.

Ltac upheld_step :=
  match goal with
  | |- upheld _ (bind get _) => apply upheld_get; intro
  | |- upheld _ (bind _ _) => apply upheld_bind; [|intro]
  | |- upheld _ (ret _) => apply upheld_ret
  | |- upheld _ (throw _) => apply upheld_throw
  | |- upheld _ (when _ _) => apply upheld_when
  | |- upheld _ (if ?c then _ else _) => destruct c
  | |- upheld _ (match ?x with _ => _ end) => destruct x
  | |- upheld _ _ => solve [ auto with upheld | apply keeps_upheld; acc_auto ]
  end.

Ltac upheld_auto := cbv zeta; repeat (upheld_step; cbv zeta).

Section Coins.
Variable actions : string -> option Action.
Variable epithets : list string.
Variable aiPlayer : Connection.

Lemma steal_upheld (i t : jsnum) :
  upheld actions
    (do tgt <- playerAt t;
     if (2 <=? cash tgt)%Z then
       run updPlayer (seat t) (withCash (fun c => c - 2)%Z);
       run updPlayer (seat i) (withCash (fun c => c + 2)%Z);
       ret true
     else
       run updPlayer (seat i) (withCash (fun c => c + cash tgt)%Z);
       run updPlayer (seat t) (withCash (fun _ => 0%Z));
       ret true).
Proof.
  intros g Ht. rewrite bind_run, playerAt_run.
  destruct (at_js (players g) t) as [tgt|] eqn:Hat; [|exact Ht].
  apply at_js_seat in Hat. cbv beta iota.
  destruct (Z.leb_spec 2 (cash tgt)) as [Hrich|Hpoor]; unfold updPlayer; go.
  - apply tidy_cash; [apply tidy_cash; [exact Ht|]|].
    + intros _ p Hp _. rewrite Hat in Hp. injection Hp as <-. lia.
    + intros _ p _ Hp. lia.
  - apply tidy_cash; [apply tidy_cash; [exact Ht|]|].
    + intros Hg p _ Hp. destruct Ht as [_ Hs].
      pose proof (Forall_lookup_1 _ _ _ _ (Hs Hg) Hat) as Htgt. unfold solvent in Htgt. lia.
    + intros _ p _ _. lia.
Qed.

Lemma playAction_upheld i a : upheld actions (playAction actions i a).
Proof.
  unfold playAction.
  apply upheld_bind; [apply keeps_upheld; acc_auto|intros player].
  apply upheld_deref. intros act Hact.
  apply upheld_bind.
  { apply upheld_cash. intros Hg x Hx.
    unfold actionOf in Hact. destruct (as_action a) as [k|]; [|discriminate].
    pose proof (Hg k act Hact). lia. }
  intros _.
  destruct (str_is (as_action a) "assassinate"); [upheld_auto|].
  destruct (str_is (as_action a) "coup"); [upheld_auto|].
  destruct (str_is (as_action a) "steal").
  { apply upheld_bind; [apply keeps_upheld; acc_auto|intros grp].
    apply upheld_bind; [apply keeps_upheld; acc_auto|intros _].
    apply steal_upheld. }
  upheld_auto.
Qed.
Hint Resolve playAction_upheld : upheld.

Lemma afterSuccessfulChallenge_upheld : upheld actions (afterSuccessfulChallenge actions).
Proof. unfold afterSuccessfulChallenge. upheld_auto. Qed.
Lemma afterIncorrectChallenge_upheld : upheld actions (afterIncorrectChallenge actions).
Proof. unfold afterIncorrectChallenge. upheld_auto. Qed.
Hint Resolve afterSuccessfulChallenge_upheld afterIncorrectChallenge_upheld : upheld.
Lemma allow_upheld i : upheld actions (allow actions i).
Proof. unfold allow. upheld_auto. Qed.
Lemma challenge_upheld i j r : upheld actions (challenge actions i j r).
Proof. unfold challenge. upheld_auto. Qed.
Hint Resolve allow_upheld challenge_upheld : upheld.
Lemma commandChallenge_upheld i c : upheld actions (commandChallenge actions i c).
Proof. unfold commandChallenge. upheld_auto. Qed.
Lemma commandAllow_upheld i c : upheld actions (commandAllow actions i c).
Proof. unfold commandAllow. upheld_auto. Qed.
Lemma commandReveal_upheld i c : upheld actions (commandReveal actions i c).
Proof. unfold commandReveal. upheld_auto. Qed.
Hint Resolve commandChallenge_upheld commandAllow_upheld commandReveal_upheld : upheld.

Lemma commandPlayAction_upheld i c : upheld actions (commandPlayAction actions i c).
Proof.
  intros g Ht.
  assert (Hrun : snd (commandPlayAction actions i c g) = g
                 \/ exists p act (rest : M bool),
                      players g !! i = Some p /\ (a_cost act <= cash p)%Z
                      /\ upheld actions rest
                      /\ commandPlayAction actions i c g
                         = rest (set_players
                                   (alter (withCash (fun x => x - a_cost act)%Z) i) g)).
  { unfold commandPlayAction. rewrite bind_get. cbv beta.
    rewrite bind_run. destruct (negb (StateName_eqb _ _)); [left; reflexivity|].
    rewrite throwIf_false. cbv beta iota.
    rewrite bind_run. destruct (negb (jsnum_eqb _ _)); [left; reflexivity|].
    rewrite throwIf_false. cbv beta iota.
    destruct (actionOf actions (cmd_action c)) as [act|]; [|left; reflexivity].
    rewrite bind_run.
    destruct (match a_roles act with Some rs => negb (truthy (getGameRole g rs))
                                | None => false end); [left; reflexivity|].
    rewrite throwIf_false. cbv beta iota.
    rewrite bind_run, playerAt_run, at_js_idx.
    destruct (players g !! i) as [p|] eqn:Hp; [|left; reflexivity]. cbv beta iota.
    rewrite bind_run. destruct (_ && _)%bool; [left; reflexivity|].
    rewrite throwIf_false. cbv beta iota.
    rewrite bind_run. destruct (Z.ltb_spec (cash p) (a_cost act)) as [Hlt|Hge];
      [left; reflexivity|].
    rewrite throwIf_false. cbv beta iota.
    rewrite bind_run.
    match goal with
    | |- context [when ?b ?m g] =>
        assert (Hread : reading (when b m)) by reading_auto;
        specialize (Hread g); destruct (when b m g) as [[e|[]] g1]; simpl in Hread; subst g1
    end; [left; reflexivity|].
    cbv beta iota. right. exists p, act.
    match goal with
    | |- context [bind (updPlayer i (withCash _)) (fun _ => ?r)] => exists r
    end.
    split; [reflexivity|]. split; [assumption|]. split; [|reflexivity].
    upheld_auto. }
  destruct Hrun as [->|(p & act & rest & Hp & Hcost & Hrest & ->)]; [exact Ht|].
  apply Hrest, tidy_cash; [exact Ht|].
  intros _ q Hq _. rewrite Hp in Hq. injection Hq as <-. lia.
Qed.
Hint Resolve commandPlayAction_upheld : upheld.

Lemma string_length_app (a b : string) :
  String.length (a +:+ b) = String.length a + String.length b.
Proof. induction a as [|x a IH]; simpl; [reflexivity|f_equal; exact IH]. Qed.

Lemma filter_length_lt {A} (P Q : A -> bool) (l : list A) (x : A) :
  (forall y, Q y = true -> P y = true) -> x ∈ l -> P x = true -> Q x = false ->
  length (List.filter Q l) < length (List.filter P l).
Proof.
  intros HQP Hx HP HQ.
  assert (Hle : forall k, length (List.filter Q k) <= length (List.filter P k)).
  { induction k as [|y k IH]; simpl; [lia|].
    destruct (Q y) eqn:E; [rewrite (HQP y E); simpl; lia|].
    destruct (P y); simpl; lia. }
  induction l as [|y l IH]; [inversion Hx|].
  apply elem_of_cons in Hx as [<-|Hx]; simpl.
  - rewrite HP, HQ. simpl. specialize (Hle l). lia.
  - specialize (IH Hx). destruct (Q y) eqn:E; [rewrite (HQP y E); simpl; lia|].
    destruct (P y); simpl; lia.
Qed.

Lemma playerNameLoop_fresh (fuel : nat) (nm : string) (g : Game) :
  length (List.filter (fun p => String.length (if String.eqb nm "" then "Anonymous" else nm)
                                <=? String.length (pname p)) (players g)) <= fuel ->
  exists nm' g', playerNameLoop epithets fuel nm g = (inr nm', g')
                 /\ players g' = players g /\ nm' ∉ pname <$> players g.
Proof.
  revert nm g. induction fuel as [|fuel IH]; intros nm g Hfuel.
  all: cbn [playerNameLoop]; cbv zeta; rewrite bind_get; cbv beta.
  all: set (nm0 := if String.eqb nm "" then "Anonymous" else nm) in *.
  all: destruct (existsb (fun p => String.eqb (pname p) nm0) (players g)) eqn:Htaken.
  all: try (exists nm0, g; split; [reflexivity|]; split; [reflexivity|];
            intros Hin; apply list_elem_of_fmap in Hin as (p & -> & Hp);
            assert (Hex : existsb (fun q => String.eqb (pname q) (pname p)) (players g) = true)
              by (apply existsb_exists; exists p; split;
                  [apply list_elem_of_In, Hp|apply String.eqb_refl]);
            congruence).
  all: apply existsb_exists in Htaken as (p & Hp & Hname);
    apply list_elem_of_In in Hp; apply String.eqb_eq in Hname.
  - exfalso.
    assert (Hin : p ∈ List.filter (fun p => String.length nm0 <=? String.length (pname p))
                        (players g)).
    { apply list_elem_of_In, filter_In. split; [apply list_elem_of_In, Hp|].
      rewrite Hname. apply Nat.leb_refl. }
    destruct (List.filter _ (players g)); [inversion Hin|simpl in Hfuel; lia].
  - rewrite bind_run.
    destruct (rand_idle (length epithets) g) as (Hplayers & _).
    assert (Hrand : exists r, fst (rand (length epithets) g) = inr r)
      by (unfold rand; destruct (rng g); eexists; reflexivity).
    destruct Hrand as (r & Hr).
    destruct (rand (length epithets) g) as [res g1]. simpl in Hplayers, Hr. subst res.
    set (nm1 := nm0 +:+ " " +:+ show_role (epithets !! r)).
    assert (Hlen : String.length nm0 < String.length nm1).
    { unfold nm1. rewrite !string_length_app. simpl. lia. }
    assert (Hnm1 : (if String.eqb nm1 "" then "Anonymous" else nm1) = nm1).
    { destruct (String.eqb_spec nm1 "") as [E|_]; [|reflexivity].
      rewrite E in Hlen. simpl in Hlen. lia. }
    destruct (IH nm1 g1) as (nm' & g' & Hrun & Hsame & Hfresh).
    { rewrite Hnm1, Hplayers.
      apply Nat.lt_succ_r. eapply Nat.lt_le_trans; [|exact Hfuel].
      apply (filter_length_lt _ _ _ p); [|exact Hp|rewrite Hname; apply Nat.leb_refl|].
      - intros q Hq. apply Nat.leb_le in Hq. apply Nat.leb_le. lia.
      - rewrite Hname. apply Nat.leb_gt. exact Hlen. }
    exists nm', g'. rewrite Hplayers in Hsame, Hfresh. auto.
Qed.

Lemma playerName_fresh (nm : string) (g : Game) :
  exists nm' g', playerName epithets nm g = (inr nm', g')
                 /\ players g' = players g /\ nm' ∉ pname <$> players g.
Proof.
  unfold playerName. rewrite bind_get. apply playerNameLoop_fresh.
  etransitivity; [apply filter_length_le|]. lia.
Qed.

Lemma tidy_snoc (g g' : Game) (p : PlayerState) :
  players g' = players g ++ [p] -> pname p ∉ pname <$> players g -> solvent p ->
  tidy actions g -> tidy actions g'.
Proof.
  intros Hp Hfresh Hsolvent [Hn Hs]. unfold tidy. rewrite Hp. split.
  - rewrite fmap_app. apply NoDup_app. split; [exact Hn|]. split; [|apply NoDup_singleton].
    intros x Hx Hin. apply list_elem_of_singleton in Hin. subst x. auto.
  - intros Hg. apply Forall_app. split; [auto|]. constructor; [assumption|constructor].
Qed.

Lemma playerJoined_upheld (c : Connection) : upheld actions (playerJoined epithets c).
Proof.
  intros g Ht.
  destruct (playerName_fresh (c_name c) g) as (nm & g1 & Hrun & Hp & Hfresh).
  unfold playerJoined. go. rewrite Hrun. go.
  rewrite emitState_run. unfold createGameProxy. go.
  destruct (canJoin g).
  all: eapply (tidy_snoc g); [simpl; rewrite Hp; reflexivity|exact Hfresh| |exact Ht].
  all: unfold solvent; simpl; lia.
Qed.
Hint Resolve playerJoined_upheld : upheld.

Lemma playerLeft_upheld i rejoined : upheld actions (playerLeft actions i rejoined).
Proof. unfold playerLeft. upheld_auto. Qed.
Hint Resolve playerLeft_upheld : upheld.

Lemma removeAiLoop_upheld k : upheld actions (removeAiLoop actions k).
Proof. induction k; simpl; upheld_auto. Qed.
Hint Resolve removeAiLoop_upheld : upheld.

Lemma dispatch_upheld i c : upheld actions (dispatch actions epithets aiPlayer i c).
Proof.
  unfold dispatch, createAiPlayer, removeAiPlayer, notWaiting. upheld_auto.
Qed.
Hint Resolve dispatch_upheld : upheld.

Lemma command_upheld i c : upheld actions (command actions epithets aiPlayer i c).
Proof. unfold command. upheld_auto. Qed.

Lemma reachable_tidy g : reachable actions epithets aiPlayer g -> tidy actions g.
Proof.
  induction 1 as [seed first|g c _ IH|g i c _ IH|g i r _ IH].
  - split; [apply NoDup_nil_2|intros _; constructor].
  - apply playerJoined_upheld, IH.
  - apply command_upheld, IH.
  - apply playerLeft_upheld, IH.
Qed.

(** X18. In every reachable game no two seats, observers included, carry
    the same name. *)
Theorem seat_names_distinct (g : Game) (i j : nat) (p q : PlayerState) :
  reachable actions epithets aiPlayer g ->
  players g !! i = Some p -> players g !! j = Some q -> i <> j -> pname p <> pname q.
Proof.
  intros Hr Hp Hq Hne Hname. destruct (reachable_tidy g Hr) as [Hn _].
  apply Hne, (NoDup_lookup _ i j (pname p) Hn); rewrite list_lookup_fmap.
  - rewrite Hp. reflexivity.
  - rewrite Hq, Hname. reflexivity.
Qed.

Lemma listedPlay_reachable g :
  listedPlay actions epithets aiPlayer g -> reachable actions epithets aiPlayer g.
Proof. induction 1; constructor; assumption. Qed.

(** X19. Take a table of actions without a negative gain, and a game
    reached by joins, departures and commands in which every [play-action]
    names an entry of that table (and, as in every payload here, a target
    that is a number or absent).  Then no seat of the game is in debt:
    every payment is covered and a theft takes no more than the victim
    has. *)
Theorem cash_never_negative (g : Game) (i : nat) (p : PlayerState) :
  gainsOk actions -> listedPlay actions epithets aiPlayer g ->
  players g !! i = Some p -> (0 <= cash p)%Z.
Proof.
  intros Hg Hr Hp.
  destruct (reachable_tidy g (listedPlay_reachable g Hr)) as [_ Hs].
  apply (Forall_lookup_1 _ _ _ _ (Hs Hg) Hp).
Qed.

End Coins.

Lemma gainsOk_standard : gainsOk standardActions.
Proof.
  intros k act H. unfold standardActions in H.
  repeat (destruct (String.eqb k _); [injection H as <-; simpl; lia|]).
  discriminate.
Qed.

Lemma listedPlay_assassinationBlocked :
  listedPlay standardActions someEpithets robot assassinationBlocked.
Proof.
  unfold assassinationBlocked, game2, lobby2, send, join.
  repeat match goal with
         | |- listedPlay _ _ _ (createGame _ _) => apply listed_created
         | |- listedPlay _ _ _ (exec (playerJoined _ _) _) => apply listed_joined
         | |- listedPlay _ _ _ (exec (command _ _ _ _ _) _) =>
             apply listed_command;
             [|first [intros _; vm_compute; eexists; reflexivity
                     |intros H; vm_compute in H; discriminate H]]
         end.
Qed.

Lemma seat_names_distinct_witness :
  pname (mkPlayerState "alice" 2 2 [mkInfluence (Some "ambassador") false;
                                    mkInfluence (Some "contessa") false] false false)
  <> pname (mkPlayerState "bob" 2 2 [mkInfluence (Some "assassin") false;
                                     mkInfluence (Some "captain") false] false false).
Proof.
  apply (seat_names_distinct standardActions someEpithets robot game2 0 1).
  - exact reachable_game2.
  - reflexivity.
  - reflexivity.
  - lia.
Defined.

Lemma cash_never_negative_witness :
  (0 <= cash (mkPlayerState "alice" 0 2 [mkInfluence (Some "ambassador") false;
                                         mkInfluence (Some "contessa") false] false false))%Z.
Proof.
  apply (cash_never_negative standardActions someEpithets robot assassinationBlocked 0).
  - exact gainsOk_standard.
  - exact listedPlay_assassinationBlocked.
  - reflexivity.
Defined.

(** ** What a snapshot shows *)

(** X20. Masking hides nothing but face-down cards of other seats and,
    from seats other than the one in [state.playerIdx], the exchange offer
    and the confession: the viewer's own seat is shown as it is; of every
    other seat the name, the coins, the influence count, the flags and
    every face-up card are shown as they are; and [stateId], [numPlayers],
    [roles] and the rest of the turn state are copied. *)
Theorem mask_keeps_public (g : Game) (viewer : nat) :
  m_players (maskState viewer g) !! viewer = players g !! viewer
  /\ length (m_players (maskState viewer g)) = length (players g)
  /\ (forall j p, players g !! j = Some p ->
        exists q, m_players (maskState viewer g) !! j = Some q
                  /\ pname q = pname p /\ cash q = cash p
                  /\ influenceCount q = influenceCount p
                  /\ isObserver q = isObserver p /\ ai q = ai p
                  /\ length (influence q) = length (influence p)
                  /\ forall k c, influence p !! k = Some c -> revealed c = true ->
                                 influence q !! k = Some c)
  /\ m_stateId (maskState viewer g) = stateId g
  /\ m_numPlayers (maskState viewer g) = numPlayers g
  /\ m_roles (maskState viewer g) = roles g
  /\ m_playerIdx (maskState viewer g) = viewer
  /\ (let s := m_state (maskState viewer g) in
      name s = name (state g) /\ playerIdx s = playerIdx (state g)
      /\ action s = action (state g) /\ target s = target (state g)
      /\ blockingRole s = blockingRole (state g) /\ message s = message (state g)
      /\ reason s = reason (state g) /\ playerToReveal s = playerToReveal (state g))
  /\ (playerIdx (state g) = idx viewer -> m_state (maskState viewer g) = state g).
Proof.
  unfold maskState. cbn [m_players m_stateId m_numPlayers m_roles m_playerIdx m_state].
  split; [|split; [|split]].
  - rewrite list_lookup_imap. destruct (players g !! viewer); [|reflexivity].
    simpl. rewrite Nat.eqb_refl. reflexivity.
  - apply length_imap.
  - intros j p Hp. rewrite list_lookup_imap, Hp. simpl.
    destruct (j =? viewer).
    + exists p. repeat split; auto.
    + exists (maskPlayer p). split; [reflexivity|]. unfold maskPlayer. simpl.
      repeat split; try reflexivity; [apply length_map|].
      intros k c Hc Hrev.
      change (map maskInfluence (influence p)) with (maskInfluence <$> influence p).
      rewrite list_lookup_fmap, Hc. simpl. unfold maskInfluence. rewrite Hrev. reflexivity.
  - do 4 (split; [reflexivity|]). split.
    + cbv zeta. destruct (negb (jsnum_eqb _ _)); repeat split.
    + intros ->. rewrite jsnum_eqb_idx, Nat.eqb_refl. reflexivity.
Qed.

(** ** Answers to a pending move *)

Lemma jsnum_eqb_idx_l (a : jsnum) (n : nat) : a <> idx n -> jsnum_eqb (idx n) a = false.
Proof.
  intros H. destruct a as [| |z]; simpl; try reflexivity.
  apply Z.eqb_neq. intros E. apply H. unfold idx. congruence.
Qed.

Section Answers.
Variable actions : string -> option Action.
Variable epithets : list string.
Variable aiPlayer : Connection.

(** X21. A [block] is accepted from any seat with influence other than the
    acting seat, while the game waits in [ACTION_RESPONSE] or
    [FINAL_ACTION_RESPONSE] for a blockable action, when it names a role of
    this game that may block the action.  The game then waits in
    [BLOCK_RESPONSE]: the turn state keeps the acting seat and the action,
    records the blocker in [target] and the role it claims, and only the
    blocker counts as having allowed.  Seats and deck are untouched. *)
Theorem block_claim (i : nat) (c : Payload) (g : Game) (p : PlayerState)
        (act : Action) (blockers : list string) (r : string) :
  players g !! i = Some p -> influenceCount p <> 0%Z ->
  cmd_stateId c = idx (stateId g) -> cmd_command c = "block" ->
  name (state g) = ACTION_RESPONSE \/ name (state g) = FINAL_ACTION_RESPONSE ->
  actionOf actions (action (state g)) = Some act ->
  playerIdx (state g) <> idx i ->
  a_blockedBy act = Some blockers ->
  cmd_blockingRole c = Some r -> r <> "" -> In r (roles g) -> In r blockers ->
  exists g', command actions epithets aiPlayer i c g = (inr tt, g')
             /\ name (state g') = BLOCK_RESPONSE
             /\ playerIdx (state g') = playerIdx (state g)
             /\ action (state g') = action (state g)
             /\ target (state g') = idx i
             /\ blockingRole (state g') = Some r
             /\ allows g' = [i]
             /\ players g' = players g /\ deck g' = deck g
             /\ stateId g' = S (stateId g).
Proof.
  intros Hp Hlive Hsid Hcmd Hname Hact Hother Hblockers Hrole Hr Hgame Hmay.
  rewrite command_fresh by (rewrite ?Hp; eauto).
  rewrite bind_run. unfold dispatch. cbv zeta. rewrite Hcmd.
  cbn [String.eqb Ascii.eqb Bool.eqb]. cbv iota.
  assert (Hin : forall l, In r l -> existsb (String.eqb r) l = true).
  { intros l Hl. apply existsb_exists. exists r. split; [exact Hl|apply String.eqb_refl]. }
  apply jsnum_eqb_idx_l in Hother.
  unfold commandBlock. go. rewrite at_js_idx, Hp. go.
  rewrite (proj2 (Z.eqb_neq _ _) Hlive). go.
  unfold actionOf in Hact.
  destruct Hname as [Hname|Hname]; rewrite Hname; go; rewrite Hact; go.
  all: rewrite Hother; go; rewrite Hblockers; go; rewrite Hrole; cbn [truthy default].
  all: rewrite (proj2 (String.eqb_neq _ _) Hr); go; unfold id.
  all: rewrite (Hin _ Hgame); go; rewrite (Hin _ Hmay); go.
  all: rewrite emitState_run; eexists; split; [reflexivity|]; simpl; repeat split.
Qed.

(** X22. An answer that does not fit is rejected with an error and changes
    nothing: a [block] when the pending action is unknown or cannot be
    blocked, or when the role it names is missing, not part of this game or
    not one that blocks the action; an [exchange] that names no roles, not
    as many roles as the seat holds influence, or roles that are not in the
    offer; a [reveal] of a role the seat does not hold face down; a
    [challenge] of an action that needs no role; and a command with an
    unknown name. *)
Theorem answer_refused (i : nat) (c : Payload) (g : Game) :
  (cmd_command c = "block"
   /\ (actionOf actions (action (state g)) = None
       \/ exists act, actionOf actions (action (state g)) = Some act
                      /\ (a_blockedBy act = None
                          \/ truthy (cmd_blockingRole c) = false
                          \/ ~ In (default "" (cmd_blockingRole c)) (roles g)
                          \/ exists bs, a_blockedBy act = Some bs
                                        /\ ~ In (default "" (cmd_blockingRole c)) bs)))
  \/ (cmd_command c = "exchange"
      /\ (cmd_roles c = None
          \/ exists chosen p, cmd_roles c = Some chosen /\ players g !! i = Some p
                              /\ (Z.of_nat (length chosen) <> influenceCount p
                                  \/ arrayDifference (exchangeOptions (state g)) chosen
                                     = None)))
  \/ (cmd_command c = "reveal"
      /\ exists p, players g !! i = Some p /\ cmd_role c ∉ getInfluence p)
  \/ (cmd_command c = "challenge" /\ name (state g) = ACTION_RESPONSE
      /\ exists act, actionOf actions (action (state g)) = Some act /\ a_roles act = None)
  \/ ~ In (cmd_command c) ["start"; "add-ai"; "remove-ai"; "play-action"; "challenge";
                            "reveal"; "block"; "allow"; "exchange"; "interrogate"] ->
  exists e, command actions epithets aiPlayer i c g = (inl e, g).
Proof.
  intros H.
  destruct (command_cases actions epithets aiPlayer i c g) as [Hr|(_ & _ & ->)]; [assumption|].
  rewrite bind_run.
  assert (Hnot : forall (r : string) l, ~ In r l -> existsb (String.eqb r) l = false).
  { intros r l Hl. destruct (existsb (String.eqb r) l) eqn:E; [|reflexivity].
    apply existsb_exists in E as (x & Hx & Heq). apply String.eqb_eq in Heq. subst x.
    contradiction. }
  destruct H as [[Hcmd H]|[[Hcmd H]|[[Hcmd H]|[[Hcmd H]|H]]]].
  - unfold dispatch. cbv zeta. rewrite Hcmd. cbn [String.eqb Ascii.eqb Bool.eqb]. cbv iota.
    unfold commandBlock. rewrite bind_run, playerAt_run.
    destruct (at_js (players g) (idx i)) as [p|]; [|eexists; reflexivity]. cbv beta iota.
    rewrite bind_run. destruct (influenceCount p =? 0)%Z; [eexists; reflexivity|].
    rewrite throwIf_false. cbv beta iota. rewrite bind_get. cbv beta zeta.
    rewrite bind_run. destruct (_ && _)%bool; [eexists; reflexivity|].
    rewrite throwIf_false. cbv beta iota.
    destruct H as [->|(act & -> & H)]; [eexists; reflexivity|].
    rewrite bind_run. destruct (jsnum_eqb _ _); [eexists; reflexivity|].
    rewrite throwIf_false. cbv beta iota.
    destruct (a_blockedBy act) as [bs|] eqn:Hbs; [|eexists; reflexivity].
    rewrite bind_run.
    destruct H as [H|[H|[H|(bs' & Hbs' & H)]]]; [discriminate| | |].
    + rewrite H. eexists. reflexivity.
    + destruct (negb (truthy _)); [eexists; reflexivity|].
      rewrite throwIf_false. cbv beta iota zeta. rewrite bind_run, (Hnot _ _ H).
      eexists. reflexivity.
    + destruct (negb (truthy _)); [eexists; reflexivity|].
      rewrite throwIf_false. cbv beta iota zeta. rewrite bind_run.
      destruct (negb (existsb _ (roles g))); [eexists; reflexivity|].
      rewrite throwIf_false. cbv beta iota. injection Hbs' as <-.
      rewrite bind_run, (Hnot _ _ H). eexists. reflexivity.
  - unfold dispatch. cbv zeta. rewrite Hcmd. cbn [String.eqb Ascii.eqb Bool.eqb]. cbv iota.
    unfold commandExchange. rewrite bind_get. cbv beta zeta.
    rewrite bind_run. destruct (negb (StateName_eqb _ _)); [eexists; reflexivity|].
    rewrite throwIf_false. cbv beta iota.
    rewrite bind_run. destruct (negb (jsnum_eqb _ _)); [eexists; reflexivity|].
    rewrite throwIf_false. cbv beta iota.
    destruct H as [->|(chosen & p & -> & Hp & H)]; [eexists; reflexivity|].
    rewrite bind_run, playerAt_run, at_js_idx, Hp. cbv beta iota.
    rewrite bind_run. destruct H as [H|H].
    + rewrite (proj2 (Z.eqb_neq _ _) H). eexists. reflexivity.
    + destruct (negb _); [eexists; reflexivity|].
      rewrite throwIf_false. cbv beta iota. rewrite H. eexists. reflexivity.
  - unfold dispatch. cbv zeta. rewrite Hcmd. cbn [String.eqb Ascii.eqb Bool.eqb]. cbv iota.
    destruct H as (p & Hp & H).
    unfold commandReveal. rewrite bind_get. cbv beta zeta.
    rewrite bind_run. destruct (negb (StateName_eqb _ _)); [eexists; reflexivity|].
    rewrite throwIf_false. cbv beta iota.
    rewrite bind_run. destruct (negb (jsnum_eqb _ _)); [eexists; reflexivity|].
    rewrite throwIf_false. cbv beta iota.
    rewrite bind_run, playerAt_run, at_js_idx, Hp. cbv beta iota.
    destruct (indexOfInfluence p (cmd_role c)) as [j|] eqn:Hj; [|eexists; reflexivity].
    exfalso. apply H. unfold indexOfInfluence in Hj.
    apply find_index_Some in Hj as (s & Hs & Hheld). apply andb_true_iff in Hheld as [Hrole Hdown].
    apply jsrole_eqb_eq in Hrole. rewrite <- Hrole. unfold getInfluence.
    change (map role ?l) with (role <$> l). apply list_elem_of_fmap. exists s.
    split; [reflexivity|]. apply list_elem_of_In, filter_In.
    split; [apply list_elem_of_In, (list_elem_of_lookup_2 _ _ _ Hs)|exact Hdown].
  - unfold dispatch. cbv zeta. rewrite Hcmd. cbn [String.eqb Ascii.eqb Bool.eqb]. cbv iota.
    destruct H as (Hname & act & Hact & Hroles).
    unfold commandChallenge. rewrite bind_run, playerAt_run.
    destruct (at_js (players g) (idx i)) as [p|]; [|eexists; reflexivity]. cbv beta iota.
    rewrite bind_run. destruct (influenceCount p =? 0)%Z; [eexists; reflexivity|].
    rewrite throwIf_false. cbv beta iota. rewrite bind_get. cbv beta zeta.
    rewrite Hname. cbn [StateName_eqb].
    rewrite bind_run. destruct (jsnum_eqb _ _); [eexists; reflexivity|].
    rewrite throwIf_false. cbv beta iota. rewrite Hact, Hroles. eexists. reflexivity.
  - unfold dispatch. cbv zeta.
    repeat match goal with
           | |- context [String.eqb (cmd_command c) ?s] =>
               destruct (String.eqb_spec (cmd_command c) s) as [E|_];
               [exfalso; apply H; rewrite E; simpl; tauto|]
           end.
    eexists. reflexivity.
Qed.

End Answers.

(** ** Exchanging cards *)

Lemma pop_snoc {A} (l : list A) (x : A) : pop (l ++ [x]) = (Some x, l).
Proof. unfold pop. rewrite last_snoc, removelast_last. reflexivity. Qed.

Lemma getInfluence_assignRoles (infl : list Influence) (chosen : list jsrole) :
  length (List.filter (fun i => negb (revealed i)) infl) = length chosen ->
  map role (List.filter (fun i => negb (revealed i)) (assignRoles infl chosen)) = rev chosen.
Proof.
  revert chosen. induction infl as [|s infl IH]; intros chosen Hlen.
  - destruct chosen; [reflexivity|discriminate].
  - cbn [assignRoles List.filter] in *. destruct (revealed s) eqn:Hrev.
    + cbn [List.filter negb]. rewrite Hrev. cbn [negb]. apply IH. exact Hlen.
    + cbn [negb length] in Hlen.
      destruct chosen as [|x chosen _] using rev_ind; [discriminate|].
      rewrite pop_snoc. cbn [fst snd mjoin option_join List.filter setRole revealed].
      rewrite Hrev. cbn [negb map role]. rewrite rev_unit. f_equal. apply IH.
      rewrite length_app in Hlen. simpl in Hlen. lia.
Qed.

Lemma assignRoles_revealed (infl : list Influence) (chosen : list jsrole) (k : nat)
      (s : Influence) :
  infl !! k = Some s -> revealed s = true -> assignRoles infl chosen !! k = Some s.
Proof.
  revert chosen k. induction infl as [|t infl IH]; intros chosen k Hk Hrev; [discriminate|].
  cbn [assignRoles]. destruct k as [|k].
  - injection Hk as ->. rewrite Hrev. reflexivity.
  - destruct (revealed t); simpl; apply IH; assumption.
Qed.

Section Exchange.
Variable actions : string -> option Action.
Variable epithets : list string.
Variable aiPlayer : Connection.

Lemma nextTurn_run (g : Game) :
  name (state g) <> GAME_WON -> numPlayers g <= length (players g) ->
  seatOrNull (playerIdx (state g)) ->
  exists r, nextTurn g
            = (inr tt,
               set_state (fun _ => mkTurnState START_OF_TURN r None JUndefined None None None
                                     JUndefined [] None)
                 (set_turnHistGroup S g))
            /\ seatOrNull r.
Proof.
  intros Hname Hn Hcur. unfold nextTurn. rewrite bind_get. cbv beta.
  destruct (StateName_eqb (name (state g)) GAME_WON) eqn:E.
  { destruct (name (state g)); try discriminate. contradiction. }
  cbn [negb]. rewrite bind_run. unfold modify at 1. cbv beta iota.
  rewrite bind_run. unfold nextPlayerIdx. rewrite bind_get. cbv beta.
  match goal with
  | |- context [nextPlayerLoop ?k ?cur ?g0] =>
      destruct (nextPlayerLoop_returns k cur g0) as (r & -> & Hr);
        [reflexivity|exact Hn|exact Hcur|]
  end.
  exists r. split; [reflexivity|exact Hr].
Qed.

(** X23. An [exchange] by the seat whose offer is open, naming as many
    roles as it holds influence, all taken from the offer, is accepted: the
    seat's face-down cards become exactly the chosen roles (the last one
    named goes to the first face-down slot), its face-up cards and all
    other seats stay as they are, the cards not chosen go back into the
    deck, which is reshuffled, and the next turn starts. *)
Theorem exchange_gives_chosen (i : nat) (c : Payload) (g : Game) (p : PlayerState)
        (chosen unchosen : list jsrole) :
  reachable actions epithets aiPlayer g ->
  name (state g) = EXCHANGE -> playerIdx (state g) = idx i ->
  players g !! i = Some p ->
  cmd_stateId c = idx (stateId g) -> cmd_command c = "exchange" ->
  cmd_roles c = Some chosen ->
  Z.of_nat (length chosen) = influenceCount p ->
  arrayDifference (exchangeOptions (state g)) chosen = Some unchosen ->
  exists g' p',
    command actions epithets aiPlayer i c g = (inr tt, g')
    /\ players g' !! i = Some p'
    /\ getInfluence p' = rev chosen
    /\ (forall k s, influence p !! k = Some s -> revealed s = true ->
                    influence p' !! k = Some s)
    /\ cash p' = cash p /\ influenceCount p' = influenceCount p
    /\ (forall j, j <> i -> players g' !! j = players g !! j)
    /\ deck g' ≡ₚ deck g ++ unchosen
    /\ name (state g') = START_OF_TURN
    /\ exchangeOptions (state g') = []
    /\ stateId g' = S (stateId g).
Proof.
  intros Hreach Hname Hturn Hp Hsid Hcmd Hroles Hcount Hdiff.
  destruct (reachable_tableOk actions epithets aiPlayer g Hreach) as (Hn & Hseats & _).
  pose proof (Forall_lookup_1 _ _ _ _ Hseats Hp) as [Hface _].
  rewrite command_fresh by (rewrite ?Hp; eauto).
  rewrite bind_run. unfold dispatch. cbv zeta. rewrite Hcmd.
  cbn [String.eqb Ascii.eqb Bool.eqb]. cbv iota.
  unfold commandExchange. rewrite bind_get. cbv beta zeta.
  rewrite bind_run, Hname. cbn [StateName_eqb negb]. rewrite throwIf_false. cbv beta iota.
  rewrite bind_run, Hturn, jsnum_eqb_idx, Nat.eqb_refl. cbn [negb].
  rewrite throwIf_false. cbv beta iota. rewrite Hroles.
  rewrite bind_run, playerAt_run, at_js_idx, Hp. cbv beta iota.
  rewrite bind_run, Hcount, Z.eqb_refl. cbn [negb]. rewrite throwIf_false. cbv beta iota.
  rewrite Hdiff, bind_run. unfold updPlayer, modify at 1. cbv beta iota.
  rewrite bind_run.
  match goal with
  | |- context [shuffle ?a ?g0] =>
      pose proof (shuffle_keeps_stateId a g0) as Hid;
      destruct (shuffle_run a g0) as (d & g1 & Hrun & Hd & (Hpl & _ & Hnum & _) & Hst & _)
  end.
  rewrite Hrun in Hid |- *. simpl in Hid, Hpl, Hnum, Hst. cbv beta iota.
  rewrite bind_run. unfold modify at 1. cbv beta iota.
  rewrite bind_run. unfold curTurnHistGroup, gets at 1. cbv beta iota.
  rewrite bind_run. unfold addHistory. rewrite bind_run. unfold gets at 1. cbv beta iota.
  unfold modify at 1. cbv beta iota. rewrite bind_run.
  match goal with
  | |- context [nextTurn ?g0] =>
      destruct (nextTurn_run g0) as (r & -> & _)
  end.
  { simpl. rewrite Hst, Hname. discriminate. }
  { simpl. rewrite Hnum, Hpl, length_alter, Hn. reflexivity. }
  { simpl. rewrite Hst, Hturn. right. eauto. }
  cbv beta iota. cbn [ret when]. rewrite emitState_run.
  eexists. exists (withInfluence (fun infl => assignRoles infl chosen) p).
  split; [reflexivity|]. cbn [players deck state stateId set_outbox set_stateId set_state
                              set_turnHistGroup set_deck name exchangeOptions].
  rewrite Hpl, Hid.
  split; [rewrite list_lookup_alter_eq, Hp; reflexivity|].
  split.
  { unfold getInfluence. cbn [withInfluence influence].
    apply getInfluence_assignRoles. apply Nat2Z.inj. rewrite Hcount, Hface.
    unfold unrevealedCount, getInfluence. rewrite length_map. reflexivity. }
  split; [intros k s Hk Hrev; apply assignRoles_revealed; assumption|].
  split; [reflexivity|]. split; [reflexivity|].
  split; [intros j Hne; apply list_lookup_alter_ne; auto|].
  repeat split. exact Hd.
Qed.

End Exchange.

(** ** Taking a seat *)

Section Joining.
Variable epithets : list string.

Lemma set_rng_idem (r r' : list nat) (g : Game) :
  set_rng (fun _ => r') (set_rng (fun _ => r) g) = set_rng (fun _ => r') g.
Proof. reflexivity. Qed.

Lemma playerNameLoop_rng (fuel : nat) (nm : string) (g : Game) :
  exists r, snd (playerNameLoop epithets fuel nm g) = set_rng (fun _ => r) g.
Proof.
  assert (Hsame : exists r, g = set_rng (fun _ => r) g)
    by (exists (rng g); destruct g; reflexivity).
  revert nm g Hsame. induction fuel as [|fuel IH]; intros nm g Hsame.
  all: cbn [playerNameLoop]; cbv zeta; rewrite bind_get; cbv beta.
  all: destruct (existsb _ (players g)); [|exact Hsame].
  - exact Hsame.
  - rewrite bind_run. unfold rand. destruct (rng g) as [|x r]; cbv beta iota.
    + apply IH. exact Hsame.
    + match goal with
      | |- context [playerNameLoop epithets fuel ?n ?g0] =>
          destruct (IH n g0) as (r' & ->); [exists r; reflexivity|]
      end.
      exists r'. reflexivity.
Qed.

Lemma playerName_kept (nm : string) (g : Game) :
  nm <> "" -> nm ∉ pname <$> players g -> playerName epithets nm g = (inr nm, g).
Proof.
  intros Hnm Hfree. unfold playerName. rewrite bind_get. cbn [playerNameLoop]. cbv zeta.
  rewrite (proj2 (String.eqb_neq _ _) Hnm), bind_get.
  destruct (existsb (fun p => String.eqb (pname p) nm) (players g)) eqn:E; [|reflexivity].
  exfalso. apply existsb_exists in E as (p & Hp & Hname). apply String.eqb_eq in Hname.
  apply Hfree, list_elem_of_fmap. exists p. split; [auto|apply list_elem_of_In, Hp].
Qed.

(** X24. [playerJoined] never fails.  The newcomer gets a new seat at the
    end of the table, under a name that no seat carries (its own name, if
    that is not empty and not taken): a player's seat with two coins and
    two undealt cards while the game waits for players and has fewer than
    six seats, an observer's seat without coins or cards otherwise.  An
    observer's proxy takes no commands.  All other seats, the turn state,
    the roles and the deck stay as they are, and one snapshot round is
    broadcast. *)
Theorem join_takes_seat (c : Connection) (g : Game) :
  exists h nm g',
    playerJoined epithets c g = (inr h, g')
    /\ (nm ∉ pname <$> players g)
    /\ (c_name c <> "" -> (c_name c ∉ pname <$> players g) -> nm = c_name c)
    /\ players g'
       = players g ++ [if canJoin g
                       then mkPlayerState nm 2 2 [notDealt; notDealt] false (c_ai c)
                       else mkPlayerState nm 0 0 [] true (c_ai c)]
    /\ conns g' = conns g ++ [Some c]
    /\ numPlayers g' = S (numPlayers g)
    /\ h = length (handles g)
    /\ handles g'
       = handles g ++ [mkProxy (if canJoin g then Some (length (players g)) else None)
                               (length (players g))]
    /\ proxies g' = proxies g ++ [h]
    /\ state g' = state g /\ roles g' = roles g /\ deck g' = deck g
    /\ stateId g' = S (stateId g).
Proof.
  destruct (playerName_fresh epithets (c_name c) g) as (nm & g1 & Hrun & Hp & Hfresh).
  assert (Hrng : exists r, g1 = set_rng (fun _ => r) g).
  { unfold playerName in Hrun. rewrite bind_get in Hrun.
    destruct (playerNameLoop_rng (S (length (players g))) (c_name c) g) as (r & Hr).
    rewrite Hrun in Hr. exists r. exact Hr. }
  destruct Hrng as (r & ->).
  exists (length (handles g)), nm.
  unfold playerJoined. go. rewrite Hrun. go.
  rewrite emitState_run. unfold createGameProxy. go.
  assert (Hkept : c_name c <> "" -> c_name c ∉ pname <$> players g -> nm = c_name c).
  { intros Hnm Hfree. rewrite (playerName_kept _ _ Hnm Hfree) in Hrun. congruence. }
  destruct (canJoin g); cbn [negb]; go.
  - eexists. split; [reflexivity|]. split; [exact Hfresh|]. split; [exact Hkept|].
    simpl. repeat split.
  - eexists. split; [reflexivity|]. split; [exact Hfresh|]. split; [exact Hkept|].
    simpl. repeat split. rewrite alter_app_r_alt, Nat.sub_diag by reflexivity. reflexivity.
Qed.

End Joining.

(** ** Dealing *)

Lemma last_two {A} (l : list A) :
  2 <= length l -> exists d x1 x0, l = d ++ [x1; x0].
Proof.
  intros Hl. destruct l as [|x0 l _] using rev_ind; [simpl in Hl; lia|].
  destruct l as [|x1 l _] using rev_ind; [simpl in Hl; lia|].
  exists l, x1, x0. rewrite <- app_assoc. reflexivity.
Qed.

Lemma take_le_eq {A} (l l' : list A) (i j : nat) :
  i <= j -> take j l = take j l' -> take i l = take i l'.
Proof.
  intros Hij H. assert (H' : take i (take j l) = take i (take j l')) by congruence.
  rewrite !take_take, Nat.min_l in H' by lia. exact H'.
Qed.

Lemma cardsOf_cons (p : PlayerState) (ps : list PlayerState) :
  cardsOf (p :: ps) = (role <$> influence p) ++ cardsOf ps.
Proof. reflexivity. Qed.

Lemma dealLoop_deals (k : nat) (acc : list nat) (g : Game) :
  tableOk g -> k <= numPlayers g ->
  2 * length (List.filter (fun p => negb (isObserver p))
                (drop (numPlayers g - k) (players g))) <= length (deck g) ->
  exists l g', dealLoop k acc g = (inr l, g')
               /\ take (numPlayers g - k) (players g') = take (numPlayers g - k) (players g)
               /\ length (players g') = length (players g)
               /\ cardsOf (drop (numPlayers g - k) (players g')) ++ deck g' ≡ₚ deck g.
Proof.
  revert acc g. induction k as [|k IH]; intros acc g Ht Hk Hdeck.
  { eexists _, _. split; [reflexivity|]. do 2 (split; [reflexivity|]).
    destruct Ht as (Hn & _). rewrite Nat.sub_0_r, Hn, drop_all. reflexivity. }
  pose proof Ht as (Hn & Hall & Hmax).
  assert (Hi : numPlayers g - S k < length (players g)) by lia.
  apply lookup_lt_is_Some in Hi as [p Hp].
  assert (Hseat : seatOk p) by (rewrite Forall_lookup in Hall; eauto).
  rewrite (drop_S _ _ _ Hp) in Hdeck.
  replace (S (numPlayers g - S k)) with (numPlayers g - k) in * by lia.
  cbn [dealLoop]. go. rewrite at_js_idx, Hp. go.
  cbn [List.filter] in Hdeck.
  destruct (isObserver p) eqn:Hobs; rewrite ?Hobs in Hdeck; cbn [negb length] in Hdeck |- *.
  { destruct (IH acc g) as (l & g' & Hrun & Htake & Hlen & Hcards); [assumption|lia|assumption|].
    eexists _, _. split; [exact Hrun|].
    assert (Hp' : players g' !! (numPlayers g - S k) = Some p).
    { rewrite <- (lookup_take_lt _ (numPlayers g - k)), Htake, lookup_take_lt by lia.
      exact Hp. }
    split; [|split; [exact Hlen|]].
    - apply (take_le_eq _ _ _ (numPlayers g - k)); [lia|exact Htake].
    - rewrite (drop_S _ _ _ Hp').
      replace (S (numPlayers g - S k)) with (numPlayers g - k) by lia.
      rewrite cardsOf_cons. destruct Hseat as [_ Hslots]. rewrite Hobs in Hslots.
      destruct (influence p); [exact Hcards|discriminate]. }
  destruct Hseat as [_ Hlen]. rewrite Hobs in Hlen.
  destruct (influence p) as [|s0 [|s1 [|]]] eqn:Hinf; try discriminate. go.
  change ([s0; s1] !! 0) with (Some s0). change ([s0; s1] !! 1) with (Some s1). go.
  destruct (last_two (deck g)) as (d & x1 & x0 & Hd); [lia|].
  match goal with
  | |- context [dealLoop k ?acc' ?g1] =>
      destruct (IH acc' g1) as (l & g' & Hrun & Htake & Hlen' & Hcards)
  end.
  - apply (tableOk_same
             (set_players (alter (withInfluence (alter (setRole (mjoin (last (removelast (deck g))))) 1))
                             (numPlayers g - S k))
                (set_players (alter (withInfluence (alter (setRole (mjoin (last (deck g)))) 0))
                                (numPlayers g - S k)) g))); [reflexivity..|].
    do 2 (apply tableOk_alter; [apply seatKeeping_setRole|]). assumption.
  - simpl. lia.
  - simpl. rewrite !drop_alter_lt by lia. rewrite !length_removelast. lia.
  - eexists _, _. split; [exact Hrun|]. simpl in Htake, Hlen', Hcards.
    rewrite !length_alter in Hlen'.
    assert (Hp' : players g' !! (numPlayers g - S k)
                  = Some (withInfluence (alter (setRole (mjoin (last (removelast (deck g))))) 1)
                            (withInfluence (alter (setRole (mjoin (last (deck g)))) 0) p))).
    { rewrite <- (lookup_take_lt _ (numPlayers g - k)), Htake, lookup_take_lt by lia.
      rewrite !list_lookup_alter_eq, Hp. reflexivity. }
    split; [|split; [exact Hlen'|]].
    + assert (Hle : numPlayers g - S k <= numPlayers g - k) by lia.
      rewrite (take_le_eq _ _ _ _ Hle Htake), !take_alter_ge by lia. reflexivity.
    + rewrite (drop_S _ _ _ Hp').
      replace (S (numPlayers g - S k)) with (numPlayers g - k) by lia.
      rewrite cardsOf_cons, <- app_assoc, Hcards. cbn [withInfluence influence].
      rewrite Hinf, Hd.
      change (d ++ [x1; x0]) with (d ++ [x1] ++ [x0]). rewrite app_assoc.
      rewrite !last_snoc, !removelast_last, last_snoc. simpl.
      rewrite <- app_assoc. simpl.
      rewrite (Permutation_app_comm d [x1; x0]). simpl. apply perm_swap.
Qed.

Section Dealing.
Variable actions : string -> option Action.
Variable epithets : list string.
Variable aiPlayer : Connection.

(** X25. A [start] sent to a reachable lobby with at least two seats is
    accepted, and it deals from a full deck: afterwards the cards in all
    hands together with the cards in the deck are exactly three of each of
    the five roles of the game.  No seat is added or removed. *)
Theorem start_deals (i : nat) (c : Payload) (g : Game) :
  reachable actions epithets aiPlayer g ->
  name (state g) = WAITING_FOR_PLAYERS -> is_Some (players g !! i) ->
  cmd_stateId c = idx (stateId g) -> cmd_command c = "start" ->
  2 <= numPlayers g ->
  exists g', command actions epithets aiPlayer i c g = (inr tt, g')
             /\ handCards g' ++ deck g' ≡ₚ threeOfEach (roles g')
             /\ length (roles g') = 5
             /\ length (players g') = length (players g)
             /\ name (state g') = START_OF_TURN.
Proof.
  intros Hreach Hname Hseat Hsid Hcmd Hmin.
  pose proof (reachable_tableOk actions epithets aiPlayer g Hreach) as Ht.
  rewrite command_fresh by assumption.
  rewrite bind_run. unfold dispatch. cbv zeta. rewrite Hcmd.
  cbn [String.eqb Ascii.eqb Bool.eqb]. cbv iota.
  unfold start. go. rewrite Hname. go.
  unfold MIN_PLAYERS. rewrite (proj2 (Nat.leb_le _ _) Hmin).
  unfold buildDeck. go.
  match goal with
  | |- context [shuffle ?a ?g0] =>
      destruct (shuffle_run a g0) as (d & g1 & -> & Hd & (Hpl1 & _ & Hnum1 & _ & Hroles1) & _)
  end.
  simpl in Hpl1, Hnum1, Hroles1, Hd. go.
  assert (Hd15 : length d = 15)
    by (rewrite Hd; destruct (str_is (cmd_gameType c) "inquisitors"); reflexivity).
  pose proof Ht as (Hn & Hall & Hmax). unfold nonObservers, MAX_PLAYERS in Hmax.
  destruct (dealLoop_deals (numPlayers g) [] (set_deck (fun _ => d) g1))
    as (l & g2 & Hdeal & _ & Hlen2 & Hcards2).
  { apply (tableOk_same g); [assumption..|]. assumption. }
  { simpl. lia. }
  { simpl. rewrite Hnum1, Nat.sub_diag, Hpl1, drop_0. lia. }
  pose proof (dealLoop_calm (numPlayers g) [] (set_deck (fun _ => d) g1)) as (_ & Hroles2 & _).
  rewrite Hdeal in Hroles2 |- *. simpl in Hlen2, Hcards2, Hroles2.
  rewrite Hnum1, Nat.sub_diag, drop_0 in Hcards2.
  assert (Hfinal : forall first g3,
             players g3 = players g2 -> roles g3 = roles g2 -> deck g3 = deck g2 ->
             exists g',
               emitState
                 (set_state (fun _ => mkTurnState START_OF_TURN first None JUndefined None
                                        None None JUndefined [] None) g3) = (inr tt, g')
               /\ handCards g' ++ deck g' ≡ₚ threeOfEach (roles g')
               /\ length (roles g') = 5
               /\ length (players g') = length (players g)
               /\ name (state g') = START_OF_TURN).
  { intros first g3 Hp3 Hr3 Hd3. eexists. split; [reflexivity|]. simpl.
    unfold handCards. simpl. rewrite Hp3, Hd3, Hr3, Hroles2, Hroles1, Hcards2, Hd, Hlen2, Hpl1.
    simpl. repeat split; reflexivity. }
  destruct (firstPlayer g); go.
  - apply Hfinal; reflexivity.
  - unfold rand. destruct (rng g2); go; apply Hfinal; reflexivity.
Qed.

End Dealing.

(** ** Letting an action pass *)

Section Allowing.
Variable actions : string -> option Action.
Variable epithets : list string.
Variable aiPlayer : Connection.

(** X26. Take an [allow] sent in [ACTION_RESPONSE] by a seat with influence
    other than the acting seat.  While some other seat with influence has
    not allowed yet, it is accepted and nothing happens but that the allow
    is recorded: no broadcast, no new [stateId].  When it is the last one
    outstanding and the pending action is an entry of the table without
    special effect (tax and foreign aid, in the usual rules), it is
    accepted and the action is carried out: the acting seat draws the gain,
    every other seat keeps what it has, and the turn passes to the seat
    that [nextPlayerIdx] designates.  Nothing is said of the last allow of
    an action with a special effect. *)
Theorem allow_recorded_or_played (i a : nat) (c : Payload) (g : Game) (p : PlayerState) :
  numPlayers g = length (players g) ->
  name (state g) = ACTION_RESPONSE -> playerIdx (state g) = idx a -> a <> i ->
  players g !! i = Some p -> influenceCount p <> 0%Z ->
  cmd_stateId c = idx (stateId g) -> cmd_command c = "allow" ->
  ((exists j q, j <> i /\ players g !! j = Some q /\ influenceCount q <> 0%Z
                /\ allowed g j = false) ->
   command actions epithets aiPlayer i c g = (inr tt, set_allows (cons i) g))
  /\ ((forall j q, j <> i -> players g !! j = Some q -> influenceCount q <> 0%Z ->
                   allowed g j = true) ->
      forall k act pa,
        action (state g) = Some k -> actions k = Some act -> players g !! a = Some pa ->
        k <> "assassinate" -> k <> "coup" -> k <> "steal" -> k <> "exchange" ->
        k <> "interrogate" ->
        exists r g', command actions epithets aiPlayer i c g = (inr tt, g')
                     /\ fst (nextPlayerIdx g) = inr r
                     /\ state g' = mkTurnState START_OF_TURN r None JUndefined None None None
                                     JUndefined [] None
                     /\ players g' !! a
                        = Some (withCash (fun x => x + default 0 (a_gain act))%Z pa)
                     /\ (forall j, j <> a -> players g' !! j = players g !! j)
                     /\ deck g' = deck g
                     /\ stateId g' = S (stateId g)).
Proof.
  intros Hn Hname Hturn Hother Hp Hlive Hsid Hcmd.
  rewrite command_fresh by (rewrite ?Hp; eauto).
  rewrite bind_run. unfold dispatch. cbv zeta. rewrite Hcmd.
  cbn [String.eqb Ascii.eqb Bool.eqb]. cbv iota.
  unfold commandAllow. rewrite bind_run, playerAt_run, at_js_idx, Hp. cbv beta iota.
  rewrite bind_run, (proj2 (Z.eqb_neq _ _) Hlive), throwIf_false. cbv beta iota.
  unfold allow. rewrite bind_get. cbv beta zeta. rewrite Hname. cbn [StateName_eqb orb].
  rewrite bind_run, Hturn, jsnum_eqb_idx, (proj2 (Nat.eqb_neq _ _) Hother), throwIf_false.
  cbv beta iota. rewrite bind_run, bind_run. unfold modify. cbv beta iota.
  unfold everyoneAllows. rewrite bind_get. cbv beta.
  destruct (everyoneAllowsLoop_spec (numPlayers (set_allows (cons i) g))
              (set_allows (cons i) g) Hn (Nat.le_refl _)) as (b & Hrun & Hb).
  rewrite Hrun. cbv beta iota. rewrite Nat.sub_diag in Hb.
  assert (Hal : forall j, allowed (set_allows (cons i) g) j = (j =? i) || allowed g j)
    by reflexivity.
  split.
  - intros (j & q & Hne & Hq & Hlq & Hno).
    destruct b.
    + exfalso. pose proof (proj1 Hb eq_refl j q (Nat.le_0_l _) Hq Hlq) as H.
      rewrite Hal, Hno, (proj2 (Nat.eqb_neq _ _) Hne) in H. discriminate.
    + reflexivity.
  - intros Hall k act pa Haction Hact Hpa Hk1 Hk2 Hk3 Hk4 Hk5.
    assert (b = true) as ->.
    { apply Hb. intros j q _ Hq Hlq. rewrite Hal.
      destruct (Nat.eqb_spec j i) as [->|Hne]; [reflexivity|]. apply (Hall j q); assumption. }
    unfold playAction. go. rewrite at_js_idx, Hpa. go.
    rewrite Haction, Hact. go.
    rewrite !(proj2 (String.eqb_neq _ _)) by assumption. go. rewrite seat_idx.
    unfold nextTurn. go. rewrite Hname. go.
    unfold nextPlayerIdx. go. rewrite ?Hturn.
    destruct (nextPlayerLoop_returns (numPlayers g - 1) (idx a) g)
      as (r & Hrun2 & _); [lia|lia|right; eauto|].
    match goal with
    | |- context [nextPlayerLoop ?k ?cur (set_turnHistGroup ?f ?g0)] =>
        destruct (nextPlayerLoop_agrees k cur g (set_turnHistGroup f g0)) as [Hfst Hsnd];
        [reflexivity| |
         pose proof (surjective_pairing (nextPlayerLoop k cur (set_turnHistGroup f g0)))
           as Hpair;
         rewrite Hfst, Hsnd, Hrun2 in Hpair; rewrite Hpair, Hrun2]
    end.
    { intros j. simpl. destruct (decide (a = j)) as [<-|Hne].
      - rewrite !list_lookup_alter_eq, Hpa. reflexivity.
      - rewrite !list_lookup_alter_ne by assumption. reflexivity. }
    go. rewrite emitState_run.
    exists r. eexists. split; [reflexivity|]. simpl.
    split; [reflexivity|]. split; [reflexivity|]. split; [|split; [|split; reflexivity]].
    + rewrite !list_lookup_alter_eq, Hpa. reflexivity.
    + intros j Hne. rewrite !list_lookup_alter_ne by auto. reflexivity.
Qed.

End Allowing.

(** ** Challenging a claim *)

Section Challenging.
Variable actions : string -> option Action.
Variable epithets : list string.
Variable aiPlayer : Connection.

(** X27. A challenge of a pending action by another seat with influence,
    when the acting seat does not hold the claimed role face down and has
    more than one card left, is accepted and succeeds: the game enters
    [REVEAL_INFLUENCE], where the acting seat has to reveal a card of its
    choice.  Nothing is paid back, and seats and deck stay as they are. *)
Theorem bluff_called (i a : nat) (c : Payload) (g : Game) (p pa : PlayerState)
        (act : Action) (rs : list string) :
  name (state g) = ACTION_RESPONSE -> playerIdx (state g) = idx a -> a <> i ->
  players g !! i = Some p -> influenceCount p <> 0%Z ->
  players g !! a = Some pa ->
  cmd_stateId c = idx (stateId g) -> cmd_command c = "challenge" ->
  actionOf actions (action (state g)) = Some act -> a_roles act = Some rs ->
  indexOfInfluence pa (getGameRole g rs) = None ->
  (1 < influenceCount pa)%Z ->
  exists g', command actions epithets aiPlayer i c g = (inr tt, g')
             /\ name (state g') = REVEAL_INFLUENCE
             /\ playerToReveal (state g') = idx a
             /\ reason (state g') = Some "successful-challenge"
             /\ playerIdx (state g') = idx a
             /\ action (state g') = action (state g)
             /\ target (state g') = target (state g)
             /\ players g' = players g /\ deck g' = deck g
             /\ stateId g' = S (stateId g).
Proof.
  intros Hname Hturn Hother Hp Hlive Hpa Hsid Hcmd Hact Hroles Hbluff Htwo.
  rewrite command_fresh by (rewrite ?Hp; eauto).
  rewrite bind_run. unfold dispatch. cbv zeta. rewrite Hcmd.
  cbn [String.eqb Ascii.eqb Bool.eqb]. cbv iota.
  unfold actionOf in Hact.
  unfold commandChallenge. go. rewrite at_js_idx, Hp. go.
  rewrite (proj2 (Z.eqb_neq _ _) Hlive). go. rewrite Hname. go.
  rewrite Hturn, jsnum_eqb_idx, (proj2 (Nat.eqb_neq _ _) (not_eq_sym Hother)). go.
  rewrite Hact. go. rewrite Hroles. go.
  unfold challenge. go. rewrite Hturn, at_js_idx, Hpa. go.
  rewrite Hbluff. go. rewrite Hname. go.
  rewrite (proj2 (Z.leb_gt _ _) Htwo). go.
  destruct (truthy (blockingRole (state g))); go.
  all: rewrite emitState_run; eexists; split; [reflexivity|]; simpl; repeat split.
Qed.

(** X28. A challenge of a pending action by another seat with more than
    one card, when the acting seat does hold the claimed role face down, is
    accepted and fails: the card that proved the claim goes back into the
    deck, which is reshuffled, the acting seat draws a card in its place,
    and the game enters [REVEAL_INFLUENCE], where the challenger has to
    reveal a card of its choice. *)
Theorem challenge_lost (i a j : nat) (c : Payload) (g : Game) (p pa : PlayerState)
        (act : Action) (rs : list string) :
  name (state g) = ACTION_RESPONSE -> playerIdx (state g) = idx a -> a <> i ->
  players g !! i = Some p -> (1 < influenceCount p)%Z ->
  players g !! a = Some pa ->
  cmd_stateId c = idx (stateId g) -> cmd_command c = "challenge" ->
  actionOf actions (action (state g)) = Some act -> a_roles act = Some rs ->
  indexOfInfluence pa (getGameRole g rs) = Some j ->
  exists g' drawn,
    command actions epithets aiPlayer i c g = (inr tt, g')
    /\ players g' = alter (withInfluence (alter (setRole drawn) j)) a (players g)
    /\ drawn :: deck g' ≡ₚ getGameRole g rs :: deck g
    /\ name (state g') = REVEAL_INFLUENCE
    /\ playerToReveal (state g') = idx i
    /\ reason (state g') = Some "incorrect-challenge"
    /\ playerIdx (state g') = idx a
    /\ action (state g') = action (state g)
    /\ target (state g') = target (state g)
    /\ stateId g' = S (stateId g).
Proof.
  intros Hname Hturn Hother Hp Htwo Hpa Hsid Hcmd Hact Hroles Hheld.
  assert (Hlive : influenceCount p <> 0%Z) by lia.
  rewrite command_fresh by (rewrite ?Hp; eauto).
  rewrite bind_run. unfold dispatch. cbv zeta. rewrite Hcmd.
  cbn [String.eqb Ascii.eqb Bool.eqb]. cbv iota.
  unfold actionOf in Hact.
  unfold commandChallenge. go. rewrite at_js_idx, Hp. go.
  rewrite (proj2 (Z.eqb_neq _ _) Hlive). go. rewrite Hname. go.
  rewrite Hturn, jsnum_eqb_idx, (proj2 (Nat.eqb_neq _ _) (not_eq_sym Hother)). go.
  rewrite Hact. go. rewrite Hroles. go.
  unfold challenge. go. rewrite Hturn, at_js_idx, Hpa. go.
  rewrite Hheld. go.
  destruct (truthy (blockingRole (state g))); go.
  all: pose proof Hheld as Hrole.
  all: unfold indexOfInfluence in Hrole.
  all: apply find_index_Some in Hrole as (s & Hs & Hmatch).
  all: apply andb_true_iff in Hmatch as [Hmatch _]; apply jsrole_eqb_eq in Hmatch.
  all: rewrite Hs; cbn [fmap option_fmap option_map mjoin option_join]; rewrite Hmatch.
  all: match goal with
       | |- context [swapRole ?r ?g0] =>
           pose proof (swapRole_keeps_stateId r g0) as Hid;
           destruct (swapRole_run r g0) as (drawn & g1 & Hrun & Hdeck & Hpl & Hst)
       end.
  all: rewrite Hrun in Hid |- *; simpl in Hid, Hdeck, Hpl, Hst; go.
  all: rewrite seat_idx, at_js_idx, Hpl, list_lookup_alter_ne, Hp by assumption; go.
  all: rewrite (proj2 (Z.leb_gt _ _) Htwo); go; rewrite Hst, emitState_run.
  all: eexists; exists drawn; split; [reflexivity|]; simpl; rewrite Hpl, Hid, Hturn.
  all: repeat split; assumption.
Qed.

End Challenging.

(** ** A coup *)

Section Coup.
Variable actions : string -> option Action.
Variable epithets : list string.
Variable aiPlayer : Connection.

(** X29. A coup that passes the checks is carried out at once, since it
    needs no role and cannot be blocked: the seat pays, and a target with
    more than one card has to reveal a card of its choice, the game
    waiting for it in [REVEAL_INFLUENCE].  No other seat changes and the
    deck is untouched. *)
Theorem coup_forces_reveal (i t : nat) (c : Payload) (g : Game) (p q : PlayerState)
        (act : Action) :
  name (state g) = START_OF_TURN -> playerIdx (state g) = idx i ->
  players g !! i = Some p ->
  cmd_stateId c = idx (stateId g) -> cmd_command c = "play-action" ->
  cmd_action c = Some "coup" -> actions "coup" = Some act ->
  a_roles act = None -> a_blockedBy act = None -> a_targeted act = true ->
  (a_cost act <= cash p)%Z ->
  cmd_target c = idx t -> t < numPlayers g -> t <> i ->
  players g !! t = Some q -> (1 < influenceCount q)%Z ->
  exists g', command actions epithets aiPlayer i c g = (inr tt, g')
             /\ name (state g') = REVEAL_INFLUENCE
             /\ playerToReveal (state g') = idx t
             /\ reason (state g') = Some "coup"
             /\ playerIdx (state g') = idx i
             /\ players g' !! i
                = Some (withCash (fun x => x - a_cost act + default 0 (a_gain act))%Z p)
             /\ (forall j, j <> i -> players g' !! j = players g !! j)
             /\ deck g' = deck g
             /\ stateId g' = S (stateId g).
Proof.
  intros Hname Hturn Hp Hsid Hcmd Haction Hact Hroles Hblocked Htargeted Hcost
         Htarget Ht Hne Hq Htwo.
  rewrite command_fresh by (rewrite ?Hp; eauto).
  rewrite bind_run. unfold dispatch. cbv zeta. rewrite Hcmd.
  cbn [String.eqb Ascii.eqb Bool.eqb]. cbv iota.
  unfold commandPlayAction. go. rewrite Hname. go.
  rewrite Hturn, jsnum_eqb_idx, Nat.eqb_refl. go.
  rewrite Haction, Hact, Hroles. go. rewrite at_js_idx, Hp. go.
  rewrite andb_false_r. go. rewrite (proj2 (Z.ltb_ge _ _) Hcost). go.
  rewrite Htargeted. go.
  assert (Hrange : (Z.of_nat t <? 0)%Z || (Z.of_nat (numPlayers g) <=? Z.of_nat t)%Z = false).
  { rewrite (proj2 (Z.ltb_ge _ _) (Nat2Z.is_nonneg t)). apply Z.leb_gt. lia. }
  rewrite Htarget. change (idx t) with (JNum (Z.of_nat t)). cbv iota. rewrite Hrange.
  change (JNum (Z.of_nat t)) with (idx t). go. rewrite at_js_idx, Hq. go.
  assert (Hlive : influenceCount q <> 0%Z) by lia.
  rewrite (proj2 (Z.eqb_neq _ _) Hlive). go. rewrite Hblocked. go.
  unfold playAction. go. rewrite at_js_idx, list_lookup_alter_eq, Hp. go.
  rewrite Haction, Hact. go. cbn [fmap option_fmap option_map]. go.
  rewrite seat_idx, ?Htarget, at_js_idx, !list_lookup_alter_ne, Hq by auto. go.
  rewrite (proj2 (Z.leb_gt _ _) Htwo). go.
  unfold revealState. go. rewrite emitState_run.
  eexists. split; [reflexivity|]. simpl. rewrite Hturn.
  do 4 (split; [reflexivity|]). split; [|split; [|split; reflexivity]].
  - rewrite !list_lookup_alter_eq, Hp. reflexivity.
  - intros j Hj. rewrite !list_lookup_alter_ne by auto. reflexivity.
Qed.

End Coup.

(** ** The last human leaves *)

Ltac conns_step :=
  match goal with
  | |- keeps _ (bind _ _) => apply keeps_bind; [|intro]
  | |- keeps _ (ret _) => apply keeps_ret
  | |- keeps _ (throw _) => apply keeps_throw
  | |- keeps _ get => apply keeps_get
  | |- keeps _ (gets _) => apply keeps_gets
  | |- keeps _ (modify _) => apply keeps_modify; intro; reflexivity
  | |- keeps _ (throwIf _ _) => apply keeps_throwIf
  | |- keeps _ (deref _) => apply keeps_deref
  | |- keeps _ (when _ _) => apply keeps_when
  | |- keeps _ (if ?c then _ else _) => destruct c
  | |- keeps _ (match ?x with _ => _ end) => destruct x
  | |- keeps _ _ => solve [auto]
  end.

Ltac conns_prims :=
  unfold revealState, setState, curTurnHistGroup, nextAdhocHistGroup, addHistory,
         addHistoryAsync, playerAt, connAt, resetAllows, updPlayer, deckPop, createGameProxy;
  cbv zeta.

Ltac conns_auto := conns_prims; repeat (conns_step; conns_prims).

Lemma rand_keeps_conns n : keeps conns (rand n).
Proof. intros g. unfold rand. destruct (rng g); reflexivity. Qed.

Lemma nextPlayerLoop_keeps_conns k cur : keeps conns (nextPlayerLoop k cur).
Proof. induction k; simpl; conns_auto. Qed.

Lemma nextTurn_keeps_conns : keeps conns nextTurn.
Proof.
  pose proof nextPlayerLoop_keeps_conns. unfold nextTurn, nextPlayerIdx. conns_auto.
Qed.

Lemma checkForGameEnd_keeps_conns : keeps conns checkForGameEnd.
Proof. unfold checkForGameEnd. conns_auto. Qed.

Lemma afterPlayerDeath_keeps_conns i : keeps conns (afterPlayerDeath i).
Proof. pose proof checkForGameEnd_keeps_conns. unfold afterPlayerDeath. conns_auto. Qed.

Lemma revealFirstInfluence_keeps_conns i : keeps conns (revealFirstInfluence i).
Proof. unfold revealFirstInfluence. conns_auto. Qed.

Lemma everyoneAllowsLoop_keeps_conns k : keeps conns (everyoneAllowsLoop k).
Proof. induction k; simpl; conns_auto. Qed.

Lemma rewireLoop_keeps_conns k : keeps conns (rewireLoop k).
Proof. induction k; simpl; conns_auto. Qed.

Lemma rewireLoop_returns k g : fst (rewireLoop k g) = inr tt.
Proof.
  revert g. induction k as [|k IH]; intros g; [reflexivity|].
  cbn [rewireLoop]. rewrite bind_get. cbv beta zeta. rewrite bind_run.
  unfold createGameProxy. destruct (proxies g !! _); go; apply IH.
Qed.

Lemma addHistoryEach_keeps_conns t grp ms : keeps conns (addHistoryEach t grp ms).
Proof. induction ms; simpl; conns_auto. Qed.

Lemma addHistoryEach_returns t grp ms g : fst (addHistoryEach t grp ms g) = inr tt.
Proof.
  revert g. induction ms as [|m ms IH]; intros g; [reflexivity|].
  cbn [addHistoryEach]. unfold addHistory. go. apply IH.
Qed.

Lemma playAction_keeps_conns actions i a : keeps conns (playAction actions i a).
Proof.
  pose proof rand_keeps_conns. pose proof afterPlayerDeath_keeps_conns.
  pose proof revealFirstInfluence_keeps_conns.
  unfold playAction. conns_auto.
Qed.

Lemma allow_keeps_conns actions i : keeps conns (allow actions i).
Proof.
  pose proof everyoneAllowsLoop_keeps_conns. pose proof nextTurn_keeps_conns.
  pose proof playAction_keeps_conns.
  unfold allow, everyoneAllows. conns_auto.
Qed.

Lemma onlyAi_others (cs cs' : list (option Connection)) :
  (forall cn, Some cn ∈ cs' -> c_ai cn = true) ->
  forallb (fun c => match c with Some c => c_ai c | None => true end) cs' = true.
Proof.
  intros H. apply forallb_forall. intros [cn|] Hin; [|reflexivity].
  apply H, list_elem_of_In, Hin.
Qed.

Section Leaving.
Variable actions : string -> option Action.

(** X30. When a seat leaves and none of the other seats is held by a
    connected human, the game is destroyed as soon as the departure has run
    to its end: the turn state is the bare [destroyed] state, and the lists
    of participants and of proxies are emptied.  The departure does run to
    its end when it takes place in the lobby, when the seat is an
    observer's, and when the game is won. *)
Theorem last_human_leaves (i : nat) (rejoined : bool) (g : Game) (p : PlayerState)
        (cn : Connection) :
  i < numPlayers g -> players g !! i = Some p -> conns g !! i = Some (Some cn) ->
  (forall j c', j <> i -> conns g !! j = Some (Some c') -> c_ai c' = true) ->
  (name (state g) = WAITING_FOR_PLAYERS \/ isObserver p = true
   \/ name (state g) = GAME_WON ->
   fst (playerLeft actions i rejoined g) = inr tt)
  /\ (fst (playerLeft actions i rejoined g) = inr tt ->
      state (snd (playerLeft actions i rejoined g)) = bare DESTROYED
      /\ conns (snd (playerLeft actions i rejoined g)) = []
      /\ proxies (snd (playerLeft actions i rejoined g)) = []).
Proof.
  intros Hlt Hp Hcn Hai.
  assert (Hdel : onlyAiLeft (set_conns (delete i) g) = true).
  { apply (onlyAi_others (conns g)). intros c' Hin. simpl in Hin.
    apply list_elem_of_lookup in Hin as [j Hj].
    destruct (decide (j < i)) as [Hji|Hge].
    - rewrite list_lookup_delete_lt in Hj by assumption. apply (Hai j c'); [lia|assumption].
    - rewrite list_lookup_delete_ge in Hj by lia. apply (Hai (S j) c'); [lia|assumption]. }
  assert (Hnull : onlyAiLeft (set_conns (<[i := None]>) g) = true).
  { apply (onlyAi_others (conns g)). intros c' Hin. simpl in Hin.
    apply list_elem_of_lookup in Hin as [j Hj].
    destruct (decide (j = i)) as [->|Hne].
    - apply list_lookup_insert_Some in Hj as [(_ & Hj & _)|(Hj & _)];
        [discriminate|contradiction].
    - rewrite list_lookup_insert_ne in Hj by auto. apply (Hai j c'); assumption. }
  assert (Htail : forall (hs : list string) (nm : string) (g1 : Game),
             onlyAiLeft g1 = true ->
             exists g2,
               (do grp <- nextAdhocHistGroup;
                run addHistory (Some "player-left") grp
                      (nm +:+ " left the game" +:+ (if rejoined then " to play again" else ""));
                run addHistoryEach (Some "player-left") grp hs;
                do g' <- get;
                run when (onlyAiLeft g') destroyGame;
                emitState) g1 = (inr tt, g2)
               /\ state g2 = bare DESTROYED /\ conns g2 = [] /\ proxies g2 = []).
  { intros hs nm g1 Hg1. unfold nextAdhocHistGroup. go.
    match goal with
    | |- context [addHistoryEach ?t ?grp hs ?g0] =>
        pose proof (addHistoryEach_keeps_conns t grp hs g0) as Hc;
        assert (Hret : fst (addHistoryEach t grp hs g0) = inr tt)
          by apply addHistoryEach_returns;
        destruct (addHistoryEach t grp hs g0) as [res g3]; simpl in Hc, Hret; subst res
    end.
    go. unfold onlyAiLeft in *. rewrite Hc. simpl. rewrite Hg1.
    unfold destroyGame. go. rewrite emitState_run.
    eexists. split; [reflexivity|]. simpl. repeat split. }
  unfold playerLeft. rewrite bind_get. cbv beta.
  rewrite bind_run, (proj2 (Nat.leb_gt _ _) Hlt), throwIf_false. cbv beta iota.
  rewrite Hp, bind_run, connAt_run, at_js_idx, Hcn. cbn [mjoin option_join]. cbv beta iota.
  rewrite bind_run.
  match goal with
  | |- context [(if ?b then ?m1 else ?m2) g] =>
      assert (Hbranch : onlyAiLeft (snd ((if b then m1 else m2) g)) = true);
      [|assert (Hret : name (state g) = WAITING_FOR_PLAYERS \/ isObserver p = true
                       \/ name (state g) = GAME_WON ->
                       exists hs, fst ((if b then m1 else m2) g) = inr hs);
        [|destruct ((if b then m1 else m2) g) as [[e|hs] g1]]]
  end.
  - destruct (_ || _).
    + rewrite bind_run. unfold modify at 1. cbv beta iota.
      rewrite bind_run. unfold modify at 1. cbv beta iota.
      match goal with
      | |- context [bind ?m ?k (set_conns ?f ?g0)] =>
          assert (Hk : keeps conns (bind m k))
            by (pose proof rewireLoop_keeps_conns; conns_auto);
          unfold onlyAiLeft in *; rewrite (Hk (set_conns f g0))
      end.
      exact Hdel.
    + rewrite bind_run. unfold modify at 1. cbv beta iota.
      match goal with
      | |- context [?m (set_conns ?f g)] =>
          assert (Hk : keeps conns m)
            by (pose proof checkForGameEnd_keeps_conns; pose proof nextTurn_keeps_conns;
                pose proof (allow_keeps_conns actions); conns_auto);
          unfold onlyAiLeft in *; rewrite (Hk (set_conns f g))
      end.
      exact Hnull.
  - intros Hcase.
    destruct (StateName_eqb (name (state g)) WAITING_FOR_PLAYERS || isObserver p) eqn:Hcond.
    + go.
      match goal with
      | |- context [rewireLoop ?k ?g0] =>
          pose proof (rewireLoop_returns k g0) as Hr;
          destruct (rewireLoop k g0) as [res g3]; simpl in Hr; subst res
      end.
      eexists. reflexivity.
    + destruct Hcase as [Hw|[Ho|Hw]].
      * rewrite Hw in Hcond. discriminate.
      * rewrite Ho, orb_true_r in Hcond. discriminate.
      * rewrite Hw. go. eexists. reflexivity.
  - split.
    + intros Hcase. destruct (Hret Hcase) as (hs & Hhs). discriminate.
    + discriminate.
  - simpl in Hbranch. destruct (Htail hs (pname p) g1 Hbranch) as (g2 & Hrun2 & H).
    cbv beta iota. rewrite Hrun2. split; [reflexivity|]. intros _. exact H.
Qed.

End Leaving.

(** *** The theorems above at concrete games *)

Lemma reachable_exchangeOpen : reachable standardActions someEpithets robot exchangeOpen.
Proof.
  apply orderly_reachable.
  unfold exchangeOpen, exchangeClaimed, game2, lobby2, send, join. orderly_run.
Qed.

Lemma block_claim_witness :
  exists g', command standardActions someEpithets robot 2
               (withBlockingRole "ambassador" (payload 8 "block")) finalResponse
             = (inr tt, g')
             /\ name (state g') = BLOCK_RESPONSE
             /\ playerIdx (state g') = playerIdx (state finalResponse)
             /\ action (state g') = action (state finalResponse)
             /\ target (state g') = idx 2
             /\ blockingRole (state g') = Some "ambassador"
             /\ allows g' = [2]
             /\ players g' = players finalResponse /\ deck g' = deck finalResponse
             /\ stateId g' = S (stateId finalResponse).
Proof.
  eapply (block_claim standardActions someEpithets robot 2
            (withBlockingRole "ambassador" (payload 8 "block")) finalResponse).
  - vm_compute. reflexivity.
  - vm_compute. discriminate.
  - reflexivity.
  - reflexivity.
  - right. reflexivity.
  - vm_compute. reflexivity.
  - vm_compute. discriminate.
  - reflexivity.
  - reflexivity.
  - discriminate.
  - vm_compute. tauto.
  - vm_compute. tauto.
Defined.

Lemma answer_refused_witness :
  exists e, command standardActions someEpithets robot 2
              (withBlockingRole "duke" (payload 8 "block")) finalResponse
            = (inl e, finalResponse).
Proof.
  apply answer_refused. left. split; [reflexivity|]. right.
  exists (mkAction 0 None (Some ["captain"]) true
            (Some ["captain"; "ambassador"; "inquisitor"])).
  split; [reflexivity|]. right. right. right.
  exists ["captain"; "ambassador"; "inquisitor"]. split; [reflexivity|].
  vm_compute. intros [H|[H|[H|H]]]; try discriminate H; exact H.
Defined.

Lemma exchange_gives_chosen_witness :
  exists g' p',
    command standardActions someEpithets robot 0
      (withRoles ["contessa"; "duke"] (payload 6 "exchange")) exchangeOpen = (inr tt, g')
    /\ players g' !! 0 = Some p'
    /\ getInfluence p' = rev [Some "contessa"; Some "duke"]
    /\ (forall k s,
           influence (mkPlayerState "alice" 2 2 [mkInfluence (Some "ambassador") false;
                                                 mkInfluence (Some "contessa") false]
                                    false false) !! k = Some s ->
           revealed s = true -> influence p' !! k = Some s)
    /\ cash p' = 2%Z /\ influenceCount p' = 2%Z
    /\ (forall j, j <> 0 -> players g' !! j = players exchangeOpen !! j)
    /\ deck g' ≡ₚ deck exchangeOpen ++ [Some "ambassador"; Some "ambassador"]
    /\ name (state g') = START_OF_TURN
    /\ exchangeOptions (state g') = []
    /\ stateId g' = S (stateId exchangeOpen).
Proof.
  apply (exchange_gives_chosen standardActions someEpithets robot 0
           (withRoles ["contessa"; "duke"] (payload 6 "exchange")) exchangeOpen
           (mkPlayerState "alice" 2 2 [mkInfluence (Some "ambassador") false;
                                       mkInfluence (Some "contessa") false] false false)
           [Some "contessa"; Some "duke"] [Some "ambassador"; Some "ambassador"]).
  - exact reachable_exchangeOpen.
  - reflexivity.
  - reflexivity.
  - reflexivity.
  - reflexivity.
  - reflexivity.
  - reflexivity.
  - reflexivity.
  - reflexivity.
Defined.

Lemma reachable_lobby2 : reachable standardActions someEpithets robot lobby2.
Proof. apply orderly_reachable. unfold lobby2, join. orderly_run. Qed.

Lemma start_deals_witness :
  exists g', command standardActions someEpithets robot 0 (payload 3 "start") lobby2
             = (inr tt, g')
             /\ handCards g' ++ deck g' ≡ₚ threeOfEach (roles g')
             /\ length (roles g') = 5
             /\ length (players g') = length (players lobby2)
             /\ name (state g') = START_OF_TURN.
Proof.
  apply (start_deals standardActions someEpithets robot 0 (payload 3 "start") lobby2).
  - exact reachable_lobby2.
  - reflexivity.
  - vm_compute. eauto.
  - reflexivity.
  - reflexivity.
  - vm_compute. lia.
Defined.

Lemma allow_recorded_or_played_witness :
  command standardActions someEpithets robot 0 (payload 6 "allow") taxClaimed3
  = (inr tt, set_allows (cons 0) taxClaimed3).
Proof.
  refine (proj1 (allow_recorded_or_played standardActions someEpithets robot 0 1
                   (payload 6 "allow") taxClaimed3
                   (mkPlayerState "alice" 2 2 [mkInfluence (Some "ambassador") false;
                                               mkInfluence (Some "contessa") false]
                                  false false)
                   _ _ _ _ _ _ _ _) _).
  - reflexivity.
  - reflexivity.
  - reflexivity.
  - lia.
  - reflexivity.
  - simpl. lia.
  - reflexivity.
  - reflexivity.
  - exists 2, (mkPlayerState "carol" 2 2 [mkInfluence (Some "duke") false;
                                          mkInfluence (Some "ambassador") false] false false).
    split; [lia|]. split; [reflexivity|]. split; [simpl; lia|reflexivity].
Defined.

Lemma bluff_called_witness :
  exists g', command standardActions someEpithets robot 0 (payload 8 "challenge") taxClaimed
             = (inr tt, g')
             /\ name (state g') = REVEAL_INFLUENCE
             /\ playerToReveal (state g') = idx 1
             /\ reason (state g') = Some "successful-challenge"
             /\ playerIdx (state g') = idx 1
             /\ action (state g') = action (state taxClaimed)
             /\ target (state g') = target (state taxClaimed)
             /\ players g' = players taxClaimed /\ deck g' = deck taxClaimed
             /\ stateId g' = S (stateId taxClaimed).
Proof.
  apply (bluff_called standardActions someEpithets robot 0 1 (payload 8 "challenge") taxClaimed
           (mkPlayerState "alice" 2 2 [mkInfluence (Some "duke") false;
                                       mkInfluence (Some "contessa") false] false false)
           (mkPlayerState "bob" 2 2 [mkInfluence (Some "assassin") false;
                                     mkInfluence (Some "captain") false] false false)
           (mkAction 0 (Some 3%Z) (Some ["duke"]) false None) ["duke"]).
  - reflexivity.
  - reflexivity.
  - lia.
  - reflexivity.
  - simpl. lia.
  - reflexivity.
  - reflexivity.
  - reflexivity.
  - reflexivity.
  - reflexivity.
  - reflexivity.
  - simpl. lia.
Defined.

Lemma challenge_lost_witness :
  exists g' drawn,
    command standardActions someEpithets robot 0 (payload 6 "challenge") stealClaimed3
    = (inr tt, g')
    /\ players g' = alter (withInfluence (alter (setRole drawn) 1)) 1 (players stealClaimed3)
    /\ drawn :: deck g' ≡ₚ getGameRole stealClaimed3 ["captain"] :: deck stealClaimed3
    /\ name (state g') = REVEAL_INFLUENCE
    /\ playerToReveal (state g') = idx 0
    /\ reason (state g') = Some "incorrect-challenge"
    /\ playerIdx (state g') = idx 1
    /\ action (state g') = action (state stealClaimed3)
    /\ target (state g') = target (state stealClaimed3)
    /\ stateId g' = S (stateId stealClaimed3).
Proof.
  apply (challenge_lost standardActions someEpithets robot 0 1 1 (payload 6 "challenge")
           stealClaimed3
           (mkPlayerState "alice" 2 2 [mkInfluence (Some "ambassador") false;
                                       mkInfluence (Some "contessa") false] false false)
           (mkPlayerState "bob" 2 2 [mkInfluence (Some "assassin") false;
                                     mkInfluence (Some "captain") false] false false)
           (mkAction 0 None (Some ["captain"]) true
              (Some ["captain"; "ambassador"; "inquisitor"])) ["captain"]).
  - reflexivity.
  - reflexivity.
  - lia.
  - reflexivity.
  - simpl. lia.
  - reflexivity.
  - reflexivity.
  - reflexivity.
  - reflexivity.
  - reflexivity.
  - reflexivity.
Defined.

Lemma coup_forces_reveal_witness :
  exists g', command standardActions someEpithets robot 0
               (withAction "coup" (JNum 1) (payload 7 "play-action")) coupReady
             = (inr tt, g')
             /\ name (state g') = REVEAL_INFLUENCE
             /\ playerToReveal (state g') = idx 1
             /\ reason (state g') = Some "coup"
             /\ playerIdx (state g') = idx 0
             /\ players g' !! 0
                = Some (withCash (fun x => x - 7 + default 0 None)%Z
                          (mkPlayerState "alice" 7 2 [mkInfluence (Some "duke") false;
                                                      mkInfluence (Some "captain") false]
                                         false false))
             /\ (forall j, j <> 0 -> players g' !! j = players coupReady !! j)
             /\ deck g' = deck coupReady
             /\ stateId g' = S (stateId coupReady).
Proof.
  apply (coup_forces_reveal standardActions someEpithets robot 0 1
           (withAction "coup" (JNum 1) (payload 7 "play-action")) coupReady
           (mkPlayerState "alice" 7 2 [mkInfluence (Some "duke") false;
                                       mkInfluence (Some "captain") false] false false)
           (mkPlayerState "bob" 2 2 [mkInfluence (Some "duke") false;
                                     mkInfluence (Some "assassin") false] false false)
           (mkAction 7 None None true None)).
  - reflexivity.
  - reflexivity.
  - reflexivity.
  - reflexivity.
  - reflexivity.
  - reflexivity.
  - reflexivity.
  - reflexivity.
  - reflexivity.
  - reflexivity.
  - simpl. lia.
  - reflexivity.
  - simpl. lia.
  - lia.
  - reflexivity.
  - simpl. lia.
Defined.

Lemma last_human_leaves_witness :
  fst (playerLeft standardActions 0 false lobbyWithAi) = inr tt
  /\ state (snd (playerLeft standardActions 0 false lobbyWithAi)) = bare DESTROYED
  /\ conns (snd (playerLeft standardActions 0 false lobbyWithAi)) = []
  /\ proxies (snd (playerLeft standardActions 0 false lobbyWithAi)) = [].
Proof.
  destruct (last_human_leaves standardActions 0 false lobbyWithAi
              (mkPlayerState "alice" 2 2 [notDealt; notDealt] false false)
              (human "alice")) as [Hreturns Hdestroyed].
  - vm_compute. lia.
  - reflexivity.
  - reflexivity.
  - intros [|[|j]] c' Hne Hc'; [contradiction| |discriminate].
    injection Hc' as <-. reflexivity.
  - split; [apply Hreturns; left; reflexivity|].
    apply Hdestroyed, Hreturns. left. reflexivity.
Defined.
